(* ===== verification/_CoqProject ===== *)
-Q . S2P
Prelude.v
GoStrings.v
PriorityQueue.v
GoHash.v
Account.v
Bloom.v
Block.v
Utils.v
CsvWrite.v
Config.v
MsgPool.v
ConsensusMeta.v
Progress.v
TxPool.v
StateDB.v
TxExecute.v
ContractExec.v
Storage.v
Chain.v
Float64.v
Partition.v
TxSource.v
ContractGen.v
Dataset.v
Network.v
Transport.v
P2P.v
Startup.v
Migration.v
TxBlockOp.v
ShardOp.v
RelayFlow.v
Node.v
Broker.v
Committee.v
Solvency.v
Books.v
BrokerFlow.v
Stats.v
RelayStats.v
BrokerStats.v
Supervisor.v
Programs.v
