(* ===== verification/Prelude.v ===== *)
(** * BlockEmulator-X: a verification development in Rocq

    BlockEmulator-X runs a sharded blockchain.  Every shard is a group of
    consensus nodes that agree on its blocks with PBFT; a supervisor injects the
    transactions, watches the blocks, repartitions the accounts and measures.
    An experiment is in one of four modes: accounts stay in their shards
    ("static") or are moved by the CLPA partitioning algorithm, and a transaction
    between two shards is carried out in two halves by the shards themselves
    ("relay") or by accounts with money in every shard ("broker").

    ** How the parts work together

    The supervisor reads transactions from a source, sorts them by the shard of
    their sender and sends them to the leaders of the shards.  A node puts them
    in its pool.  The leader of a shard packs a block from the pool, or, when an
    epoch starts, a block of migrated account states, and proposes it; the nodes
    vote in two rounds and add the block to their chains, which execute it on a
    state database.  The leader sends the other halves of relay transactions to
    their shards and reports the block to the supervisor.  The supervisor
    confirms the halves of broker transactions, counts empty blocks to know when
    to stop, and with CLPA starts an epoch when the last one has run long enough
    and all shards have entered it.

    ** Files

    Shared:
    - Prelude.v: results of Go calls ([result]: a value, an error, a panic),
      calls on the state of an object ([M]), loops, slices, machine integers,
      record update, and the lemmas about them;
    - GoHash.v: SHA-256, SHA-512 and SHA-1; Float64.v: float64 and durations;
    - GoStrings.v: the functions of Go's strings package the program calls.

    Data: Account.v (pkg/core/account, pkg/core/transaction), Bloom.v
    (pkg/core/bloom), Block.v (pkg/core/block, pkg/message), Config.v (config/),
    Utils.v (pkg/utils), CsvWrite.v (pkg/csvwrite).

    Consensus: PriorityQueue.v and MsgPool.v (consensus/pbft/basicstructs),
    ConsensusMeta.v (consensus/pbft/pbftmeta.go), Progress.v (what its state
    machine does when its messages are there, and how that breaks agreement when
    the number of nodes is not 3f+1).

    Chain: TxPool.v (pkg/core/txpool), StateDB.v (the interface of go-ethereum's
    state database), TxExecute.v (pkg/vm, pkg/chain/txexecute.go and stateio.go),
    ContractExec.v (pkg/contractexec), Storage.v (pkg/storage), Chain.v
    (pkg/chain/chain.go).

    Node: Partition.v (pkg/partition), Network.v (pkg/nodetopo, pkg/network,
    pkg/message/senderfunc.go), Migration.v (consensus/pbft/migration),
    TxBlockOp.v (consensus/pbft/insideop/txblockop), ShardOp.v (the rest of
    consensus/pbft/insideop, and outsideop), RelayFlow.v (the leaders of all the
    shards and the packets between them, in the static relay mode), Node.v
    (consensus/pbft/node.go).

    Network: Transport.v (pkg/network/clientconnrpc: the connection over gRPC),
    P2P.v (pkg/network/connlibp2p: the connection over libp2p and the directory
    of peers), Startup.v (config/config.go and cmd/loadnetwork: configuration,
    topology and readiness of a node that starts, and the choice of its network).

    Supervisor: TxSource.v (supervisor/txsource), Broker.v (pkg/broker),
    Committee.v (supervisor/committee), Solvency.v (an invariant
    of its static broker committee), Books.v and BrokerFlow.v (the committee, the
    leaders of all the shards and the messages between them, in the static broker
    mode), Stats.v, RelayStats.v and BrokerStats.v
    (supervisor/measure), Supervisor.v (supervisor/supervisor.go).

    Programs: Programs.v (cmd/consensusnode and cmd/supervisor, from the flags and
    the configuration file to the loops of Node.v and Supervisor.v).

    Data sets: ContractGen.v (cmd/generatecontracttxfile, the tool that turns a
    scenario of deployments and calls into a data set) and Dataset.v (what it
    promises, and its composition with the source that reads the data set).

    ** How the code is modelled

    A method is a function from the object's state to a result and the state it
    leaves, whatever it returns.  Errors keep the constant text of the source's
    messages.  A panic (an index out of range, a nil pointer, a modulo by zero)
    is a value of its own and ends the call.  An [int64] is a Z with its
    wrap-around where a sum can overflow; [float64] is binary64.

    Goroutines: the state of a node and of the supervisor belongs to one
    goroutine each, and the pool, the chain and the message buffer are guarded
    by a mutex, so a run is a sequence of calls.  A run of a node or of the
    supervisor is a list of ticks with the messages that arrived before each,
    so the theorems hold for every schedule of the messages.  What several
    goroutines of one call send is one group of outbox entries.

    Nondeterminism is an argument: the clock, random choices, and the order in
    which Go visits a map (the theorems hold for every order).

    Code outside the repository is a class of operations with laws where a
    theorem needs them, and an instance that satisfies them: the bit set
    (Bloom.v, [ListBitSet]), the state database and EVM (StateDB.v,
    [MapStateDB]), bbolt and the trie database (Storage.v, [MapStores]),
    encoding/csv and files (CsvWrite.v, [CsvDemo]), gob and RLP (Block.v,
    Account.v; the only law is that decoding inverts encoding), solc, ABI and
    addresses (ContractGen.v, [GenDemo]; the law is the text of an address),
    libp2p, protobuf and JSON (P2P.v, [P2PDemo]).  The theorems about nodes and
    the supervisor start from an ideal connection (the outbox and buffer of
    Network.v); Transport.v shows how far the gRPC connection is one, for every run
    that respects what gRPC documents of unary calls ([grpc_laws]).

    Fuel: loops of the source are structural or bounded.  [step2NextStage] runs
    with three turns, which [step2NextStage_total] shows to be enough; the
    packing loops take one more turn than the pool has transactions
    ([pack_loop_total]); CLPA's passes are bounded by its own iteration limit;
    only the random source draws a receiver until it differs from the sender,
    and there the fuel is an argument.

    ** What the theorems show

    - Agreement.  A node's chain grows only by blocks that a quorum committed or
      that the leader sent to a node that had fallen behind
      ([node_chain_certified]); with 3f+1 nodes of
      which f are faulty, no two honest nodes commit different digests
      ([commit_agreement]), and with any other number of
      nodes from 5 on they can ([commit_split]); when the votes are there the round ends
      ([round_progress]).  A message a node cannot take is refused and changes nothing, except that the
      stop message is obeyed whatever its payload ([handlers_refuse]).
    - Money.  A static relay system as a whole conserves it, whatever the order of
      its messages, proposals and commits ([relay_system_conserves]).  So does a
      static broker system, from the source to the confirmations, and its brokers
      hold in every shard what they have to pay there ([broker_system_sound]);
      the execution of a second half does not test it ([broker2_overdraft]), but
      the committee that creates it has reserved the money
      ([static_broker_solvent] in Solvency.v).  The two
      halves of a relay or broker transaction conserve balances
      ([relay_conservation], [broker_pair_conservation]), a transfer moves the
      amount or nothing ([normalTxExecute_transfer]), and a migrated account
      arrives as it left ([migrated_state_roundtrip]).
    - Blocks.  What a leader builds is what the others validate
      ([ValidateBlock_GenerateBlock]) and adding it gives the state it announced
      ([AddBlock_generated], [AddBlock_locations]); the block store does what its
      interface says ([BoltStore_AddBlock_contract]), and batches of contract
      transactions refine a world that the state database finalises between them:
      code, storage, balances and nonces of all that was not destroyed stand
      ([contract_exec_refines]).
    - No transaction is lost: in the pool ([TxPool_fifo]), in the sorting of
      dynamic sharding ([packValidTxs_conserves], [migrateTxs_conserves]) and in
      the broker manager, where each goes through its four stages once
      ([manager_lifecycle]).  A batch whose block cannot be built is lost: the
      lost part of [relay_system_conserves].
    - Epochs.  Migration messages may arrive in any order
      ([migration_order_independent]); CLPA terminates with a location for every
      account and never empties a shard ([CLPAPartition_spec],
      [clpa_reachable_total]); no transaction is sent while a shard has not
      entered the epoch, and a new one is announced to every leader with exactly
      the accounts that moved ([clpa_epoch_barrier]).
    - The experiment.  Every transaction read is sent to the shard of its sender
      ([static_relay_injects]); the supervisor stops when nothing
      is left and tells every node ([supervisor_stops_when_done]), which from the
      command line on means exactly the configured nodes that have a host in the
      table
      ([supervisor_program_stops]); what it
      measures does not depend on the order in which shards report
      ([relay_pair_order_free], [broker_summary_order_free]).
    - Messages.  Over gRPC every message arrives at most once, a send that
      reported no error did arrive, and what was accepted keeps its order; a call
      that failed may arrive at any later time ([rpc_group_fifo]).  The libp2p
      directory is authentic and everybody who has it has the same topology
      ([directory_agreement]); a node that found its topology complete has an
      authenticated peer for every node of every shard ([ready_directory]); with
      a table of hosts, topology and connection agree
      ([direct_network_in_range]).
    - Data sets.  The scenario parser is total and reads exactly what the lines
      declare ([parse_total_typed]); the generator refines a ledger of deployments, in
      which nonces count a sender's deployments and calls go to deployed
      contracts ([generator_refines_ledger]); the CSV source reads the data set
      back as one transaction per step, unless it excludes contract transactions,
      which all of them are ([generated_dataset_read]).
    - Termination: [step2NextStage_total], [CLPAPartition_spec].  Also
      [bloom_no_false_negative]; [PackTxs_byte_all_or_nothing] shows what the
      byte limit of the pool really does.  The files hold further theorems on
      their components ([relay_commit_delivers], [MsgPool_reads], [csv_chunks], [Hex2Bytes_roundtrip],
      [random_ReadTxs_spec], [bootstrap_key_stable], [libp2p_network_ready] and others).

    Each theorem with hypotheses is applied to a concrete input by a lemma of
    the same name with the suffix _witness.

    ** Not modelled

    - Opening sockets, creating libp2p hosts, mDNS, and the generated RPC code:
      sequences of third-party calls.
    - Logging, the profiler's server, the retry loop around registration,
      opening and closing of files and databases: I/O.
    - View change: the source names its two stages and never enters them.
    - The dynamic modes are modelled and proved part by part; only the static modes
      are composed into one system. *)

From stdpp Require Export base list gmap strings sorting.
From Stdlib Require Export ZArith.
From Stdlib Require Import Lia.

#[global] Set Default Proof Using "Type".

(** ** Go results

    A Go call returns a value, returns a non-nil [error], or panics (an index
    out of range, a nil dereference, a division by zero).  Errors are kept as
    the constant text of the source's [fmt.Errorf] / [errors.New] call. *)

Declare Scope go_scope.
Delimit Scope go_scope with go.

Definition error := string.

Inductive result (A : Type) : Type :=
| Ok (a : A)
| Err (e : error)
| Panic.
Arguments Ok {A} _.
Arguments Err {A} _.
Arguments Panic {A}.

Definition rbind {A B} (r : result A) (k : A → result B) : result B :=
  match r with
  | Ok a => k a
  | Err e => Err e
  | Panic => Panic
  end.

(** [fmt.Errorf("msg: %w", err)] on the error branch of a call. *)
Definition wrap_err {A} (msg : string) (r : result A) : result A :=
  match r with
  | Ok a => Ok a
  | Err e => Err (msg +:+ ": " +:+ e)
  | Panic => Panic
  end.

Definition is_ok {A} (r : result A) : bool :=
  match r with Ok _ => true | _ => false end.

Definition is_panic {A} (r : result A) : bool :=
  match r with Panic => true | _ => false end.

(** An option read as "present, else panic" (an index, a pointer). *)
Definition or_panic {A} (o : option A) : result A :=
  match o with Some a => Ok a | None => Panic end.

Notation "'let*' x ':=' r 'in' k" := (rbind r (λ x, k))
  (at level 10, x binder, r at level 100, k at level 200) : go_scope.
Notation "'let*' ' p ':=' r 'in' k" := (rbind r (λ x, match x with p => k end))
  (at level 10, p strict pattern, r at level 100, k at level 200) : go_scope.

Open Scope go_scope.

(** The value of a call that is known to succeed. *)
Definition force {A} (d : A) (r : result A) : A := match r with Ok a => a | _ => d end.
Lemma force_ok {A} (d : A) r : is_ok r = true → r = Ok (force d r).
Proof. by destruct r. Qed.

Lemma rbind_ok {A B} (r : result A) (k : A → result B) b :
  rbind r k = Ok b ↔ ∃ a, r = Ok a ∧ k a = Ok b.
Proof. destruct r; naive_solver. Qed.

Lemma wrap_err_ok {A} msg (r : result A) a : wrap_err msg r = Ok a ↔ r = Ok a.
Proof. by destruct r. Qed.

Lemma or_panic_ok {A} (o : option A) a : or_panic o = Ok a ↔ o = Some a.
Proof. destruct o; naive_solver. Qed.

(** ** Stateful Go calls

    A method of a Go object runs on the object's state and leaves a state
    behind whatever it returns: an error return keeps the mutations made
    before it. *)

Definition M (S A : Type) : Type := S → result A * S.

Definition st_ret {S A} (a : A) : M S A := λ s, (Ok a, s).
Definition st_fail {S A} (e : error) : M S A := λ s, (Err e, s).
Definition st_get {S} : M S S := λ s, (Ok s, s).
Definition st_put {S} (s : S) : M S unit := λ _, (Ok tt, s).
Definition st_modify {S} (f : S → S) : M S unit := λ s, (Ok tt, f s).
Definition st_lift {S A} (r : result A) : M S A := λ s, (r, s).

Definition st_bind {S A B} (m : M S A) (k : A → M S B) : M S B := λ s,
  match m s with
  | (Ok a, s') => k a s'
  | (Err e, s') => (Err e, s')
  | (Panic, s') => (Panic, s')
  end.

Definition st_wrap {S A} (msg : string) (m : M S A) : M S A := λ s,
  let '(r, s') := m s in (wrap_err msg r, s').

(** An error of a call that is only logged. *)
Definition log_error {S} (m : M S unit) : M S unit := λ s,
  match m s with (Err _, s') => (Ok tt, s') | x => x end.

(** Run a call on a part of the state. *)
Definition st_zoom {S T A} (get : S → T) (put : T → S → S) (m : M T A) : M S A := λ s,
  let '(r, t) := m (get s) in (r, put t s).

Lemma run_fst {S A} (m : M S A) s r : (m s).1 = r → m s = (r, (m s).2).
Proof. intros <-. apply surjective_pairing. Qed.

Notation "'let!' x ':=' m 'in' k" := (st_bind m (λ x, k))
  (at level 10, x binder, m at level 100, k at level 200) : go_scope.
Notation "m ';;!' k" := (st_bind m (λ _, k))
  (at level 100, k at level 200, right associativity) : go_scope.

Lemma st_bind_ok {S A B} (m : M S A) (k : A → M S B) s r s' :
  st_bind m k s = (Ok r, s') → ∃ a s1, m s = (Ok a, s1) ∧ k a s1 = (Ok r, s').
Proof. unfold st_bind. destruct (m s) as [[a|e|] s1]; naive_solver. Qed.

Lemma st_wrap_ok {S A} msg (m : M S A) s r s' : st_wrap msg m s = (Ok r, s') → m s = (Ok r, s').
Proof. unfold st_wrap. destruct (m s) as [[a|e|] s1]; naive_solver. Qed.

Lemma st_zoom_ok {S T A} (get : S → T) (put : T → S → S) (m : M T A) s r s' :
  st_zoom get put m s = (r, s') → ∃ t, m (get s) = (r, t) ∧ s' = put t s.
Proof. unfold st_zoom. destruct (m (get s)) as [r0 t]. intros [= <- <-]. by exists t. Qed.

Lemma log_error_ok {S} (m : M S unit) s r s' : log_error m s = (r, s') →
  (m s).2 = s' ∧ (r = Panic ↔ (m s).1 = Panic) ∧ (r = Ok tt ∨ r = Panic).
Proof. unfold log_error. destruct (m s) as [[[]|e|] s1]; naive_solver. Qed.

Lemma st_lift_ok {S A} (r : result A) (s s' : S) x : st_lift r s = (x, s') → r = x ∧ s' = s.
Proof. by intros [= <- <-]. Qed.

(** [for _, x := range l { body }] with a body that may fail. *)
Fixpoint st_for {S A} (body : A → M S unit) (l : list A) : M S unit :=
  match l with
  | [] => st_ret tt
  | x :: l' => body x ;;! st_for body l'
  end.

(** A [for] loop whose body continues with a new loop state ([inl]) or stops
    ([inr]); None when the fuel runs out. *)
Fixpoint st_iter {S A B} (body : A → M S (A + B)) (fuel : nat) (a : A) : M S (option B) :=
  match fuel with
  | O => st_ret None
  | S fuel' =>
    let! r := body a in
    match r with
    | inl a' => st_iter body fuel' a'
    | inr b => st_ret (Some b)
    end
  end.

(** A body that decreases a measure of the state whenever it continues: more fuel
    than the measure is enough, and how much more does not matter. *)
Lemma st_iter_total {S A B} (body : A → M S (A + B)) (m : S → nat) (I : S → Prop) :
  (∀ a s a' s', I s → body a s = (Ok (inl a'), s') → I s' ∧ (m s' < m s)%nat) →
  ∀ fuel a s, I s → (m s < fuel)%nat → (st_iter body fuel a s).1 ≠ Ok None ∧
    ∀ fuel', (m s < fuel')%nat → st_iter body fuel' a s = st_iter body fuel a s.
Proof.
  intros Hb. induction fuel as [|fuel IH]; intros a s Hi Hf; [lia|]. cbn.
  unfold st_bind. destruct (body a s) as [[[a'|b]|e|] s'] eqn:E.
  - destruct (Hb a s a' s' Hi E) as [Hi' Hm]. destruct (IH a' s') as [H1 H2]; [done|lia|].
    split; [done|]. intros [|fuel'] Hf'; [lia|]. cbn. unfold st_bind. rewrite E. apply H2. lia.
  - split; [done|]. intros [|fuel'] Hf'; [lia|]. cbn. unfold st_bind. by rewrite E.
  - split; [done|]. intros [|fuel'] Hf'; [lia|]. cbn. unfold st_bind. by rewrite E.
  - split; [done|]. intros [|fuel'] Hf'; [lia|]. cbn. unfold st_bind. by rewrite E.
Qed.

Lemma st_iter_inv {S A B} (body : A → M S (A + B)) (P : A → S → Prop) :
  (∀ a s a' s', P a s → body a s = (Ok (inl a'), s') → P a' s') →
  ∀ fuel a s b s', P a s → st_iter body fuel a s = (Ok (Some b), s') →
  ∃ a1 s1, P a1 s1 ∧ body a1 s1 = (Ok (inr b), s').
Proof.
  intros Hb. induction fuel as [|fuel IH]; intros a s b s' Ha; cbn; [done|].
  unfold st_bind. destruct (body a s) as [[[a'|b']|e|] s1] eqn:E; intros H; try done.
  - eapply IH; [|exact H]. by eapply Hb.
  - injection H as <- <-. by exists a, s.
Qed.

(** ** Calls that preserve a property of the state, whatever they return *)

Definition preserves {S A} (P : S → Prop) (m : M S A) : Prop :=
  ∀ s r s', P s → m s = (r, s') → P s'.

Section preserves.
  Context {S : Type} (P : S → Prop).

Lemma pres_ret {A} (a : A) : preserves P (st_ret a).
Proof. by intros s r s' Hs [= _ <-]. Qed.
Lemma pres_fail {A} e : preserves P (st_fail (A := A) e).
Proof. by intros s r s' Hs [= _ <-]. Qed.
Lemma pres_get : preserves P st_get.
Proof. by intros s r s' Hs [= _ <-]. Qed.
Lemma pres_lift {A} (x : result A) : preserves P (st_lift x).
Proof. by intros s r s' Hs [= _ <-]. Qed.
Lemma pres_wrap {A} msg (m : M S A) : preserves P m → preserves P (st_wrap msg m).
Proof.
  intros Hm s r s' Hs. unfold st_wrap. destruct (m s) as [x s1] eqn:E. intros [= _ <-]. by eapply Hm.
Qed.
Lemma pres_bind {A B} (m : M S A) (k : A → M S B) :
  preserves P m → (∀ a, preserves P (k a)) → preserves P (st_bind m k).
Proof.
  intros Hm Hk s r s' Hs. unfold st_bind. destruct (m s) as [[a|e|] s1] eqn:E.
  - intros H. eapply Hk; [|exact H]. by eapply Hm.
  - intros [= _ <-]. by eapply Hm.
  - intros [= _ <-]. by eapply Hm.
Qed.
(** The continuation may use what the first call returned. *)
Lemma pres_lift_bind {A B} msg (x : result A) (k : A → M S B) :
  (∀ a, x = Ok a → preserves P (k a)) → preserves P (st_bind (st_wrap msg (st_lift x)) k).
Proof. intros Hk s r s' Hs. destruct x as [a|e|]; cbn; [by apply Hk | by intros [= _ <-]..]. Qed.
Lemma pres_get_bind {B} (k : S → M S B) : (∀ s, P s → preserves P (k s)) → preserves P (st_bind st_get k).
Proof. intros Hk s r s' Hs. cbn. by apply Hk. Qed.
Lemma pres_for {A} (body : A → M S unit) l : (∀ x, x ∈ l → preserves P (body x)) → preserves P (st_for body l).
Proof.
  induction l as [|x l IH]; intros Hb; cbn; [apply pres_ret|].
  apply pres_bind; [apply Hb; by left|]. intros _. apply IH. intros y Hy. apply Hb. by right.
Qed.
Lemma pres_iter {A B} (body : A → M S (A + B)) fuel a :
  (∀ a, preserves P (body a)) → preserves P (st_iter body fuel a).
Proof.
  intros Hb. revert a; induction fuel as [|fuel IH]; intros a; cbn; [apply pres_ret|].
  apply pres_bind; [apply Hb|]. intros [a'|b]; [apply IH | apply pres_ret].
Qed.
Lemma pres_modify (h : S → S) : (∀ s, P s → P (h s)) → preserves P (st_modify h).
Proof. intros Hh s r s' Hs [= _ <-]. by apply Hh. Qed.
Lemma pres_at {A} (m : S → M S A) : (∀ s, preserves P (m s)) → preserves P (λ s, m s s).
Proof. intros Hm s r s' Hs E. by eapply Hm. Qed.
Lemma pres_zoom {T A} (get : S → T) (put : T → S → S) (m : M T A) :
  (∀ s r t, P s → m (get s) = (r, t) → P (put t s)) → preserves P (st_zoom get put m).
Proof. intros Hm s r s' Hs (t & E & ->)%st_zoom_ok. by eapply Hm. Qed.
End preserves.

Create HintDb pres.
#[export] Hint Resolve pres_ret pres_fail pres_get pres_lift : pres.

(** Walk through a call; what is left are its calls on parts of the state. *)
Ltac pres_step :=
  first
  [ solve [eauto with pres nocore]
  | lazymatch goal with
    | |- preserves _ (st_iter _ _ _) => apply pres_iter; intros
    | |- preserves _ (st_for _ _) => apply pres_for; intros
    | |- preserves _ (st_wrap _ _) => apply pres_wrap
    | |- preserves _ (st_bind _ _) => apply pres_bind; [|intros]
    end
  | match goal with |- preserves _ (match ?x with _ => _ end) => destruct x end
  | match goal with |- preserves _ (λ _, match ?x with _ => _ end) => destruct x end ].
Ltac solve_pres := repeat pres_step.

(** A pure [range] loop with an accumulator and early error return. *)
Fixpoint rfold {A B} (body : B → A → result B) (acc : B) (l : list A) : result B :=
  match l with
  | [] => Ok acc
  | x :: l' => let* acc' := body acc x in rfold body acc' l'
  end.

Fixpoint rmap {A B} (f : A → result B) (l : list A) : result (list B) :=
  match l with
  | [] => Ok []
  | x :: l' => let* y := f x in let* ys := rmap f l' in Ok (y :: ys)
  end.

Lemma rmap_ok {A B} (f : A → result B) l ys :
  rmap f l = Ok ys ↔ Forall2 (λ x y, f x = Ok y) l ys.
Proof.
  revert ys; induction l as [|x l IH]; intros ys; cbn.
  - split; [intros [= <-]; constructor | by inversion 1].
  - rewrite rbind_ok; setoid_rewrite rbind_ok; split.
    + intros (y & Hy & ys' & Hys & [= <-]). constructor; [done | by apply IH].
    + inversion 1 as [|? y ? ys' Hy Hys]; subst. exists y; split; [done|].
      exists ys'; split; [by apply IH | done].
Qed.

(** A list of pairs with distinct keys is a function. *)
Lemma NoDup_fst_inj {A B} (l : list (A * B)) a b b' :
  NoDup l.*1 → (a, b) ∈ l → (a, b') ∈ l → b = b'.
Proof.
  induction l as [|[x y] l IH]; cbn; [by intros _ ?%not_elem_of_nil|].
  intros [Hx Hnd]%NoDup_cons. rewrite !elem_of_cons. intros [H1|H1] [H2|H2]; simplify_eq; try done.
  - destruct Hx. apply list_elem_of_fmap. by eexists (_, b').
  - destruct Hx. apply list_elem_of_fmap. by eexists (_, b).
  - by apply IH.
Qed.

Lemma filter_all {A} (P : A → Prop) `{!∀ x, Decision (P x)} l : Forall P l → filter P l = l.
Proof. induction 1 as [|x l Hx _ IH]; [done|]. by rewrite filter_cons_True, IH. Qed.

Lemma filter_none {A} (P : A → Prop) `{!∀ x, Decision (P x)} l :
  Forall (λ x, ¬ P x) l → filter P l = [].
Proof. induction 1 as [|x l Hx _ IH]; [done|]. by rewrite filter_cons_False, IH. Qed.

(** Sums over a list. *)
Definition sumZ {A} (h : A → Z) (l : list A) : Z := foldr (λ x acc, (h x + acc)%Z) 0%Z l.

Lemma sumZ_ext {A} (h h' : A → Z) l : (∀ x, x ∈ l → h' x = h x) → sumZ h' l = sumZ h l.
Proof.
  induction l as [|x l IH]; [done|]. intros H. change (h' x + sumZ h' l = h x + sumZ h l)%Z.
  rewrite H, IH; [done | intros; apply H; by right | by left].
Qed.

Lemma sumZ_update {A} (h h' : A → Z) (a : A) l :
  NoDup l → a ∈ l → (∀ x, x ≠ a → h' x = h x) →
  sumZ h' l = (sumZ h l + (h' a - h a))%Z.
Proof.
  induction l as [|x l IH]; [by intros _ ?%not_elem_of_nil|].
  intros [Hx Hnd]%NoDup_cons [->|Ha]%elem_of_cons H;
    change (h' x + sumZ h' l = h x + sumZ h l + (h' a - h a))%Z || change (h' x + sumZ h' l = h x + sumZ h l + (h' x - h x))%Z.
  - rewrite (sumZ_ext h h' l); [lia|]. intros y Hy. apply H. intros ->. done.
  - rewrite IH by done. rewrite (H x); [lia|]. intros ->. done.
Qed.

Lemma sumZ_add {A} (h h' : A → Z) l : sumZ (λ x, (h x + h' x)%Z) l = (sumZ h l + sumZ h' l)%Z.
Proof.
  induction l as [|x l IH]; [done|].
  change (h x + h' x + sumZ (λ x, h x + h' x) l = h x + sumZ h l + (h' x + sumZ h' l))%Z. lia.
Qed.

Lemma sumZ_permutation {A} (h : A → Z) l l' : l ≡ₚ l' → sumZ h l = sumZ h l'.
Proof. intros Hp. unfold sumZ. induction Hp; cbn in *; lia. Qed.

Lemma sumZ_app {A} (h : A → Z) l1 l2 : sumZ h (l1 ++ l2) = (sumZ h l1 + sumZ h l2)%Z.
Proof.
  induction l1 as [|x l1 IH]; [done|].
  change (h x + sumZ h (l1 ++ l2) = h x + sumZ h l1 + sumZ h l2)%Z. lia.
Qed.

Lemma sumZ_nonneg {A} (h : A → Z) l : Forall (λ x, 0 ≤ h x)%Z l → (0 ≤ sumZ h l)%Z.
Proof. induction 1 as [|x l Hx _ IH]; [done|]. change (0 ≤ h x + sumZ h l)%Z. lia. Qed.

Lemma sumZ_elem {A} (h : A → Z) l x : Forall (λ y, 0 ≤ h y)%Z l → x ∈ l → (h x ≤ sumZ h l)%Z.
Proof.
  induction 1 as [|y l Hy Hl IH]; [by intros ?%not_elem_of_nil|]. apply sumZ_nonneg in Hl.
  change (sumZ h (y :: l)) with (h y + sumZ h l)%Z.
  intros [->|Hx]%elem_of_cons; [lia|]. specialize (IH Hx). lia.
Qed.

Lemma sumZ_insert {A} (h : A → Z) l k x y : l !! k = Some x →
  sumZ h (<[k := y]> l) = (sumZ h l - h x + h y)%Z.
Proof.
  revert k; induction l as [|z l IH]; intros [|k]; [done..| |]; cbn [list_lookup lookup].
  - intros [= ->]. change (h y + sumZ h l = h x + sumZ h l - h x + h y)%Z. lia.
  - intros Hk. change (h z + sumZ h (<[k := y]> l) = h z + sumZ h l - h x + h y)%Z. rewrite IH by done. lia.
Qed.

(** A member in the middle, or at an index that is overwritten, of a flattened list. *)
Lemma flat_map_middle {A B} (f : A → list B) l1 x l2 : flat_map f (l1 ++ x :: l2) ≡ₚ f x ++ flat_map f (l1 ++ l2).
Proof. rewrite !flat_map_app. cbn. apply Permutation_app_swap_app. Qed.

Lemma flat_map_insert {A B} (f : A → list B) l k x : l !! k = Some x → ∃ rest,
  flat_map f l ≡ₚ f x ++ rest ∧ ∀ y, flat_map f (<[k := y]> l) ≡ₚ f y ++ rest.
Proof.
  intros Hk. exists (flat_map f (take k l ++ drop (S k) l)). split; [|intros y].
  - rewrite <- (take_drop_middle l k x Hk) at 1. apply flat_map_middle.
  - rewrite insert_take_drop by (by eapply lookup_lt_Some). apply flat_map_middle.
Qed.
(** A sum in which some terms, all zero, count [v] instead. *)

Lemma sumZ_reset {A} (h h' : A → Z) (P : A → bool) v l :
  (∀ x, P x = true → h x = 0 ∧ h' x = v)%Z → (∀ x, P x = false → h' x = h x) →
  sumZ h' l = (sumZ h l + v * Z.of_nat (length (filter P l)))%Z.
Proof.
  intros H1 H2. induction l as [|x l IH]; [cbn; lia|]. rewrite filter_cons.
  change (h' x + sumZ h' l = h x + sumZ h l + v * Z.of_nat (length (if decide (P x) then x :: filter P l else filter P l)))%Z.
  rewrite IH. destruct (P x) eqn:E.
  - destruct (H1 x E) as [-> ->]. rewrite decide_True by done. cbn [length]. lia.
  - rewrite (H2 x E). rewrite decide_False; [lia | by intros []].
Qed.

(** What a map holds after a list of insertions. *)
Lemma fold_insert_lookup {A B} `{Countable A} (l : list (A * B)) (m : gmap A B) a v :
  fold_left (λ m p, <[p.1 := p.2]> m) l m !! a = Some v → (a, v) ∈ l ∨ (m !! a = Some v ∧ a ∉ l.*1).
Proof.
  revert m; induction l as [|[k x] l IH]; intros m; cbn.
  - intros Hm. right. split; [done|]. apply not_elem_of_nil.
  - intros [Hin|[Hm Hn]]%IH; [left; by right|]. rewrite lookup_insert_Some in Hm.
    destruct Hm as [[-> ->]|[Hk Hm]]; [left; by left|]. right. split; [done|].
    rewrite elem_of_cons. naive_solver.
Qed.

(** ** Slices indexed by an [int] *)

(** [make([]T, n)] panics on a negative length. *)
Definition make {A} (x : A) (n : Z) : result (list A) :=
  if decide (n < 0)%Z then Panic else Ok (replicate (Z.to_nat n) x).

Definition idx {A} (l : list A) (i : Z) : result A :=
  if decide (i < 0)%Z then Panic else or_panic (l !! Z.to_nat i).
Definition idx_upd {A} (h : A → A) (l : list A) (i : Z) : result (list A) :=
  let* x := idx l i in Ok (<[Z.to_nat i := h x]> l).

(** [l[i] = append(l[i], x)] *)
Definition push_at {A} (x : A) (l : list (list A)) (i : Z) : result (list (list A)) :=
  idx_upd (λ t, t ++ [x]) l i.

Lemma idx_ok {A} (l : list A) i n : length l = Z.to_nat n → (0 ≤ i < n)%Z →
  ∃ x, idx l i = Ok x ∧ l !! Z.to_nat i = Some x.
Proof.
  intros Hl Hi. destruct (lookup_lt_is_Some_2 l (Z.to_nat i)) as [x Hx]; [lia|].
  exists x. split; [|done]. unfold idx. rewrite decide_False by lia. by rewrite Hx.
Qed.

Lemma idx_upd_ok {A} (h : A → A) (l : list A) i n : length l = Z.to_nat n → (0 ≤ i < n)%Z →
  ∃ x, l !! Z.to_nat i = Some x ∧ idx_upd h l i = Ok (<[Z.to_nat i := h x]> l) ∧
    length (<[Z.to_nat i := h x]> l) = Z.to_nat n.
Proof.
  intros Hl Hi. destruct (idx_ok l i n Hl Hi) as (x & E & Hx). exists x. split; [done|].
  unfold idx_upd. rewrite E. cbn. split; [done|]. by rewrite length_insert.
Qed.

Lemma idx_upd_inv {A} (h : A → A) (l l' : list A) i : idx_upd h l i = Ok l' →
  (0 ≤ i)%Z ∧ ∃ x, l !! Z.to_nat i = Some x ∧ l' = <[Z.to_nat i := h x]> l.
Proof.
  unfold idx_upd, idx. case_decide; [done|]. intros (x & Hx & [= <-])%rbind_ok.
  apply or_panic_ok in Hx. split; [lia|]. by exists x.
Qed.

Lemma concat_push_at {A} (x : A) l i l' : push_at x l i = Ok l' → concat l' ≡ₚ x :: concat l.
Proof.
  intros (Hi & b & Hb & ->)%idx_upd_inv. rewrite <- (take_drop_middle l (Z.to_nat i) b Hb) at 2.
  rewrite insert_take_drop by (by apply lookup_lt_Some in Hb).
  rewrite !concat_app. cbn. rewrite (app_assoc (concat _) b), Permutation_middle.
  by rewrite <- !app_assoc.
Qed.

(** A loop that keeps a property and never fails. *)
Lemma rfold_inv {A B} (P : B → Prop) (body : B → A → result B) l acc :
  P acc → (∀ acc x, P acc → x ∈ l → ∃ acc', body acc x = Ok acc' ∧ P acc') →
  ∃ acc', rfold body acc l = Ok acc' ∧ P acc'.
Proof.
  revert acc; induction l as [|x l IH]; intros acc Ha Hb; cbn; [by exists acc|].
  destruct (Hb acc x Ha) as (a1 & -> & H1); [by left|]. cbn. apply IH; [done|].
  intros a y Hy Hin. apply Hb; [done | by right].
Qed.

(** A loop that distributes the elements of a list over slices: element [x] goes
    as [h x] to the slice [dest x], or nowhere. *)
Definition bucket {A B} (dest : A → option Z) (h : A → B) (k : nat) (l : list A) : list B :=
  omap (λ x, if decide (dest x = Some (Z.of_nat k)) then Some (h x) else None) l.

Lemma rfold_buckets {A B} (dest : A → option Z) (h : A → B) body l acc out :
  (∀ acc x, x ∈ l → body acc x = match dest x with Some i => push_at (h x) acc i | None => Ok acc end) →
  rfold body acc l = Ok out →
  length out = length acc ∧
  (∀ k b0, acc !! k = Some b0 → out !! k = Some (b0 ++ bucket dest h k l)) ∧
  (∀ x i, x ∈ l → dest x = Some i → (0 ≤ i < Z.of_nat (length acc))%Z).
Proof.
  intros Hb. revert acc Hb; induction l as [|x l IH]; intros acc Hb; cbn.
  { intros [= <-]. split_and!; [done| |].
    - intros k b0 Hk. by rewrite app_nil_r.
    - intros y i Hy. by apply not_elem_of_nil in Hy. }
  intros (a1 & E & H)%rbind_ok. rewrite Hb in E by (by left).
  destruct (IH a1) as (H1 & H2 & H3); [intros; apply Hb; by right | done |].
  unfold bucket. cbn. destruct (dest x) as [i|] eqn:Ed.
  - apply idx_upd_inv in E as (Hi & b & Hbk & ->). rewrite length_insert in *.
    split_and!; [done| |].
    + intros k b0 Hk. destruct (decide (Some i = Some (Z.of_nat k))) as [[= ->]|Hne].
      * rewrite Nat2Z.id in Hbk. simplify_eq. rewrite (H2 k (b ++ [h x])); [by rewrite <- app_assoc|].
        rewrite Nat2Z.id, list_lookup_insert_eq; [done|]. by apply lookup_lt_Some in Hbk.
      * apply H2. rewrite list_lookup_insert_ne; [done|]. intros <-. apply Hne. f_equal. lia.
    + intros y j [->|Hy]%elem_of_cons Hj; [|by eapply H3]. simplify_eq.
      apply lookup_lt_Some in Hbk. lia.
  - simplify_eq. split_and!; [done| |].
    + intros k b0 Hk. rewrite decide_False by done. by apply H2.
    + intros y j [->|Hy]%elem_of_cons Hj; [congruence|]. by eapply H3.
Qed.

(** ** Machine integers *)

Definition int64_min : Z := (- 2 ^ 63)%Z.
Definition int64_max : Z := (2 ^ 63 - 1)%Z.

Definition wrap_u (w z : Z) : Z := (z mod 2 ^ w)%Z.
Definition wrap_s (w z : Z) : Z := ((z + 2 ^ (w - 1)) mod 2 ^ w - 2 ^ (w - 1))%Z.

Abbreviation wrap_u64 := (wrap_u 64).
Abbreviation wrap_i64 := (wrap_s 64).
Abbreviation wrap_u256 := (wrap_u 256).

Definition in_u (w z : Z) : Prop := (0 ≤ z < 2 ^ w)%Z.
Definition in_s (w z : Z) : Prop := (- 2 ^ (w - 1) ≤ z < 2 ^ (w - 1))%Z.

Lemma wrap_u_id w z : in_u w z → wrap_u w z = z.
Proof. apply Z.mod_small. Qed.

Lemma wrap_u_range w z : (0 ≤ w)%Z → in_u w (wrap_u w z).
Proof. intros ?; apply Z.mod_pos_bound, Z.pow_pos_nonneg; lia. Qed.

Lemma wrap_s_id w z : (0 < w)%Z → in_s w z → wrap_s w z = z.
Proof.
  intros Hw [Hlo Hhi]; unfold wrap_s.
  assert (2 ^ w = 2 * 2 ^ (w - 1))%Z as Hp
    by (rewrite <- Z.pow_succ_r by lia; f_equal; lia).
  rewrite Z.mod_small; lia.
Qed.

(** ** Record update: [r <| field := v |>]

    [Eta R] spells a record out field by field; a setter is found from it by
    abstracting the projection it names. *)

Class Eta (R : Type) := eta : R → R.

Class Upd {R E : Type} (proj : R → E) := upd : (E → E) → R → R.
Arguments upd {R E} proj {_} _ _ /.

Ltac head_of t := lazymatch t with ?g _ => head_of g | _ => t end.

Ltac solve_upd :=
  match goal with
  | |- @Upd ?R ?E ?proj =>
    let inst := constr:(_ : Eta R) in
    let inst := match inst with ?i => i end in
    let h := head_of inst in
    let g := constr:(λ (f : E → E) (r : R),
      ltac:(let t := eval cbv beta delta [h] in (inst r) in
            let t := eval pattern (proj r) in t in
            match t with ?F _ => exact (F (f (proj r))) end)) in
    let g := eval cbv beta in g in
    exact g
  end.

#[export] Hint Extern 0 (@Upd _ _ _) => solve_upd : typeclass_instances.

Notation "r <| proj := v |>" := (upd proj (λ _, v) r)
  (at level 1, left associativity, format "r <| proj  :=  v |>") : go_scope.
Notation "r <| proj ::= f |>" := (upd proj f r)
  (at level 1, left associativity, format "r <| proj  ::=  f |>") : go_scope.
