(* ===== verification/GoStrings.v ===== *)
(** * Go's strings package

    The functions of the standard library's strings package that the program
    calls, on strings as their UTF-8 bytes: white space ([TrimSpace], [Fields]),
    letter case ([ToLower], [ToUpper], [EqualFold]), prefixes and separators. *)

From S2P Require Import Prelude.
From Stdlib Require Import Lia Ascii.

(** ** White space *)

(** The UTF-8 encodings of the white space of [unicode.IsSpace]. *)
Definition spaces : list (list nat) :=
  [[9]; [10]; [11]; [12]; [13]; [32]; [194; 133]; [194; 160]; [225; 154; 128];
   [226; 128; 128]; [226; 128; 129]; [226; 128; 130]; [226; 128; 131]; [226; 128; 132]; [226; 128; 133];
   [226; 128; 134]; [226; 128; 135]; [226; 128; 136]; [226; 128; 137]; [226; 128; 138];
   [226; 128; 168]; [226; 128; 169]; [226; 128; 175]; [226; 129; 159]; [227; 128; 128]]%nat.

Fixpoint strip_prefix (e : list nat) (l : list ascii) : option (list ascii) :=
  match e, l with
  | [], _ => Some l
  | x :: e', c :: l' => if decide (nat_of_ascii c = x) then strip_prefix e' l' else None
  | _, [] => None
  end.

(** What is left after one of the encodings. *)
Definition strip_any (encs : list (list nat)) (l : list ascii) : option (list ascii) :=
  head (omap (λ e, strip_prefix e l) encs).

Fixpoint trim_left (encs : list (list nat)) (fuel : nat) (l : list ascii) : list ascii :=
  match fuel with
  | O => l
  | S fuel' =>
    match strip_any encs l with
    | Some l' => trim_left encs fuel' l'
    | None => l
    end
  end.

Definition trim_space (l : list ascii) : list ascii :=
  let l := trim_left spaces (length l) l in
  reverse (trim_left (map reverse spaces) (length l) (reverse l)).

Definition strings_TrimSpace (s : string) : string :=
  String.string_of_list_ascii (trim_space (String.list_ascii_of_string s)).

(** The word being read is kept reversed. *)
Definition end_word (cur : list ascii) : list (list ascii) :=
  match cur with [] => [] | _ => [reverse cur] end.
Fixpoint fields_loop (fuel : nat) (cur l : list ascii) : list (list ascii) :=
  match fuel with
  | O => end_word cur
  | S fuel' =>
    match strip_any spaces l, l with
    | Some l', _ => end_word cur ++ fields_loop fuel' [] l'
    | None, c :: l' => fields_loop fuel' (c :: cur) l'
    | None, [] => end_word cur
    end
  end.

(** Every turn takes at least one byte off. *)
Definition strings_Fields (s : string) : list string :=
  let l := String.list_ascii_of_string s in
  map String.string_of_list_ascii (fields_loop (S (length l)) [] l).

(** ** Letter case *)

Definition to_lower (c : ascii) : ascii :=
  let n := nat_of_ascii c in if decide (65 ≤ n ≤ 90)%nat then ascii_of_nat (n + 32) else c.
Definition to_upper (c : ascii) : ascii :=
  let n := nat_of_ascii c in if decide (97 ≤ n ≤ 122)%nat then ascii_of_nat (n - 32) else c.

(** The letters outside ASCII whose other case is an ASCII letter: the Kelvin
    sign and the dotted capital I; the dotless i and the long s. *)
Definition lower_specials : list (list nat * ascii) :=
  [([226; 132; 170], "k"%char); ([196; 176], "i"%char)]%nat.
Definition upper_specials : list (list nat * ascii) :=
  [([196; 177], "I"%char); ([197; 191], "S"%char)]%nat.

(** The text with its letters mapped.  Other letters outside ASCII are kept:
    the program compares the result with ASCII words only. *)
Fixpoint map_case (specials : list (list nat * ascii)) (h : ascii → ascii) (fuel : nat) (l : list ascii)
    : list ascii :=
  match fuel, l with
  | S fuel', c :: l' =>
    match head (omap (λ p, (λ rest, (p.2, rest)) <$> strip_prefix p.1 l) specials) with
    | Some (x, rest) => x :: map_case specials h fuel' rest
    | None => h c :: map_case specials h fuel' l'
    end
  | _, _ => []
  end.

Definition with_chars (h : list ascii → list ascii) (s : string) : string :=
  String.string_of_list_ascii (h (String.list_ascii_of_string s)).
Definition strings_ToLower : string → string :=
  with_chars (λ l, map_case lower_specials to_lower (length l) l).
Definition strings_ToUpper : string → string :=
  with_chars (λ l, map_case upper_specials to_upper (length l) l).

(** [strings.EqualFold] with a string of letters that have no folding outside ASCII. *)
Definition equal_fold (s t : string) : bool :=
  bool_decide (map to_lower (String.list_ascii_of_string s) = map to_lower (String.list_ascii_of_string t)).

(** ** Prefixes and separators *)

Definition strings_HasPrefix (s p : string) : bool := String.prefix p s.
Definition strings_TrimPrefix (s p : string) : string :=
  if String.prefix p s then String.substring (String.length p) (String.length s - String.length p) s else s.
Definition strings_HasSuffix (s p : string) : bool :=
  String.prefix (with_chars (@reverse _) p) (with_chars (@reverse _) s).

(** [strings.SplitN(s, sep, 2)] for a separator of one byte: the text before
    the first one and the text after it. *)
Fixpoint cut (sep : ascii) (s : string) : option (string * string) :=
  match s with
  | EmptyString => None
  | String c s' =>
    if decide (c = sep) then Some ("", s')
    else prod_map (String c) id <$> cut sep s'
  end.

(** [strings.Split] for a separator of one byte. *)
Fixpoint strings_Split (s : string) (sep : ascii) : list string :=
  match s with
  | EmptyString => [""]
  | String c s' =>
    if decide (c = sep) then "" :: strings_Split s' sep
    else match strings_Split s' sep with
         | w :: ws => String c w :: ws
         | [] => [String c ""]
         end
  end.

Example trim_ex : strings_TrimSpace "  a b	 " = "a b". Proof. vm_compute. reflexivity. Qed.
Example fields_ex : strings_Fields " CALL  id=1 x" = ["CALL"; "id=1"; "x"]. Proof. vm_compute. reflexivity. Qed.
Example upper_ex : strings_ToUpper "deploy 1" = "DEPLOY 1". Proof. vm_compute. reflexivity. Qed.
Example prefix_ex : strings_TrimPrefix "0xab" "0x" = "ab" ∧ strings_TrimPrefix "ab" "0x" = "ab".
Proof. vm_compute. split; reflexivity. Qed.
Example suffix_ex : strings_HasSuffix "a.sol:Token" ":Token" = true. Proof. vm_compute. reflexivity. Qed.
Example cut_ex : cut "="%char "a=b=c" = Some ("a", "b=c"). Proof. vm_compute. reflexivity. Qed.
Example split_ex : strings_Split "a||b" "|"%char = ["a"; ""; "b"]. Proof. vm_compute. reflexivity. Qed.

(** ** Facts *)

Lemma strip_prefix_ok e l l' : strip_prefix e l = Some l' ↔ ∃ w, map nat_of_ascii w = e ∧ l = w ++ l'.
Proof.
  revert l; induction e as [|x e IH]; intros l; cbn.
  - split; [intros [= ->]; by exists []|]. intros ([|] & ? & ->); done.
  - destruct l as [|c l]; [split; [done|]; by intros ([|] & ? & ?)|]. case_decide as Hx.
    + rewrite IH. split.
      * intros (w & <- & ->). exists (c :: w). cbn. by rewrite Hx.
      * intros ([|c' w] & Hw & Hl); [done|]. simplify_eq/=. by exists w.
    + split; [done|]. intros ([|c' w] & Hw & Hl); by simplify_eq/=.
Qed.

Lemma strip_any_some encs l l' : strip_any encs l = Some l' →
  ∃ w, map nat_of_ascii w ∈ encs ∧ l = w ++ l'.
Proof.
  unfold strip_any. intros H. assert (l' ∈ omap (λ e, strip_prefix e l) encs) as Hin.
  { destruct (omap _ _); [done|]. simplify_eq/=. by left. }
  apply list_elem_of_omap in Hin as (e & He & (w & <- & ->)%strip_prefix_ok). by exists w.
Qed.

Lemma strip_any_none encs l : strip_any encs l = None ↔
  ∀ w l', map nat_of_ascii w ∈ encs → l ≠ w ++ l'.
Proof.
  unfold strip_any. split.
  - intros H w l' Hw ->. assert (l' ∈ omap (λ e, strip_prefix e (w ++ l')) encs) as Hin.
    { apply list_elem_of_omap. exists (map nat_of_ascii w). split; [done|]. apply strip_prefix_ok. by exists w. }
    by destruct (omap _ _); [apply not_elem_of_nil in Hin|].
  - intros H. destruct (omap _ _) as [|l' ls] eqn:E; [done|]. exfalso.
    assert (l' ∈ omap (λ e, strip_prefix e l) encs) as Hin by (rewrite E; by left).
    apply list_elem_of_omap in Hin as (e & He & (w & <- & ->)%strip_prefix_ok). by apply (H w l').
Qed.

Lemma trim_left_done encs n l : [] ∉ encs → length l ≤ n → strip_any encs (trim_left encs n l) = None.
Proof.
  intros He. revert l; induction n as [|n IH]; intros l Hl; cbn.
  - destruct l; [|cbn in Hl; lia]. apply strip_any_none. intros [|c w] l' Hw; [by cbn in Hw|done].
  - destruct (strip_any encs l) as [l'|] eqn:E; [|done]. apply IH.
    apply strip_any_some in E as ([|c w] & Hw & ->); [by cbn in Hw|]. rewrite length_app in Hl. cbn in Hl. lia.
Qed.

Lemma spaces_nonempty : ([] ∉ spaces) ∧ ([] ∉ map reverse spaces).
Proof. split; apply (bool_decide_unpack _); vm_compute; exact I. Qed.

Lemma end_word_nil cur : end_word cur = [] ↔ cur = [].
Proof. by destruct cur. Qed.

Lemma fields_nil n cur l : length l < n → fields_loop n cur l = [] →
  cur = [] ∧ (l = [] ∨ ∃ p w, map nat_of_ascii w ∈ spaces ∧ l = p ++ w).
Proof.
  revert cur l; induction n as [|n IH]; intros cur l Hl; [lia|]. cbn [fields_loop].
  destruct (strip_any spaces l) as [l'|] eqn:E.
  - apply strip_any_some in E as (w & Hw & ->). intros [->%end_word_nil H]%app_nil. split; [done|]. right.
    destruct w as [|c w]; [by destruct spaces_nonempty|]. rewrite length_app in Hl. cbn in Hl.
    apply IH in H as (_ & [->|(p & v & Hv & ->)]); [| |lia].
    + exists [], (c :: w). by rewrite app_nil_r.
    + exists ((c :: w) ++ p), v. by rewrite app_assoc.
  - destruct l as [|c l]; [rewrite end_word_nil; by split; [|left]|]. cbn in Hl. intros [? _]%IH; [done|lia].
Qed.

Lemma string_list_nil s : String.list_ascii_of_string s = [] ↔ s = "".
Proof. by destruct s. Qed.
Lemma list_string_list l : String.list_ascii_of_string (String.string_of_list_ascii l) = l.
Proof. apply String.list_ascii_of_string_of_list_ascii. Qed.
Lemma string_list_string s : String.string_of_list_ascii (String.list_ascii_of_string s) = s.
Proof. apply String.string_of_list_ascii_of_string. Qed.
Lemma string_list_inj s t : String.list_ascii_of_string s = String.list_ascii_of_string t → s = t.
Proof. intros H. by rewrite <- (string_list_string s), H, string_list_string. Qed.

(** Trimmed text does not end in white space. *)
Lemma trim_left_stuck encs n l w l' : [] ∉ encs → length l ≤ n → map nat_of_ascii w ∈ encs →
  trim_left encs n l ≠ w ++ l'.
Proof. intros He Hn Hw. by apply (proj1 (strip_any_none encs (trim_left encs n l)) (trim_left_done encs n l He Hn)). Qed.

Lemma trim_space_end l p w : map nat_of_ascii w ∈ spaces → trim_space l ≠ p ++ w.
Proof.
  unfold trim_space. generalize (trim_left spaces (length l) l). clear l. intros l Hw Hl.
  apply (f_equal reverse) in Hl. rewrite reverse_involutive, reverse_app in Hl. revert Hl.
  apply trim_left_stuck; [apply spaces_nonempty|by rewrite length_reverse|].
  apply list_elem_of_fmap. exists (map nat_of_ascii w). split; [apply fmap_reverse|done].
Qed.

Lemma Fields_nil s : strings_Fields s = [] →
  s = "" ∨ ∃ p w, map nat_of_ascii w ∈ spaces ∧ String.list_ascii_of_string s = p ++ w.
Proof.
  unfold strings_Fields. destruct (fields_loop _ _ _) eqn:H; [|done]. intros _.
  apply fields_nil in H as (_ & [H|H]); [|by right|lia]. left. by apply string_list_nil.
Qed.

Lemma TrimSpace_list s : String.list_ascii_of_string (strings_TrimSpace s) = trim_space (String.list_ascii_of_string s).
Proof. apply list_string_list. Qed.

(** A text that is not blank has a word. *)
Lemma Fields_trimmed s : strings_TrimSpace s ≠ "" → strings_Fields (strings_TrimSpace s) ≠ [].
Proof.
  intros Hne [H|(p & w & Hw & H)]%Fields_nil; [done|].
  rewrite TrimSpace_list in H. by apply (trim_space_end (String.list_ascii_of_string s) p w Hw).
Qed.

(** Texts in ASCII. *)
Definition ascii_text (l : list ascii) : Prop := Forall (λ c, nat_of_ascii c < 128) l.

Lemma to_lower_ascii c : nat_of_ascii (to_lower c) < 128 ↔ nat_of_ascii c < 128.
Proof. unfold to_lower. case_decide as H; [|done]. rewrite nat_ascii_embedding; lia. Qed.

Lemma map_case_ascii specials h n l : Forall (λ p, ∃ x e, p.1 = x :: e ∧ 128 ≤ x) specials →
  ascii_text l → length l ≤ n → map_case specials h n l = map h l.
Proof.
  intros Hs. revert n; induction l as [|c l IH]; intros n Ha Hn; [by destruct n|]. inversion_clear Ha as [|? ? Hc Hl].
  destruct n as [|n]; cbn in Hn; [lia|]. cbn [map_case].
  assert (omap (λ p, (λ rest, (p.2, rest)) <$> strip_prefix p.1 (c :: l)) specials = []) as ->.
  { clear IH Hn Hl. induction Hs as [|[p y] ps (x & e & Hp & Hx) _ IHs]; [done|]. cbn in Hp. subst p.
    cbn [omap list_omap fst strip_prefix]. rewrite decide_False by lia. cbn. apply IHs. }
  cbn. f_equal. apply IH; [done|lia].
Qed.

Lemma lower_specials_start : Forall (λ p, ∃ x e, p.1 = x :: e ∧ 128 ≤ x) lower_specials.
Proof.
  constructor; [|constructor; [|constructor]]; eexists _, _; (split; [reflexivity|]); apply Nat.leb_le; reflexivity.
Qed.

Lemma ToLower_ascii s : ascii_text (String.list_ascii_of_string s) →
  String.list_ascii_of_string (strings_ToLower s) = map to_lower (String.list_ascii_of_string s).
Proof.
  intros H. unfold strings_ToLower, with_chars. rewrite list_string_list.
  apply map_case_ascii; [apply lower_specials_start|done|done].
Qed.
