(* ===== verification/PriorityQueue.v ===== *)
(** * The priority queue of PBFT messages

    Models consensus/pbft/basicstructs/pq.go, and the part of Go's
    [container/heap] it runs on ([Push], [Pop], [up], [down]).  A queue is the
    slice [items]; every index the heap code computes is kept, with an index
    out of range a panic.  The section's facts are stated for any strict weak
    order [less]. *)

From S2P Require Import Prelude.
From Stdlib Require Import Lia.

Section priority_queue.
  Context {T : Type} (less : T → T → bool).

(** [pq.items[i]] *)
Definition item (l : list T) (i : nat) : result T := or_panic (l !! i).

Definition Less (l : list T) (i j : nat) : result bool :=
  let* x := item l i in
  let* y := item l j in
  Ok (less x y).

Definition Swap (l : list T) (i j : nat) : result (list T) :=
  let* x := item l i in
  let* y := item l j in
  Ok (<[j := x]> (<[i := y]> l)).

Definition Len (l : list T) : nat := length l.

Definition Push (l : list T) (x : T) : list T := l ++ [x].

(** [x := old[n-1]; pq.items = old[:n-1]] *)
Definition Pop (l : list T) : result (T * list T) :=
  let* x := (match Len l with O => Panic | S n => item l n end) in
  Ok (x, take (Len l - 1) l).

(** [heap.up]: [(j-1)/2] truncates to 0 at [j = 0], as in Go. *)
Fixpoint up (fuel : nat) (l : list T) (j : nat) : result (list T) :=
  match fuel with
  | O => Panic
  | S fuel' =>
    let i := (j - 1) `div` 2 in
    if decide (i = j) then Ok l
    else
      let* b := Less l j i in
      if b then let* l' := Swap l i j in up fuel' l' i
      else Ok l
  end.

(** [heap.down] on the prefix of length [n]. *)
Fixpoint down (fuel : nat) (l : list T) (i n : nat) : result (list T) :=
  match fuel with
  | O => Panic
  | S fuel' =>
    let j1 := 2 * i + 1 in
    if decide (n ≤ j1) then Ok l
    else
      let j2 := S j1 in
      let* j := (if decide (j2 < n)
                 then let* b := Less l j2 j1 in Ok (if b : bool then j2 else j1)
                 else Ok j1) in
      let* b := Less l j i in
      if b then let* l' := Swap l i j in down fuel' l' j n
      else Ok l
  end.

(** [heap.Push(pq, x)] *)
Definition PushItem (l : list T) (x : T) : result (list T) :=
  let l' := Push l x in
  up (Len l') l' (Len l' - 1).

(** [heap.Pop(pq).(T)]; on an empty queue [pq.Swap(0, -1)] panics. *)
Definition PopItem (l : list T) : result (T * list T) :=
  match Len l with
  | O => Panic
  | S n =>
    let* l1 := Swap l 0 n in
    let* l2 := down (S n) l1 0 n in
    Pop l2
  end.

Definition NewPQ : list T := [].

End priority_queue.

(** ** Heap order *)

(** A strict weak order: its negation, read as [≤], is transitive and total. *)
Class StrictWeak {T : Type} (less : T → T → bool) : Prop := {
  sw_asym a b : less a b = true → less b a = false;
  sw_trans a b c : less b a = false → less c b = false → less c a = false;
}.

Definition parent (i : nat) : nat := (i - 1) `div` 2.

(** The item at [i] is not below its parent. *)
Definition ord {T} (less : T → T → bool) (l : list T) (i : nat) : Prop :=
  ∀ x y, l !! i = Some x → l !! parent i = Some y → less x y = false.

Definition heap_inv {T} (less : T → T → bool) (l : list T) : Prop :=
  ∀ i, 0 < i → ord less l i.

Section heap_facts.
  Context {T : Type} (less : T → T → bool) `{!StrictWeak less}.
  Implicit Types (l : list T) (i j k n : nat).

Lemma sw_irrefl x : less x x = false.
Proof using All. destruct (less x x) eqn:E; [|done]. pose proof (sw_asym _ _ E); congruence. Qed.

Lemma parent_lt i : 0 < i → parent i < i.
Proof. intros ?; unfold parent; apply Nat.Div0.div_lt_upper_bound; lia. Qed.

Lemma parent_le i : parent i ≤ i.
Proof. destruct i; [done | pose proof (parent_lt (S i)); lia]. Qed.

Lemma parent_child k i : 0 < k → parent k = i ↔ k = 2 * i + 1 ∨ k = 2 * i + 2.
Proof.
  intros Hk; unfold parent; split.
  - intros <-. pose proof (Nat.div_mod_eq (k - 1) 2).
    pose proof (Nat.mod_upper_bound (k - 1) 2); lia.
  - intros [-> | ->].
    + replace (2 * i + 1 - 1) with (i * 2) by lia. by apply Nat.div_mul.
    + replace (2 * i + 2 - 1) with (1 + i * 2) by lia. rewrite Nat.div_add by lia. done.
Qed.

Lemma Swap_ok l i j x y :
  l !! i = Some x → l !! j = Some y → Swap l i j = Ok (<[j := x]> (<[i := y]> l)).
Proof. intros Hi Hj; unfold Swap, item; by rewrite Hi, Hj. Qed.

Lemma Less_ok l i j x y :
  l !! i = Some x → l !! j = Some y → Less less l i j = Ok (less x y).
Proof. intros Hi Hj; unfold Less, item; by rewrite Hi, Hj. Qed.

(** What a swap leaves at each index. *)
Lemma swap_lookup l i j x y k :
  l !! i = Some x → l !! j = Some y →
  <[j := x]> (<[i := y]> l) !! k =
    if decide (k = j) then Some x else if decide (k = i) then Some y else l !! k.
Proof.
  intros Hi Hj. pose proof (lookup_lt_Some _ _ _ Hi); pose proof (lookup_lt_Some _ _ _ Hj).
  case_decide; subst.
  - apply list_lookup_insert_eq. by rewrite length_insert.
  - rewrite list_lookup_insert_ne by done. case_decide; subst.
    + by apply list_lookup_insert_eq.
    + by apply list_lookup_insert_ne.
Qed.

Lemma swap_perm l i j x y :
  l !! i = Some x → l !! j = Some y → <[j := x]> (<[i := y]> l) ≡ₚ l.
Proof.
  intros Hi Hj. apply Permutation_inj; split; [by rewrite !length_insert |].
  exists (λ k, if decide (k = j) then i else if decide (k = i) then j else k); split.
  - intros a b; repeat case_decide; congruence.
  - intros k. rewrite (swap_lookup l i j x y) by done. repeat case_decide; by subst.
Qed.

(** An order fact at [k] read off the hypotheses of a heap with one hole. *)
Ltac use_ord := match goal with
  | H : ord ?f ?l ?k, X : ?l !! ?k = Some ?x, Y : ?l !! parent ?k = Some ?y |- _ =>
    pose proof (H x y X Y); clear H
  end.

(** [up] repairs a heap whose only violation is at [j]. *)
Definition up_inv l j : Prop :=
  (∀ i, 0 < i → i ≠ j → ord less l i) ∧
  (∀ k x y, 0 < j → 0 < k → parent k = j → l !! k = Some x → l !! parent j = Some y →
     less x y = false).

Lemma up_inv_swap l j x y :
  0 < j → up_inv l j → l !! j = Some x → l !! parent j = Some y → less x y = true →
  up_inv (<[j := y]> (<[parent j := x]> l)) (parent j).
Proof using All.
  intros Hj0 [Hord Hgrand] Hj Hp Hlt.
  pose proof (parent_lt j Hj0). split.
  - intros k Hk Hki a b. rewrite !(swap_lookup l (parent j) j y x) by done.
    case_decide as Ekj; [subst k|rewrite (decide_False (P := k = parent j)) by done].
    + rewrite decide_False, decide_True by lia. intros [= <-] [= <-]. by apply sw_asym.
    + intros Ha. case_decide as Epj; [|case_decide as Epi].
      * intros [= <-]. by apply (Hgrand k).
      * intros [= <-]. pose proof (Hord k ltac:(lia) ltac:(lia)) as Ho.
        rewrite <- Epi in Hp. use_ord. eapply sw_trans; [|done]. by apply sw_asym.
      * intros Hb. by apply (Hord k).
  - intros k a b Hpj Hk Epk. rewrite !(swap_lookup l (parent j) j y x) by done.
    pose proof (parent_lt (parent j) Hpj).
    rewrite (decide_False (P := parent (parent j) = j)) by lia.
    rewrite (decide_False (P := parent (parent j) = parent j)) by lia.
    case_decide as Ekj; [subst k|].
    + intros [= <-] Hb. by apply (Hord (parent j)); [lia.. | |].
    + rewrite decide_False by (intros ->; lia). intros Ha Hb.
      pose proof (Hord k ltac:(lia) ltac:(lia)) as Ho1.
      pose proof (Hord (parent j) ltac:(lia) ltac:(lia)) as Ho2.
      rewrite <- Epk in Hp, Hb, Ho2. repeat use_ord. eapply sw_trans; done.
Qed.

Lemma up_spec fuel l j :
  j < fuel → j < length l → up_inv l j →
  ∃ l', up less fuel l j = Ok l' ∧ l' ≡ₚ l ∧ heap_inv less l'.
Proof using All.
  revert l j; induction fuel as [|fuel IH]; intros l j Hf Hlen Hinv; [lia|].
  cbn [up]. fold (parent j). case_decide as E.
  - exists l; repeat split; [done|]. intros i Hi. destruct (decide (i = j)) as [->|]; [|by apply Hinv].
    pose proof (parent_lt j Hi); lia.
  - assert (0 < j) as Hj by (destruct j; [done | lia]).
    pose proof (parent_lt j Hj).
    destruct (lookup_lt_is_Some_2 l j) as [x Hx]; [done|].
    destruct (lookup_lt_is_Some_2 l (parent j)) as [y Hy]; [lia|].
    rewrite (Less_ok l j _ x y) by done. cbn [rbind]. destruct (less x y) eqn:Hxy.
    + rewrite (Swap_ok l _ j y x) by done. cbn [rbind].
      destruct (IH (<[j := y]> (<[parent j := x]> l)) (parent j)) as (l' & -> & Hp & Hh);
        [lia | rewrite !length_insert; lia | by apply up_inv_swap |].
      exists l'; repeat split; [|done]. rewrite Hp. by apply swap_perm.
    + exists l; repeat split; [done|]. intros i Hi. destruct (decide (i = j)) as [->|]; [|by apply Hinv].
      intros a b Ha Hb. congruence.
Qed.

(** [down] repairs the prefix of length [n] when its only violations are at
    the children of [i]. *)
Definition down_inv l i n : Prop :=
  (∀ k, 0 < k < n → parent k ≠ i → ord less l k) ∧
  (∀ k x y, 0 < i → 0 < k < n → parent k = i → l !! k = Some x → l !! parent i = Some y →
     less x y = false).

(** The child [j] that [down] compares with [i]: a least one of the two. *)
Definition least_child l i n j : Prop :=
  0 < j < n ∧ parent j = i ∧
  ∀ k x z, 0 < k < n → parent k = i → l !! k = Some z → l !! j = Some x → less z x = false.

Lemma down_inv_swap l i n j x y :
  down_inv l i n → least_child l i n j → l !! i = Some x → l !! j = Some y →
  less y x = true → down_inv (<[j := x]> (<[i := y]> l)) j n.
Proof using All.
  intros [Hord Hgrand] ([Hj0 Hjn] & Hpj & Hmin) Hi Hj Hlt.
  pose proof (parent_lt j Hj0). split.
  - intros k Hk Hkj a b. rewrite !(swap_lookup l i j x y) by done.
    rewrite (decide_False (P := parent k = j)) by done.
    case_decide as Ekj; [subst k|].
    + rewrite Hpj, decide_True by done. intros [= <-] [= <-]. by apply sw_asym.
    + case_decide as Eki; [subst k|].
      * pose proof (parent_lt i ltac:(lia)). rewrite decide_False by lia.
        intros [= <-] Hb. apply (Hgrand j y b); [lia.. | done | done | done].
      * case_decide as Epi.
        -- intros Ha [= <-]. by apply (Hmin k).
        -- intros Ha Hb. by apply (Hord k).
  - intros k a b _ Hk Epk. rewrite !(swap_lookup l i j x y) by done.
    pose proof (parent_lt k ltac:(lia)).
    rewrite Hpj, (decide_False (P := i = j)), (decide_True (P := i = i)) by lia.
    rewrite !decide_False by lia. intros Ha [= <-].
    pose proof (Hord k Hk ltac:(lia)) as Ho. rewrite <- Epk in Hj. use_ord. done.
Qed.

Lemma down_least_child l i n :
  2 * i + 1 < n → n ≤ length l →
  ∃ j, (if decide (S (2 * i + 1) < n)
        then let* b := Less less l (S (2 * i + 1)) (2 * i + 1) in
             Ok (if b : bool then S (2 * i + 1) else 2 * i + 1)
        else Ok (2 * i + 1)) = Ok j ∧ least_child l i n j.
Proof using All.
  intros H1 Hn.
  destruct (lookup_lt_is_Some_2 l (2 * i + 1)) as [x Hx]; [lia|].
  assert (∀ k, 0 < k → parent k = i → k = 2 * i + 1 ∨ k = S (2 * i + 1)) as Hch.
  { intros k Hk Hp. apply parent_child in Hp; lia. }
  assert (parent (2 * i + 1) = i ∧ parent (S (2 * i + 1)) = i) as [Hp1 Hp2]
    by (split; apply parent_child; lia).
  case_decide as H2.
  - destruct (lookup_lt_is_Some_2 l (S (2 * i + 1))) as [y Hy]; [lia|].
    rewrite (Less_ok l _ _ y x) by done. cbn [rbind]. destruct (less y x) eqn:Hyx.
    + exists (S (2 * i + 1)); split; [done|]; split; [lia|]; split; [done|].
      intros k a z Hk Hpk Hz Ha. destruct (Hch k ltac:(lia) Hpk) as [-> | ->]; clear Hpk; simplify_eq.
      * by apply sw_asym.
      * apply sw_irrefl.
    + exists (2 * i + 1); split; [done|]; split; [lia|]; split; [done|].
      intros k a z Hk Hpk Hz Ha. destruct (Hch k ltac:(lia) Hpk) as [-> | ->]; clear Hpk; simplify_eq; [|done].
      apply sw_irrefl.
  - exists (2 * i + 1); split; [done|]; split; [lia|]; split; [done|].
    intros k a z Hk Hpk Hz Ha. destruct (Hch k ltac:(lia) Hpk) as [-> | ->]; clear Hpk; [|lia]; simplify_eq.
    apply sw_irrefl.
Qed.

Lemma down_spec fuel l i n :
  n - i < fuel → n ≤ length l → down_inv l i n →
  ∃ l', down less fuel l i n = Ok l' ∧ l' ≡ₚ l ∧
        (∀ k, 0 < k < n → ord less l' k) ∧ (∀ k, n ≤ k → l' !! k = l !! k).
Proof using All.
  revert l i; induction fuel as [|fuel IH]; intros l i Hf Hlen Hinv; [lia|].
  cbn [down]. case_decide as E.
  - exists l; repeat split; [done|]. intros k Hk. apply Hinv; [done|].
    intros Hp. apply parent_child in Hp; lia.
  - destruct (down_least_child l i n) as (j & -> & Hlc); [lia | done |]. cbn [rbind].
    pose proof Hlc as (Hj & Hpj & Hmin).
    pose proof (parent_lt j ltac:(lia)).
    destruct (lookup_lt_is_Some_2 l j) as [y Hy]; [lia|].
    destruct (lookup_lt_is_Some_2 l i) as [x Hx]; [lia|].
    rewrite (Less_ok l _ _ y x) by done. cbn [rbind]. destruct (less y x) eqn:Hyx.
    + rewrite (Swap_ok l i j x y) by done. cbn [rbind].
      destruct (IH (<[j := x]> (<[i := y]> l)) j) as (l' & -> & Hp & Hh & Hr);
        [lia | by rewrite !length_insert | by apply down_inv_swap |].
      exists l'; repeat split; [by rewrite Hp; apply swap_perm | done |].
      intros k Hk. rewrite Hr, (swap_lookup l i j x y) by done.
      by rewrite !decide_False by lia.
    + exists l; repeat split; [done|]. intros k Hk a b Ha Hb.
      destruct (decide (parent k = i)) as [Hpk|Hpk]; [|by apply (proj1 Hinv k)].
      rewrite Hpk in Hb; simplify_eq. pose proof (Hmin k y a Hk Hpk Ha Hy).
      eapply sw_trans; done.
Qed.

(** The root of a heap is a least item. *)
Lemma heap_root_least l r i x :
  heap_inv less l → l !! 0 = Some r → l !! i = Some x → less x r = false.
Proof using All.
  intros Hh Hr. revert x; induction (lt_wf i) as [i _ IH]; intros x Hx.
  destruct (decide (i = 0)) as [->|Hi]; [simplify_eq; apply sw_irrefl|].
  pose proof (parent_lt i ltac:(lia)).
  pose proof (lookup_lt_Some _ _ _ Hx).
  destruct (lookup_lt_is_Some_2 l (parent i)) as [y Hy]; [lia|].
  eapply sw_trans; [by apply (IH (parent i)) | by apply (Hh i ltac:(lia))].
Qed.

(** *** The two operations of the queue *)

Lemma PushItem_spec l x :
  heap_inv less l →
  ∃ l', PushItem less l x = Ok l' ∧ l' ≡ₚ x :: l ∧ heap_inv less l'.
Proof using All.
  intros Hh. unfold PushItem, Push, Len.
  destruct (up_spec (length (l ++ [x])) (l ++ [x]) (length (l ++ [x]) - 1)) as (l' & -> & Hp & Hi);
    [rewrite length_app; cbn; lia.. | |].
  - rewrite length_app; cbn [length]. replace (length l + 1 - 1) with (length l) by lia. split.
    + intros i Hi Hne a b Ha Hb. pose proof (lookup_lt_Some _ _ _ Ha) as Hlt.
      rewrite length_app in Hlt; cbn in Hlt. pose proof (parent_lt i Hi).
      rewrite lookup_app_l in Ha, Hb by lia. by apply (Hh i).
    + intros k a b Hl Hk Hp Ha _. pose proof (lookup_lt_Some _ _ _ Ha) as Hlt.
      rewrite length_app in Hlt; cbn in Hlt. pose proof (parent_lt k Hk); lia.
  - exists l'; repeat split; [|done]. by rewrite Hp, Permutation_app_comm.
Qed.

Lemma PopItem_spec l :
  heap_inv less l → l ≠ [] →
  ∃ x l', PopItem less l = Ok (x, l') ∧ l ≡ₚ x :: l' ∧ heap_inv less l' ∧
          Forall (λ y, less y x = false) l.
Proof using All.
  intros Hh Hne. unfold PopItem, Len. destruct l as [|r t] eqn:El; [done|]. cbn [length].
  assert (length l = S (length t)) as Hlen by (subst; done). rewrite <- El in *.
  assert (l !! 0 = Some r) as H0 by (subst; done).
  destruct (lookup_lt_is_Some_2 l (length t)) as [z Hz]; [lia|].
  rewrite (Swap_ok l _ _ r z) by done. cbn [rbind].
  set (l1 := <[length t := r]> (<[0 := z]> l)).
  assert (∀ k, k ≠ 0 → k < length t → l1 !! k = l !! k) as Hl1.
  { intros k ? ?. unfold l1. by rewrite (swap_lookup l 0 _ r z), !decide_False by (done || lia). }
  destruct (down_spec (S (length t)) l1 0 (length t)) as (l2 & -> & Hp & Hord & Hrest);
    [lia | unfold l1; rewrite !length_insert; lia | split; [|lia] |].
  { intros k Hk Hpk a b. pose proof (parent_lt k ltac:(lia)).
    rewrite !Hl1 by lia. intros Ha Hb. by apply (Hh k ltac:(lia)). }
  cbn [rbind]. assert (l2 ≡ₚ l) as Hp2 by (rewrite Hp; by apply swap_perm).
  assert (length l2 = S (length t)) as Hlen2 by (by rewrite Hp2).
  assert (l2 !! length t = Some r) as Hr.
  { rewrite Hrest by done. unfold l1. rewrite (swap_lookup l 0 _ r z) by done.
    by rewrite decide_True. }
  unfold Pop, Len, item. rewrite Hlen2, Hr. cbn [or_panic rbind].
  replace (S (length t) - 1) with (length t) by lia.
  assert (l2 = take (length t) l2 ++ [r]) as Hsplit.
  { rewrite <- (take_drop (length t) l2) at 1. f_equal.
    rewrite (drop_S _ r) by done. by rewrite drop_ge by lia. }
  exists r, (take (length t) l2); repeat split.
  - rewrite <- Hp2, Hsplit at 1. by rewrite Permutation_app_comm.
  - intros i Hi a b Ha Hb. pose proof (lookup_lt_Some _ _ _ Ha) as Hlt.
    rewrite length_take in Hlt. pose proof (parent_lt i Hi).
    rewrite lookup_take_lt in Ha, Hb by lia. apply (Hord i ltac:(lia) a b); done.
  - apply Forall_lookup. intros i y Hy. by apply (heap_root_least l r i).
Qed.
End heap_facts.
