(* ===== verification/GoHash.v ===== *)
(** * The hash functions of Go's standard library the program calls

    [crypto/sha256], [crypto/sha512] and [crypto/sha1] (FIPS 180-4), executable
    on byte lists: block headers, transactions and proposals are identified by
    SHA-256 of their encoding, and the Bloom filter of pkg/core/bloom uses all
    three.  The test vectors at the end pin the definitions down. *)

From S2P Require Import Prelude.
From Stdlib Require Import Lia NArith Ascii Strings.Byte.

Local Open Scope Z_scope.

(** ** Bytes *)

Abbreviation bytes := (list byte).

#[export] Instance byte_eq_dec : EqDecision byte := Byte.byte_eq_dec.

#[export] Program Instance byte_countable : Countable byte :=
  inj_countable Byte.to_N Byte.of_N _.
Next Obligation. intros b. apply Byte.of_to_N. Qed.

Definition byte_to_Z (b : byte) : Z := Z.of_N (Byte.to_N b).

(** The low 8 bits, Go's [byte(z)]. *)
Definition Z_to_byte (z : Z) : byte :=
  match Byte.of_N (Z.to_N (z mod 256)) with Some b => b | None => x00 end.

(** [binary.BigEndian.Uint32], [Uint64] and the like on a whole slice. *)
Definition be_to_Z (l : bytes) : Z := fold_left (λ acc b, acc * 256 + byte_to_Z b) l 0.

(** The [n] low bytes of [z], most significant first. *)
Fixpoint Z_to_be (n : nat) (z : Z) : bytes :=
  match n with
  | O => []
  | S n' => Z_to_be n' (z / 256) ++ [Z_to_byte z]
  end.

Lemma byte_to_Z_range b : 0 <= byte_to_Z b < 256.
Proof. unfold byte_to_Z. pose proof (Byte.to_N_bounded b). lia. Qed.

Lemma Z_to_byte_to_Z b : Z_to_byte (byte_to_Z b) = b.
Proof.
  unfold Z_to_byte. rewrite Z.mod_small by apply byte_to_Z_range.
  unfold byte_to_Z. by rewrite N2Z.id, Byte.of_to_N.
Qed.

Lemma byte_to_Z_to_byte z : byte_to_Z (Z_to_byte z) = z mod 256.
Proof.
  unfold Z_to_byte. pose proof (Z.mod_pos_bound z 256 ltac:(lia)).
  destruct (Byte.of_N _) as [b|] eqn:E.
  - unfold byte_to_Z. apply Byte.to_of_N in E. rewrite E. lia.
  - apply Byte.of_N_None_iff in E. lia.
Qed.

Lemma be_to_Z_app l b : be_to_Z (l ++ [b]) = be_to_Z l * 256 + byte_to_Z b.
Proof. unfold be_to_Z. by rewrite fold_left_app. Qed.

Lemma be_to_Z_range l : 0 <= be_to_Z l < 256 ^ Z.of_nat (length l).
Proof.
  induction l as [|b l IH] using rev_ind; [done|].
  rewrite be_to_Z_app, length_app, Nat2Z.inj_add, Z.pow_add_r by lia.
  pose proof (byte_to_Z_range b). change (256 ^ Z.of_nat (length [b])) with 256. lia.
Qed.

Lemma be_to_Z_of_Z n z : 0 <= z < 256 ^ Z.of_nat n → be_to_Z (Z_to_be n z) = z.
Proof.
  revert z; induction n as [|n IH]; intros z Hz; cbn [Z_to_be].
  - cbn in *. lia.
  - rewrite Nat2Z.inj_succ, Z.pow_succ_r in Hz by lia.
    rewrite be_to_Z_app, byte_to_Z_to_byte, IH.
    + pose proof (Z.div_mod z 256 ltac:(lia)). lia.
    + split; [apply Z.div_pos; lia | apply Z.div_lt_upper_bound; lia].
Qed.

Lemma length_Z_to_be n z : length (Z_to_be n z) = n.
Proof. revert z; induction n as [|n IH]; intros z; cbn; [done|]. rewrite length_app, IH. cbn. lia. Qed.

(** ** Words of [w] bits *)

Definition wadd (w a b : Z) : Z := (a + b) mod 2 ^ w.
Definition wnot (w a : Z) : Z := Z.lxor a (Z.ones w).
Definition rotr (w n a : Z) : Z :=
  Z.lor (Z.shiftr a n) (Z.land (Z.shiftl a (w - n)) (Z.ones w)).
Definition rotl (w n a : Z) : Z := rotr w (w - n) a.
Definition wsum (w : Z) (l : list Z) : Z := fold_left (wadd w) l 0.

(** ** Padding to blocks of [blk] bytes, with a [lb]-byte bit length *)

Definition pad (blk lb : nat) (m : bytes) : bytes :=
  let n := length m in
  let z := Z.to_nat ((- (Z.of_nat n + 1 + Z.of_nat lb)) mod Z.of_nat blk) in
  m ++ x80 :: replicate z x00 ++ Z_to_be lb (8 * Z.of_nat n).

Fixpoint chunks {A} (fuel n : nat) (l : list A) : list (list A) :=
  match fuel, l with
  | O, _ | _, [] => []
  | S fuel', _ => take n l :: chunks fuel' n (drop n l)
  end.

(** ** SHA-2 *)

Record sha2 := {
  s2_w : Z; s2_blk : nat; s2_lb : nat; s2_word : nat;
  s2_K : list Z; s2_H : list Z;
  s2_S0 : Z * Z * Z; s2_S1 : Z * Z * Z; s2_s0 : Z * Z * Z; s2_s1 : Z * Z * Z;
}.

Section sha2.
  Context (p : sha2).
Let w := s2_w p.

Definition big_sigma (r : Z * Z * Z) (x : Z) : Z :=
  let '(a, b, c) := r in Z.lxor (rotr w a x) (Z.lxor (rotr w b x) (rotr w c x)).

Definition small_sigma (r : Z * Z * Z) (x : Z) : Z :=
  let '(a, b, c) := r in Z.lxor (rotr w a x) (Z.lxor (rotr w b x) (Z.shiftr x c)).

(** The message schedule, newest word first. *)
Fixpoint schedule (n : nat) (ws : list Z) : list Z :=
  match n with
  | O => ws
  | S n' =>
    let v i := nth i ws 0 in
    schedule n' (wsum w [small_sigma (s2_s1 p) (v 1%nat); v 6%nat;
                         small_sigma (s2_s0 p) (v 14%nat); v 15%nat] :: ws)
  end.

Definition sha2_round (st : list Z) (kw : Z * Z) : list Z :=
  match st with
  | [a; b; c; d; e; f; g; h] =>
    let ch := Z.lxor (Z.land e f) (Z.land (wnot w e) g) in
    let maj := Z.lxor (Z.land a b) (Z.lxor (Z.land a c) (Z.land b c)) in
    let t1 := wsum w [h; big_sigma (s2_S1 p) e; ch; fst kw; snd kw] in
    let t2 := wadd w (big_sigma (s2_S0 p) a) maj in
    [wadd w t1 t2; a; b; c; wadd w d t1; e; f; g]
  | _ => st
  end.

Definition sha2_block (H : list Z) (blk : bytes) : list Z :=
  let w0 := map be_to_Z (chunks 16 (s2_word p) blk) in
  let ws := rev (schedule (length (s2_K p) - 16) (rev w0)) in
  zip_with (wadd w) H (fold_left sha2_round (combine (s2_K p) ws) H).

Definition sha2_sum (m : bytes) : bytes :=
  let pm := pad (s2_blk p) (s2_lb p) m in
  let H := fold_left sha2_block (chunks (length pm) (s2_blk p) pm) (s2_H p) in
  flat_map (Z_to_be (s2_word p)) H.
End sha2.

(** The constants of SHA-2 are the leading fractional bits of the roots of the
    first primes: square roots for the initial state, cube roots for the rounds. *)
Definition is_prime (n : nat) : bool :=
  forallb (λ d, negb (n mod d =? 0)%nat) (seq 2 (n - 2)).

Definition first_primes (k : nat) : list Z :=
  map Z.of_nat (take k (List.filter is_prime (seq 2 408))).

(** The largest cube root below [n], bit by bit from [2^bits]. *)
Fixpoint cbrt (bits : nat) (r n : Z) : Z :=
  match bits with
  | O => r
  | S bits' =>
    let r' := r + 2 ^ Z.of_nat bits' in
    cbrt bits' (if r' * r' * r' <=? n then r' else r) n
  end.

Definition sqrt_bits (w p : Z) : Z := Z.sqrt (p * 2 ^ (2 * w)) mod 2 ^ w.
Definition cbrt_bits (w p : Z) : Z := cbrt (Z.to_nat w + 4) 0 (p * 2 ^ (3 * w)) mod 2 ^ w.

Definition K256 : list Z := Eval vm_compute in map (cbrt_bits 32) (first_primes 64).
Definition K512 : list Z := Eval vm_compute in map (cbrt_bits 64) (first_primes 80).
Definition H256 : list Z := Eval vm_compute in map (sqrt_bits 32) (first_primes 8).
Definition H512 : list Z := Eval vm_compute in map (sqrt_bits 64) (first_primes 8).

(** [sha256.Sum256] *)
Definition Sum256 : bytes → bytes := sha2_sum {|
  s2_w := 32; s2_blk := 64; s2_lb := 8; s2_word := 4; s2_K := K256; s2_H := H256;
  s2_S0 := (2, 13, 22); s2_S1 := (6, 11, 25); s2_s0 := (7, 18, 3); s2_s1 := (17, 19, 10) |}.

(** [sha512.Sum512] *)
Definition Sum512 : bytes → bytes := sha2_sum {|
  s2_w := 64; s2_blk := 128; s2_lb := 16; s2_word := 8; s2_K := K512; s2_H := H512;
  s2_S0 := (28, 34, 39); s2_S1 := (14, 18, 41); s2_s0 := (1, 8, 7); s2_s1 := (19, 61, 6) |}.

(** ** SHA-1 *)

Fixpoint sha1_schedule (n : nat) (ws : list Z) : list Z :=
  match n with
  | O => ws
  | S n' =>
    let v i := nth i ws 0 in
    sha1_schedule n'
      (rotl 32 1 (Z.lxor (Z.lxor (v 2%nat) (v 7%nat)) (Z.lxor (v 13%nat) (v 15%nat))) :: ws)
  end.

Definition sha1_round (st : list Z) (tw : nat * Z) : list Z :=
  match st with
  | [a; b; c; d; e] =>
    let '(f, k) :=
      match (fst tw / 20)%nat with
      | 0%nat => (Z.lor (Z.land b c) (Z.land (wnot 32 b) d), 0x5a827999)
      | 1%nat => (Z.lxor b (Z.lxor c d), 0x6ed9eba1)
      | 2%nat => (Z.lor (Z.land b c) (Z.lor (Z.land b d) (Z.land c d)), 0x8f1bbcdc)
      | _ => (Z.lxor b (Z.lxor c d), 0xca62c1d6)
      end in
    [wsum 32 [rotl 32 5 a; f; e; k; snd tw]; a; rotl 32 30 b; c; d]
  | _ => st
  end.

Definition sha1_block (H : list Z) (blk : bytes) : list Z :=
  let w0 := map be_to_Z (chunks 16 4 blk) in
  let ws := rev (sha1_schedule 64 (rev w0)) in
  zip_with (wadd 32) H (fold_left sha1_round (combine (seq 0 80) ws) H).

(** [sha1.Sum] *)
Definition Sum1 (m : bytes) : bytes :=
  let pm := pad 64 8 m in
  let H := fold_left sha1_block (chunks (length pm) 64 pm)
             [0x67452301; 0xefcdab89; 0x98badcfe; 0x10325476; 0xc3d2e1f0] in
  flat_map (Z_to_be 4) H.

(** ** Test vectors *)

Definition str (s : string) : bytes := map byte_of_ascii (String.list_ascii_of_string s).

Example sha256_abc : be_to_Z (Sum256 (str "abc")) = 0xba7816bf8f01cfea414140de5dae2223b00361a396177a9cb410ff61f20015ad.
Proof. vm_compute. reflexivity. Qed.

Example sha256_long : be_to_Z (Sum256 (str "abcdefghbcdefghicdefghijdefghijkefghijklfghijklmghijklmnhijklmnoijklmnopjklmnopqklmnopqrlmnopqrsmnopqrstnopqrstu")) = 0xcf5b16a778af8380036ce59e7b0492370b249b11e8f07a51afac45037afee9d1.
Proof. vm_compute. reflexivity. Qed.

Example sha512_abc : be_to_Z (Sum512 (str "abc")) = 0xddaf35a193617abacc417349ae20413112e6fa4e89a97ea20a9eeee64b55d39a2192992a274fc1a836ba3c23a3feebbd454d4423643ce80e2a9ac94fa54ca49f.
Proof. vm_compute. reflexivity. Qed.

Example sha512_long : be_to_Z (Sum512 (str "abcdefghbcdefghicdefghijdefghijkefghijklfghijklmghijklmnhijklmnoijklmnopjklmnopqklmnopqrlmnopqrsmnopqrstnopqrstu")) = 0x8e959b75dae313da8cf4f72814fc143f8f7779c6eb9f7fa17299aeadb6889018501d289e4900f7e4331b99dec4b5433ac7d329eeb6dd26545e96e55b874be909.
Proof. vm_compute. reflexivity. Qed.

Example sha1_abc : be_to_Z (Sum1 (str "abc")) = 0xa9993e364706816aba3e25717850c26c9cd0d89d.
Proof. vm_compute. reflexivity. Qed.

Example sha1_long : be_to_Z (Sum1 (str "abcdefghbcdefghicdefghijdefghijkefghijklfghijklmghijklmnhijklmnoijklmnopjklmnopqklmnopqrlmnopqrsmnopqrstnopqrstu")) = 0xa49b2446a02c645bf419f995b67091253a04a259.
Proof. vm_compute. reflexivity. Qed.

(** ** Sizes *)

Lemma length_sha2_round p st kw : length (sha2_round p st kw) = length st.
Proof. unfold sha2_round. by repeat case_match. Qed.

Lemma length_sha2_sum p m :
  length (sha2_sum p m) = (length (s2_H p) * s2_word p)%nat.
Proof.
  assert (∀ ws H, length (fold_left (sha2_round p) ws H) = length H) as Hr.
  { induction ws as [|w ws IH]; intros H; [done|]. cbn [fold_left]. by rewrite IH, length_sha2_round. }
  assert (∀ bs H, length (fold_left (sha2_block p) bs H) = length H) as Hb.
  { induction bs as [|b bs IH]; intros H; [done|]. cbn [fold_left]. rewrite IH.
    unfold sha2_block. rewrite length_zip_with, Hr. lia. }
  unfold sha2_sum. rewrite <- (Hb (chunks (length (pad (s2_blk p) (s2_lb p) m)) (s2_blk p) (pad (s2_blk p) (s2_lb p) m))).
  generalize (fold_left (sha2_block p) (chunks (length (pad (s2_blk p) (s2_lb p) m)) (s2_blk p) (pad (s2_blk p) (s2_lb p) m)) (s2_H p)).
  intros H. induction H as [|x H IH]; [done|]. cbn [flat_map]. rewrite length_app, length_Z_to_be, IH. done.
Qed.

Lemma length_Sum256 m : length (Sum256 m) = 32%nat.
Proof. unfold Sum256. by rewrite length_sha2_sum. Qed.
