(* ===== verification/Account.v ===== *)
(** * Accounts and transactions

    Models pkg/core/account (addresses, account states, [Credit], [Debit]),
    pkg/partition/accountloc.go (the default shard of an address),
    pkg/core/transaction ([Transaction], [TxType], [Hash]) and
    pkg/utils/bigtransfer.go. *)

From S2P Require Import Prelude GoHash.
From stdpp Require Import vector.
From Stdlib Require Import Lia Strings.Byte Ascii.

Local Open Scope Z_scope.

(** ** Addresses: [20]byte *)

Abbreviation Address := (vec byte 20).
Abbreviation PublicKey := (vec byte 64).

(** [copy(a[:], l)] into a zeroed array of [n] bytes. *)
Fixpoint copy_to_array (n : nat) (l : bytes) : vec byte n :=
  match n with
  | O => [#]
  | S n' =>
    match l with
    | [] => x00 ::: copy_to_array n' []
    | b :: l' => b ::: copy_to_array n' l'
    end
  end.

(** [a[:]] *)
Definition addr_bytes {n} (a : vec byte n) : bytes := vec_to_list a.

Lemma copy_to_array_bytes {n} (a : vec byte n) : copy_to_array n (addr_bytes a) = a.
Proof. unfold addr_bytes. induction a as [|b n a IH]; cbn; [done|]. by rewrite IH. Qed.

(** A transparent instance, so that maps keyed by addresses compute. *)
#[export] Program Instance array_countable n : Countable (vec byte n) | 0 :=
  inj_countable' addr_bytes (copy_to_array n) _.
Next Obligation. intros n a. apply copy_to_array_bytes. Qed.

Definition EmptyAccountAddr : Address := copy_to_array 20 [].

Record Account := { Addr : Address; PKey : PublicKey }.

Definition Account_Encode (a : Account) : result bytes :=
  Ok (addr_bytes (Addr a) ++ addr_bytes (PKey a)).

(** [DefaultAccountLoc]: the last four bytes, big endian, modulo the number of
    shards; Go's [%] truncates, and a zero divisor panics. *)
Definition DefaultAccountLoc (a : Address) (shardNum : Z) : result Z :=
  let u32 := be_to_Z (drop (20 - 4) (addr_bytes a)) in
  if decide (shardNum = 0) then Panic else Ok (Z.rem u32 shardNum).

(** ** Account states

    [*big.Int] is a [Z]; [uint64] fields are [Z]s in range. *)

(** [big.Int.SetString(s, 10)] of math/big: an optional sign, then digits. *)
Definition digit_of (c : ascii) : option Z :=
  let n := Z.of_nat (nat_of_ascii c) in
  if decide (48 <= n <= 57) then Some (n - 48) else None.

Fixpoint parse_digits (acc : Z) (l : list ascii) : option Z :=
  match l with
  | [] => Some acc
  | c :: l' => match digit_of c with Some d => parse_digits (acc * 10 + d) l' | None => None end
  end.

Definition parse_unsigned (l : list ascii) : option Z :=
  match l with [] => None | _ => parse_digits 0 l end.

Definition big_SetString (s : string) : option Z :=
  match String.list_ascii_of_string s with
  | "-"%char :: l => Z.opp <$> parse_unsigned l
  | "+"%char :: l => parse_unsigned l
  | l => parse_unsigned l
  end.

Definition NormalInitBalanceStr : string := "1000000000000000000000000000000000000".
Definition BrokerInitBalanceStr : string := "1000000000000000000000000000000000000".

Definition ErrNotEnoughBalance : error := "not enough balance".

Record State := mkState {
  S_Address : Address;
  S_Nonce : Z;
  S_Balance : Z;
  S_StorageRoot : bytes;
  S_Code : bytes;
  S_ShardLocation : Z;
}.
#[export] Instance State_eta : Eta State := λ s,
  mkState (S_Address s) (S_Nonce s) (S_Balance s) (S_StorageRoot s) (S_Code s) (S_ShardLocation s).
#[export] Instance State_eq_dec : EqDecision State.
Proof. solve_decision. Defined.

(** [b.SetString(NormalInitBalanceStr, 10)] of a zero [big.Int]; its [ok] is dropped. *)
Definition NewState (addr : Address) (loc : Z) : State :=
  mkState addr 0 (default 0 (big_SetString NormalInitBalanceStr)) [] [] loc.

Definition Credit (value : Z) (s : State) : State :=
  s <| S_Balance ::= λ b, b + value |>.

Definition Debit (val : Z) : M State unit :=
  let! s := st_get in
  if decide (S_Balance s < val) then st_fail ErrNotEnoughBalance
  else st_put (s <| S_Balance := S_Balance s - val |>).

(** [uint256.FromBig] as the callers use it: the value, and whether it
    overflowed 256 bits. *)
Definition BigToUInt256 (b : Z) : result Z :=
  if decide (b < 0) then Err "the input big int is a negative number"
  else if decide (2 ^ 256 <= b) then Err "call FromBig overflow"
  else Ok b.

(** ** Transactions *)

Definition NormalTxType : Z := 0.
Definition RelayTxType : Z := 1.
Definition BrokerTxType : Z := 2.
Definition CreateContractTxType : Z := 3.
Definition CallContractTxType : Z := 4.

Definition UndeterminedRelayTx : Z := 0.
Definition Relay1Tx : Z := 1.
Definition Relay2Tx : Z := 2.

Definition RawTxBrokerStage : Z := 0.
Definition Sigma1BrokerStage : Z := 1.
Definition Sigma2BrokerStage : Z := 2.

Definition defaultGasLimit : Z := 1000000.

(** [time.Time] as nanoseconds since the zero time, January 1 of year 1. *)
Abbreviation Time := Z (only parsing).

Record RelayTxOpt := mkRelayTxOpt { RelayStage : Z; ROriginalHash : bytes }.

Record BrokerTxOpt := mkBrokerTxOpt {
  BrokerStage : Z;
  Broker : Address;
  BOriginalHash : bytes;
  OriginalTxCreateTime : Time;
  NonceBroker : Z;
  HeightLock : Z;
  HeightCurrent : Z;
}.

Record Transaction := mkTransaction {
  Sender : Address;
  Recipient : Address;
  Value : Z;
  PriorityFee : Z;
  Nonce : Z;
  Signature : bytes;
  CreateTime : Time;
  Data : bytes;
  GasLimit : Z;
  RelayOpt : RelayTxOpt;
  BrokerOpt : BrokerTxOpt;
}.

#[export] Instance RelayTxOpt_eta : Eta RelayTxOpt := λ o,
  mkRelayTxOpt (RelayStage o) (ROriginalHash o).
#[export] Instance BrokerTxOpt_eta : Eta BrokerTxOpt := λ o,
  mkBrokerTxOpt (BrokerStage o) (Broker o) (BOriginalHash o) (OriginalTxCreateTime o)
    (NonceBroker o) (HeightLock o) (HeightCurrent o).
#[export] Instance Transaction_eta : Eta Transaction := λ t,
  mkTransaction (Sender t) (Recipient t) (Value t) (PriorityFee t) (Nonce t) (Signature t)
    (CreateTime t) (Data t) (GasLimit t) (RelayOpt t) (BrokerOpt t).

#[export] Instance RelayTxOpt_eq_dec : EqDecision RelayTxOpt.
Proof. solve_decision. Defined.
#[export] Instance BrokerTxOpt_eq_dec : EqDecision BrokerTxOpt.
Proof. solve_decision. Defined.
#[export] Instance Transaction_eq_dec : EqDecision Transaction.
Proof. solve_decision. Defined.

(** The promoted fields of the two embedded options. *)
Definition tx_RelayStage (t : Transaction) : Z := RelayStage (RelayOpt t).
Definition tx_ROriginalHash (t : Transaction) : bytes := ROriginalHash (RelayOpt t).
Definition tx_BrokerStage (t : Transaction) : Z := BrokerStage (BrokerOpt t).
Definition tx_Broker (t : Transaction) : Address := Broker (BrokerOpt t).
Definition tx_BOriginalHash (t : Transaction) : bytes := BOriginalHash (BrokerOpt t).
Definition tx_OriginalTxCreateTime (t : Transaction) : Time := OriginalTxCreateTime (BrokerOpt t).

(** The zero values of the two embedded structs. *)
Definition zeroRelayTxOpt : RelayTxOpt := mkRelayTxOpt 0 [].
Definition zeroBrokerTxOpt : BrokerTxOpt :=
  mkBrokerTxOpt 0 EmptyAccountAddr [] 0 0 0 0.

Definition NewTransaction (sender recipient : Address) (value priorityFee nonce : Z)
    (proposeTime : Time) : Transaction :=
  mkTransaction sender recipient value priorityFee nonce [] proposeTime [] defaultGasLimit
    zeroRelayTxOpt zeroBrokerTxOpt.

(** [TxType]: the first test that applies decides. *)
Definition TxType (t : Transaction) : Z :=
  if decide (tx_BOriginalHash t ≠ []) then BrokerTxType
  else if decide (tx_ROriginalHash t ≠ []) then RelayTxType
  else if decide (Data t = []) then NormalTxType
  else if decide (Recipient t = EmptyAccountAddr) then CreateContractTxType
  else CallContractTxType.

(** [rlp.EncodeToBytes] on a transaction (go-ethereum). *)
Class RlpTx := rlp_tx : Transaction → result bytes.

Section hash.
  Context `{RT : RlpTx}.

Definition tx_Encode (t : Transaction) : result bytes := rlp_tx t.

Definition tx_Hash (t : Transaction) : result bytes :=
  let* b := tx_Encode t in Ok (Sum256 b).

End hash.

(** ** Facts *)

(** A plain transfer that is given a relay stage: the hash makes it a relay transaction. *)
Lemma TxType_relayed tx st th : TxType tx = NormalTxType →
  TxType (tx <| RelayOpt := mkRelayTxOpt st th |>) = if decide (th = []) then NormalTxType else RelayTxType.
Proof.
  unfold TxType. change (tx_BOriginalHash (tx <| RelayOpt := mkRelayTxOpt st th |>)) with (tx_BOriginalHash tx).
  change (tx_ROriginalHash (tx <| RelayOpt := mkRelayTxOpt st th |>)) with th.
  change (Data (tx <| RelayOpt := mkRelayTxOpt st th |>)) with (Data tx).
  destruct (decide (tx_BOriginalHash tx ≠ [])); [done|]. destruct (decide (tx_ROriginalHash tx ≠ [])); [done|].
  destruct (decide (Data tx = [])); [intros _|by case_decide].
  destruct (decide (th = [])) as [->|]; [by rewrite decide_False by (by intros [])|by rewrite decide_True].
Qed.

Lemma tx_Hash_nonempty `{RT : RlpTx} tx h : tx_Hash tx = Ok h → h ≠ [].
Proof.
  unfold tx_Hash. intros (e & _ & [= <-])%rbind_ok Hn. apply (f_equal length) in Hn. by rewrite length_Sum256 in Hn.
Qed.

Lemma length_addr_bytes {n} (a : vec byte n) : length (addr_bytes a) = n.
Proof. apply length_vec_to_list. Qed.

Lemma init_balance_value : big_SetString NormalInitBalanceStr = Some (10 ^ 36).
Proof. vm_compute. reflexivity. Qed.

Lemma BigToUInt256_ok b u : BigToUInt256 b = Ok u ↔ u = b ∧ in_u 256 b.
Proof.
  unfold BigToUInt256, in_u. repeat case_decide; (split; [intros; simplify_eq | intros [-> ?]]); first [done | lia].
Qed.

(** With at least one shard every address has a shard, and it is in range. *)
Lemma DefaultAccountLoc_range a n :
  0 < n → ∃ s, DefaultAccountLoc a n = Ok s ∧ 0 <= s < n.
Proof.
  intros Hn. unfold DefaultAccountLoc. case_decide; [lia|]. eexists; split; [done|].
  pose proof (be_to_Z_range (drop (20 - 4) (addr_bytes a))).
  rewrite Z.rem_mod_nonneg by lia. by apply Z.mod_pos_bound.
Qed.

Lemma TxType_cases t :
  TxType t ∈ [NormalTxType; RelayTxType; BrokerTxType; CreateContractTxType; CallContractTxType].
Proof. unfold TxType. repeat case_decide; set_solver. Qed.
