(* ===== verification/Bloom.v ===== *)
(** * The Bloom filter of a block header

    Models pkg/core/bloom.  The bit set is github.com/bits-and-blooms/bitset,
    a class of operations with the laws its documentation states; the hash
    functions are those of Go's standard library ([GoHash]). *)

From S2P Require Import Prelude GoHash Account.
From Stdlib Require Import Lia.

Local Open Scope Z_scope.

Class BitSetLib := {
  BitSet : Type;
  bs_New : Z → BitSet;
  bs_Set : BitSet → Z → BitSet;
  bs_Test : BitSet → Z → bool;
  bs_Len : BitSet → Z;
  bs_Equal : BitSet → BitSet → bool;
}.

(** What the documentation of the package says of these operations. *)
Class BitSetLaws (BL : BitSetLib) : Prop := {
  bs_New_Len n : 0 ≤ n ≤ 2 ^ 24 → bs_Len (bs_New n) = n;
  bs_New_Test n i : bs_Test (bs_New n) i = false;
  bs_Set_Len b i : 0 ≤ i → bs_Len (bs_Set b i) = bs_Len b `max` (i + 1);
  bs_Set_Test b i j : 0 ≤ i → bs_Test (bs_Set b i) j = bool_decide (i = j) || bs_Test b j;
  bs_Equal_spec b c :
    bs_Equal b c = true ↔ bs_Len b = bs_Len c ∧ ∀ i, bs_Test b i = bs_Test c i;
}.

Definition hashByteLen : nat := 8.
Definition maxBitsetLen : Z := Z.shiftl 1 24.

Definition Sha256 (b : bytes) : bytes := Sum256 b.
Definition Sha512 (b : bytes) : bytes := Sum512 b.
Definition Sha1 (b : bytes) : bytes := Sum1 b.

Abbreviation FilterHashFunc := (bytes → bytes).

Definition defaultFilterFs : list FilterHashFunc := [Sha256; Sha512; Sha1].

(** The map [filterFuncRegistry], read at a key. *)
Definition filterFuncRegistry (name : string) : option FilterHashFunc :=
  if decide (name = "sha256") then Some Sha256
  else if decide (name = "sha512") then Some Sha512
  else if decide (name = "sha1") then Some Sha1
  else None.

Record BloomFilterCfg := { BitsetLen : Z; FilterHashFunc_cfg : list string }.

(** [byte2uint]: the last eight bytes, the slice left-padded with zeros. *)
Definition byte2uint (b : bytes) : Z :=
  let b := if decide (length b < hashByteLen)%nat
           then replicate (hashByteLen - length b) (Z_to_byte 0) ++ b else b in
  be_to_Z (drop (length b - hashByteLen) b).

Section filter.
  Context `{BL : BitSetLib}.

Record Filter := mkFilter { B : BitSet; FilterHashFs : list string }.

Definition NewFilter (cfg : BloomFilterCfg) : result Filter :=
  if decide (maxBitsetLen < BitsetLen cfg) then Err "length of Bitset must be <= %d"
  else Ok (mkFilter (bs_New (wrap_u64 (BitsetLen cfg))) (FilterHashFunc_cfg cfg)).

(** One unknown name makes the whole list the default one. *)
Definition getFilterHashFs (f : Filter) : list FilterHashFunc :=
  match mapM filterFuncRegistry (FilterHashFs f) with
  | Some fs => fs
  | None => defaultFilterFs
  end.

(** [byte2uint(h(x)) % f.B.Len()]; an empty bit set makes [%] panic. *)
Definition bit_index (h : FilterHashFunc) (x : bytes) (b : BitSet) : result Z :=
  if decide (bs_Len b = 0) then Panic else Ok (byte2uint (h x) mod bs_Len b).

Definition add_one (fs : list FilterHashFunc) (b : BitSet) (element : bytes) : result BitSet :=
  rfold (λ b h, let* i := bit_index h element b in Ok (bs_Set b i)) b fs.

Definition Add (f : Filter) (elements : list bytes) : result Filter :=
  let* b := rfold (add_one (getFilterHashFs f)) (B f) elements in
  Ok (mkFilter b (FilterHashFs f)).

Fixpoint contains_all (fs : list FilterHashFunc) (b : BitSet) (hash : bytes) : result bool :=
  match fs with
  | [] => Ok true
  | h :: fs' =>
    let* i := bit_index h hash b in
    if bs_Test b i then contains_all fs' b hash else Ok false
  end.

Definition Contains (f : Filter) (hash : bytes) : result bool :=
  contains_all (getFilterHashFs f) (B f) hash.

Definition Equal (f other : Filter) : bool := bs_Equal (B f) (B other).

(** The zero value of the struct, a [BitSet] of length 0. *)
Definition zeroFilter : Filter := mkFilter (bs_New 0) [].

End filter.

(** ** Facts *)

Section facts.
  Context `{BL : BitSetLib} `{!BitSetLaws BL}.

(** [b'] is [b] with more bits set, at the same length. *)
Definition bits_grow (b b' : BitSet) : Prop :=
  bs_Len b' = bs_Len b ∧ ∀ i, bs_Test b i = true → bs_Test b' i = true.

#[export] Instance bits_grow_preorder : PreOrder bits_grow.
Proof.
  split; [by intros b|]. intros b1 b2 b3 [L1 T1] [L2 T2]; split; [congruence | auto].
Qed.

Lemma bit_index_ok h x b : 0 < bs_Len b → ∃ i, bit_index h x b = Ok i ∧ 0 ≤ i < bs_Len b.
Proof.
  intros ?. unfold bit_index. case_decide; [lia|]. eexists; split; [done|].
  by apply Z.mod_pos_bound.
Qed.

Lemma bit_index_len h x b b' : bs_Len b' = bs_Len b → bit_index h x b' = bit_index h x b.
Proof. intros E. unfold bit_index. by rewrite E. Qed.

Lemma bs_Set_grow b i : 0 ≤ i < bs_Len b → bits_grow b (bs_Set b i) ∧ bs_Test (bs_Set b i) i = true.
Proof using All.
  intros ?; split; [split|].
  - rewrite bs_Set_Len; lia.
  - intros j Hj. rewrite bs_Set_Test, Hj by lia. by rewrite orb_true_r.
  - rewrite bs_Set_Test by lia. by rewrite bool_decide_eq_true_2.
Qed.

Lemma contains_all_grow fs b b' x :
  bits_grow b b' → contains_all fs b x = Ok true → contains_all fs b' x = Ok true.
Proof.
  intros [HL HT]. induction fs as [|h fs IH]; cbn; [done|].
  rewrite (bit_index_len h x b b' HL). destruct (bit_index h x b) as [i| |]; cbn; [|done..].
  destruct (bs_Test b i) eqn:E; [|done]. by rewrite (HT _ E).
Qed.

Lemma add_one_spec fs b x :
  0 < bs_Len b →
  ∃ b', add_one fs b x = Ok b' ∧ bits_grow b b' ∧ contains_all fs b' x = Ok true.
Proof using All.
  unfold add_one. revert b; induction fs as [|h fs IH]; intros b Hb; cbn.
  - exists b; split; [done|]; split; [reflexivity | done].
  - destruct (bit_index_ok h x b Hb) as (i & Ei & Hi). rewrite Ei; cbn.
    destruct (bs_Set_grow b i Hi) as [Hg Ht].
    destruct (IH (bs_Set b i)) as (b' & -> & Hg' & Hc); [by rewrite (proj1 Hg)|].
    exists b'; split; [done|]; split; [by etrans|].
    assert (bits_grow b b') as Hgb by (by etrans).
    rewrite (bit_index_len h x b b' (proj1 Hgb)), Ei; cbn. by rewrite (proj2 Hg' _ Ht).
Qed.

Lemma add_all_spec fs b elements :
  0 < bs_Len b →
  ∃ b', rfold (add_one fs) b elements = Ok b' ∧ bits_grow b b' ∧
        ∀ x, x ∈ elements → contains_all fs b' x = Ok true.
Proof using All.
  revert b; induction elements as [|x l IH]; intros b Hb; cbn.
  - exists b; split; [done|]; split; [reflexivity | set_solver].
  - destruct (add_one_spec fs b x Hb) as (b1 & -> & Hg & Hc); cbn.
    destruct (IH b1) as (b2 & -> & Hg2 & Hc2); [by rewrite (proj1 Hg)|].
    exists b2; split; [done|]; split; [by etrans|].
    intros y [->|Hy]%elem_of_cons; [by eapply contains_all_grow | by apply Hc2].
Qed.

(** C39: a Bloom filter has no false negatives. *)
Theorem bloom_no_false_negative f elements :
  0 < bs_Len (B f) →
  ∃ f', Add f elements = Ok f' ∧
    (∀ x, x ∈ elements → Contains f' x = Ok true) ∧
    (∀ x, Contains f x = Ok true → Contains f' x = Ok true).
Proof using All.
  intros Hb. unfold Add.
  destruct (add_all_spec (getFilterHashFs f) (B f) elements Hb) as (b' & -> & Hg & Hc); cbn.
  eexists; split; [done|]; unfold Contains, getFilterHashFs in *; cbn; split; [done|].
  intros x. by apply contains_all_grow.
Qed.

End facts.

(** ** A concrete bit set, for evaluation *)

Module ListBitSet.

#[export] Instance lib : BitSetLib := {|
  BitSet := Z * gset Z;
  bs_New n := (n, ∅);
  bs_Set b i := (b.1 `max` (i + 1), {[i]} ∪ b.2);
  bs_Test b i := bool_decide (i ∈ b.2);
  bs_Len b := b.1;
  bs_Equal b c := bool_decide (b = c);
|}.

#[export] Instance laws : BitSetLaws lib.
Proof.
  split; cbn; try done.
  - intros b i j _. destruct (decide (i = j)) as [->|].
    + rewrite !bool_decide_eq_true_2 by set_solver. done.
    + rewrite (bool_decide_eq_false_2 (i = j)) by done. cbn.
      apply bool_decide_ext; set_solver.
  - intros [n s] [m t]; cbn. rewrite bool_decide_eq_true. split.
    + by intros [= -> ->].
    + intros [-> H]. f_equal. apply set_eq. intros i. specialize (H i).
      etrans; [symmetry; apply bool_decide_eq_true | rewrite H; apply bool_decide_eq_true].
Qed.

End ListBitSet.

Module BloomWitness.
Import ListBitSet.

(** A filter of 64 bits with two hash functions and two elements. *)
Lemma bloom_no_false_negative_witness :
  ∃ f f', NewFilter {| BitsetLen := 64; FilterHashFunc_cfg := ["sha256"; "sha1"] |} = Ok f ∧
    Add f [str "a"; str "b"] = Ok f' ∧ Contains f' (str "a") = Ok true.
Proof.
  destruct (bloom_no_false_negative (mkFilter (bs_New 64) ["sha256"; "sha1"])
    [str "a"; str "b"]) as (f' & H1 & H2 & _); [reflexivity|].
  exists (mkFilter (bs_New 64) ["sha256"; "sha1"]), f'.
  split; [reflexivity|]. split; [exact H1|]. apply H2. left.
Defined.
End BloomWitness.
