(* ===== verification/Block.v ===== *)
(** * Blocks and messages

    Models pkg/core/block (headers, bodies, migration parts, blocks) and
    pkg/message (the message types of the consensus nodes and the supervisor,
    and their wrapping).  RLP (go-ethereum) and gob encoders are operations of
    classes; the law used of gob is that decoding inverts encoding. *)

From S2P Require Import Prelude GoHash Account Bloom.

Local Open Scope Z_scope.

Definition TxBlockType : Z := 1.
Definition MigrationBlockType : Z := 2.

Section block.
  Context `{BL : BitSetLib}.

Record TxHeaderOpt := mkTxHeaderOpt { TxRoot : bytes; h_Bloom : Filter }.

Record MigrationHeaderOpt := mkMigrationHeaderOpt { MigratedAccountsRoot : bytes }.

Record Header := mkHeader {
  ParentBlockHash : bytes;
  StateRoot : bytes;
  Number : Z;
  BType : Z;
  Miner : Address;
  BCreateTime : Time;
  LocationRoot : bytes;
  h_TxHeaderOpt : TxHeaderOpt;
  h_MigrationHeaderOpt : MigrationHeaderOpt;
}.

Record Body := mkBody { TxList : list Transaction }.

Record MigrationOpt := mkMigrationOpt {
  MigratedAddrs : list Address;
  MigratedStates : list State;
}.

Record Block := mkBlock {
  b_Header : Header;
  b_Body : Body;
  b_MigrationOpt : MigrationOpt;
}.

#[export] Instance Header_eta : Eta Header := λ h,
  mkHeader (ParentBlockHash h) (StateRoot h) (Number h) (BType h) (Miner h) (BCreateTime h)
    (LocationRoot h) (h_TxHeaderOpt h) (h_MigrationHeaderOpt h).
#[export] Instance Block_eta : Eta Block := λ b,
  mkBlock (b_Header b) (b_Body b) (b_MigrationOpt b).

(** Zero values. *)
Definition zeroTxHeaderOpt : TxHeaderOpt := mkTxHeaderOpt [] zeroFilter.
Definition zeroMigrationHeaderOpt : MigrationHeaderOpt := mkMigrationHeaderOpt [].
Definition emptyBody : Body := mkBody [].
Definition emptyMigrationOpt : MigrationOpt := mkMigrationOpt [] [].

Definition NewBlock (h : Header) (b : Body) (mOpt : MigrationOpt) : Block := mkBlock h b mOpt.

(** ** Messages of pkg/message *)

Record Proposal := mkProposal { P_Block : option Block }.

Definition WrapProposal (b : Block) : Proposal := mkProposal (Some b).

Record PreprepareMsg := mkPreprepareMsg {
  pp_P : Proposal; pp_Digest : bytes; pp_Seq : Z; pp_View : Z; pp_ShardID : Z; pp_NodeID : Z;
}.

Record PrepareMsg := mkPrepareMsg {
  p_Digest : bytes; p_Seq : Z; p_View : Z; p_ShardID : Z; p_NodeID : Z;
}.

Record CommitMsg := mkCommitMsg {
  c_Digest : bytes; c_Seq : Z; c_View : Z; c_ShardID : Z; c_NodeID : Z;
}.

Record CatchupReqMsg := mkCatchupReqMsg {
  cq_StartBlockHeight : Z; cq_ShardID : Z; cq_NodeID : Z;
}.

Record CatchupRespMsg := mkCatchupRespMsg {
  cr_Proposals : list Proposal; cr_NextSeq : Z; cr_NextView : Z; cr_ShardID : Z; cr_NodeID : Z;
}.

Record ReceiveTxsMsg := mkReceiveTxsMsg { rt_Txs : list Transaction }.

Record StopConsensusMsg := mkStopConsensusMsg { }.

Record RelayBlockInfoMsg := mkRelayBlockInfoMsg {
  rb_InnerShardTxs : list Transaction; rb_Relay1Txs : list Transaction;
  rb_Relay2Txs : list Transaction; rb_Epoch : Z;
  rb_BlockProposeTime : Time; rb_BlockCommitTime : Time; rb_ShardID : Z;
}.

Record BrokerBlockInfoMsg := mkBrokerBlockInfoMsg {
  bb_InnerShardTxs : list Transaction; bb_Broker1Txs : list Transaction;
  bb_Broker2Txs : list Transaction; bb_Relay1Txs : list Transaction;
  bb_Relay2Txs : list Transaction; bb_Epoch : Z;
  bb_BlockProposeTime : Time; bb_BlockCommitTime : Time; bb_ShardID : Z;
}.

Record BrokerCLPATxSendAgainMsg := mkBrokerCLPATxSendAgainMsg { tsa_Txs : list Transaction }.

Record CLPARepartitionStartMsg := mkCLPARepartitionStartMsg {
  rs_Epoch : Z; rs_ModifiedMap : gmap Address Z;
}.

Record AccountMigrationMsg := mkAccountMigrationMsg {
  am_SrcShard : Z; am_DestShard : Z; am_Epoch : Z; am_AccountStates : gmap Address State;
}.

(** ** Wrapping: the dynamic type of the message decides its type name *)

Inductive MsgKind :=
| KStopConsensus | KPreprepare | KPrepare | KCommit | KReceiveTxs | KCatchupReq | KCatchupResp
| KRelayBlockInfo | KBrokerBlockInfo | KBrokerCLPATxSendAgain
| KCLPARepartitionStart | KAccountMigration
| KOther.

Definition msg_of (k : MsgKind) : Type :=
  match k with
  | KStopConsensus => StopConsensusMsg
  | KPreprepare => PreprepareMsg
  | KPrepare => PrepareMsg
  | KCommit => CommitMsg
  | KReceiveTxs => ReceiveTxsMsg
  | KCatchupReq => CatchupReqMsg
  | KCatchupResp => CatchupRespMsg
  | KRelayBlockInfo => RelayBlockInfoMsg
  | KBrokerBlockInfo => BrokerBlockInfoMsg
  | KBrokerCLPATxSendAgain => BrokerCLPATxSendAgainMsg
  | KCLPARepartitionStart => CLPARepartitionStartMsg
  | KAccountMigration => AccountMigrationMsg
  | KOther => unit
  end.

Definition StopConsensusMessageType : string := "StopConsensus".
Definition PreprepareMessageType : string := "Preprepare".
Definition PrepareMessageType : string := "Prepare".
Definition CommitMessageType : string := "Commit".
Definition ReceiveTxsMessageType : string := "ReceiveTxs".
Definition CatchupReqMessageType : string := "CatchupReq".
Definition CatchupRespMessageType : string := "CatchupResp".
Definition RelayBlockInfoMessageType : string := "RelayBlockInfo".
Definition BrokerBlockInfoMessageType : string := "BrokerBlockInfo".
Definition BrokerCLPATxSendAgainMessageType : string := "BrokerCLPATxSendAgain".
Definition CLPARepartitionStartMessageType : string := "CLPARepartitionStart".
Definition AccountMigrationMessageType : string := "AccountMigration".

Definition getMsgType (k : MsgKind) : result string :=
  match k with
  | KStopConsensus => Ok StopConsensusMessageType
  | KPreprepare => Ok PreprepareMessageType
  | KPrepare => Ok PrepareMessageType
  | KCommit => Ok CommitMessageType
  | KReceiveTxs => Ok ReceiveTxsMessageType
  | KCatchupReq => Ok CatchupReqMessageType
  | KCatchupResp => Ok CatchupRespMessageType
  | KRelayBlockInfo => Ok RelayBlockInfoMessageType
  | KBrokerBlockInfo => Ok BrokerBlockInfoMessageType
  | KBrokerCLPATxSendAgain => Ok BrokerCLPATxSendAgainMessageType
  | KCLPARepartitionStart => Ok CLPARepartitionStartMessageType
  | KAccountMigration => Ok AccountMigrationMessageType
  | KOther => Err "unknown msg type: %T"
  end.

Record WrappedMsg := mkWrappedMsg { MsgType : string; Payload : bytes }.

(** [gob] on the message types: [gob.NewEncoder(&buf).Encode(msg)], and
    [gob.NewDecoder(...).Decode(&m)] at the static type of [m]. *)
Class GobMsg := {
  gob_encode : ∀ k, msg_of k → result bytes;
  gob_decode : ∀ k, bytes → result (msg_of k);
}.

Class GobMsgLaws `{GM : GobMsg} : Prop :=
  gob_roundtrip : ∀ k (m : msg_of k) p, gob_encode k m = Ok p → gob_decode k p = Ok m.

Definition WrapMsg `{GM : GobMsg} (k : MsgKind) (m : msg_of k) : result WrappedMsg :=
  let* msgType := wrap_err "getMsgType failed" (getMsgType k) in
  let* p := wrap_err "encoder failed" (gob_encode k m) in
  Ok (mkWrappedMsg msgType p).

(** ** Encoders of headers, blocks and proposals *)

Class RlpHeader := rlp_header : Header → result bytes.
Class RlpProposal := rlp_proposal : Proposal → result bytes.

Class GobBlock := {
  gob_encode_block : Block → result bytes;
  gob_decode_block : bytes → result Block;
}.
Class GobBlockLaws `{GB : GobBlock} : Prop :=
  gob_block_roundtrip : ∀ b p, gob_encode_block b = Ok p → gob_decode_block p = Ok b.

Definition Header_Encode `{RH : RlpHeader} (h : Header) : result bytes := rlp_header h.

Definition Header_Hash `{RH : RlpHeader} (h : Header) : result bytes :=
  let* b := Header_Encode h in Ok (Sum256 b).

(** [b.Hash()] is the promoted method of the embedded header. *)
Definition Block_Hash `{RH : RlpHeader} (b : Block) : result bytes := Header_Hash (b_Header b).

Definition Block_Encode `{GB : GobBlock} (b : Block) : result bytes :=
  wrap_err "encode block failed" (gob_encode_block b).

Definition DecodeBlock `{GB : GobBlock} (data : bytes) : result Block :=
  wrap_err "decode block failed" (gob_decode_block data).

Definition Proposal_Hash `{RP : RlpProposal} (p : Proposal) : result bytes :=
  let* b := rlp_proposal p in Ok (Sum256 b).

(** ** Facts *)

(** A message type name identifies the kind of message. *)
Lemma getMsgType_inj k1 k2 s : getMsgType k1 = Ok s → getMsgType k2 = Ok s → k1 = k2.
Proof. destruct k1, k2; cbn; intros H1 H2; try done; rewrite <- H2 in H1; discriminate H1. Qed.

Lemma DecodeBlock_Encode `{GBL : GobBlockLaws} b p : Block_Encode b = Ok p → DecodeBlock p = Ok b.
Proof.
  unfold Block_Encode, DecodeBlock. rewrite !wrap_err_ok. apply gob_block_roundtrip.
Qed.

(** Unwrapping at the type a message announces gives the message back. *)
Lemma WrapMsg_roundtrip `{GML : GobMsgLaws} k m w :
  WrapMsg k m = Ok w → getMsgType k = Ok (MsgType w) ∧ gob_decode k (Payload w) = Ok m.
Proof.
  unfold WrapMsg. rewrite !rbind_ok. intros (t & Ht & Hw). apply rbind_ok in Hw as (p & Hp & [= <-]).
  apply wrap_err_ok in Ht. apply wrap_err_ok in Hp. split; [done|]. by apply gob_roundtrip.
Qed.

End block.
