(* ===== verification/Utils.v ===== *)
(** * Utilities

    Models pkg/utils/hex2byte.go and convertime.go, and the CSV record of a block
    ([ConvertBlock2Line] of pkg/core/block/block.go).  encoding/hex is written
    out; the RFC 3339 text of a time depends on the zone of the machine and is
    the operation of a class. *)

From S2P Require Import Prelude GoHash Account Bloom Block.
From stdpp Require Import pretty.
From Stdlib Require Import Lia Strings.Byte Ascii.

Local Open Scope Z_scope.

(** ** encoding/hex *)

Definition hextable : string := "0123456789abcdef".

Definition hex_digit (n : nat) : ascii := default "0"%char (String.get n hextable).

Definition hex_EncodeToString (b : bytes) : string :=
  String.concat "" (map (λ x, let n := Byte.to_nat x in
    String (hex_digit (n / 16)) (String (hex_digit (n mod 16)) "")) b).

Definition hex_value (c : ascii) : option Z :=
  let n := Z.of_nat (nat_of_ascii c) in
  if decide (48 ≤ n ≤ 57) then Some (n - 48)
  else if decide (97 ≤ n ≤ 102) then Some (n - 97 + 10)
  else if decide (65 ≤ n ≤ 70) then Some (n - 65 + 10)
  else None.

(** Two digits a time; an odd digit left over is the length error. *)
Fixpoint hex_DecodeString (s : string) : result bytes :=
  match s with
  | EmptyString => Ok []
  | String a EmptyString =>
    match hex_value a with
    | None => Err "encoding/hex: invalid byte"
    | Some _ => Err "encoding/hex: odd length hex string"
    end
  | String a (String b s') =>
    match hex_value a, hex_value b with
    | Some x, Some y => let* rest := hex_DecodeString s' in Ok (Z_to_byte (16 * x + y) :: rest)
    | _, _ => Err "encoding/hex: invalid byte"
    end
  end.

(** ** hex2byte.go *)

Definition Hex2Bytes (s : string) : result bytes :=
  let s := match s with
    | String c0 (String c s') =>
      if decide (c0 = "0"%char ∧ (c = "x"%char ∨ c = "X"%char)) then s' else s
    | _ => s
    end in
  wrap_err "failed to decoding hex string" (hex_DecodeString s).

Definition Hex2Addr (s : string) : result Address :=
  let* b := wrap_err "hex2byte err" (Hex2Bytes s) in Ok (copy_to_array 20 b).

(** ** convertime.go *)

Class TimeFormat := time_RFC3339 : Time → string.

Definition ConvertTime2Str `{TF : TimeFormat} (t : Time) : string :=
  if decide (t = 0) then "" else time_RFC3339 t.

(** ** The record of a block *)

Definition ConvertBlock2Line {BL : BitSetLib} {RH : RlpHeader} {TF : TimeFormat} (b : Block)
    : result (list string) :=
  let* blockHash := wrap_err "CalcHash failed" (Block_Hash b) in
  let h := b_Header b in
  Ok [hex_EncodeToString (ParentBlockHash h);
      hex_EncodeToString blockHash;
      hex_EncodeToString (StateRoot h);
      pretty (Number h);
      ConvertTime2Str (BCreateTime h);
      hex_EncodeToString (LocationRoot h);
      hex_EncodeToString (TxRoot (h_TxHeaderOpt h));
      pretty (Z.of_nat (length (TxList (b_Body b))));
      hex_EncodeToString (MigratedAccountsRoot (h_MigrationHeaderOpt h));
      pretty (Z.of_nat (length (MigratedAddrs (b_MigrationOpt b))))].

(** ** Facts *)

#[local] Arguments hex_digit : simpl never.
#[local] Arguments hex_value : simpl never.
#[local] Arguments Nat.div : simpl never.
#[local] Arguments Nat.modulo : simpl never.

Lemma hex_digit_value n : (n < 16)%nat → hex_value (hex_digit n) = Some (Z.of_nat n).
Proof. intros H. do 16 (destruct n as [|n]; [reflexivity|]). lia. Qed.

Lemma hex_byte_value (x : byte) :
  Z_to_byte (16 * Z.of_nat (Byte.to_nat x / 16) + Z.of_nat (Byte.to_nat x mod 16)) = x.
Proof. destruct x; reflexivity. Qed.

Lemma concat_nil_cons s l : String.concat "" (s :: l) = (s +:+ String.concat "" l)%string.
Proof. destruct l; [|done]. cbn. symmetry. induction s as [|c s IH]; [done|]. by apply (f_equal (String c)). Qed.

Lemma append_cons c (s t : string) : String c s +:+ t = String c (s +:+ t).
Proof. reflexivity. Qed.
Lemma append_nil (t : string) : "" +:+ t = t.
Proof. reflexivity. Qed.

Lemma hex_roundtrip b : hex_DecodeString (hex_EncodeToString b) = Ok b.
Proof.
  induction b as [|x b IH]; [done|]. unfold hex_EncodeToString in *. cbn [map].
  rewrite concat_nil_cons, !append_cons, append_nil. cbn.
  pose proof (Byte.to_nat_bounded x).
  rewrite !hex_digit_value; [| apply Nat.mod_upper_bound; lia | apply Nat.Div0.div_lt_upper_bound; lia].
  rewrite IH. cbn [rbind]. by rewrite hex_byte_value.
Qed.

Lemma hex_digit_not_x n : (n < 16)%nat → hex_digit n ≠ "x"%char ∧ hex_digit n ≠ "X"%char.
Proof. intros H. do 16 (destruct n as [|n]; [split; discriminate|]). lia. Qed.

(** Parsing hexadecimal text inverts printing it, with either prefix or
    none, and an address printed in full is parsed back to itself. *)
Theorem Hex2Bytes_roundtrip b prefix : prefix ∈ [""; "0x"; "0X"] →
  Hex2Bytes (prefix +:+ hex_EncodeToString b) = Ok b ∧
  ∀ a : Address, Hex2Addr (prefix +:+ hex_EncodeToString (addr_bytes a)) = Ok a.
Proof.
  intros Hp.
  assert (∀ b, Hex2Bytes (prefix +:+ hex_EncodeToString b) = Ok b) as Hb.
  { intros b'. unfold Hex2Bytes. rewrite !elem_of_cons, elem_of_nil in Hp.
    destruct Hp as [->|[->|[->|[]]]]; rewrite ?append_cons, append_nil.
    - destruct b' as [|x b']; [done|]. unfold hex_EncodeToString. cbn [map].
      rewrite concat_nil_cons, !append_cons, append_nil. cbn.
      pose proof (Byte.to_nat_bounded x).
      rewrite decide_False.
      + pose proof (hex_roundtrip (x :: b')) as Hr. unfold hex_EncodeToString in Hr. cbn [map] in Hr.
        rewrite concat_nil_cons, !append_cons, append_nil in Hr. by rewrite Hr.
      + destruct (hex_digit_not_x (Byte.to_nat x mod 16)) as [? ?]; [apply Nat.mod_upper_bound; lia|]. tauto.
    - rewrite decide_True by tauto. by rewrite hex_roundtrip.
    - rewrite decide_True by tauto. by rewrite hex_roundtrip. }
  split; [apply Hb|]. intros a. unfold Hex2Addr. rewrite Hb. cbn [wrap_err rbind]. by rewrite copy_to_array_bytes.
Qed.

Lemma Hex2Bytes_roundtrip_witness : Hex2Bytes "0Xff10" = Ok [Z_to_byte 255; Z_to_byte 16].
Proof. apply (Hex2Bytes_roundtrip [Z_to_byte 255; Z_to_byte 16] "0X"). right; right; left. Defined.
