(* ===== verification/CsvWrite.v ===== *)
(** * CSV files

    Models pkg/csvwrite: [WriteAllToCSV] writes a file at once, a
    [CSVSeqWriter] keeps one open and writes it line by line.  The files of the
    machine and encoding/csv's writer are the class [CsvLib]. *)

From S2P Require Import Prelude.

(** The file system [Fs], an open file with its [csv.Writer], and their
    operations.  [os_MkdirAll p] makes the directory of [p]; [os_OpenFile]
    creates a file and fails when it exists. *)
Class CsvLib := {
  Fs : Type;
  Csw : Type;
  filepath_Join : string → string → string;
  os_MkdirAll : string → M Fs unit;
  os_OpenFile : string → M Fs Csw;
  os_IsExist : error → bool;
  file_Close : Csw → M Fs unit;
  csv_Write : list string → M Csw unit;
  csv_Flush : Csw → Csw;
  csv_Error : Csw → result unit;
}.

Section csvwrite.
  Context {CL : CsvLib}.

Definition createFileWithDirs (path : string) : M Fs Csw :=
  os_MkdirAll path ;;! λ fs,
  match os_OpenFile path fs with
  | (Err e, fs') => (Err (if os_IsExist e then "file already exists: %s" else e), fs')
  | p => p
  end.

(** [w.Flush(); return w.Error()] *)
Definition flush_error : M Csw unit := st_modify csv_Flush ;;! λ w, (csv_Error w, w).

Definition write_all (header : list string) (rows : list (list string)) : M Csw unit :=
  st_wrap "failed to write header" (csv_Write header) ;;!
  st_for (λ row, st_wrap "failed to write row" (csv_Write row)) rows ;;!
  flush_error.

(** The file is closed whatever happened, and what closing it returned is
    ignored. *)
Definition WriteAllToCSV (path : string) (header : list string) (rows : list (list string)) : M Fs unit :=
  let! f := st_wrap "failed to create file" (createFileWithDirs path) in
  λ fs, let '(r, f') := write_all header rows f in (r, (file_Close f' fs).2).

Definition NewCSVSeqWriter (path : string) (title : list string) : M Fs Csw :=
  let! f := st_wrap "createFileWithDirs failed" (createFileWithDirs path) in
  λ fs, let '(r, f') := (st_wrap "csv write failed" (csv_Write title) ;;!
                         st_wrap "csv flush failed" flush_error) f in
        (let* _ := r in Ok f', fs).

Definition WriteLine2CSV (line : list string) : M Csw unit :=
  st_wrap "failed to write line" (csv_Write line) ;;! flush_error.

Definition csw_Close (f : Csw) : M Fs unit := file_Close f.
End csvwrite.

(** Files as lists of lines, a file system as the files closed. *)
Module CsvDemo.
#[export] Instance csv : CsvLib := {|
  Fs := gmap string (list (list string));
  Csw := string * list (list string);
  filepath_Join d p := d +:+ "/" +:+ p;
  os_MkdirAll _ := st_ret tt;
  os_OpenFile p fs := (match fs !! p with Some _ => Err "file exists" | None => Ok (p, []) end, fs);
  os_IsExist e := bool_decide (e = "file exists");
  file_Close f := st_modify <[f.1 := f.2]>;
  csv_Write l := st_modify (λ f, (f.1, f.2 ++ [l]));
  csv_Flush f := f;
  csv_Error _ := Ok tt;
|}.

Example write_read : WriteAllToCSV "f" ["h"] [["1"]; ["2"]] ∅ = (Ok tt, {["f" := [["h"]; ["1"]; ["2"]]]}).
Proof. vm_compute. reflexivity. Qed.
Example write_twice : (WriteAllToCSV "f" ["h"] [] {["f" := []]}).1 =
  Err "failed to create file: file already exists: %s".
Proof. vm_compute. reflexivity. Qed.
End CsvDemo.
