(* ===== verification/Config.v ===== *)
(** * Configuration

    Models the parts of config/ the core logic reads: system, node, supervisor
    and local parameters. *)

From S2P Require Import Prelude GoHash Account Bloom.

Definition StaticRelayConsensus : string := "static_relay".
Definition StaticBrokerConsensus : string := "static_broker".
Definition CLPARelayConsensus : string := "clpa_relay".
Definition CLPABrokerConsensus : string := "clpa_broker".

Definition TxPoolNumType : string := "number".
Definition TxPoolByteType : string := "byte".

Record SystemCfg := mkSystemCfg {
  ShardNum : Z; NodeNum : Z; ConsensusType : string; BlockSizeLimit : Z;
}.

Record LocalParams := mkLocalParams { NodeID : Z; ShardID : Z; WalletAddr : Address }.

Record ConsensusNodeCfg := mkConsensusNodeCfg {
  cn_Sys : SystemCfg;
  cn_Bloom : BloomFilterCfg;
  cn_TxPoolType : string;
  cn_BlockInterval : Z;
}.

Record TxSourceCfg := mkTxSourceCfg { TxSourceType : string; ExcludeContractTxs : bool }.

Record BrokerModuleCfg := mkBrokerModuleCfg { BrokerNum : Z }.

Record SupervisorCfg := mkSupervisorCfg {
  sv_Sys : SystemCfg;
  sv_TxNumber : Z;
  sv_TxInjectionSpeed : Z;
  sv_EpochDuration : Z;
  sv_TxSource : TxSourceCfg;
  sv_BrokerModule : BrokerModuleCfg;
}.

(** [nodetopo.NodeInfo] *)
Record NodeInfo := mkNodeInfo { ni_NodeID : Z; ni_ShardID : Z }.

#[export] Instance NodeInfo_eq_dec : EqDecision NodeInfo.
Proof. solve_decision. Defined.
#[export] Program Instance NodeInfo_countable : Countable NodeInfo :=
  inj_countable' (λ n, (ni_NodeID n, ni_ShardID n)) (λ p, mkNodeInfo p.1 p.2) _.
Next Obligation. by intros []. Qed.

Definition SupervisorShardID : Z := 0x7fffffff.
