(* ===== verification/MsgPool.v ===== *)
(** * The PBFT message pool

    Models consensus/pbft/basicstructs: [ViewSeq] and its order (viewseq.go),
    the three message orders (pq.go) and [MsgPool] (pool.go).  A read takes
    every message up to a bound off its queue, in order. *)

From S2P Require Import Prelude PriorityQueue GoHash Account Bloom Block.
From Stdlib Require Import Lia.

Local Open Scope Z_scope.

Record ViewSeq := mkViewSeq { View : Z; Seq : Z }.
#[export] Instance ViewSeq_eta : Eta ViewSeq := λ v, mkViewSeq (View v) (Seq v).
#[export] Instance ViewSeq_eq_dec : EqDecision ViewSeq.
Proof. solve_decision. Defined.

Definition Compare (v other : ViewSeq) : Z :=
  if decide (View v ≠ View other) then
    if decide (View v < View other) then -1 else 1
  else if decide (Seq v ≠ Seq other) then
    if decide (Seq v < Seq other) then -1 else 1
  else 0.

(** A message queue is drained up to [end]: the loop of the three readers. *)
Section read.
  Context {T : Type} (key : T → ViewSeq).

Definition msgLess (a b : T) : bool := bool_decide (Compare (key a) (key b) = -1).

Fixpoint read_loop (fuel : nat) (last : ViewSeq) (ret q : list T) : result (list T * list T) :=
  match fuel with
  | O => Panic
  | S fuel' =>
    if decide (Len q = 0%nat) then Ok (ret, q)
    else
      let* ' (top, q') := PopItem msgLess q in
      if decide (Compare last (key top) = -1) then
        let* q'' := PushItem msgLess q' top in Ok (ret, q'')
      else read_loop fuel' last (ret ++ [top]) q'
  end.

Definition read_msgs (last : ViewSeq) (q : list T) : result (list T * list T) :=
  read_loop (S (length q)) last [] q.
End read.

Section pool.
  Context `{BL : BitSetLib}.

Definition pp_vs (m : PreprepareMsg) : ViewSeq := mkViewSeq (pp_View m) (pp_Seq m).
Definition p_vs (m : PrepareMsg) : ViewSeq := mkViewSeq (p_View m) (p_Seq m).
Definition c_vs (m : CommitMsg) : ViewSeq := mkViewSeq (c_View m) (c_Seq m).

Definition PreprepareMsgLess (a b : PreprepareMsg) : bool := msgLess pp_vs a b.
Definition PrepareMsgLess (a b : PrepareMsg) : bool := msgLess p_vs a b.
Definition CommitMsgLess (a b : CommitMsg) : bool := msgLess c_vs a b.

Record MsgPool := mkMsgPool {
  preprepares : list PreprepareMsg;
  prepares : list PrepareMsg;
  commits : list CommitMsg;
}.
#[export] Instance MsgPool_eta : Eta MsgPool := λ m,
  mkMsgPool (preprepares m) (prepares m) (commits m).

Definition NewMsgPool : MsgPool := mkMsgPool NewPQ NewPQ NewPQ.

Definition ReadPreprepareMsg (last : ViewSeq) (m : MsgPool) : result (list PreprepareMsg * MsgPool) :=
  let* ' (ret, q) := read_msgs pp_vs last (preprepares m) in Ok (ret, m <| preprepares := q |>).

Definition ReadPrepareMsg (last : ViewSeq) (m : MsgPool) : result (list PrepareMsg * MsgPool) :=
  let* ' (ret, q) := read_msgs p_vs last (prepares m) in Ok (ret, m <| prepares := q |>).

Definition ReadCommitMsg (last : ViewSeq) (m : MsgPool) : result (list CommitMsg * MsgPool) :=
  let* ' (ret, q) := read_msgs c_vs last (commits m) in Ok (ret, m <| commits := q |>).

Definition PushPreprepareMsg (ppMsg : PreprepareMsg) (m : MsgPool) : result MsgPool :=
  let* q := PushItem PreprepareMsgLess (preprepares m) ppMsg in Ok (m <| preprepares := q |>).

Definition PushPrepareMsg (pMsg : PrepareMsg) (m : MsgPool) : result MsgPool :=
  let* q := PushItem PrepareMsgLess (prepares m) pMsg in Ok (m <| prepares := q |>).

Definition PushCommitMsg (cMsg : CommitMsg) (m : MsgPool) : result MsgPool :=
  let* q := PushItem CommitMsgLess (commits m) cMsg in Ok (m <| commits := q |>).

(** The pool's invariant: each queue is a heap. *)
Definition pool_inv (m : MsgPool) : Prop :=
  heap_inv PreprepareMsgLess (preprepares m) ∧
  heap_inv PrepareMsgLess (prepares m) ∧
  heap_inv CommitMsgLess (commits m).

End pool.

(** ** Facts *)

Ltac solve_compare := unfold Compare in *; repeat case_decide; first [lia | congruence | naive_solver lia].

Lemma Compare_lt a b :
  Compare a b = -1 ↔ View a < View b ∨ (View a = View b ∧ Seq a < Seq b).
Proof. unfold Compare; repeat case_decide; lia. Qed.

Lemma Compare_gt a b :
  0 < Compare a b ↔ View b < View a ∨ (View a = View b ∧ Seq b < Seq a).
Proof. unfold Compare; repeat case_decide; lia. Qed.

Lemma Compare_eq a b : Compare a b = 0 ↔ a = b.
Proof.
  destruct a, b; unfold Compare; cbn; repeat case_decide;
    (split; [intros; f_equal; lia | intros [= -> ->]; lia]).
Qed.

#[export] Instance msgLess_strict_weak {T} (key : T → ViewSeq) : StrictWeak (msgLess key).
Proof.
  split; unfold msgLess; intros a b; [|intros c];
    rewrite ?bool_decide_eq_true, ?bool_decide_eq_false, ?Compare_lt; lia.
Qed.

Section read_facts.
  Context {T : Type} (key : T → ViewSeq).
Let le (a b : T) : Prop := msgLess key b a = false.

Lemma read_loop_spec fuel last ret q :
  (length q < fuel)%nat → heap_inv (msgLess key) q →
  ∃ l q', read_loop key fuel last ret q = Ok (ret ++ l, q') ∧ heap_inv (msgLess key) q' ∧
    q ≡ₚ l ++ q' ∧ Forall (λ m, Compare last (key m) ≠ -1) l ∧
    Forall (λ m, Compare last (key m) = -1) q' ∧ StronglySorted le l.
Proof.
  revert ret q; induction fuel as [|fuel IH]; intros ret q Hf Hh; [lia|]. cbn [read_loop].
  case_decide as E.
  { destruct q; [|done]. exists [], []. rewrite !app_nil_r. split_and!; first [done | by constructor]. }
  destruct (PopItem_spec (msgLess key) q) as (top & q' & -> & Hp & Hh' & Hmin);
    [done | by intros -> |]. cbn [rbind].
  case_decide as Et.
  - destruct (PushItem_spec (msgLess key) q' top) as (q'' & -> & Hp2 & Hh2); [done|]. cbn [rbind].
    exists [], q''. rewrite app_nil_r. split_and!; try done.
    + by rewrite Hp, Hp2.
    + rewrite Hp2, <- Hp. eapply Forall_impl; [done|]. intros m Hm; cbn in *.
      unfold msgLess in Hm. rewrite bool_decide_eq_false, Compare_lt in Hm.
      rewrite Compare_lt in Et |- *. lia.
    + constructor.
  - destruct (IH (ret ++ [top]) q') as (l & q'' & -> & Hh2 & Hp2 & Hl & Hq & Hs); [|done|].
    { apply Permutation_length in Hp; cbn in Hp; lia. }
    exists (top :: l), q''. rewrite <- app_assoc. split_and!; try done.
    + by rewrite Hp, Hp2.
    + by constructor.
    + constructor; [done|]. rewrite Hp, Hp2, Forall_cons, Forall_app in Hmin. by destruct_and!.
Qed.

(** A read returns exactly the queued messages up to the bound, in order. *)
Lemma read_msgs_spec last q :
  heap_inv (msgLess key) q →
  ∃ l q', read_msgs key last q = Ok (l, q') ∧ heap_inv (msgLess key) q' ∧
    q ≡ₚ l ++ q' ∧ Forall (λ m, Compare last (key m) ≠ -1) l ∧
    Forall (λ m, Compare last (key m) = -1) q' ∧ StronglySorted le l.
Proof. intros Hh. apply (read_loop_spec (S (length q)) last [] q); [lia | done]. Qed.
End read_facts.

(** The readers and writers of the pool keep its invariant, never panic, and
    touch one queue. *)
Section pool_facts.
  Context `{BL : BitSetLib}.

Lemma NewMsgPool_inv : pool_inv NewMsgPool.
Proof. split_and!; intros i x y Hi Hx; discriminate Hx. Qed.

Lemma ReadPreprepareMsg_spec last (m : MsgPool) : pool_inv m →
  ∃ l q, ReadPreprepareMsg last m = Ok (l, m <| preprepares := q |>) ∧
    pool_inv (m <| preprepares := q |>) ∧ preprepares m ≡ₚ l ++ q ∧
    Forall (λ x, Compare last (pp_vs x) ≠ -1) l ∧ Forall (λ x, Compare last (pp_vs x) = -1) q.
Proof.
  intros (H1 & H2 & H3). unfold ReadPreprepareMsg.
  destruct (read_msgs_spec pp_vs last (preprepares m)) as (l & q & -> & Hh & Hp & Hl & Hq & _);
    [done|]. exists l, q. by split_and!.
Qed.

Lemma ReadPrepareMsg_spec last (m : MsgPool) : pool_inv m →
  ∃ l q, ReadPrepareMsg last m = Ok (l, m <| prepares := q |>) ∧
    pool_inv (m <| prepares := q |>) ∧ prepares m ≡ₚ l ++ q ∧
    Forall (λ x, Compare last (p_vs x) ≠ -1) l ∧ Forall (λ x, Compare last (p_vs x) = -1) q.
Proof.
  intros (H1 & H2 & H3). unfold ReadPrepareMsg.
  destruct (read_msgs_spec p_vs last (prepares m)) as (l & q & -> & Hh & Hp & Hl & Hq & _);
    [done|]. exists l, q. by split_and!.
Qed.

Lemma ReadCommitMsg_spec last (m : MsgPool) : pool_inv m →
  ∃ l q, ReadCommitMsg last m = Ok (l, m <| commits := q |>) ∧
    pool_inv (m <| commits := q |>) ∧ commits m ≡ₚ l ++ q ∧
    Forall (λ x, Compare last (c_vs x) ≠ -1) l ∧ Forall (λ x, Compare last (c_vs x) = -1) q.
Proof.
  intros (H1 & H2 & H3). unfold ReadCommitMsg.
  destruct (read_msgs_spec c_vs last (commits m)) as (l & q & -> & Hh & Hp & Hl & Hq & _);
    [done|]. exists l, q. by split_and!.
Qed.

Lemma PushPreprepareMsg_spec x (m : MsgPool) : pool_inv m →
  ∃ q, PushPreprepareMsg x m = Ok (m <| preprepares := q |>) ∧
    pool_inv (m <| preprepares := q |>) ∧ q ≡ₚ x :: preprepares m.
Proof.
  intros (H1 & H2 & H3). unfold PushPreprepareMsg.
  destruct (PushItem_spec PreprepareMsgLess (preprepares m) x) as (q & -> & Hp & Hh); [done|].
  exists q. by split_and!.
Qed.

Lemma PushPrepareMsg_spec x (m : MsgPool) : pool_inv m →
  ∃ q, PushPrepareMsg x m = Ok (m <| prepares := q |>) ∧
    pool_inv (m <| prepares := q |>) ∧ q ≡ₚ x :: prepares m.
Proof.
  intros (H1 & H2 & H3). unfold PushPrepareMsg.
  destruct (PushItem_spec PrepareMsgLess (prepares m) x) as (q & -> & Hp & Hh); [done|].
  exists q. by split_and!.
Qed.

Lemma PushCommitMsg_spec x (m : MsgPool) : pool_inv m →
  ∃ q, PushCommitMsg x m = Ok (m <| commits := q |>) ∧
    pool_inv (m <| commits := q |>) ∧ q ≡ₚ x :: commits m.
Proof.
  intros (H1 & H2 & H3). unfold PushCommitMsg.
  destruct (PushItem_spec CommitMsgLess (commits m) x) as (q & -> & Hp & Hh); [done|].
  exists q. by split_and!.
Qed.
End pool_facts.

(** ** Reads after any pushes *)

Section after_pushes.
  Context `{BL : BitSetLib}.

Definition push_all {A} (push : A → MsgPool → result MsgPool) (ms : list A) (mp : MsgPool)
    : result MsgPool := rfold (λ mp m, push m mp) mp ms.

(** What a read of a queue that holds [ms] gives: the messages up to [last] in
    the order of their view and sequence, and the others left in the queue. *)
Definition read_of {A} (key : A → ViewSeq) (last : ViewSeq) (ms l rest : list A) : Prop :=
  l ≡ₚ filter (λ m, Compare last (key m) ≠ -1) ms ∧
  rest ≡ₚ filter (λ m, Compare last (key m) = -1) ms ∧
  StronglySorted (λ a b, Compare (key b) (key a) ≠ -1) l.

Lemma read_msgs_of {A} (key : A → ViewSeq) last q : heap_inv (msgLess key) q →
  ∃ l q', read_msgs key last q = Ok (l, q') ∧ read_of key last q l q'.
Proof.
  intros Hh. destruct (read_msgs_spec key last q Hh) as (l & q' & E & _ & Hp & Hl & Hq & Hs).
  exists l, q'. split; [done|]. clear E. split_and!.
  - rewrite Hp, filter_app, (filter_all _ l), (filter_none _ q'), app_nil_r; [done| |done].
    eapply Forall_impl; [exact Hq|]. intros x Hx Hn. by apply Hn.
  - rewrite Hp, filter_app, (filter_all _ q'), (filter_none _ l); [done..|]. done.
  - clear Hp Hl. induction Hs as [|a l Hs IH Ha]; constructor; [exact IH|].
    eapply Forall_impl; [exact Ha|]. intros b Hab. cbn in Hab. unfold msgLess in Hab.
    by apply bool_decide_eq_false in Hab.
Qed.

Lemma read_of_perm {A} (key : A → ViewSeq) last ms ms' l rest :
  ms ≡ₚ ms' → read_of key last ms l rest → read_of key last ms' l rest.
Proof. intros Hp (H1 & H2 & H3). split_and!; [by rewrite <- Hp..|done]. Qed.

Lemma push_all_spec {A} (push : A → MsgPool → result MsgPool) (get : MsgPool → list A) ms mp :
  (∀ x m, pool_inv m → ∃ m', push x m = Ok m' ∧ pool_inv m' ∧ get m' ≡ₚ x :: get m) →
  pool_inv mp → ∃ mp', push_all push ms mp = Ok mp' ∧ pool_inv mp' ∧ get mp' ≡ₚ ms ++ get mp.
Proof.
  intros Hpush. revert mp; induction ms as [|x ms IH]; intros mp Hi; cbn.
  { exists mp. by split_and!. }
  destruct (Hpush x mp Hi) as (m1 & -> & Hi1 & Hp1). cbn.
  destruct (IH m1 Hi1) as (m2 & E & Hi2 & Hp2). exists m2. split_and!; try done.
  rewrite Hp2, Hp1. by rewrite Permutation_middle.
Qed.

(** The pool orders and filters.  Messages of a phase pushed in any order
    are all accepted; reading up to a view and sequence then never panics,
    returns exactly the pushed messages not after that bound, duplicates
    included, sorted by view and sequence, and leaves exactly the others. *)
Theorem MsgPool_reads pps ps cs last :
  (∃ mp l mp', push_all PushPreprepareMsg pps NewMsgPool = Ok mp ∧
     ReadPreprepareMsg last mp = Ok (l, mp') ∧ read_of pp_vs last pps l (preprepares mp')) ∧
  (∃ mp l mp', push_all PushPrepareMsg ps NewMsgPool = Ok mp ∧
     ReadPrepareMsg last mp = Ok (l, mp') ∧ read_of p_vs last ps l (prepares mp')) ∧
  (∃ mp l mp', push_all PushCommitMsg cs NewMsgPool = Ok mp ∧
     ReadCommitMsg last mp = Ok (l, mp') ∧ read_of c_vs last cs l (commits mp')).
Proof.
  split_and!.
  - destruct (push_all_spec PushPreprepareMsg preprepares pps NewMsgPool) as (mp & E & (Hi & _) & Hp).
    { intros x m Hm. destruct (PushPreprepareMsg_spec x m Hm) as (q & ? & ? & ?). by eexists. }
    { apply NewMsgPool_inv. }
    destruct (read_msgs_of pp_vs last _ Hi) as (l & q & Er & Hr).
    exists mp, l. eexists. split; [done|]. unfold ReadPreprepareMsg. rewrite Er. split; [done|].
    eapply read_of_perm; [|exact Hr]. by rewrite Hp, app_nil_r.
  - destruct (push_all_spec PushPrepareMsg prepares ps NewMsgPool) as (mp & E & (_ & Hi & _) & Hp).
    { intros x m Hm. destruct (PushPrepareMsg_spec x m Hm) as (q & ? & ? & ?). by eexists. }
    { apply NewMsgPool_inv. }
    destruct (read_msgs_of p_vs last _ Hi) as (l & q & Er & Hr).
    exists mp, l. eexists. split; [done|]. unfold ReadPrepareMsg. rewrite Er. split; [done|].
    eapply read_of_perm; [|exact Hr]. by rewrite Hp, app_nil_r.
  - destruct (push_all_spec PushCommitMsg commits cs NewMsgPool) as (mp & E & (_ & _ & Hi) & Hp).
    { intros x m Hm. destruct (PushCommitMsg_spec x m Hm) as (q & ? & ? & ?). by eexists. }
    { apply NewMsgPool_inv. }
    destruct (read_msgs_of c_vs last _ Hi) as (l & q & Er & Hr).
    exists mp, l. eexists. split; [done|]. unfold ReadCommitMsg. rewrite Er. split; [done|].
    eapply read_of_perm; [|exact Hr]. by rewrite Hp, app_nil_r.
Qed.
End after_pushes.
