(* ===== verification/ConsensusMeta.v ===== *)
(** * The PBFT state machine

    Models consensus/pbft/pbftmeta.go: the metadata of one node's consensus,
    its three stages, and the catch-up bookkeeping.  [mstep] is the state
    machine a node drives, with the messages it received as a ghost log; the
    certificate theorems say what a committed round has behind it. *)

From S2P Require Import Prelude PriorityQueue GoHash Account Bloom Block Config MsgPool.
From Stdlib Require Import Lia.

Local Open Scope Z_scope.

Definition initialLeader : Z := 0.
Definition stagePreprepare : Z := 0.
Definition stagePrepare : Z := 1.
Definition stageCommit : Z := 2.
Definition stageNewView : Z := 3.
Definition stageViewChange : Z := 4.
Definition catchUpThreshold : Z := 5.

Section meta.
  Context `{BL : BitSetLib}.

Record consensusMeta := mkConsensusMeta {
  cm_cfg : ConsensusNodeCfg;
  cm_lp : LocalParams;
  f : Z;
  leader : Z;
  closed : bool;
  msgPool : MsgPool;
  proposed : bool;
  curViewSeq : ViewSeq;
  stage : Z;
  curPreprepare : option PreprepareMsg;
  lastProposal : option Proposal;
  lastProposeTime : Time;
  prepareSet : gset NodeInfo;
  commitSet : gset NodeInfo;
  latestViewSeq : ViewSeq;
  catchupStarted : bool;
}.

#[export] Instance consensusMeta_eta : Eta consensusMeta := λ c,
  mkConsensusMeta (cm_cfg c) (cm_lp c) (f c) (leader c) (closed c) (msgPool c) (proposed c)
    (curViewSeq c) (stage c) (curPreprepare c) (lastProposal c) (lastProposeTime c)
    (prepareSet c) (commitSet c) (latestViewSeq c) (catchupStarted c).

Definition newConsensusMeta (cfg : ConsensusNodeCfg) (lp : LocalParams) (now : Time)
    : consensusMeta :=
  mkConsensusMeta cfg lp (Z.quot (wrap_i64 (NodeNum (cn_Sys cfg) - 1)) 3) initialLeader false
    NewMsgPool false (mkViewSeq 0 0) stagePreprepare None None now ∅ ∅ (mkViewSeq 0 0) false.

(** The loops of [curateMsg] over the messages read from the pool. *)
Fixpoint curate_preprepares (l : list PreprepareMsg) (c : consensusMeta) : consensusMeta :=
  match l with
  | [] => c
  | ppMsg :: l' =>
    if decide (Compare (curViewSeq c) (pp_vs ppMsg) ≠ 0 ∨ pp_NodeID ppMsg ≠ leader c)
    then curate_preprepares l' c
    else c <| curPreprepare := Some ppMsg |>
  end.

Fixpoint curate_prepares (pp : PreprepareMsg) (l : list PrepareMsg) (c : consensusMeta)
    : consensusMeta :=
  match l with
  | [] => c
  | pMsg :: l' =>
    if decide (Compare (curViewSeq c) (p_vs pMsg) ≠ 0 ∨ p_Digest pMsg ≠ pp_Digest pp)
    then curate_prepares pp l' c
    else curate_prepares pp l'
      (c <| prepareSet ::= λ s, {[ mkNodeInfo (p_NodeID pMsg) (p_ShardID pMsg) ]} ∪ s |>)
  end.

Fixpoint curate_commits (pp : PreprepareMsg) (l : list CommitMsg) (c : consensusMeta)
    : consensusMeta :=
  match l with
  | [] => c
  | cMsg :: l' =>
    if decide (Compare (curViewSeq c) (c_vs cMsg) ≠ 0 ∨ c_Digest cMsg ≠ pp_Digest pp)
    then curate_commits pp l' c
    else curate_commits pp l'
      (c <| commitSet ::= λ s, {[ mkNodeInfo (c_NodeID cMsg) (c_ShardID cMsg) ]} ∪ s |>)
  end.

Definition curateMsg (c : consensusMeta) : result consensusMeta :=
  let* c1 :=
    match curPreprepare c with
    | Some _ => Ok c
    | None =>
      let* ' (ppMsgList, mp) := ReadPreprepareMsg (curViewSeq c) (msgPool c) in
      Ok (curate_preprepares ppMsgList (c <| msgPool := mp |>))
    end in
  match curPreprepare c1 with
  | None => Ok c1
  | Some pp =>
    let* ' (pMsgList, mp) := ReadPrepareMsg (curViewSeq c1) (msgPool c1) in
    let c2 := curate_prepares pp pMsgList (c1 <| msgPool := mp |>) in
    let* ' (cMsgList, mp) := ReadCommitMsg (curViewSeq c2) (msgPool c2) in
    Ok (curate_commits pp cMsgList (c2 <| msgPool := mp |>))
  end.

(** [2*c.f+1] at Go's int64. *)
Definition quorum (c : consensusMeta) : Z := wrap_i64 (wrap_i64 (2 * f c) + 1).

(** Returns (oldStage, newStage). *)
Definition step2Next : M consensusMeta (Z * Z) := λ c,
  if decide (stage c = stagePreprepare) then
    match curPreprepare c with
    | None => (Ok (stagePreprepare, stagePreprepare), c)
    | Some _ => (Ok (stagePreprepare, stagePrepare), c <| stage := stagePrepare |>)
    end
  else if decide (stage c = stagePrepare) then
    if decide (Z.of_nat (size (prepareSet c)) < quorum c) then
      (Ok (stagePrepare, stagePrepare), c)
    else (Ok (stagePrepare, stageCommit), c <| stage := stageCommit |>)
  else if decide (stage c = stageCommit) then
    if decide (Z.of_nat (size (commitSet c)) < quorum c) then
      (Ok (stageCommit, stageCommit), c)
    else
      let c := c <| stage := stagePreprepare |> in
      match curPreprepare c with
      | None => (Panic, c)
      | Some pp =>
        (Ok (stageCommit, stagePreprepare),
         c <| lastProposal := Some (pp_P pp) |>
           <| curPreprepare := None |>
           <| prepareSet := ∅ |>
           <| commitSet := ∅ |>
           <| proposed := false |>
           <| curViewSeq ::= λ vs, mkViewSeq (View vs) (wrap_i64 (Seq vs + 1)) |>)
      end
  else (Err "invalid stage %d", c).

Definition updateLatestViewSeq (view seq : Z) (c : consensusMeta) : consensusMeta :=
  let vs := mkViewSeq view seq in
  if decide (Compare (latestViewSeq c) vs = -1) then c <| latestViewSeq := vs |> else c.

Definition catchupReady (c : consensusMeta) : bool :=
  if catchupStarted c then false
  else bool_decide (View (latestViewSeq c) = View (curViewSeq c)) &&
       bool_decide (wrap_i64 (Seq (curViewSeq c) + catchUpThreshold) ≤ Seq (latestViewSeq c)).

Definition catchupOverAndReset (vs : ViewSeq) (c : consensusMeta) : consensusMeta :=
  c <| catchupStarted := false |>
    <| curViewSeq := vs |>
    <| stage := stagePreprepare |>
    <| lastProposal := None |>
    <| curPreprepare := None |>
    <| prepareSet := ∅ |>
    <| commitSet := ∅ |>
    <| proposed := false |>.

(** ** The state machine a node drives

    The log keeps every message the node put in its pool. *)

Record msgLog := mkMsgLog {
  log_pp : list PreprepareMsg; log_p : list PrepareMsg; log_c : list CommitMsg;
}.

(** The parts of the metadata a node sets from outside this file. *)
Definition same_round (c c' : consensusMeta) : Prop :=
  f c' = f c ∧ leader c' = leader c ∧ msgPool c' = msgPool c ∧ curViewSeq c' = curViewSeq c ∧
  stage c' = stage c ∧ curPreprepare c' = curPreprepare c ∧ prepareSet c' = prepareSet c ∧
  commitSet c' = commitSet c.

Inductive event :=
| EvPreprepare (m : PreprepareMsg)
| EvPrepare (m : PrepareMsg)
| EvCommit (m : CommitMsg)
| EvCurate
| EvNext (r : result (Z * Z))
| EvCatchup (vs : ViewSeq)
| EvOther.

Inductive mstep : event → consensusMeta * msgLog → consensusMeta * msgLog → Prop :=
| mstep_preprepare c g m mp :
    PushPreprepareMsg m (msgPool c) = Ok mp →
    mstep (EvPreprepare m) (c, g)
      (updateLatestViewSeq (pp_View m) (pp_Seq m) (c <| msgPool := mp |>),
       mkMsgLog (m :: log_pp g) (log_p g) (log_c g))
| mstep_prepare c g m mp :
    PushPrepareMsg m (msgPool c) = Ok mp →
    mstep (EvPrepare m) (c, g)
      (c <| msgPool := mp |>, mkMsgLog (log_pp g) (m :: log_p g) (log_c g))
| mstep_commit c g m mp :
    PushCommitMsg m (msgPool c) = Ok mp →
    mstep (EvCommit m) (c, g)
      (c <| msgPool := mp |>, mkMsgLog (log_pp g) (log_p g) (m :: log_c g))
| mstep_curate c g c' : curateMsg c = Ok c' → mstep EvCurate (c, g) (c', g)
| mstep_next c g r c' : step2Next c = (r, c') → mstep (EvNext r) (c, g) (c', g)
| mstep_catchup c g vs : mstep (EvCatchup vs) (c, g) (catchupOverAndReset vs c, g)
| mstep_other c g c' : same_round c c' → mstep EvOther (c, g) (c', g).

Definition emptyLog : msgLog := mkMsgLog [] [] [].

Inductive reachable (cfg : ConsensusNodeCfg) (lp : LocalParams) : consensusMeta * msgLog → Prop :=
| reach_init now : reachable cfg lp (newConsensusMeta cfg lp now, emptyLog)
| reach_step e s s' : reachable cfg lp s → mstep e s s' → reachable cfg lp s'.

(** The votes a node casts: entering the commit stage broadcasts a commit
    message with the digest of the current preprepare ([commitBroadcast]). *)
Definition votes_of (e : event) (c : consensusMeta) : list (ViewSeq * bytes) :=
  match e, curPreprepare c with
  | EvNext (Ok (o, n)), Some pp =>
    if decide (o = stagePrepare ∧ n = stageCommit) then [(curViewSeq c, pp_Digest pp)] else []
  | _, _ => []
  end.

(** The rounds a node finished. *)
Definition rounds_of (e : event) : Z :=
  match e with
  | EvNext (Ok (o, n)) => if decide (o = stageCommit ∧ n = stagePreprepare) then 1 else 0
  | _ => 0
  end.

(** Runs without catch-up, with the number of finished rounds and the votes cast. *)
Inductive vreach (cfg : ConsensusNodeCfg) (lp : LocalParams)
    : Z → consensusMeta * msgLog → list (ViewSeq * bytes) → Prop :=
| vreach_init now : vreach cfg lp 0 (newConsensusMeta cfg lp now, emptyLog) []
| vreach_step k s v e s' :
    vreach cfg lp k s v → mstep e s s' → (∀ vs, e ≠ EvCatchup vs) →
    vreach cfg lp (k + rounds_of e) s' (votes_of e s.1 ++ v).

(** A log holds votes of [S] for a digest at a view and sequence. *)
Definition prepare_votes (g : msgLog) (vs : ViewSeq) (d : bytes) (S : gset NodeInfo) : Prop :=
  ∀ n, n ∈ S → ∃ m, m ∈ log_p g ∧ p_vs m = vs ∧ p_Digest m = d ∧
    n = mkNodeInfo (p_NodeID m) (p_ShardID m).
Definition commit_votes (g : msgLog) (vs : ViewSeq) (d : bytes) (S : gset NodeInfo) : Prop :=
  ∀ n, n ∈ S → ∃ m, m ∈ log_c g ∧ c_vs m = vs ∧ c_Digest m = d ∧
    n = mkNodeInfo (c_NodeID m) (c_ShardID m).

Definition pool_in_log (mp : MsgPool) (g : msgLog) : Prop :=
  (∀ m, m ∈ preprepares mp → m ∈ log_pp g) ∧
  (∀ m, m ∈ prepares mp → m ∈ log_p g) ∧
  (∀ m, m ∈ commits mp → m ∈ log_c g).

(** What holds of the round in progress. *)
Definition round_inv (c : consensusMeta) (g : msgLog) : Prop :=
  match curPreprepare c with
  | None => prepareSet c = ∅ ∧ commitSet c = ∅ ∧ stage c = stagePreprepare
  | Some pp =>
    pp ∈ log_pp g ∧ pp_vs pp = curViewSeq c ∧ pp_NodeID pp = leader c ∧
    prepare_votes g (curViewSeq c) (pp_Digest pp) (prepareSet c) ∧
    commit_votes g (curViewSeq c) (pp_Digest pp) (commitSet c) ∧
    (stage c = stagePreprepare ∨ stage c = stagePrepare ∨
     (stage c = stageCommit ∧ quorum c ≤ Z.of_nat (size (prepareSet c))))
  end.

Definition meta_inv (cfg : ConsensusNodeCfg) (s : consensusMeta * msgLog) : Prop :=
  let '(c, g) := s in
  pool_inv (msgPool c) ∧ pool_in_log (msgPool c) g ∧ round_inv c g ∧
  f c = Z.quot (wrap_i64 (NodeNum (cn_Sys cfg) - 1)) 3 ∧ leader c = initialLeader.

End meta.

(** ** Facts *)

Section meta_facts.
  Context `{BL : BitSetLib}.

Lemma curate_preprepares_spec l (c : consensusMeta) :
  curate_preprepares l c = c ∨
  ∃ m, curate_preprepares l c = c <| curPreprepare := Some m |> ∧ m ∈ l ∧
    pp_vs m = curViewSeq c ∧ pp_NodeID m = leader c.
Proof.
  induction l as [|m l IH]; cbn; [by left|]. case_decide as E.
  - destruct IH as [IH | (x & IH & Hx & ?)]; [by left|].
    right. exists x. split_and!; [done | by right | naive_solver..].
  - right. exists m. apply Decidable.not_or in E as [E1 E2].
    assert (Compare (curViewSeq c) (pp_vs m) = 0) as ->%Compare_eq by lia.
    split_and!; [done | by left | done | lia].
Qed.

Lemma curate_prepares_spec pp l (c : consensusMeta) :
  ∃ S, curate_prepares pp l c = c <| prepareSet := S ∪ prepareSet c |> ∧
    ∀ n, n ∈ S → ∃ m, m ∈ l ∧ p_vs m = curViewSeq c ∧ p_Digest m = pp_Digest pp ∧
      n = mkNodeInfo (p_NodeID m) (p_ShardID m).
Proof.
  revert c; induction l as [|m l IH]; intros c; cbn [curate_prepares].
  { exists ∅. split; [|set_solver]. rewrite union_empty_l_L. by destruct c. }
  case_decide as E.
  - destruct (IH c) as (S & -> & HS). exists S; split; [done|].
    intros n (x & Hx & ?)%HS. exists x. split; [by right | done].
  - match goal with |- context [curate_prepares pp l ?c'] =>
      destruct (IH c') as (S & -> & HS) end.
    exists ({[mkNodeInfo (p_NodeID m) (p_ShardID m)]} ∪ S). split.
    + cbn. f_equal. set_solver.
    + intros n [->%elem_of_singleton | (x & Hx & ?)%HS]%elem_of_union.
      * apply Decidable.not_or in E as [E1 E2]. exists m. split_and!; [by left | | | done].
        -- symmetry; apply Compare_eq; lia.
        -- destruct (decide (p_Digest m = pp_Digest pp)); done.
      * exists x. split; [by right | done].
Qed.

Lemma curate_commits_spec pp l (c : consensusMeta) :
  ∃ S, curate_commits pp l c = c <| commitSet := S ∪ commitSet c |> ∧
    ∀ n, n ∈ S → ∃ m, m ∈ l ∧ c_vs m = curViewSeq c ∧ c_Digest m = pp_Digest pp ∧
      n = mkNodeInfo (c_NodeID m) (c_ShardID m).
Proof.
  revert c; induction l as [|m l IH]; intros c; cbn [curate_commits].
  { exists ∅. split; [|set_solver]. rewrite union_empty_l_L. by destruct c. }
  case_decide as E.
  - destruct (IH c) as (S & -> & HS). exists S; split; [done|].
    intros n (x & Hx & ?)%HS. exists x. split; [by right | done].
  - match goal with |- context [curate_commits pp l ?c'] =>
      destruct (IH c') as (S & -> & HS) end.
    exists ({[mkNodeInfo (c_NodeID m) (c_ShardID m)]} ∪ S). split.
    + cbn. f_equal. set_solver.
    + intros n [->%elem_of_singleton | (x & Hx & ?)%HS]%elem_of_union.
      * apply Decidable.not_or in E as [E1 E2]. exists m. split_and!; [by left | | | done].
        -- symmetry; apply Compare_eq; lia.
        -- destruct (decide (c_Digest m = pp_Digest pp)); done.
      * exists x. split; [by right | done].
Qed.

(** The first half of [curateMsg] leaves the round as it was but for a
    preprepare of the leader found in the pool. *)
Definition curate_head (c : consensusMeta) : result consensusMeta :=
  match curPreprepare c with
  | Some _ => Ok c
  | None =>
    let* ' (ppMsgList, mp) := ReadPreprepareMsg (curViewSeq c) (msgPool c) in
    Ok (curate_preprepares ppMsgList (c <| msgPool := mp |>))
  end.

Lemma curateMsg_head c : curateMsg c =
  (let* c1 := curate_head c in
  match curPreprepare c1 with
  | None => Ok c1
  | Some pp =>
    let* ' (pMsgList, mp) := ReadPrepareMsg (curViewSeq c1) (msgPool c1) in
    let c2 := curate_prepares pp pMsgList (c1 <| msgPool := mp |>) in
    let* ' (cMsgList, mp) := ReadCommitMsg (curViewSeq c2) (msgPool c2) in
    Ok (curate_commits pp cMsgList (c2 <| msgPool := mp |>))
  end).
Proof. done. Qed.

Lemma pool_in_log_read (mp mp' : MsgPool) g :
  pool_in_log mp g →
  (∀ m, m ∈ preprepares mp' → m ∈ preprepares mp) →
  (∀ m, m ∈ prepares mp' → m ∈ prepares mp) →
  (∀ m, m ∈ commits mp' → m ∈ commits mp) → pool_in_log mp' g.
Proof. intros (H1 & H2 & H3) ???; split_and!; auto. Qed.

Lemma perm_app_elem {A} (l l1 l2 : list A) : l ≡ₚ l1 ++ l2 →
  (∀ x, x ∈ l1 → x ∈ l) ∧ (∀ x, x ∈ l2 → x ∈ l).
Proof. intros Hp; split; intros x Hx; rewrite Hp; apply elem_of_app; auto. Qed.

Lemma curate_head_spec cfg (c : consensusMeta) g : meta_inv cfg (c, g) →
  ∃ c', curate_head c = Ok c' ∧ meta_inv cfg (c', g) ∧ curViewSeq c' = curViewSeq c ∧
    stage c' = stage c.
Proof.
  intros (Hp & Hl & Hr & Hf & Hld). unfold curate_head.
  destruct (curPreprepare c) as [pp|] eqn:Ec; [by exists c|].
  destruct (ReadPreprepareMsg_spec (curViewSeq c) (msgPool c) Hp) as (l & q & -> & Hp' & Hpm & _ & _).
  cbn [rbind]. apply perm_app_elem in Hpm as [Hl1 Hl2].
  eexists; split; [done|]. unfold round_inv in Hr; rewrite Ec in Hr.
  destruct (curate_preprepares_spec l (c <| msgPool := (msgPool c) <| preprepares := q |> |>))
    as [-> | (m & -> & Hm & Hvs & Hn)]; (split; [|done]).
  - split_and!; try done; [by eapply pool_in_log_read|]. unfold round_inv. cbn. by rewrite Ec.
  - split_and!; try done; [by eapply pool_in_log_read|]. unfold round_inv. cbn in *.
    destruct Hr as (-> & -> & ->). destruct Hl as (Hl & _).
    split_and!; try done; [by apply Hl, Hl1 | by left].
Qed.

(** [curateMsg] returns, and keeps the invariant. *)
Lemma curateMsg_inv cfg (c : consensusMeta) g : meta_inv cfg (c, g) →
  ∃ c', curateMsg c = Ok c' ∧ meta_inv cfg (c', g) ∧ curViewSeq c' = curViewSeq c ∧
    stage c' = stage c.
Proof.
  intros Hi. rewrite curateMsg_head.
  destruct (curate_head_spec cfg c g Hi) as (c1 & -> & (Hp & Hl & Hr & Hf & Hld) & <- & <-).
  cbn [rbind]. unfold round_inv in Hr. destruct (curPreprepare c1) as [pp|] eqn:Ec.
  2:{ exists c1. split; [done|]. split; [|done]. unfold meta_inv, round_inv. by rewrite Ec. }
  destruct (ReadPrepareMsg_spec (curViewSeq c1) (msgPool c1) Hp)
    as (l & q & -> & Hp' & [Hpl Hpq]%perm_app_elem & _ & _). cbn [rbind].
  destruct (curate_prepares_spec pp l (c1 <| msgPool := (msgPool c1) <| prepares := q |> |>))
    as (S & -> & HS).
  match goal with |- context [ReadCommitMsg ?v ?m] =>
    destruct (ReadCommitMsg_spec v m Hp') as (lc & qc & -> & Hpc & [Hcl Hcq]%perm_app_elem & _ & _)
  end. cbn [rbind].
  match goal with |- context [curate_commits pp lc ?c] =>
    destruct (curate_commits_spec pp lc c) as (T & -> & HT) end.
  eexists; split; [done|]. split; [|done]. cbn in *.
  destruct Hr as (H1 & H2 & H3 & H4 & H5 & H6). pose proof Hl as (L1 & L2 & L3).
  split_and!; try done; [by split_and!; cbn; auto |]. unfold round_inv; cbn. rewrite Ec.
  split_and!; try done.
  - intros n [(m & Hm & ?)%HS | ?]%elem_of_union; [|by apply H4].
    exists m. split; [by apply L2, Hpl | naive_solver].
  - intros n [(m & Hm & ?)%HT | ?]%elem_of_union; [|by apply H5].
    exists m. split; [by apply L3, Hcl | naive_solver].
  - destruct H6 as [?|[?|[? Hq]]]; [by left | by right; left | right; right]. split; [done|].
    unfold quorum in *. cbn in *. etrans; [exact Hq|]. apply inj_le, subseteq_size. set_solver.
Qed.

(** [step2Next] never panics, and keeps the invariant. *)
Lemma step2Next_inv cfg (c : consensusMeta) g r c' :
  meta_inv cfg (c, g) → step2Next c = (r, c') → meta_inv cfg (c', g) ∧ is_ok r.
Proof.
  intros (Hp & Hl & Hr & Hf & Hld) Hs. unfold round_inv in Hr. revert Hs. unfold step2Next.
  destruct (curPreprepare c) as [pp|] eqn:Ec.
  - destruct Hr as (H1 & H2 & H3 & H4 & H5 & H6).
    cbn. rewrite Ec. repeat case_decide; intros [= <- <-]; (split; [|first [done | tauto]]);
      split_and!; try done; unfold round_inv; cbn; rewrite ?Ec; split_and!; auto.
    right; right. split; [done|]. unfold quorum in *; cbn. lia.
  - destruct Hr as (H1 & H2 & H3). rewrite H3. cbn. intros [= <- <-]. split; [|done].
    split_and!; try done. unfold round_inv. by rewrite Ec.
Qed.

Lemma log_grow_round (c c' : consensusMeta) g g' :
  round_inv c g → same_round (c <| msgPool := msgPool c' |>) c' →
  (∀ m, m ∈ log_pp g → m ∈ log_pp g') → (∀ m, m ∈ log_p g → m ∈ log_p g') →
  (∀ m, m ∈ log_c g → m ∈ log_c g') → round_inv c' g'.
Proof.
  unfold round_inv, same_round, quorum, prepare_votes, commit_votes. cbn.
  intros Hr (-> & -> & _ & -> & -> & -> & -> & ->) L1 L2 L3.
  destruct (curPreprepare c); [|done]. destruct Hr as (H1 & H2 & H3 & H4 & H5 & H6).
  split_and!; auto.
  - intros n (m & ? & ?)%H4; eauto.
  - intros n (m & ? & ?)%H5; eauto.
Qed.

Lemma updateLatestViewSeq_same v s (c : consensusMeta) :
  same_round c (updateLatestViewSeq v s c).
Proof. unfold updateLatestViewSeq, same_round. by case_decide. Qed.

Lemma mk_meta_inv cfg (c : consensusMeta) g :
  pool_inv (msgPool c) → pool_in_log (msgPool c) g → round_inv c g →
  f c = Z.quot (wrap_i64 (NodeNum (cn_Sys cfg) - 1)) 3 → leader c = initialLeader →
  meta_inv cfg (c, g).
Proof. unfold meta_inv. auto 10. Qed.

Lemma meta_inv_init cfg lp now : meta_inv cfg (newConsensusMeta cfg lp now, emptyLog).
Proof.
  apply mk_meta_inv; done || (split_and!; intros m Hm; by apply not_elem_of_nil in Hm).
Qed.

Lemma elem_push {A} (q l : list A) x : q ≡ₚ x :: l → ∀ y, y ∈ q → y = x ∨ y ∈ l.
Proof. intros Hp y Hy. rewrite Hp in Hy. by apply elem_of_cons. Qed.

Lemma meta_inv_step cfg e (s s' : consensusMeta * msgLog) :
  meta_inv cfg s → mstep e s s' → meta_inv cfg s'.
Proof.
  intros Hi Hs; inversion Hs as [c g m mp E|c g m mp E|c g m mp E|c g c' E|c g r c' E|c g vs|c g c' E];
    subst; clear Hs; pose proof Hi as (Hp & Hl & Hr & Hf & Hld).
  - destruct (PushPreprepareMsg_spec m (msgPool c) Hp) as (q & E' & Hp' & Hq).
    rewrite E in E'; injection E' as ->. pose proof (elem_push _ _ _ Hq) as Hq'.
    destruct Hl as (L1 & L2 & L3).
    match goal with |- context [updateLatestViewSeq ?v ?s ?x] =>
      pose proof (updateLatestViewSeq_same v s x) as Hsr; revert Hsr;
      generalize (updateLatestViewSeq v s x); intros c' Hsr end.
    pose proof Hsr as (R1 & R2 & R3 & R4 & R5 & R6 & R7 & R8).
    apply mk_meta_inv; rewrite ?R1, ?R2, ?R3; try done; try exact Hp'.
    + by split_and!; [intros x [->|?]%Hq'; [left | right; auto] | |].
    + eapply log_grow_round; [done| |by right..|done|done]. rewrite R3. done.
  - destruct (PushPrepareMsg_spec m (msgPool c) Hp) as (q & E' & Hp' & Hq).
    rewrite E in E'; injection E' as ->. pose proof (elem_push _ _ _ Hq) as Hq'.
    destruct Hl as (L1 & L2 & L3). apply mk_meta_inv; try done; try exact Hp'.
    + by split_and!; [|intros x [->|?]%Hq'; [left | right; auto] |].
    + eapply log_grow_round; [done..| | by right |]; done.
  - destruct (PushCommitMsg_spec m (msgPool c) Hp) as (q & E' & Hp' & Hq).
    rewrite E in E'; injection E' as ->. pose proof (elem_push _ _ _ Hq) as Hq'.
    destruct Hl as (L1 & L2 & L3). apply mk_meta_inv; try done; try exact Hp'.
    + by split_and!; [| |intros x [->|?]%Hq'; [left | right; auto]].
    + eapply log_grow_round; [done..| | | by right]; done.
  - destruct (curateMsg_inv cfg c g Hi) as (c1 & E1 & Hi1 & _). congruence.
  - by eapply step2Next_inv.
  - by apply mk_meta_inv.
  - destruct E as (R1 & R2 & R3 & R4 & R5 & R6 & R7 & R8).
    apply mk_meta_inv; rewrite ?R1, ?R2, ?R3; try done; try exact Hp'.
    eapply log_grow_round; [done| |done..]. by split_and!.
Qed.

Lemma reachable_inv cfg lp s : reachable cfg lp s → meta_inv cfg s.
Proof.
  induction 1; [apply meta_inv_init | by eapply meta_inv_step].
Qed.

Lemma vreach_reachable cfg lp k s v : vreach cfg lp k s v → reachable cfg lp s.
Proof. induction 1; by econstructor. Qed.

Lemma curateMsg_keeps (c c' : consensusMeta) pp :
  curateMsg c = Ok c' → curPreprepare c = Some pp → curPreprepare c' = Some pp.
Proof.
  unfold curateMsg. intros H Ec. rewrite Ec in H. cbn [rbind] in H. rewrite Ec in H.
  apply rbind_ok in H as ([l mp] & _ & H). cbn in H.
  match type of H with context [curate_prepares pp l ?x] =>
    destruct (curate_prepares_spec pp l x) as (S & HS & _) end.
  rewrite HS in H. apply rbind_ok in H as ([l2 mp2] & _ & H). cbn in H. injection H as <-.
  match goal with |- context [curate_commits pp l2 ?x] =>
    destruct (curate_commits_spec pp l2 x) as (T & -> & _) end. done.
Qed.

(** The transitions of [step2Next]. *)
Lemma step2Next_cases (c c' : consensusMeta) r : step2Next c = (r, c') →
  (r = Ok (stagePreprepare, stagePrepare) ∧ stage c = stagePreprepare ∧
     is_Some (curPreprepare c) ∧ c' = c <| stage := stagePrepare |>) ∨
  (r = Ok (stagePrepare, stageCommit) ∧ stage c = stagePrepare ∧
     quorum c ≤ Z.of_nat (size (prepareSet c)) ∧ c' = c <| stage := stageCommit |>) ∨
  (∃ pp, r = Ok (stageCommit, stagePreprepare) ∧ stage c = stageCommit ∧
     curPreprepare c = Some pp ∧ quorum c ≤ Z.of_nat (size (commitSet c)) ∧
     stage c' = stagePreprepare ∧ lastProposal c' = Some (pp_P pp) ∧ curPreprepare c' = None ∧
     prepareSet c' = ∅ ∧ commitSet c' = ∅ ∧ proposed c' = false ∧
     curViewSeq c' = mkViewSeq (View (curViewSeq c)) (wrap_i64 (Seq (curViewSeq c) + 1))) ∨
  (c' = c ∧ r ∈ [Ok (stagePreprepare, stagePreprepare); Ok (stagePrepare, stagePrepare);
     Ok (stageCommit, stageCommit); Err "invalid stage %d"]) ∨
  (r = Panic ∧ stage c = stageCommit ∧ curPreprepare c = None ∧
     c' = c <| stage := stagePreprepare |>).
Proof.
  unfold step2Next. repeat case_decide.
  - destruct (curPreprepare c) eqn:E; intros [= <- <-].
    + left. split_and!; eauto.
    + do 3 right; left. split; [done|]. set_solver.
  - intros [= <- <-]. do 3 right; left. split; [done|]. set_solver.
  - intros [= <- <-]. right; left. split_and!; [done..| lia | done].
  - intros [= <- <-]. do 3 right; left. split; [done|]. set_solver.
  - cbn. destruct (curPreprepare c) as [pp|] eqn:E; intros [= <- <-].
    + right; right; left. exists pp. cbn. split_and!; first [done | lia].
    + by do 4 right.
  - intros [= <- <-]. do 3 right; left. split; [done|]. set_solver.
Qed.

Definition vote_inv (k : Z) (c : consensusMeta) (v : list (ViewSeq * bytes)) : Prop :=
  0 ≤ k ∧ (k ≤ int64_max → curViewSeq c = mkViewSeq 0 k ∧ NoDup v.*1 ∧
    ∀ vs d, (vs, d) ∈ v → (View vs = 0 ∧ Seq vs < k) ∨
      (vs = curViewSeq c ∧ stage c = stageCommit ∧ pp_Digest <$> curPreprepare c = Some d)).

Lemma vote_inv_same k c c' v : vote_inv k c v → curViewSeq c' = curViewSeq c →
  stage c' = stage c →
  (∀ pp, curPreprepare c = Some pp → curPreprepare c' = Some pp) → vote_inv k c' v.
Proof.
  intros (Hk & Hv) E1 E2 E3. split; [done|]. rewrite E1, E2. intros Hm.
  destruct (Hv Hm) as (H1 & H2 & H3). split_and!; try done.
  intros vs d [?|(? & ? & Hd)]%H3; [by left | right]. split_and!; try done.
  destruct (curPreprepare c) as [pp|]; [|done]. by rewrite (E3 pp).
Qed.

Lemma vote_inv_next k c r c' v : vote_inv k c v → step2Next c = (r, c') →
  vote_inv (k + rounds_of (EvNext r)) c' (votes_of (EvNext r) c ++ v).
Proof.
  intros (Hk & Hv) Hs. unfold vote_inv, votes_of, rounds_of.
  destruct (step2Next_cases c c' r Hs)
    as [(-> & Hst & [pp Hc] & ->) | [(-> & Hst & Hq & ->) | [(pp & -> & Hst & Hc & _ & H1 & _ & H2 & _ & _ & _ & H3)
      | [(-> & Hr) | (-> & Hst & Hc & ->)]]]].
  - rewrite Hc. cbn. rewrite Z.add_0_r. split; [done|]. intros Hm.
    destruct (Hv Hm) as (E1 & E2 & E3). split_and!; try done.
    intros vs d [?|(? & Hst' & _)]%E3; [by left|]. by rewrite Hst in Hst'.
  - cbn. rewrite Z.add_0_r. split; [done|]. intros Hm.
    destruct (Hv Hm) as (E1 & E2 & E3). split; [done|].
    assert (∀ vs d, (vs, d) ∈ v → View vs = 0 ∧ Seq vs < k) as E4.
    { intros vs d [?|(? & Hst' & _)]%E3; [done|]. by rewrite Hst in Hst'. }
    destruct (curPreprepare c) as [pp|] eqn:Hc; cbn; [|split; [done|]; intros; left; eauto].
    rewrite E1. split.
    + constructor; [|done]. intros ([vs d] & Heq & [_ Hlt]%E4)%list_elem_of_fmap.
      cbn in Heq. subst vs. cbn in Hlt. lia.
    + intros vs d [[= -> ->]|?]%elem_of_cons; [by right | left; eauto].
  - rewrite Hc. cbn. match goal with |- context [k + ?x] => change x with 1 end.
    split; [lia|]. intros Hm. destruct Hv as (E1 & E2 & E3); [lia|].
    unfold int64_max in Hm. split_and!; [|done|].
    + rewrite H3, E1. cbn. f_equal. apply wrap_s_id; [lia|]. unfold in_s. lia.
    + intros vs d [?|(-> & _ & _)]%E3; left; [lia|]. rewrite E1. cbn. lia.
  - assert (rounds_of (EvNext r) = 0 ∧ votes_of (EvNext r) c = []) as [Hr1 Hr2].
    { unfold votes_of, rounds_of.
      repeat (apply elem_of_cons in Hr as [->|Hr]; [by destruct (curPreprepare c)|]).
      by apply not_elem_of_nil in Hr. }
    unfold rounds_of, votes_of in *. rewrite Hr1, Hr2, Z.add_0_r. done.
  - cbn. rewrite Z.add_0_r. split; [done|]. intros Hm.
    destruct (Hv Hm) as (E1 & E2 & E3). split_and!; try done.
    intros vs d [?|(? & ? & Hd)]%E3; [by left|]. by rewrite Hc in Hd.
Qed.

Lemma vreach_vote_inv cfg lp k s v : vreach cfg lp k s v → vote_inv k s.1 v.
Proof.
  induction 1 as [now|k s v e s' Hr IH Hs Hne].
  { split; [done|]. intros _. split_and!; [done | constructor |].
    intros vs d Hd. by apply not_elem_of_nil in Hd. }
  assert (∀ c', votes_of e s.1 = [] → rounds_of e = 0 →
    curViewSeq c' = curViewSeq s.1 → stage c' = stage s.1 →
    (∀ pp, curPreprepare s.1 = Some pp → curPreprepare c' = Some pp) →
    vote_inv (k + rounds_of e) c' (votes_of e s.1 ++ v)) as Hsame.
  { intros c' -> ->. rewrite Z.add_0_r. cbn. by apply vote_inv_same. }
  inversion Hs as [c g m mp E|c g m mp E|c g m mp E|c g c' E|c g r c' E|c g vs|c g c' E];
    subst; cbn [fst] in *.
  - destruct (updateLatestViewSeq_same (pp_View m) (pp_Seq m) (c <| msgPool := mp |>))
      as (R1 & R2 & R3 & R4 & R5 & R6 & R7 & R8).
    apply Hsame; try done; [by rewrite R6].
  - by apply Hsame.
  - by apply Hsame.
  - destruct (curateMsg_inv cfg c g) as (c1 & E1 & _ & E2 & E3);
      [by eapply reachable_inv, vreach_reachable|].
    rewrite E in E1; injection E1 as <-. apply Hsame; try done. intros pp. by apply curateMsg_keeps.
  - by apply vote_inv_next.
  - by destruct (Hne vs).
  - destruct E as (R1 & R2 & R3 & R4 & R5 & R6 & R7 & R8). apply Hsame; try done. by rewrite R6.
Qed.

(** *** Quorums *)

(** The fault bound and the quorum a configuration gives. *)
Lemma quorum_value cfg lp c g : reachable cfg lp (c, g) → 1 ≤ NodeNum (cn_Sys cfg) ≤ int64_max →
  f c = (NodeNum (cn_Sys cfg) - 1) / 3 ∧ quorum c = 2 * f c + 1.
Proof.
  intros (_ & _ & _ & Hf & _)%reachable_inv Hn. unfold int64_max in Hn.
  rewrite wrap_s_id in Hf by (unfold in_s; lia).
  rewrite Z.quot_div_nonneg in Hf by lia. split; [done|].
  pose proof (Z.div_mod (NodeNum (cn_Sys cfg) - 1) 3 ltac:(lia)) as Hd.
  pose proof (Z.mod_pos_bound (NodeNum (cn_Sys cfg) - 1) 3 ltac:(lia)).
  rewrite <- Hf in Hd. unfold quorum. rewrite (wrap_s_id _ (2 * f c)), wrap_s_id; unfold in_s; lia.
Qed.

Lemma quorum_intersection (A B members : gset NodeInfo) (fl : Z) :
  A ⊆ members → B ⊆ members → Z.of_nat (size members) ≤ 3 * fl + 1 →
  2 * fl + 1 ≤ Z.of_nat (size A) → 2 * fl + 1 ≤ Z.of_nat (size B) →
  fl + 1 ≤ Z.of_nat (size (A ∩ B)).
Proof.
  intros HA HB Hm H1 H2.
  assert (size (A ∪ B) ≤ size members)%nat by (apply subseteq_size; set_solver).
  pose proof (size_union_alt A B) as Hu.
  assert (size (B ∖ A) + size (A ∩ B) = size B)%nat as Hd; [|lia].
  rewrite <- size_union by set_solver. f_equal. apply set_eq; intros x.
  destruct (decide (x ∈ A)); set_solver.
Qed.

Lemma honest_in_quorums (A B members byz : gset NodeInfo) (fl : Z) :
  A ⊆ members → B ⊆ members → Z.of_nat (size members) ≤ 3 * fl + 1 →
  2 * fl + 1 ≤ Z.of_nat (size A) → 2 * fl + 1 ≤ Z.of_nat (size B) →
  Z.of_nat (size byz) ≤ fl → ∃ n, n ∈ A ∧ n ∈ B ∧ n ∉ byz.
Proof.
  intros HA HB Hm H1 H2 Hb. pose proof (quorum_intersection A B members fl HA HB Hm H1 H2).
  destruct (decide (A ∩ B ⊆ byz)) as [Hs|Hs].
  - apply subseteq_size in Hs. lia.
  - destruct (set_choose_L ((A ∩ B) ∖ byz)) as [n Hn]; [|exists n; set_solver].
    intros He. apply Hs. intros x Hx. destruct (decide (x ∈ byz)); set_solver.
Qed.

(** *** Properties *)

(** What a commit transition has behind it. *)
Definition commit_certificate (c : consensusMeta) (g : msgLog) (pp : PreprepareMsg) : Prop :=
  pp ∈ log_pp g ∧ pp_vs pp = curViewSeq c ∧ pp_NodeID pp = initialLeader ∧
  ∃ P C, quorum c ≤ Z.of_nat (size P) ∧ quorum c ≤ Z.of_nat (size C) ∧
    prepare_votes g (curViewSeq c) (pp_Digest pp) P ∧
    commit_votes g (curViewSeq c) (pp_Digest pp) C.

Lemma commit_transition_spec cfg lp c g c' :
  reachable cfg lp (c, g) →
  step2Next c = (Ok (stageCommit, stagePreprepare), c') →
  ∃ pp, commit_certificate c g pp ∧ curPreprepare c = Some pp ∧
    lastProposal c' = Some (pp_P pp) ∧ curPreprepare c' = None ∧
    prepareSet c' = ∅ ∧ commitSet c' = ∅ ∧ proposed c' = false ∧
    curViewSeq c' = mkViewSeq (View (curViewSeq c)) (wrap_i64 (Seq (curViewSeq c) + 1)).
Proof.
  intros (_ & _ & Hr & _ & Hl)%reachable_inv Hs.
  apply step2Next_cases in Hs as [(? & _)|[(? & _)|[(pp & _ & Hst & Hc & Hq & H1 & H2 & H3 & H4 & H5 & H6 & H7)
    |[(_ & Hs)|(? & _)]]]]; try discriminate; [|exfalso; set_solver].
  unfold round_inv in Hr. rewrite Hc in Hr. destruct Hr as (R1 & R2 & R3 & R4 & R5 & R6).
  exists pp. split_and!; try done. unfold commit_certificate. split; [done|]. split; [done|]. split; [congruence|].
  exists (prepareSet c), (commitSet c). split_and!; try done.
  destruct R6 as [R6|[R6|[_ R6]]]; [by rewrite Hst in R6..|done].
Qed.

(** Whatever messages a node received and in whatever order, the transition
    that ends a round ([stageCommit] to [stagePreprepare]) is backed by a
    certificate: a preprepare of the leader for the current view and sequence
    was received, and 2f+1 distinct nodes sent a prepare and 2f+1 distinct
    nodes a commit with its digest, view and sequence.  The proposal delivered
    is that preprepare's, the vote sets are reset and the sequence advances. *)
Theorem commit_has_certificate cfg lp c g c' :
  reachable cfg lp (c, g) →
  step2Next c = (Ok (stageCommit, stagePreprepare), c') →
  ∃ pp, commit_certificate c g pp ∧ curPreprepare c = Some pp ∧
    lastProposal c' = Some (pp_P pp) ∧ curPreprepare c' = None ∧
    prepareSet c' = ∅ ∧ commitSet c' = ∅ ∧ proposed c' = false ∧
    curViewSeq c' = mkViewSeq (View (curViewSeq c)) (wrap_i64 (Seq (curViewSeq c) + 1)).
Proof. apply commit_transition_spec. Qed.

(** C2: two nodes never commit different digests for one view and sequence.
    In a shard of 3f+1 nodes of which at most f are faulty, where each other
    node runs this state machine (without catch-up) and a received commit
    message of such a node was cast by it, two nodes that finish the round of
    the same view and sequence have received preprepares of the same digest. *)
Theorem commit_agreement cfg (lpa lpb : LocalParams) ca ga ca' ppa cb gb cb' ppb
    (members byz : gset NodeInfo)
    (run : NodeInfo → LocalParams * Z * (consensusMeta * msgLog) * list (ViewSeq * bytes)) :
  reachable cfg lpa (ca, ga) → reachable cfg lpb (cb, gb) →
  step2Next ca = (Ok (stageCommit, stagePreprepare), ca') → curPreprepare ca = Some ppa →
  step2Next cb = (Ok (stageCommit, stagePreprepare), cb') → curPreprepare cb = Some ppb →
  curViewSeq ca = curViewSeq cb →
  1 ≤ NodeNum (cn_Sys cfg) ≤ int64_max → NodeNum (cn_Sys cfg) `mod` 3 = 1 →
  Z.of_nat (size members) = NodeNum (cn_Sys cfg) → Z.of_nat (size byz) ≤ f ca →
  (∀ n, n ∈ members → n ∉ byz →
    let '(lp, k, s, v) := run n in vreach cfg lp k s v ∧ k ≤ int64_max) →
  (∀ m, m ∈ log_c ga ∨ m ∈ log_c gb →
    let n := mkNodeInfo (c_NodeID m) (c_ShardID m) in
    n ∈ members ∧ (n ∉ byz → (c_vs m, c_Digest m) ∈ (run n).2)) →
  pp_Digest ppa = pp_Digest ppb.
Proof.
  intros Ra Rb Sa Ea Sb Eb Hvs Hn Hn3 Hmem Hbyz Hrun Hauth.
  destruct (quorum_value cfg lpa ca ga Ra Hn) as [Hfa Hqa].
  destruct (quorum_value cfg lpb cb gb Rb Hn) as [Hfb Hqb].
  destruct (commit_transition_spec _ _ _ _ _ Ra Sa) as (pa & Ca & Ea' & _).
  destruct (commit_transition_spec _ _ _ _ _ Rb Sb) as (pb & Cb & Eb' & _).
  rewrite Ea in Ea'; injection Ea' as <-. rewrite Eb in Eb'; injection Eb' as <-.
  destruct Ca as (_ & _ & _ & _ & A & _ & HA & _ & VA).
  destruct Cb as (_ & _ & _ & _ & B & _ & HB & _ & VB).
  assert (f ca = f cb) as Hf by congruence.
  destruct (honest_in_quorums A B members byz (f ca)) as (n & HnA & HnB & Hnb); try lia.
  { intros n (m & Hm & _ & _ & ->)%VA. apply (Hauth m). by left. }
  { intros n (m & Hm & _ & _ & ->)%VB. apply (Hauth m). by right. }
  { rewrite Hfa, Hmem. pose proof (Z.div_mod (NodeNum (cn_Sys cfg) - 1) 3).
    assert ((NodeNum (cn_Sys cfg) - 1) `mod` 3 = 0); [|lia].
    rewrite Zminus_mod, Hn3. done. }
  apply VA in HnA as (ma & Hma & Ma1 & Ma2 & Ma3). apply VB in HnB as (mb & Hmb & Mb1 & Mb2 & Mb3).
  destruct (Hauth ma (or_introl Hma)) as [Hin Hva]. destruct (Hauth mb (or_intror Hmb)) as [_ Hvb].
  cbn in *. rewrite <- Ma3 in *. rewrite <- Mb3 in *.
  specialize (Hva Hnb). specialize (Hvb Hnb). specialize (Hrun n Hin Hnb).
  destruct (run n) as [[[lp k] s] v]. destruct Hrun as [Hrun Hk].
  destruct (vreach_vote_inv _ _ _ _ _ Hrun) as [_ Hv]. destruct (Hv Hk) as (_ & Hnd & _).
  cbn in *. rewrite <- Ma2, <- Mb2. rewrite Ma1 in Hva. rewrite Mb1, <- Hvs in Hvb.
  by apply (NoDup_fst_inj v (curViewSeq ca)).
Qed.
End meta_facts.

(** ** Executable runs *)

Section exec.
  Context `{BL : BitSetLib}.

Inductive op :=
| OPreprepare (m : PreprepareMsg)
| OPrepare (m : PrepareMsg)
| OCommit (m : CommitMsg)
| OCurate
| ONext.

Definition exec_op (o : op) (s : consensusMeta * msgLog)
    : option (event * (consensusMeta * msgLog)) :=
  let '(c, g) := s in
  match o with
  | OPreprepare m =>
    match PushPreprepareMsg m (msgPool c) with
    | Ok mp => Some (EvPreprepare m,
        (updateLatestViewSeq (pp_View m) (pp_Seq m) (c <| msgPool := mp |>),
         mkMsgLog (m :: log_pp g) (log_p g) (log_c g)))
    | _ => None
    end
  | OPrepare m =>
    match PushPrepareMsg m (msgPool c) with
    | Ok mp => Some (EvPrepare m,
        (c <| msgPool := mp |>, mkMsgLog (log_pp g) (m :: log_p g) (log_c g)))
    | _ => None
    end
  | OCommit m =>
    match PushCommitMsg m (msgPool c) with
    | Ok mp => Some (EvCommit m,
        (c <| msgPool := mp |>, mkMsgLog (log_pp g) (log_p g) (m :: log_c g)))
    | _ => None
    end
  | OCurate => match curateMsg c with Ok c' => Some (EvCurate, (c', g)) | _ => None end
  | ONext => let '(r, c') := step2Next c in Some (EvNext r, (c', g))
  end.

Definition run_state : Type := Z * (consensusMeta * msgLog) * list (ViewSeq * bytes).

Fixpoint exec_run (ops : list op) (x : run_state) : option run_state :=
  match ops with
  | [] => Some x
  | o :: ops' =>
    let '(k, s, v) := x in
    match exec_op o s with
    | Some (e, s') => exec_run ops' ((k + rounds_of e)%Z, s', votes_of e s.1 ++ v)
    | None => None
    end
  end.

Lemma exec_op_sound o s e s' : exec_op o s = Some (e, s') →
  mstep e s s' ∧ ∀ vs, e ≠ EvCatchup vs.
Proof.
  destruct s as [c g]. unfold exec_op. destruct o; repeat case_match; intros; simplify_eq;
    (split; [by constructor | done]).
Qed.

Lemma exec_run_sound cfg lp ops k s v k' s' v' :
  vreach cfg lp k s v → exec_run ops (k, s, v) = Some (k', s', v') → vreach cfg lp k' s' v'.
Proof.
  revert k s v; induction ops as [|o ops IH]; cbn [exec_run]; intros k s v Hr.
  { by intros [= <- <- <-]. }
  destruct (exec_op o s) as [[e s1]|] eqn:E; [|done].
  destruct (exec_op_sound o s e s1 E). apply IH. by eapply vreach_step.
Qed.

Definition start cfg lp : run_state := (0, (newConsensusMeta cfg lp 0, emptyLog), []).

(** A run from the initial state, or that state when the script fails. *)
Definition run_of cfg lp ops : run_state := default (start cfg lp) (exec_run ops (start cfg lp)).

Lemma run_of_vreach cfg lp ops :
  vreach cfg lp (run_of cfg lp ops).1.1 (run_of cfg lp ops).1.2 (run_of cfg lp ops).2.
Proof.
  unfold run_of. destruct (exec_run ops (start cfg lp)) as [[[k s] v]|] eqn:E; cbn.
  - eapply exec_run_sound; [|exact E]. constructor.
  - constructor.
Qed.

Lemma run_of_reachable cfg lp ops :
  reachable cfg lp ((run_of cfg lp ops).1.2.1, (run_of cfg lp ops).1.2.2).
Proof.
  pose proof (run_of_vreach cfg lp ops) as H. destruct (run_of cfg lp ops) as [[k [c g]] v].
  by eapply vreach_reachable.
Qed.

Lemma step2Next_fst (c : consensusMeta) r : (step2Next c).1 = r → step2Next c = (r, (step2Next c).2).
Proof. intros <-. apply surjective_pairing. Qed.
End exec.

Module MetaDemo.
Import ListBitSet.

Definition cfg (nodes : Z) : ConsensusNodeCfg :=
  mkConsensusNodeCfg (mkSystemCfg 1 nodes StaticRelayConsensus 100)
    {| BitsetLen := 64; FilterHashFunc_cfg := [] |} TxPoolNumType 1000.
Definition lp (i : Z) : LocalParams := mkLocalParams i 0 (copy_to_array 20 []).

Definition ppm (d : bytes) : PreprepareMsg := mkPreprepareMsg (mkProposal None) d 0 0 0 0.
Definition pm (d : bytes) (i : Z) : PrepareMsg := mkPrepareMsg d 0 0 0 i.
Definition cm (d : bytes) (i : Z) : CommitMsg := mkCommitMsg d 0 0 0 i.

(** One round of digest [d] with the votes of [voters], up to the commit stage. *)
Definition round (d : bytes) (voters : list Z) : list op :=
  OPreprepare (ppm d) :: map (λ i, OPrepare (pm d i)) voters ++ map (λ i, OCommit (cm d i)) voters
  ++ [OCurate; ONext; ONext].

Definition A : bytes := str "A".
Definition B : bytes := str "B".

Definition node (n i : Z) (d : bytes) (voters : list Z) : run_state :=
  run_of (cfg n) (lp i) (round d voters).

Definition info (i : Z) : NodeInfo := mkNodeInfo i 0.
End MetaDemo.

Import ListBitSet.
Lemma commit_has_certificate_witness :
  let '(c, g) := (MetaDemo.node 4 0 MetaDemo.A [0; 1; 2]).1.2 in
  ∃ pp, commit_certificate c g pp ∧ curPreprepare c = Some pp.
Proof.
  destruct (commit_has_certificate (MetaDemo.cfg 4) (MetaDemo.lp 0)
    (MetaDemo.node 4 0 MetaDemo.A [0; 1; 2]).1.2.1 (MetaDemo.node 4 0 MetaDemo.A [0; 1; 2]).1.2.2
    (step2Next (MetaDemo.node 4 0 MetaDemo.A [0; 1; 2]).1.2.1).2) as (pp & H & Hc & _).
  - exact (run_of_reachable _ _ _).
  - apply step2Next_fst. vm_compute. reflexivity.
  - destruct (MetaDemo.node 4 0 MetaDemo.A [0; 1; 2]).1.2 as [c g]. exists pp. split; [exact H|exact Hc].
Defined.

(** Four nodes, none faulty. *)
Lemma commit_agreement_witness :
  curPreprepare (MetaDemo.node 4 0 MetaDemo.A [0; 1; 2]).1.2.1 = Some (MetaDemo.ppm MetaDemo.A) ∧
  curPreprepare (MetaDemo.node 4 1 MetaDemo.A [1; 2; 3]).1.2.1 = Some (MetaDemo.ppm MetaDemo.A) ∧
  pp_Digest (MetaDemo.ppm MetaDemo.A) = pp_Digest (MetaDemo.ppm MetaDemo.A).
Proof.
  assert (curPreprepare (MetaDemo.node 4 0 MetaDemo.A [0; 1; 2]).1.2.1 =
    Some (MetaDemo.ppm MetaDemo.A)) as Ha by (vm_compute; reflexivity).
  assert (curPreprepare (MetaDemo.node 4 1 MetaDemo.A [1; 2; 3]).1.2.1 =
    Some (MetaDemo.ppm MetaDemo.A)) as Hb by (vm_compute; reflexivity).
  split; [exact Ha|]. split; [exact Hb|].
  apply (commit_agreement (MetaDemo.cfg 4) (MetaDemo.lp 0) (MetaDemo.lp 1)
    (MetaDemo.node 4 0 MetaDemo.A [0; 1; 2]).1.2.1 (MetaDemo.node 4 0 MetaDemo.A [0; 1; 2]).1.2.2
    (step2Next (MetaDemo.node 4 0 MetaDemo.A [0; 1; 2]).1.2.1).2
    (MetaDemo.ppm MetaDemo.A)
    (MetaDemo.node 4 1 MetaDemo.A [1; 2; 3]).1.2.1 (MetaDemo.node 4 1 MetaDemo.A [1; 2; 3]).1.2.2
    (step2Next (MetaDemo.node 4 1 MetaDemo.A [1; 2; 3]).1.2.1).2
    (MetaDemo.ppm MetaDemo.A)
    (list_to_set (map MetaDemo.info [0; 1; 2; 3])) ∅
    (λ n, (MetaDemo.lp (ni_NodeID n),
      (MetaDemo.node 4 (ni_NodeID n) MetaDemo.A [0; 1; 2]).1.1,
      (MetaDemo.node 4 (ni_NodeID n) MetaDemo.A [0; 1; 2]).1.2,
      (MetaDemo.node 4 (ni_NodeID n) MetaDemo.A [0; 1; 2]).2))).
  - exact (run_of_reachable _ _ _).
  - exact (run_of_reachable _ _ _).
  - apply step2Next_fst. vm_compute. reflexivity.
  - exact Ha.
  - apply step2Next_fst. vm_compute. reflexivity.
  - exact Hb.
  - vm_compute. reflexivity.
  - vm_compute. split; discriminate.
  - reflexivity.
  - vm_compute. reflexivity.
  - vm_compute. discriminate.
  - intros n Hn _. split; [exact (run_of_vreach _ _ _)|].
    apply elem_of_list_to_set in Hn. cbn [map] in Hn.
    repeat (apply elem_of_cons in Hn as [->|Hn]; [vm_compute; discriminate|]).
    destruct (not_elem_of_nil _ Hn).
  - clear Ha Hb. intros m Hm. assert (m ∈ map (MetaDemo.cm MetaDemo.A) [0; 1; 2; 3]) as Hm'.
    { revert Hm. vm_compute. set_solver. }
    clear Hm. cbn [map] in Hm'.
    repeat (apply elem_of_cons in Hm' as [->|Hm'];
      [split; [set_solver | intros _; vm_compute; constructor]|]).
    destruct (not_elem_of_nil _ Hm').
Defined.
