(* ===== verification/Progress.v ===== *)
(** * Progress of a round

    What [curateMsg] and [step2Next] (consensus/pbft/pbftmeta.go) do when the
    pool holds what a round needs: the converse of the safety theorems of
    ConsensusMeta.v.  No message is overlooked, and the round ends.  The same
    runs show that the node number of the agreement theorem is needed: for
    others a faulty leader can make two nodes end a round with different
    digests. *)

From S2P Require Import Prelude GoHash Account Bloom Block Config PriorityQueue MsgPool ConsensusMeta.
From Stdlib Require Import Lia.

Local Open Scope Z_scope.

Section progress.
  Context `{BL : BitSetLib}.

(** A preprepare, a prepare and a commit that count for the round at [vs]. *)
Definition pp_counts (ld : Z) (vs : ViewSeq) (m : PreprepareMsg) : Prop := pp_vs m = vs ∧ pp_NodeID m = ld.
Definition p_counts (vs : ViewSeq) (d : bytes) (i : NodeInfo) (m : PrepareMsg) : Prop :=
  p_vs m = vs ∧ p_Digest m = d ∧ i = mkNodeInfo (p_NodeID m) (p_ShardID m).
Definition c_counts (vs : ViewSeq) (d : bytes) (i : NodeInfo) (m : CommitMsg) : Prop :=
  c_vs m = vs ∧ c_Digest m = d ∧ i = mkNodeInfo (c_NodeID m) (c_ShardID m).

Lemma curate_preprepares_found l (c : consensusMeta) m : m ∈ l → pp_counts (leader c) (curViewSeq c) m →
  ∃ m', m' ∈ l ∧ pp_counts (leader c) (curViewSeq c) m' ∧
    curate_preprepares l c = c <| curPreprepare := Some m' |>.
Proof.
  intros Hm [Hv Hn]. induction l as [|x l IH]; [by apply not_elem_of_nil in Hm|]. cbn.
  case_decide as E.
  - destruct IH as (m' & ? & ? & ?).
    { apply elem_of_cons in Hm as [->|]; [|done]. destruct E as [E|E]; [|done].
      destruct E. by apply Compare_eq. }
    exists m'. split_and!; try done. by right.
  - exists x. apply Decidable.not_or in E as [E1 E2]. split; [by left|]. split; [|done].
    split; [|lia]. symmetry. apply Compare_eq. lia.
Qed.

Lemma curate_prepares_all pp l (c : consensusMeta) i :
  (i ∈ prepareSet c ∨ ∃ m, m ∈ l ∧ p_counts (curViewSeq c) (pp_Digest pp) i m) →
  i ∈ prepareSet (curate_prepares pp l c).
Proof.
  revert c; induction l as [|x l IH]; intros c; cbn [curate_prepares].
  { intros [?|(m & ?%not_elem_of_nil & _)]; done. }
  intros H. case_decide as E; apply IH.
  - destruct H as [?|(m & [->|Hm]%elem_of_cons & Hc)]; [by left| |right; by exists m].
    destruct Hc as (Hv & Hd & _). destruct E as [E|E]; [|done]. destruct E. by apply Compare_eq.
  - destruct H as [?|(m & [->|Hm]%elem_of_cons & Hc)]; [left|left|right; by exists m]; cbn.
    + set_solver.
    + destruct Hc as (_ & _ & ->). set_solver.
Qed.

Lemma curate_commits_all pp l (c : consensusMeta) i :
  (i ∈ commitSet c ∨ ∃ m, m ∈ l ∧ c_counts (curViewSeq c) (pp_Digest pp) i m) →
  i ∈ commitSet (curate_commits pp l c).
Proof.
  revert c; induction l as [|x l IH]; intros c; cbn [curate_commits].
  { intros [?|(m & ?%not_elem_of_nil & _)]; done. }
  intros H. case_decide as E; apply IH.
  - destruct H as [?|(m & [->|Hm]%elem_of_cons & Hc)]; [by left| |right; by exists m].
    destruct Hc as (Hv & Hd & _). destruct E as [E|E]; [|done]. destruct E. by apply Compare_eq.
  - destruct H as [?|(m & [->|Hm]%elem_of_cons & Hc)]; [left|left|right; by exists m]; cbn.
    + set_solver.
    + destruct Hc as (_ & _ & ->). set_solver.
Qed.

(** A message of the pool that is for the current view is read. *)
Lemma read_current {A} (key : A → ViewSeq) vs (queue l rest : list A) m :
  queue ≡ₚ l ++ rest → Forall (λ x, Compare vs (key x) = -1) rest → m ∈ queue → key m = vs → m ∈ l.
Proof.
  intros Hp Hr Hm Hk. rewrite Hp in Hm. apply elem_of_app in Hm as [?|Hm]; [done|].
  rewrite Forall_forall in Hr. specialize (Hr m Hm). cbn in Hr. rewrite Hk in Hr.
  by rewrite (proj2 (Compare_eq vs vs) eq_refl) in Hr.
Qed.

(** After [curateMsg] the round has its preprepare and every vote for it. *)
Lemma curateMsg_collects cfg (c : consensusMeta) g m :
  meta_inv cfg (c, g) → curPreprepare c = None →
  m ∈ preprepares (msgPool c) → pp_counts (leader c) (curViewSeq c) m →
  ∃ c1 pp, curateMsg c = Ok c1 ∧ curPreprepare c1 = Some pp ∧
    pp ∈ preprepares (msgPool c) ∧ pp_counts (leader c) (curViewSeq c) pp ∧
    f c1 = f c ∧ stage c1 = stage c ∧ curViewSeq c1 = curViewSeq c ∧
    (∀ i x, x ∈ prepares (msgPool c) → p_counts (curViewSeq c) (pp_Digest pp) i x → i ∈ prepareSet c1) ∧
    (∀ i x, x ∈ commits (msgPool c) → c_counts (curViewSeq c) (pp_Digest pp) i x → i ∈ commitSet c1).
Proof.
  intros (Hp & _) Ec Hm Hc. rewrite curateMsg_head. unfold curate_head. rewrite Ec.
  destruct (ReadPreprepareMsg_spec (curViewSeq c) (msgPool c) Hp) as (l & q & -> & Hp1 & Hq & _ & Hr). cbn [rbind].
  pose proof (read_current pp_vs _ _ _ _ _ Hq Hr Hm (proj1 Hc)) as Hml.
  match goal with |- context [curate_preprepares l ?x] =>
    destruct (curate_preprepares_found l x m Hml Hc) as (pp & Hpp & Hcp & ->) end. cbn [rbind].
  match goal with |- context [match curPreprepare ?x with _ => _ end] => change (curPreprepare x) with (Some pp) end.
  cbv iota beta.
  match goal with |- context [ReadPrepareMsg ?v ?x] =>
    destruct (ReadPrepareMsg_spec v x Hp1) as (l2 & q2 & -> & Hp2 & Hq2 & _ & Hr2) end. cbn [rbind].
  match goal with |- context [curate_prepares pp l2 ?x] =>
    destruct (curate_prepares_spec pp l2 x) as (S & HS & _); pose proof (curate_prepares_all pp l2 x) as HSa end.
  rewrite HS in *.
  match goal with |- context [ReadCommitMsg ?v ?x] =>
    destruct (ReadCommitMsg_spec v x Hp2) as (l3 & q3 & -> & Hp3 & Hq3 & _ & Hr3) end. cbn [rbind].
  match goal with |- context [curate_commits pp l3 ?x] =>
    destruct (curate_commits_spec pp l3 x) as (T & HT & _); pose proof (curate_commits_all pp l3 x) as HTa end.
  rewrite HT in *. eexists _, pp. split; [done|]. split_and!; try done.
  - rewrite Hq. apply elem_of_app. by left.
  - intros i x Hx Hix. apply HSa. right. exists x. split; [|done].
    eapply (read_current p_vs); [exact Hq2|exact Hr2|exact Hx|]. apply Hix.
  - intros i x Hx Hix. apply HTa. right. exists x. split; [|done].
    eapply (read_current c_vs); [exact Hq3|exact Hr3|exact Hx|]. apply Hix.
Qed.

(** The three turns of a round. *)
Lemma turn_prepare (c : consensusMeta) pp : stage c = stagePreprepare → curPreprepare c = Some pp →
  step2Next c = (Ok (stagePreprepare, stagePrepare), c <| stage := stagePrepare |>).
Proof. intros Hs Hp. unfold step2Next. by rewrite Hs, Hp. Qed.
Lemma turn_commit (c : consensusMeta) : stage c = stagePrepare → ¬ Z.of_nat (size (prepareSet c)) < quorum c →
  step2Next c = (Ok (stagePrepare, stageCommit), c <| stage := stageCommit |>).
Proof. intros Hs Hq. unfold step2Next. rewrite Hs. by repeat case_decide. Qed.
Lemma turn_done (c : consensusMeta) pp : stage c = stageCommit → curPreprepare c = Some pp →
  ¬ Z.of_nat (size (commitSet c)) < quorum c →
  ∃ c', step2Next c = (Ok (stageCommit, stagePreprepare), c') ∧ lastProposal c' = Some (pp_P pp) ∧
    curViewSeq c' = mkViewSeq (View (curViewSeq c)) (wrap_i64 (Seq (curViewSeq c) + 1)).
Proof.
  intros Hs Hp Hq. unfold step2Next. rewrite Hs. repeat case_decide; try done. cbn. rewrite Hp. by eexists.
Qed.

(** C3: a round that has its messages ends.  Let a node be in [stagePreprepare]
    with a preprepare of the leader for the current view and sequence in its
    pool, whose preprepares of that round all carry the digest [d], and with a
    prepare and a commit for [d] from every one of 2f+1 nodes, in whatever
    order they came and whatever else the pool holds.  Then one [curateMsg] and
    three [step2Next] walk prepare, commit and back to preprepare: a proposal
    of that digest is delivered and the sequence advances. *)
Theorem round_progress cfg lp c g d (voters : gset NodeInfo) m :
  reachable cfg lp (c, g) → stage c = stagePreprepare → curPreprepare c = None →
  m ∈ preprepares (msgPool c) → pp_counts (leader c) (curViewSeq c) m →
  (∀ x, x ∈ preprepares (msgPool c) → pp_counts (leader c) (curViewSeq c) x → pp_Digest x = d) →
  quorum c ≤ Z.of_nat (size voters) →
  (∀ i, i ∈ voters → ∃ x, x ∈ prepares (msgPool c) ∧ p_counts (curViewSeq c) d i x) →
  (∀ i, i ∈ voters → ∃ x, x ∈ commits (msgPool c) ∧ c_counts (curViewSeq c) d i x) →
  ∃ c1 c2 c3 c4 pp, curateMsg c = Ok c1 ∧
    step2Next c1 = (Ok (stagePreprepare, stagePrepare), c2) ∧
    step2Next c2 = (Ok (stagePrepare, stageCommit), c3) ∧
    step2Next c3 = (Ok (stageCommit, stagePreprepare), c4) ∧
    pp ∈ preprepares (msgPool c) ∧ pp_Digest pp = d ∧ lastProposal c4 = Some (pp_P pp) ∧
    curViewSeq c4 = mkViewSeq (View (curViewSeq c)) (wrap_i64 (Seq (curViewSeq c) + 1)).
Proof.
  intros Hr%reachable_inv Hs Hc Hm Hcm Hd Hq HP HC.
  destruct (curateMsg_collects cfg c g m Hr Hc Hm Hcm)
    as (c1 & pp & E & Hpp & Hin & Hcp & Hf & Hs1 & Hv & H1 & H2).
  rewrite (Hd pp Hin Hcp) in *.
  assert (∀ S : gset NodeInfo, (∀ i, i ∈ voters → i ∈ S) → ¬ (Z.of_nat (size S) < quorum c)) as Hbig.
  { intros S HS. enough (size voters ≤ size S)%nat by lia. by apply subseteq_size. }
  assert (∀ c', f c' = f c1 → quorum c' = quorum c) as Hqc by (intros c' Hc'; unfold quorum; by rewrite Hc', Hf).
  pose proof (turn_prepare c1 pp ltac:(congruence) Hpp) as T1.
  pose proof (turn_commit (c1 <| stage := stagePrepare |>) eq_refl) as T2.
  destruct (turn_done (c1 <| stage := stagePrepare |> <| stage := stageCommit |>) pp) as (c4 & T3 & Hl & Hv4).
  { reflexivity. }
  { exact Hpp. }
  { rewrite Hqc by done. apply Hbig. intros i (x & Hx & Hix)%HC. exact (H2 i x Hx Hix). }
  eexists c1, _, _, c4, pp. split_and!; [done|exact T1|apply T2|exact T3|done|by apply Hd|done|].
  - rewrite Hqc by done. apply Hbig. intros i (x & Hx & Hix)%HP. exact (H1 i x Hx Hix).
  - rewrite Hv4. cbn. by rewrite Hv.
Qed.
End progress.

(** ** Two quorums that only share faulty nodes *)

Section split.
  Context `{BL : BitSetLib}.

(** What the leader, node 0, proposes for the first round, and node [i] votes. *)
Definition first_pp (d : bytes) : PreprepareMsg := mkPreprepareMsg (mkProposal None) d 0 0 0 initialLeader.
Definition vote_p (d : bytes) (i : Z) : PrepareMsg := mkPrepareMsg d 0 0 0 i.
Definition vote_c (d : bytes) (i : Z) : CommitMsg := mkCommitMsg d 0 0 0 i.
Definition votes (d : bytes) (ids : list Z) : list op := mbind (λ i, [OPrepare (vote_p d i); OCommit (vote_c d i)]) ids.

(** The first round of a node that hears a proposal of digest [d] and the votes
    of [ids], up to the commit stage. *)
Definition first_round (d : bytes) (ids : list Z) : list op :=
  (OPreprepare (first_pp d) :: votes d ids) ++ [OCurate; ONext; ONext].

Lemma exec_run_app l l' x : exec_run (l ++ l') x = (y ← exec_run l x; exec_run l' y).
Proof.
  revert x; induction l as [|o l IH]; intros [[k s] v]; [done|]. cbn [app exec_run].
  destruct (exec_op o s) as [[e s']|]; [apply IH|done].
Qed.

Lemma exec_votes d ids c g v : pool_inv (msgPool c) → ∃ mp lp lc,
  exec_run (votes d ids) (0, (c, g), v) = Some (0, (c <| msgPool := mp |>, mkMsgLog (log_pp g) lp lc), v) ∧
  preprepares mp = preprepares (msgPool c) ∧
  (∀ i, i ∈ ids → vote_p d i ∈ prepares mp ∧ vote_c d i ∈ commits mp) ∧
  (∀ x, x ∈ prepares (msgPool c) → x ∈ prepares mp) ∧ (∀ x, x ∈ commits (msgPool c) → x ∈ commits mp) ∧
  (∀ x, x ∈ lc → x ∈ log_c g ∨ x ∈ map (vote_c d) ids).
Proof.
  revert c g; induction ids as [|i ids IH]; intros c g Hi.
  { exists (msgPool c), (log_p g), (log_c g). cbn. split; [by destruct c, g|]. split_and!; try done; [|by left].
    by intros i ?%not_elem_of_nil. }
  destruct (PushPrepareMsg_spec (vote_p d i) _ Hi) as (q1 & E1 & Hi1 & Hq1).
  destruct (PushCommitMsg_spec (vote_c d i) _ Hi1) as (q2 & E2 & Hi2 & Hq2).
  set (mp1 := (msgPool c) <| prepares := q1 |>) in *. set (mp2 := mp1 <| commits := q2 |>) in *.
  set (c2 := c <| msgPool := mp2 |>).
  destruct (IH c2
    (mkMsgLog (log_pp g) (vote_p d i :: log_p g) (vote_c d i :: log_c g)) Hi2) as (mp & lp & lc & E & H1 & H2 & H3 & H4 & H5).
  exists mp, lp, lc. split.
  { unfold votes in *. cbn [mbind list_bind app exec_run exec_op]. rewrite E1. cbn [exec_run exec_op].
    change (msgPool (c <| msgPool := mp1 |>)) with mp1. rewrite E2. exact E. }
  cbn in H1, H3, H4, H5, Hq2. split; [done|]. split_and!.
  - intros j [->|Hj]%elem_of_cons; [|by apply H2]. split; [apply H3; rewrite Hq1|apply H4; rewrite Hq2]; by left.
  - intros x Hx. apply H3. rewrite Hq1. by right.
  - intros x Hx. apply H4. rewrite Hq2. by right.
  - intros x [[->|Hx]%elem_of_cons|Hx]%H5; [right; by left|by left|right; by right].
Qed.

Lemma voters_size ids (S : gset NodeInfo) : NoDup ids → (∀ i, i ∈ ids → mkNodeInfo i 0 ∈ S) → (length ids ≤ size S)%nat.
Proof.
  intros Hnd HS. rewrite <- (length_map (λ i, mkNodeInfo i 0) ids), <- (size_list_to_set (C := gset NodeInfo)).
  - apply subseteq_size. intros x Hx. apply elem_of_list_to_set, list_elem_of_fmap in Hx as (i & -> & Hi). by apply HS.
  - apply NoDup_fmap; [by intros x y [= ->]|done].
Qed.

(** Such a node reaches the commit stage with a quorum for [d], having cast its
    own vote for it, and ends the round. *)
Lemma first_round_commits cfg lp d ids : let n := NodeNum (cn_Sys cfg) in
  1 ≤ n ≤ int64_max → NoDup ids → 2 * ((n - 1) / 3) + 1 ≤ Z.of_nat (length ids) →
  ∃ c g c' pp, run_of cfg lp (first_round d ids) = (0, (c, g), [(mkViewSeq 0 0, d)]) ∧
    f c = (n - 1) / 3 ∧ curViewSeq c = mkViewSeq 0 0 ∧ curPreprepare c = Some pp ∧ pp_Digest pp = d ∧
    step2Next c = (Ok (stageCommit, stagePreprepare), c') ∧ (∀ m, m ∈ log_c g → m ∈ map (vote_c d) ids).
Proof.
  intros n Hn Hnd Hq. destruct (PushPreprepareMsg_spec (first_pp d) NewMsgPool NewMsgPool_inv) as (q & E & Hi & Hq1).
  set (mp0 := NewMsgPool <| preprepares := q |>) in *. set (c0 := (newConsensusMeta cfg lp 0) <| msgPool := mp0 |>).
  destruct (exec_votes d ids c0 (mkMsgLog [first_pp d] [] []) [] Hi) as (mp & lp' & lc & Ev & Hmp & Hin & _ & _ & Hlc).
  assert (exec_run (OPreprepare (first_pp d) :: votes d ids) (start cfg lp) =
    Some (0, (c0 <| msgPool := mp |>, mkMsgLog [first_pp d] lp' lc), [])) as Erun.
  { cbn [exec_run start exec_op]. change (msgPool (newConsensusMeta cfg lp 0)) with NewMsgPool. rewrite E. exact Ev. }
  pose proof (exec_run_sound _ _ _ _ _ _ _ _ _ (vreach_init cfg lp 0) Erun) as Hv%vreach_reachable.
  assert (f (c0 <| msgPool := mp |>) = (n - 1) / 3 ∧ quorum (c0 <| msgPool := mp |>) = 2 * ((n - 1) / 3) + 1) as [Hf Hqu].
  { destruct (quorum_value _ _ _ _ Hv Hn) as [Hf ->]. rewrite Hf. by split. }
  destruct (curateMsg_collects cfg _ _ (first_pp d) (reachable_inv _ _ _ Hv) eq_refl) as
    (c1 & pp & Ec & Hpp & Hppin & _ & Hf1 & Hs1 & Hv1 & HP & HC).
  { cbn. rewrite Hmp. cbn. rewrite Hq1. by left. }
  { done. }
  assert (pp = first_pp d) as ->.
  { cbn in Hppin. rewrite Hmp in Hppin. cbn in Hppin. rewrite Hq1 in Hppin. by apply list_elem_of_singleton in Hppin. }
  assert (∀ S : gset NodeInfo, (∀ i, i ∈ ids → mkNodeInfo i 0 ∈ S) → ∀ c2, f c2 = f c1 → ¬ Z.of_nat (size S) < quorum c2) as Hbig.
  { intros S HS c2 Hc2. unfold quorum in *. rewrite Hc2, Hf1, Hqu. pose proof (voters_size ids S Hnd HS). lia. }
  set (c3 := c1 <| stage := stagePrepare |> <| stage := stageCommit |>).
  destruct (turn_done c3 (first_pp d)) as (c4 & T3 & _).
  { done. }
  { done. }
  { apply Hbig; [|done]. intros i Hid. apply (HC _ (vote_c d i)); [by apply Hin|done]. }
  eexists c3, _, c4, (first_pp d). split_and!; [|exact (eq_trans Hf1 Hf)|exact Hv1|done|done|exact T3|].
  - unfold run_of, first_round. rewrite exec_run_app, Erun. cbn [mbind option_bind exec_run exec_op]. rewrite Ec.
    cbn [exec_run exec_op fst snd]. rewrite (turn_prepare c1 (first_pp d)) by (done || by rewrite Hs1).
    cbn [exec_run exec_op fst snd]. rewrite turn_commit; [|done|].
    + assert (votes_of (EvNext (Ok (stagePreprepare, stagePrepare))) c1 = []) as -> by (unfold votes_of; by rewrite Hpp).
      assert (votes_of (EvNext (Ok (stagePrepare, stageCommit))) (c1 <| stage := stagePrepare |>) = [(mkViewSeq 0 0, d)]) as ->.
      { unfold votes_of. change (curPreprepare (c1 <| stage := stagePrepare |>)) with (curPreprepare c1). rewrite Hpp.
        change (curViewSeq (c1 <| stage := stagePrepare |>)) with (curViewSeq c1). by rewrite Hv1. }
      reflexivity.
    + apply Hbig; [|done]. intros i Hid. apply (HP _ (vote_p d i)); [by apply Hin|done].
  - intros m [Hm|Hm]%Hlc; [by apply not_elem_of_nil in Hm|done].
Qed.

(** The members of the shard, its faulty nodes (the first f, with the leader),
    and the voters each half of the others hears: the faulty nodes and itself. *)
Definition infos (ids : list Z) : gset NodeInfo := list_to_set (map (λ i, mkNodeInfo i 0) ids).
Definition half_A (fl : Z) : list Z := seqZ 0 (2 * fl + 1).
Definition half_B (fl : Z) : list Z := seqZ 0 fl ++ seqZ (2 * fl + 1) (fl + 1).

Definition node_lp (i : Z) : LocalParams := mkLocalParams i 0 (copy_to_array 20 []).
Definition with_lp (lp : LocalParams) (x : run_state) : LocalParams * Z * (consensusMeta * msgLog) * list (ViewSeq * bytes) :=
  (lp, x.1.1, x.1.2, x.2).

(** The first round as node [i] sees it. *)
Definition split_run (cfg : ConsensusNodeCfg) (dA dB : bytes) (fl i : Z) : run_state :=
  if decide (i < 2 * fl + 1) then run_of cfg (node_lp i) (first_round dA (half_A fl))
  else run_of cfg (node_lp i) (first_round dB (half_B fl)).

Lemma elem_infos ids i : mkNodeInfo i 0 ∈ infos ids ↔ i ∈ ids.
Proof.
  unfold infos. rewrite elem_of_list_to_set, list_elem_of_fmap. split; [by intros (j & [= ->] & ?)|intros ?; by exists i].
Qed.
Lemma size_infos ids : NoDup ids → size (infos ids) = length ids.
Proof. intros H. unfold infos. rewrite size_list_to_set; [apply length_map|]. apply NoDup_fmap; [by intros x y [= ->]|done]. Qed.

Lemma half_A_spec fl : 0 ≤ fl → NoDup (half_A fl) ∧ Z.of_nat (length (half_A fl)) = 2 * fl + 1 ∧
  ∀ i, i ∈ half_A fl ↔ 0 ≤ i < 2 * fl + 1.
Proof.
  intros H. unfold half_A. split_and!; [apply NoDup_seqZ|rewrite length_seqZ; lia|]. intros i. rewrite elem_of_seqZ. lia.
Qed.
Lemma half_B_spec fl : 0 ≤ fl → NoDup (half_B fl) ∧ Z.of_nat (length (half_B fl)) = 2 * fl + 1 ∧
  ∀ i, i ∈ half_B fl ↔ 0 ≤ i < fl ∨ 2 * fl + 1 ≤ i < 3 * fl + 2.
Proof.
  intros H. unfold half_B. split_and!.
  - apply NoDup_app. split_and!; [apply NoDup_seqZ| |apply NoDup_seqZ]. intros i. rewrite !elem_of_seqZ. lia.
  - rewrite length_app, !length_seqZ. lia.
  - intros i. rewrite elem_of_app, !elem_of_seqZ. lia.
Qed.

Lemma split_run_vreach cfg dA dB fl i :
  vreach cfg (node_lp i) (split_run cfg dA dB fl i).1.1 (split_run cfg dA dB fl i).1.2 (split_run cfg dA dB fl i).2.
Proof. unfold split_run. case_decide; apply run_of_vreach. Qed.

(** A commit message that a half hears is from a member, and one of a node that
    is not faulty was cast by that node. *)
Definition authentic (members byz : gset NodeInfo) (votes_of_node : NodeInfo → list (ViewSeq * bytes)) (g : msgLog) : Prop :=
  ∀ m, m ∈ log_c g → let n := mkNodeInfo (c_NodeID m) (c_ShardID m) in
    n ∈ members ∧ (n ∉ byz → (c_vs m, c_Digest m) ∈ votes_of_node n).

(** What node [i] comes to: the commit stage with a quorum for its half's digest. *)
Definition ends_round (d : bytes) (fl : Z) (c : consensusMeta) : Prop :=
  f c = fl ∧ curViewSeq c = mkViewSeq 0 0 ∧
  ∃ c' pp, step2Next c = (Ok (stageCommit, stagePreprepare), c') ∧ curPreprepare c = Some pp ∧ pp_Digest pp = d.

Lemma split_run_ends cfg dA dB fl i : 1 ≤ NodeNum (cn_Sys cfg) ≤ int64_max → fl = (NodeNum (cn_Sys cfg) - 1) / 3 →
  let '(d, ids) := if decide (i < 2 * fl + 1) then (dA, half_A fl) else (dB, half_B fl) in
  ∃ c g, split_run cfg dA dB fl i = (0, (c, g), [(mkViewSeq 0 0, d)]) ∧ ends_round d fl c ∧
    ∀ m, m ∈ log_c g → m ∈ map (vote_c d) ids.
Proof.
  intros Hn Hfl. assert (0 ≤ fl) as Hpos by (subst; apply Z.div_pos; lia).
  destruct (half_A_spec fl Hpos) as (NA & LA & _), (half_B_spec fl Hpos) as (NB & LB & _).
  unfold split_run. case_decide.
  - destruct (first_round_commits cfg (node_lp i) dA (half_A fl) Hn NA) as (c & g & c' & pp & E & Hf & Hv & Hp & Hd & Hs & Hl); [lia|].
    exists c, g. split; [done|]. split; [|done]. unfold ends_round. rewrite Hfl. eauto 8.
  - destruct (first_round_commits cfg (node_lp i) dB (half_B fl) Hn NB) as (c & g & c' & pp & E & Hf & Hv & Hp & Hd & Hs & Hl); [lia|].
    exists c, g. split; [done|]. split; [|done]. unfold ends_round. rewrite Hfl. eauto 8.
Qed.

Lemma split_authentic cfg dA dB fl d ids g : 1 ≤ NodeNum (cn_Sys cfg) ≤ int64_max → fl = (NodeNum (cn_Sys cfg) - 1) / 3 →
  (∀ m, m ∈ log_c g → m ∈ map (vote_c d) ids) → (∀ i, i ∈ ids → 0 ≤ i < NodeNum (cn_Sys cfg)) →
  (∀ i, i ∈ ids → fl ≤ i → d = if decide (i < 2 * fl + 1) then dA else dB) →
  authentic (infos (seqZ 0 (NodeNum (cn_Sys cfg)))) (infos (seqZ 0 fl)) (λ n, (split_run cfg dA dB fl (ni_NodeID n)).2) g.
Proof.
  intros Hn Hfl Hg Hids Hd m Hm. apply Hg, list_elem_of_fmap in Hm as (i & -> & Hi). cbn.
  specialize (Hids i Hi). rewrite !elem_infos, !elem_of_seqZ. split; [lia|]. intros Hno.
  pose proof (split_run_ends cfg dA dB fl i Hn Hfl) as He. rewrite (Hd i Hi) by lia.
  case_decide; destruct He as (c & g' & -> & _); by left.
Qed.

(** C40: the agreement theorem needs its node number.  For every NodeNum of at
    least 5 that is not 3f+1, and any two digests, there is a shard of that many
    nodes, of which at most f = (NodeNum-1)/3 are faulty, the leader among them,
    with a run of the state machine of every other node, such that two of those
    finish the first round, the same view and sequence, having received
    preprepares of the two digests: everything that agreement asks for but the
    node number holds, and every commit message they received from a node that
    is not faulty was cast by that node.  (2f+1 of 3f+2 nodes is not a
    Byzantine quorum.) *)
Theorem commit_split cfg dA dB : let n := NodeNum (cn_Sys cfg) in
  5 ≤ n ≤ int64_max → n `mod` 3 ≠ 1 →
  ∃ (members byz : gset NodeInfo) (run : NodeInfo → LocalParams * Z * (consensusMeta * msgLog) * list (ViewSeq * bytes))
    a b lpa lpb ka kb ca ga va cb gb vb ca' cb' ppa ppb,
    Z.of_nat (size members) = n ∧ byz ⊆ members ∧ Z.of_nat (size byz) ≤ f ca ∧ mkNodeInfo initialLeader 0 ∈ byz ∧
    (∀ m, m ∈ members → m ∉ byz → let '(lp, k, s, v) := run m in vreach cfg lp k s v ∧ k ≤ int64_max) ∧
    a ∈ members ∧ (a ∉ byz) ∧ run a = (lpa, ka, (ca, ga), va) ∧
    b ∈ members ∧ (b ∉ byz) ∧ run b = (lpb, kb, (cb, gb), vb) ∧
    authentic members byz (λ m, (run m).2) ga ∧ authentic members byz (λ m, (run m).2) gb ∧
    step2Next ca = (Ok (stageCommit, stagePreprepare), ca') ∧ curPreprepare ca = Some ppa ∧
    step2Next cb = (Ok (stageCommit, stagePreprepare), cb') ∧ curPreprepare cb = Some ppb ∧
    curViewSeq ca = curViewSeq cb ∧ pp_Digest ppa = dA ∧ pp_Digest ppb = dB.
Proof.
  intros n Hn Hmod. set (fl := (n - 1) / 3).
  assert (1 ≤ fl ∧ 3 * fl + 2 ≤ n) as [Hf1 Hf2].
  { unfold fl. pose proof (Z.div_mod (n - 1) 3 ltac:(lia)). pose proof (Z.mod_pos_bound (n - 1) 3 ltac:(lia)).
    assert ((n - 1) `mod` 3 ≠ 0); [|lia]. intros Hz. apply Hmod. rewrite <- (Z.sub_add 1 n), Z.add_mod, Hz by lia. done. }
  assert (1 ≤ n ≤ int64_max) as Hn' by lia.
  pose proof (split_run_ends cfg dA dB fl fl Hn' eq_refl) as Ha. rewrite decide_True in Ha by lia.
  pose proof (split_run_ends cfg dA dB fl (2 * fl + 1) Hn' eq_refl) as Hb. rewrite decide_False in Hb by lia.
  destruct Ha as (ca & ga & Ea & (Hfa & Hva & ca' & ppa & Sa & Pa & Da) & La).
  destruct Hb as (cb & gb & Eb & (_ & Hvb & cb' & ppb & Sb & Pb & Db) & Lb).
  destruct (half_A_spec fl ltac:(lia)) as (_ & _ & HA), (half_B_spec fl ltac:(lia)) as (_ & _ & HB).
  exists (infos (seqZ 0 n)), (infos (seqZ 0 fl)),
    (λ m, with_lp (node_lp (ni_NodeID m)) (split_run cfg dA dB fl (ni_NodeID m))), (mkNodeInfo fl 0), (mkNodeInfo (2 * fl + 1) 0).
  eexists _, _, _, _, ca, ga, _, cb, gb, _, ca', cb', ppa, ppb. cbn [ni_NodeID]. unfold with_lp at 2 3. rewrite Ea, Eb.
  rewrite !elem_infos, !elem_of_seqZ, !size_infos, !length_seqZ by apply NoDup_seqZ. split_and!; try done; try lia.
  - intros x Hx. apply elem_of_list_to_set, list_elem_of_fmap in Hx as (i & -> & Hi%elem_of_seqZ). apply elem_infos, elem_of_seqZ. lia.
  - unfold initialLeader. lia.
  - intros m _ _. unfold with_lp. split; [apply split_run_vreach|].
    pose proof (split_run_ends cfg dA dB fl (ni_NodeID m) Hn' eq_refl) as Hm. unfold int64_max.
    case_decide; destruct Hm as (? & ? & -> & _); done.
  - apply (split_authentic cfg dA dB fl dA (half_A fl)); try done; intros i Hi%HA; [fold n; lia|]. by rewrite decide_True by lia.
  - apply (split_authentic cfg dA dB fl dB (half_B fl)); try done; intros i Hi%HB; [fold n; lia|]. intros Hle. by rewrite decide_False by lia.
  - congruence.
Qed.
End split.

(** ** A concrete pool: four nodes, votes of three *)

Module ProgressWitness.
Import ListBitSet.

Definition filled : run_state :=
  run_of (MetaDemo.cfg 4) (MetaDemo.lp 0)
    (OPreprepare (MetaDemo.ppm MetaDemo.A) ::
     map (λ i, OCommit (MetaDemo.cm MetaDemo.A i)) [2; 0; 1] ++
     map (λ i, OPrepare (MetaDemo.pm MetaDemo.A i)) [1; 2; 0]).

Lemma round_progress_witness : ∃ c1 c2 c3 c4,
  curateMsg filled.1.2.1 = Ok c1 ∧ step2Next c1 = (Ok (stagePreprepare, stagePrepare), c2) ∧
  step2Next c2 = (Ok (stagePrepare, stageCommit), c3) ∧ step2Next c3 = (Ok (stageCommit, stagePreprepare), c4).
Proof.
  destruct (round_progress (MetaDemo.cfg 4) (MetaDemo.lp 0) filled.1.2.1 filled.1.2.2 MetaDemo.A
    (list_to_set (map MetaDemo.info [0; 1; 2])) (MetaDemo.ppm MetaDemo.A)) as (c1 & c2 & c3 & c4 & pp & H1 & H2 & H3 & H4 & _).
  - apply run_of_reachable.
  - vm_compute. reflexivity.
  - vm_compute. reflexivity.
  - vm_compute. left.
  - split; vm_compute; reflexivity.
  - intros x Hx _.
    assert (preprepares (msgPool filled.1.2.1) = [MetaDemo.ppm MetaDemo.A]) as E by (vm_compute; reflexivity).
    rewrite E in Hx. apply list_elem_of_singleton in Hx. rewrite Hx. reflexivity.
  - vm_compute. discriminate.
  - intros i Hi. apply elem_of_list_to_set in Hi.
    assert (prepares (msgPool filled.1.2.1) = map (MetaDemo.pm MetaDemo.A) [1; 2; 0]) as E by (vm_compute; reflexivity).
    apply list_elem_of_fmap in Hi as (k & -> & Hk). exists (MetaDemo.pm MetaDemo.A k). split; [|split; vm_compute; done].
    rewrite E. apply list_elem_of_fmap. exists k. split; [done|set_solver].
  - intros i Hi. apply elem_of_list_to_set in Hi.
    assert (commits (msgPool filled.1.2.1) = map (MetaDemo.cm MetaDemo.A) [2; 0; 1]) as E by (vm_compute; reflexivity).
    apply list_elem_of_fmap in Hi as (k & -> & Hk). exists (MetaDemo.cm MetaDemo.A k). split; [|split; vm_compute; done].
    rewrite E. apply list_elem_of_fmap. exists k. split; [done|set_solver].
  - exists c1, c2, c3, c4. split; [exact H1|]. split; [exact H2|]. split; [exact H3|exact H4].
Defined.

(** Six nodes, one of them faulty. *)
Lemma commit_split_witness : ∃ members byz : gset NodeInfo, Z.of_nat (size members) = 6 ∧ byz ⊆ members ∧
  ∃ ca cb ca' cb' ppa ppb, Z.of_nat (size byz) ≤ f ca ∧
    step2Next ca = (Ok (stageCommit, stagePreprepare), ca') ∧ curPreprepare ca = Some ppa ∧
    step2Next cb = (Ok (stageCommit, stagePreprepare), cb') ∧ curPreprepare cb = Some ppb ∧
    curViewSeq ca = curViewSeq cb ∧ pp_Digest ppa ≠ pp_Digest ppb.
Proof.
  destruct (commit_split (MetaDemo.cfg 6) MetaDemo.A MetaDemo.B) as
    (members & byz & run & a & b & lpa & lpb & ka & kb & ca & ga & va & cb & gb & vb & ca' & cb' & ppa & ppb &
     H1 & H2 & H3 & _ & _ & _ & _ & _ & _ & _ & _ & _ & _ & H4 & H5 & H6 & H7 & H8 & H9 & H10).
  - split; vm_compute; discriminate.
  - vm_compute. discriminate.
  - exists members, byz. split; [exact H1|]. split; [exact H2|]. exists ca, cb, ca', cb', ppa, ppb.
    split; [exact H3|]. split; [exact H4|]. split; [exact H5|]. split; [exact H6|]. split; [exact H7|]. split; [exact H8|].
    rewrite H9, H10. discriminate.
Defined.
End ProgressWitness.
