(* ===== verification/TxPool.v ===== *)
(** * The transaction pool

    Models pkg/core/txpool and pkg/core/txpool/queue: the pool, its two ways of
    packing (by number and by bytes) and its size functions.  Every operation
    holds the pool's lock, so the concurrent uses of a pool are the sequences
    of [pool_run]. *)

From S2P Require Import Prelude GoHash Account Config.
From Stdlib Require Import Lia.

Local Open Scope Z_scope.

Section pool.
  Context `{RT : RlpTx}.

Definition packTxFunc : Type :=
  list Transaction → Z → result (list Transaction * list Transaction).

(** The two [make] calls panic on a negative length. *)
Definition packTxsByGivenNum : packTxFunc := λ q n,
  let length := if decide (n < Z.of_nat (length q)) then n else Z.of_nat (length q) in
  if decide (length < 0) then Panic
  else Ok (take (Z.to_nat length) q, drop (Z.to_nat length) q).

(** The loop of [packTxsByGivenBytes] from index [i]: the final [endIdx]. *)
Fixpoint pack_bytes_loop (l : list Transaction) (n : Z) (i endIdx : nat) : result nat :=
  match l with
  | [] => Ok endIdx
  | tx :: l' =>
    let* b := tx_Encode tx in
    let size := Z.of_nat (length b) in
    if decide (size < n) then Ok endIdx
    else pack_bytes_loop l' (wrap_i64 (n - size)) (S i) (i + 1)%nat
  end.

Definition packTxsByGivenBytes : packTxFunc := λ q n,
  let* endIdx := pack_bytes_loop q n 0 0 in
  Ok (take endIdx q, drop endIdx q).

Definition getCurSizeOfNum (txs : list Transaction) : result Z := Ok (Z.of_nat (length txs)).

Definition getCurSizeOfByte (txs : list Transaction) : result Z :=
  rfold (λ cnt tx, let* b := tx_Encode tx in Ok (wrap_i64 (cnt + Z.of_nat (length b)))) 0 txs.

Record TxPool := mkTxPool {
  queue : list Transaction;
  pf : packTxFunc;
  tp_Type : string;
}.
#[export] Instance TxPool_eta : Eta TxPool := λ t, mkTxPool (queue t) (pf t) (tp_Type t).

Definition NewTxPool (cfgType : string) : result TxPool :=
  if decide (cfgType = TxPoolByteType) then Ok (mkTxPool [] packTxsByGivenBytes cfgType)
  else if decide (cfgType = TxPoolNumType) then Ok (mkTxPool [] packTxsByGivenNum cfgType)
  else Err "unknown tx pool type: %s".

Definition AddTxs (txs : list Transaction) : M TxPool unit :=
  st_modify (λ t, t <| queue ::= λ q, q ++ txs |>).

Definition PackTxs (limit : Z) : M TxPool (list Transaction) :=
  let! t := st_get in
  let! '(packed, q) := st_wrap "call pack tx func err" (st_lift (pf t (queue t) limit)) in
  st_put (t <| queue := q |>) ;;!
  st_ret packed.

Definition GetTxListSize (t : TxPool) (txs : list Transaction) : result Z :=
  if decide (tp_Type t = TxPoolByteType) then getCurSizeOfByte txs
  else if decide (tp_Type t = TxPoolNumType) then getCurSizeOfNum txs
  else Err "unknown tx pool type: %s".

(** ** Runs of a pool *)

Inductive pool_op := PoolAdd (txs : list Transaction) | PoolPack (limit : Z).

(** The transactions handed out, and the pool left. *)
Fixpoint pool_run (ops : list pool_op) (t : TxPool) : list Transaction * TxPool :=
  match ops with
  | [] => ([], t)
  | PoolAdd txs :: ops' => pool_run ops' (AddTxs txs t).2
  | PoolPack limit :: ops' =>
    let '(r, t') := PackTxs limit t in
    let '(out, t'') := pool_run ops' t' in
    (match r with Ok packed => packed ++ out | _ => out end, t'')
  end.

Definition added (ops : list pool_op) : list Transaction :=
  ops ≫= λ o, match o with PoolAdd txs => txs | PoolPack _ => [] end.

(** What a packing function promises to the pool: it splits the queue. *)
Definition splits (p : packTxFunc) : Prop :=
  ∀ q n packed rest, p q n = Ok (packed, rest) → packed ++ rest = q.

(** ** Facts *)

Lemma packTxsByGivenNum_splits : splits packTxsByGivenNum.
Proof.
  intros q n packed rest. unfold packTxsByGivenNum. repeat case_decide; intros [= <- <-];
    apply take_drop.
Qed.

Lemma packTxsByGivenBytes_splits : splits packTxsByGivenBytes.
Proof.
  intros q n packed rest (e & _ & [= <- <-])%rbind_ok. apply take_drop.
Qed.

Lemma NewTxPool_splits s t : NewTxPool s = Ok t → splits (pf t) ∧ queue t = [] ∧ tp_Type t = s.
Proof.
  unfold NewTxPool. repeat case_decide; intros [= <-];
    (split_and!; [|done..]); [apply packTxsByGivenBytes_splits | apply packTxsByGivenNum_splits].
Qed.

(** [PackTxs] hands out a prefix of the queue, or fails and changes nothing. *)
Lemma PackTxs_cases limit t : splits (pf t) →
  (∃ packed q, PackTxs limit t = (Ok packed, t <| queue := q |>) ∧ packed ++ q = queue t) ∨
  (∃ r, PackTxs limit t = (r, t) ∧ is_ok r = false).
Proof.
  intros Hs. unfold PackTxs, st_bind, st_get, st_lift, st_wrap.
  destruct (pf t (queue t) limit) as [[packed q]|e|] eqn:E; cbn.
  - left. exists packed, q. split; [done|]. by eapply Hs.
  - right. eauto.
  - right. eauto.
Qed.

Lemma pool_run_fifo ops t out t' : splits (pf t) → pool_run ops t = (out, t') →
  out ++ queue t' = queue t ++ added ops.
Proof.
  revert t out t'; induction ops as [|[txs|limit] ops IH]; intros t out t' Hs; cbn [pool_run].
  - intros [= <- <-]. by rewrite app_nil_r.
  - intros H. apply IH in H; [|done]. cbn in H. unfold added. cbn. rewrite H. by rewrite <- app_assoc.
  - destruct (PackTxs_cases limit t Hs) as [(packed & q & -> & Hq)|(r & -> & Hr)].
    + destruct (pool_run ops _) as [out' t''] eqn:E. intros [= <- <-].
      apply IH in E; [|done]. cbn in E. rewrite <- app_assoc, E, app_assoc, Hq. done.
    + destruct (pool_run ops t) as [out' t''] eqn:E. apply IH in E; [|done].
      destruct r; [done|..]; intros [= <- <-]; by rewrite E.
Qed.

(** C37: the pool neither loses, invents, duplicates nor reorders a transaction:
    over any sequence of additions and packings (failed ones included), by
    number or by bytes, what was handed out followed by what is still queued is
    exactly what was added, in the order it was added. *)
Theorem TxPool_fifo poolType t ops :
  NewTxPool poolType = Ok t →
  let '(out, t') := pool_run ops t in out ++ queue t' = added ops.
Proof.
  intros (Hs & Hq & _)%NewTxPool_splits. destruct (pool_run ops t) as [out t'] eqn:E.
  apply pool_run_fifo in E; [|done]. by rewrite E, Hq.
Qed.

(** A pool of type "number" packs the first [limit] transactions of its
    queue, all of them when it holds fewer, and its size function counts them. *)
Theorem PackTxs_number t limit :
  NewTxPool TxPoolNumType = Ok t → 0 ≤ limit → ∀ q,
  let t := t <| queue := q |> in
  PackTxs limit t = (Ok (take (Z.to_nat limit) q), t <| queue := drop (Z.to_nat limit) q |>) ∧
  ∃ n, GetTxListSize t (take (Z.to_nat limit) q) = Ok n ∧ n ≤ limit ∧
    (limit ≤ Z.of_nat (length q) → n = limit).
Proof.
  intros [= <-] Hl q. cbn zeta. split.
  - unfold PackTxs, st_bind, st_get, st_wrap, st_lift, st_put, st_ret. cbn.
    unfold packTxsByGivenNum. case_decide as E1; case_decide as E2; try lia; cbn; [done|].
    rewrite Nat2Z.id, !firstn_all, !drop_all, take_ge, drop_ge by lia. done.
  - exists (Z.of_nat (length (take (Z.to_nat limit) q))). split; [done|].
    rewrite length_take. split; lia.
Qed.

(** The total size a list of transactions encodes to. *)
Definition enc_size (txs : list Transaction) : result Z :=
  rfold (λ cnt tx, let* b := tx_Encode tx in Ok (cnt + Z.of_nat (length b))) 0 txs.

Lemma pack_bytes_loop_all l n i e :
  (∀ tx, tx ∈ l → ∃ b, tx_Encode tx = Ok b ∧ Z.of_nat (length b) < 2 ^ 32) →
  int64_min + Z.of_nat (length l) * 2 ^ 32 ≤ n ≤ 0 → l ≠ [] →
  pack_bytes_loop l n i e = Ok (i + length l)%nat.
Proof.
  revert n i e; induction l as [|tx l IH]; intros n i e Hl Hn Hne; [done|].
  destruct (Hl tx) as (b & Hb & Hlt); [by left|]. cbn [pack_bytes_loop length] in *.
  rewrite Hb. cbn [rbind]. case_decide; [lia|].
  assert (wrap_i64 (n - Z.of_nat (length b)) = n - Z.of_nat (length b)) as Hw.
  { apply wrap_s_id; [lia|]. unfold in_s, int64_min in *. lia. }
  rewrite Hw. destruct l as [|tx' l'].
  - done.
  - rewrite IH; [|intros x Hx; apply Hl; by right | cbn [length] in *; lia | done].
    f_equal. lia.
Qed.

(** C38: a pool of type "byte" does not limit what it packs by [limit]: it packs
    nothing while the first queued transaction is smaller than [limit], and the
    whole queue once the first one is at least [limit] (encodings under 4 GiB
    and fewer than 2^30 of them, so the int counter does not wrap). *)
Theorem PackTxs_byte_all_or_nothing t tx q limit b :
  NewTxPool TxPoolByteType = Ok t → queue t = [] →
  0 ≤ limit ≤ int64_max → tx_Encode tx = Ok b → Z.of_nat (length q) < 2 ^ 30 →
  (∀ x, x ∈ tx :: q → ∃ bx, tx_Encode x = Ok bx ∧ Z.of_nat (length bx) < 2 ^ 32) →
  let t := t <| queue := tx :: q |> in
  (Z.of_nat (length b) < limit → PackTxs limit t = (Ok [], t)) ∧
  (limit ≤ Z.of_nat (length b) → PackTxs limit t = (Ok (tx :: q), t <| queue := [] |>)).
Proof.
  intros [= <-] _ Hl Hb Hq Hx. destruct (Hx tx) as (b' & Hb' & Hlt); [by left|].
  rewrite Hb in Hb'; injection Hb' as <-.
  unfold PackTxs, st_bind, st_get, st_wrap, st_lift, st_put, st_ret. cbn.
  unfold packTxsByGivenBytes. cbn [pack_bytes_loop]. rewrite Hb. cbn [rbind].
  split; intros Hc; case_decide; try lia; [done|].
  assert (wrap_i64 (limit - Z.of_nat (length b)) = limit - Z.of_nat (length b)) as ->.
  { apply wrap_s_id; [lia|]. unfold in_s, int64_max in *. lia. }
  destruct q as [|tx' q]; [done|].
  rewrite pack_bytes_loop_all; [|intros x Hi; apply Hx; by right | | done].
  - cbn. by rewrite firstn_all, drop_all.
  - unfold int64_min. cbn [length] in *. lia.
Qed.
End pool.

(** ** Witnesses *)

Module PoolDemo.
(** An encoder for the examples: as many bytes as the nonce says. *)
#[export] Instance rlp : RlpTx := λ t, Ok (replicate (Z.to_nat (Nonce t)) (Z_to_byte 1)).
Definition tx (n : Z) : Transaction :=
  NewTransaction EmptyAccountAddr EmptyAccountAddr n 0 n 0.
End PoolDemo.
Import PoolDemo.

Lemma TxPool_fifo_witness :
  let t := mkTxPool [] packTxsByGivenNum TxPoolNumType in
  let ops := [PoolAdd [tx 1; tx 2]; PoolPack 1; PoolAdd [tx 3]; PoolPack (-1); PoolPack 9] in
  let '(out, t') := pool_run ops t in
  out = [tx 1; tx 2; tx 3] ∧ out ++ queue t' = added ops.
Proof.
  split; [vm_compute; reflexivity|].
  apply (TxPool_fifo TxPoolNumType (mkTxPool [] packTxsByGivenNum TxPoolNumType)
    [PoolAdd [tx 1; tx 2]; PoolPack 1; PoolAdd [tx 3]; PoolPack (-1); PoolPack 9]).
  reflexivity.
Defined.

Lemma PackTxs_number_witness :
  PackTxs 2 (mkTxPool [tx 1; tx 2; tx 3] packTxsByGivenNum TxPoolNumType) =
    (Ok [tx 1; tx 2], mkTxPool [tx 3] packTxsByGivenNum TxPoolNumType).
Proof.
  apply (PackTxs_number (mkTxPool [] packTxsByGivenNum TxPoolNumType) 2 eq_refl
    ltac:(lia) [tx 1; tx 2; tx 3]).
Defined.

Lemma PackTxs_byte_all_or_nothing_witness :
  let t := mkTxPool [tx 5; tx 1] packTxsByGivenBytes TxPoolByteType in
  PackTxs 100 t = (Ok [], t) ∧
  PackTxs 2 t = (Ok [tx 5; tx 1], mkTxPool [] packTxsByGivenBytes TxPoolByteType).
Proof.
  assert (∀ x, x ∈ [tx 5; tx 1] → ∃ bx, tx_Encode x = Ok bx ∧ Z.of_nat (length bx) < 2 ^ 32) as H.
  { intros x Hx. repeat (apply elem_of_cons in Hx as [->|Hx]; [by eexists|]).
    by apply not_elem_of_nil in Hx. }
  split.
  - apply (PackTxs_byte_all_or_nothing (mkTxPool [] packTxsByGivenBytes TxPoolByteType)
      (tx 5) [tx 1] 100 (replicate 5 (Z_to_byte 1))); done || (unfold int64_max; lia).
  - apply (PackTxs_byte_all_or_nothing (mkTxPool [] packTxsByGivenBytes TxPoolByteType)
      (tx 5) [tx 1] 2 (replicate 5 (Z_to_byte 1))); done || (unfold int64_max; lia).
Defined.
