(* ===== verification/StateDB.v ===== *)
(** * The account-state database

    go-ethereum's state database, its block and EVM entry points and
    [core.CanTransfer] are not part of this repository: they are operations of
    two classes.  [StateDBLaws] states what the code relies on: reads after
    writes, uint256 wrap-around, and that a committed state can be opened
    again at its root, without the accounts that were destroyed or left empty.
    [eff] is the client's view: the balance an address
    has once the code's lazy initialisation is taken into account.
    [MapStateDB] shows the laws hold of a map of accounts. *)

From S2P Require Import Prelude GoHash Account.
From Stdlib Require Import Lia.

Local Open Scope Z_scope.

Class StateDBLib := {
  StateStore : Type;
  StateDB : Type;
  state_New : bytes → StateStore → result StateDB;
  db_Exist : StateDB → Address → bool;
  db_Empty : StateDB → Address → bool;
  db_GetBalance : StateDB → Address → Z;
  db_GetNonce : StateDB → Address → Z;
  db_SetBalance : Address → Z → StateDB → StateDB;
  db_SubBalance : Address → Z → StateDB → StateDB;
  db_AddBalance : Address → Z → StateDB → StateDB;
  db_SetNonce : Address → Z → StateDB → StateDB;
  (** Used by contracts only: code, storage, and whether an account has run
      SELFDESTRUCT since the state was opened. *)
  db_GetCode : StateDB → Address → bytes;
  db_GetState : StateDB → Address → bytes → bytes;
  db_HasSelfDestructed : StateDB → Address → bool;
  core_CanTransfer : StateDB → Address → Z → bool;
  (** [IntermediateRoot(true)] and [Commit(number, true, false)]. *)
  db_IntermediateRoot : StateDB → bytes;
  db_Commit : Z → StateDB → StateStore → result bytes * StateStore;
  (** [TrieDB().Commit(root, false)] *)
  triedb_Commit : bytes → StateStore → result unit * StateStore;
  EmptyRootHash : bytes;
}.

(** The block context of [gethvm.BlockContext] and the two EVM entry points. *)
Record BlockContext := mkBlockContext {
  bc_Coinbase : Address; bc_BlockNumber : Z; bc_Time : Z;
  bc_Difficulty : Z; bc_GasLimit : Z; bc_BaseFee : Z;
}.

Class EVMLib {SL : StateDBLib} := {
  evm_Create : BlockContext → Address → bytes → Z → Z → StateDB → result (Address * Z) * StateDB;
  evm_Call : BlockContext → Address → Address → bytes → Z → Z → StateDB →
    result (bytes * Z) * StateDB;
}.

(** An account that is not there. *)
Definition gone `{SL : StateDBLib} (s : StateDB) (a : Address) : Prop :=
  db_Exist s a = false ∧ db_GetBalance s a = 0 ∧ db_GetNonce s a = 0 ∧ db_GetCode s a = [] ∧
  ∀ k, db_GetState s a k = replicate 32 Byte.x00.

(** The same account in two states: its existence, balance, nonce, code and storage. *)
Definition same_account `{SL : StateDBLib} (s s' : StateDB) (a : Address) : Prop :=
  db_Exist s' a = db_Exist s a ∧ db_GetBalance s' a = db_GetBalance s a ∧ db_GetNonce s' a = db_GetNonce s a ∧
  db_GetCode s' a = db_GetCode s a ∧ ∀ k, db_GetState s' a k = db_GetState s a k.

Class StateDBLaws (SL : StateDBLib) : Prop := {
  balance_range : ∀ s a, in_u 256 (db_GetBalance s a);
  exist_SetBalance : ∀ s a v b,
    db_Exist (db_SetBalance a v s) b = bool_decide (a = b) || db_Exist s b;
  exist_SubBalance : ∀ s a v b,
    db_Exist (db_SubBalance a v s) b = bool_decide (a = b) || db_Exist s b;
  exist_AddBalance : ∀ s a v b,
    db_Exist (db_AddBalance a v s) b = bool_decide (a = b) || db_Exist s b;
  exist_SetNonce : ∀ s a v b,
    db_Exist (db_SetNonce a v s) b = bool_decide (a = b) || db_Exist s b;
  balance_SetBalance : ∀ s a v b, in_u 256 v →
    db_GetBalance (db_SetBalance a v s) b = if decide (a = b) then v else db_GetBalance s b;
  balance_SubBalance : ∀ s a v b, in_u 256 v →
    db_GetBalance (db_SubBalance a v s) b =
      if decide (a = b) then wrap_u256 (db_GetBalance s b - v) else db_GetBalance s b;
  balance_AddBalance : ∀ s a v b, in_u 256 v →
    db_GetBalance (db_AddBalance a v s) b =
      if decide (a = b) then wrap_u256 (db_GetBalance s b + v) else db_GetBalance s b;
  balance_SetNonce : ∀ s a v b, db_GetBalance (db_SetNonce a v s) b = db_GetBalance s b;
  nonce_SetBalance : ∀ s a v b, db_GetNonce (db_SetBalance a v s) b = db_GetNonce s b;
  nonce_SubBalance : ∀ s a v b, db_GetNonce (db_SubBalance a v s) b = db_GetNonce s b;
  nonce_AddBalance : ∀ s a v b, db_GetNonce (db_AddBalance a v s) b = db_GetNonce s b;
  nonce_SetNonce : ∀ s a v b, in_u 64 v →
    db_GetNonce (db_SetNonce a v s) b = if decide (a = b) then v else db_GetNonce s b;
  can_transfer_spec : ∀ s a v, core_CanTransfer s a v = bool_decide (v ≤ db_GetBalance s a);
  root_length : ∀ s, length (db_IntermediateRoot s) = 32%nat;
  commit_root : ∀ n s st r st', db_Commit n s st = (Ok r, st') → r = db_IntermediateRoot s;
  (** [Empty]: no balance, no nonce and no code (EIP-161). *)
  empty_spec : ∀ s a, db_Empty s a → db_GetBalance s a = 0 ∧ db_GetNonce s a = 0;
  (** The setters neither destroy an account nor bring one back, and nothing is
      destroyed in a state just opened. *)
  destructed_SetBalance : ∀ s a v b, db_HasSelfDestructed (db_SetBalance a v s) b = db_HasSelfDestructed s b;
  destructed_SubBalance : ∀ s a v b, db_HasSelfDestructed (db_SubBalance a v s) b = db_HasSelfDestructed s b;
  destructed_AddBalance : ∀ s a v b, db_HasSelfDestructed (db_AddBalance a v s) b = db_HasSelfDestructed s b;
  destructed_SetNonce : ∀ s a v b, db_HasSelfDestructed (db_SetNonce a v s) b = db_HasSelfDestructed s b;
  destructed_New : ∀ r st s a, state_New r st = Ok s → db_HasSelfDestructed s a = false;
  (** Opening a committed root: the accounts that were destroyed (with what they
      were sent afterwards) or are empty (EIP-158) are gone, the others are as
      they were. *)
  commit_open : ∀ n s st r st' st'',
    db_Commit n s st = (Ok r, st') → triedb_Commit r st' = (Ok tt, st'') →
    ∃ s', state_New r st'' = Ok s' ∧ ∀ a,
      if db_HasSelfDestructed s a || db_Empty s a then gone s' a else same_account s s' a;
}.

(** The value every account is initialised with. *)
Definition initBalance : Z := 10 ^ 36.

Section eff.
  Context {SL : StateDBLib}.

Definition eff (s : StateDB) (a : Address) : Z :=
  if db_Exist s a then db_GetBalance s a else initBalance.

Context {SLaws : StateDBLaws SL}.

Lemma initBalance_range : in_u 256 initBalance.
Proof. unfold in_u, initBalance. split; [lia|]. reflexivity. Qed.

Lemma eff_range s a : in_u 256 (eff s a).
Proof using All. unfold eff. case_match; [apply balance_range | apply initBalance_range]. Qed.

Lemma eff_SetBalance s a v b : in_u 256 v →
  eff (db_SetBalance a v s) b = if decide (a = b) then v else eff s b.
Proof using All.
  intros Hv. unfold eff. rewrite exist_SetBalance, balance_SetBalance by done.
  case_decide as E; [by rewrite bool_decide_eq_true_2 | by rewrite bool_decide_eq_false_2].
Qed.

Lemma eff_SubBalance s a v b : in_u 256 v → db_Exist s a →
  eff (db_SubBalance a v s) b = if decide (a = b) then wrap_u256 (eff s b - v) else eff s b.
Proof using All.
  intros Hv Ha. unfold eff. rewrite exist_SubBalance, balance_SubBalance by done.
  case_decide as E; [|by rewrite bool_decide_eq_false_2].
  rewrite bool_decide_eq_true_2 by done. subst b. by destruct (db_Exist s a).
Qed.

Lemma eff_AddBalance s a v b : in_u 256 v → db_Exist s a →
  eff (db_AddBalance a v s) b = if decide (a = b) then wrap_u256 (eff s b + v) else eff s b.
Proof using All.
  intros Hv Ha. unfold eff. rewrite exist_AddBalance, balance_AddBalance by done.
  case_decide as E; [|by rewrite bool_decide_eq_false_2].
  rewrite bool_decide_eq_true_2 by done. subst b. by destruct (db_Exist s a).
Qed.

Lemma eff_SetNonce s a v b : db_Exist s a → eff (db_SetNonce a v s) b = eff s b.
Proof using All.
  intros Ha. unfold eff. rewrite exist_SetNonce, balance_SetNonce.
  case_bool_decide as E; [|done]. subst b. by destruct (db_Exist s a).
Qed.
End eff.

(** ** A map of accounts as a state database *)

Module MapStateDB.

Record account := mkAccount {
  acc_balance : Z; acc_nonce : Z; acc_code : bytes; acc_storage : gmap bytes bytes; acc_destructed : bool;
}.
#[export] Instance account_eta : Eta account := λ x,
  mkAccount (acc_balance x) (acc_nonce x) (acc_code x) (acc_storage x) (acc_destructed x).

Abbreviation account_map := (gmap Address account).

Definition no_account : account := mkAccount 0 0 [] ∅ false.
Definition lookup_acc (s : account_map) (a : Address) : account := default no_account (s !! a).
Definition on_acc (h : account → account) (a : Address) (s : account_map) : account_map :=
  <[a := h (lookup_acc s a)]> s.

Definition nonempty_acc (x : account) : Prop :=
  wrap_u256 (acc_balance x) ≠ 0 ∨ wrap_u64 (acc_nonce x) ≠ 0 ∨ acc_code x ≠ [].
#[export] Instance nonempty_acc_dec x : Decision (nonempty_acc x).
Proof. unfold nonempty_acc. apply _. Defined.
Definition survives (x : account) : bool := bool_decide (nonempty_acc x) && negb (acc_destructed x).

(** What is left after finalising. *)
Definition finalised (s : account_map) : account_map :=
  omap (λ x, if survives x then Some x else None) s.

Definition db_root (s : account_map) : bytes :=
  Z_to_be 32 (map_fold (λ _ x acc, acc + acc_balance x + acc_nonce x) 0 (finalised s)).

#[local] Arguments db_root : simpl never.

(** What a SELFDESTRUCT does to its account. *)
Definition destruct_acc : Address → account_map → account_map :=
  on_acc (λ x, x <| acc_balance := 0 |> <| acc_destructed := true |>).

Definition set_balance (h : Z → Z) : Address → account_map → account_map :=
  on_acc (λ x, x <| acc_balance ::= h |>).
Definition set_nonce (n : Z) : Address → account_map → account_map :=
  on_acc (λ x, x <| acc_nonce := n |>).
Definition undestructed (x : account) : account := x <| acc_destructed := false |>.

#[export] Instance lib : StateDBLib := {|
  StateStore := gmap bytes account_map;
  StateDB := account_map;
  state_New r (st : gmap bytes account_map) := match st !! r with
                    | Some s => Ok (undestructed <$> s)
                    | None => Err "missing trie node"
                    end;
  db_Exist (s : account_map) a := bool_decide (is_Some (s !! a));
  db_Empty (s : account_map) a := bool_decide (¬ nonempty_acc (lookup_acc s a));
  db_GetBalance (s : account_map) a := wrap_u256 (acc_balance (lookup_acc s a));
  db_GetNonce (s : account_map) a := wrap_u64 (acc_nonce (lookup_acc s a));
  db_SetBalance a v (s : account_map) := set_balance (λ _, v) a s;
  db_SubBalance a v (s : account_map) := set_balance (λ b, b - v) a s;
  db_AddBalance a v (s : account_map) := set_balance (λ b, b + v) a s;
  db_SetNonce a v (s : account_map) := set_nonce v a s;
  db_GetCode (s : account_map) a := acc_code (lookup_acc s a);
  db_GetState (s : account_map) a k := default (replicate 32 Byte.x00) (acc_storage (lookup_acc s a) !! k);
  db_HasSelfDestructed (s : account_map) a := acc_destructed (lookup_acc s a);
  core_CanTransfer (s : account_map) a v := bool_decide (v ≤ wrap_u256 (acc_balance (lookup_acc s a)));
  db_IntermediateRoot s := db_root s;
  db_Commit _ (s : account_map) (st : gmap bytes account_map) := (Ok (db_root s), <[db_root s := finalised s]> st);
  triedb_Commit _ st := (Ok tt, st);
  EmptyRootHash := Z_to_be 32 0;
|}.

Lemma exist_on_acc h (s : account_map) a b :
  bool_decide (is_Some (on_acc h a s !! b)) = bool_decide (a = b) || bool_decide (is_Some (s !! b)).
Proof.
  unfold on_acc. destruct (decide (a = b)) as [->|Hne].
  - rewrite lookup_insert_eq, (bool_decide_eq_true_2 (b = b)) by done.
    by rewrite bool_decide_eq_true_2.
  - by rewrite lookup_insert_ne, (bool_decide_eq_false_2 (a = b)).
Qed.

Lemma lookup_on_acc h (s : account_map) a b :
  lookup_acc (on_acc h a s) b = if decide (a = b) then h (lookup_acc s b) else lookup_acc s b.
Proof.
  unfold lookup_acc at 1, on_acc.
  case_decide as E; [subst; by rewrite lookup_insert_eq | by rewrite lookup_insert_ne].
Qed.

Lemma reopened (s : account_map) a :
  (undestructed <$> finalised s) !! a =
  match s !! a with Some x => if survives x then Some x else None | None => None end.
Proof.
  unfold finalised. rewrite lookup_fmap, lookup_omap. destruct (s !! a) as [x|]; [|done]. cbn.
  destruct (survives x) eqn:E; [|done]. cbn. f_equal. unfold survives in E.
  destruct x as [b n c st []]; [by rewrite andb_false_r in E|done].
Qed.

Lemma commit_accounts (s : account_map) a :
  let s' := undestructed <$> finalised s in
  if db_HasSelfDestructed s a || db_Empty s a then gone s' a else same_account s s' a.
Proof.
  cbn zeta. unfold gone, same_account. cbn. unfold lookup_acc. rewrite reopened.
  destruct (s !! a) as [x|] eqn:E; cbn; [|by rewrite orb_true_r || done].
  unfold survives. destruct (decide (nonempty_acc x)) as [Hn|Hn].
  - rewrite (bool_decide_eq_true_2 (nonempty_acc x)), (bool_decide_eq_false_2 (¬ nonempty_acc x)) by tauto.
    rewrite orb_false_r, andb_true_l. by destruct (acc_destructed x).
  - rewrite (bool_decide_eq_false_2 (nonempty_acc x)), (bool_decide_eq_true_2 (¬ nonempty_acc x)) by tauto.
    by rewrite orb_true_r.
Qed.

#[export] Instance laws : StateDBLaws lib.
Proof.
  split; cbn; unfold set_balance, set_nonce; intros; rewrite ?exist_on_acc, ?lookup_on_acc; try done.
  all: try (case_decide; [subst; cbn|done]); try done.
  - by apply wrap_u_range.
  - by apply wrap_u_id.
  - unfold wrap_u. by rewrite Zminus_mod_idemp_l.
  - unfold wrap_u. by rewrite Zplus_mod_idemp_l.
  - by apply wrap_u_id.
  - by simplify_eq.
  - unfold nonempty_acc in *. apply bool_decide_spec in H.
    destruct (decide (wrap_u256 (acc_balance (lookup_acc s a)) = 0)), (decide (wrap_u64 (acc_nonce (lookup_acc s a)) = 0)); tauto.
  - destruct (st !! r) as [s0|] eqn:E; [|done]. simplify_eq. unfold lookup_acc. rewrite lookup_fmap.
    by destruct (s0 !! a).
  - simplify_eq. eexists. rewrite lookup_insert_eq. split; [done|]. apply commit_accounts.
Qed.
End MapStateDB.
