(* ===== verification/TxExecute.v ===== *)
(** * Execution of transactions on the state database

    Models pkg/vm/vm.go, pkg/chain/evmcontractexecutor.go, txexecute.go and
    stateio.go: the three native kinds of transaction (normal, relay, broker),
    the contract entry points, and reading and writing an account's state.
    The theorems say what each does to the balances an observer sees ([eff]),
    on every branch. *)

From S2P Require Import Prelude GoHash Account Bloom Block Config StateDB.
From Stdlib Require Import Lia.

Local Open Scope Z_scope.

Definition blockNumBias : Z := 20000000.
Definition blockGasLimit : Z := 1000000000000.

(** [t.Unix()]: seconds since 1970 of nanoseconds since year 1. *)
Definition Unix (t : Time) : Z := t / 1000000000 - 62135596800.

Definition getBlockCtxByBlock `{BL : BitSetLib} (b : Block) : BlockContext :=
  let h := b_Header b in
  mkBlockContext (Miner h) (wrap_u64 (Number h + blockNumBias)) (wrap_u64 (Unix (BCreateTime h)))
    0 blockGasLimit 0.

Section exec.
  Context {SL : StateDBLib}.

(** The executor of one block is its state database; [vme.StateDB()] is the
    state these functions run on. *)
Definition NewExecutor (stateStore : StateStore) (root : bytes) : result StateDB :=
  wrap_err "failed to new a state database" (state_New root stateStore).

Definition DeployContract {EV : EVMLib} (ctx : BlockContext) (tx : Transaction)
    : M StateDB (Address * Z) :=
  if decide (TxType tx ≠ CreateContractTxType) then st_fail "not a create contract tx, tx type: %d"
  else
    let! uValue := st_wrap "failed to convert value to uint256" (st_lift (BigToUInt256 (Value tx))) in
    st_wrap "failed to create contract"
      (evm_Create ctx (Sender tx) (Data tx) (GasLimit tx) uValue).

Definition CallContract {EV : EVMLib} (ctx : BlockContext) (tx : Transaction)
    : M StateDB (bytes * Z) :=
  if decide (TxType tx ≠ CallContractTxType) then st_fail "not a call contract tx, tx type: %d"
  else
    let! uValue := st_wrap "failed to convert value to uint256" (st_lift (BigToUInt256 (Value tx))) in
    evm_Call ctx (Sender tx) (Recipient tx) (Data tx) (GasLimit tx) uValue.

Definition CreateContractTxExecute {EV : EVMLib} := DeployContract.
Definition CallContractTxExecute {EV : EVMLib} := CallContract.

Definition normalInitBalance : Z := default 0 (big_SetString NormalInitBalanceStr).
Definition brokerInitBalance : Z := default 0 (big_SetString BrokerInitBalanceStr).

Definition setInitBalanceIfNotExist (addresses : list Address) : M StateDB unit :=
  st_for (λ a, st_modify (λ s,
    if db_Exist s a then s else db_SetBalance a normalInitBalance s)) addresses.

Definition setBrokerInitBalanceIfNotExist (addresses : list Address) : M StateDB unit :=
  st_for (λ a, st_modify (λ s,
    if db_Exist s a then s else db_SetBalance a brokerInitBalance s)) addresses.

Definition notEnough : error := "transfer failed: the balance of %x is not enough".

Definition normalTxExecute (tx : Transaction) : M StateDB unit :=
  let! uVal := st_wrap "convert value to uint256 failed" (st_lift (BigToUInt256 (Value tx))) in
  setInitBalanceIfNotExist [Sender tx; Recipient tx] ;;!
  let! s := st_get in
  if core_CanTransfer s (Sender tx) uVal then
    st_modify (db_SubBalance (Sender tx) uVal) ;;!
    st_modify (db_AddBalance (Recipient tx) uVal)
  else st_fail notEnough.

(** A missing key of [addrLoc] reads 0, as a Go map's does. *)
Definition loc_of (addrLoc : gmap Address Z) (a : Address) : Z := default 0 (addrLoc !! a).

Definition relayTxExecute (addrLoc : gmap Address Z) (shard : Z) (tx : Transaction)
    : M StateDB unit :=
  let! uVal := st_wrap "convert value to uint256 failed" (st_lift (BigToUInt256 (Value tx))) in
  if decide (tx_RelayStage tx = Relay1Tx) then
    if decide (loc_of addrLoc (Sender tx) ≠ shard) then st_ret tt
    else
      setInitBalanceIfNotExist [Sender tx] ;;!
      let! s := st_get in
      if core_CanTransfer s (Sender tx) uVal then st_modify (db_SubBalance (Sender tx) uVal)
      else st_fail notEnough
  else if decide (tx_RelayStage tx = Relay2Tx) then
    if decide (loc_of addrLoc (Recipient tx) ≠ shard) then st_ret tt
    else
      setInitBalanceIfNotExist [Recipient tx] ;;!
      st_modify (db_AddBalance (Recipient tx) uVal)
  else st_fail "unknown relay transaction type: %d".

Definition brokerTxExecute (addrLoc : gmap Address Z) (shard : Z) (tx : Transaction)
    : M StateDB unit :=
  let! uVal := st_wrap "convert value to uint256 failed" (st_lift (BigToUInt256 (Value tx))) in
  if decide (tx_BrokerStage tx = Sigma1BrokerStage) then
    if decide (loc_of addrLoc (Sender tx) ≠ shard) then st_ret tt
    else
      setInitBalanceIfNotExist [Sender tx] ;;!
      setBrokerInitBalanceIfNotExist [tx_Broker tx] ;;!
      let! s := st_get in
      if core_CanTransfer s (Sender tx) uVal then
        st_modify (db_SubBalance (Sender tx) uVal) ;;!
        st_modify (db_AddBalance (tx_Broker tx) uVal)
      else st_fail notEnough
  else if decide (tx_BrokerStage tx = Sigma2BrokerStage) then
    if decide (loc_of addrLoc (Recipient tx) ≠ shard) then st_ret tt
    else
      setInitBalanceIfNotExist [Recipient tx] ;;!
      setBrokerInitBalanceIfNotExist [tx_Broker tx] ;;!
      st_modify (db_SubBalance (tx_Broker tx) uVal) ;;!
      st_modify (db_AddBalance (Recipient tx) uVal)
  else st_fail "unknown broker transaction type: %d".

(** [Chain.txExecute] *)
Definition txExecute {EV : EVMLib} (shardID : Z) (bCtx : BlockContext) (addrLoc : gmap Address Z)
    (tx : Transaction) : M StateDB unit :=
  if decide (TxType tx = NormalTxType) then
    st_wrap "execute normal tx failed" (normalTxExecute tx)
  else if decide (TxType tx = RelayTxType) then
    st_wrap "execute relay tx failed" (relayTxExecute addrLoc shardID tx)
  else if decide (TxType tx = BrokerTxType) then
    st_wrap "execute broker tx failed" (brokerTxExecute addrLoc shardID tx)
  else if decide (TxType tx = CreateContractTxType) then
    let! _ := st_wrap "failed to deploy contract" (CreateContractTxExecute bCtx tx) in st_ret tt
  else if decide (TxType tx = CallContractTxType) then
    let! _ := st_wrap "failed to call contract" (CallContractTxExecute bCtx tx) in st_ret tt
  else st_fail "unknown transaction type: %d".

(** ** stateio.go *)

Definition readStateFromVMExecutor (address : Address) (location : Z) (s : StateDB) : State :=
  if db_Exist s address then
    mkState address (db_GetNonce s address) (db_GetBalance s address) [] [] location
  else NewState address location.

Definition setMigratedStates2VMTrie (address : Address) (st : State) : M StateDB unit :=
  let! b := st_wrap "big to string err" (st_lift (BigToUInt256 (S_Balance st))) in
  st_modify (db_SetBalance address b) ;;!
  st_modify (db_SetNonce address (S_Nonce st)).

End exec.

(** ** Facts *)

Section exec_facts.
  Context {SL : StateDBLib} {SLaws : StateDBLaws SL}.

Lemma normalInitBalance_value : normalInitBalance = initBalance.
Proof. vm_compute. reflexivity. Qed.
Lemma brokerInitBalance_value : brokerInitBalance = initBalance.
Proof. vm_compute. reflexivity. Qed.

(** [s'] is [s] with the accounts of [l] initialised. *)
Definition inits (l : list Address) (s s' : StateDB) : Prop :=
  (∀ a, eff s' a = eff s a) ∧ (∀ a, db_GetNonce s' a = db_GetNonce s a) ∧
  (∀ a, db_Exist s' a ↔ db_Exist s a ∨ a ∈ l).

Lemma inits_refl s : inits [] s s.
Proof. split_and!; [done..|]. intros a. rewrite elem_of_nil. tauto. Qed.

Lemma inits_one a s :
  inits [a] s (if db_Exist s a then s else db_SetBalance a initBalance s).
Proof using All.
  destruct (db_Exist s a) eqn:E.
  - split_and!; [done..|]. intros b. rewrite list_elem_of_singleton.
    split; [auto|]. intros [?| ->]; [done|]. by rewrite E.
  - split_and!.
    + intros b. rewrite eff_SetBalance by apply initBalance_range.
      case_decide; [|done]. subst. unfold eff. by rewrite E.
    + intros b. apply nonce_SetBalance.
    + intros b. rewrite exist_SetBalance, list_elem_of_singleton, orb_True, bool_decide_spec.
      naive_solver.
Qed.

Lemma inits_trans l1 l2 s1 s2 s3 : inits l1 s1 s2 → inits l2 s2 s3 → inits (l1 ++ l2) s1 s3.
Proof.
  intros (A1 & A2 & A3) (B1 & B2 & B3). split_and!; intros a.
  - by rewrite B1, A1.
  - by rewrite B2, A2.
  - rewrite B3, A3, elem_of_app. tauto.
Qed.

Lemma setInit_inits l s :
  ∃ s', setInitBalanceIfNotExist l s = (Ok tt, s') ∧ inits l s s'.
Proof using All.
  unfold setInitBalanceIfNotExist. rewrite normalInitBalance_value.
  revert s; induction l as [|a l IH]; intros s; cbn; [eexists; split; [done | apply inits_refl]|].
  unfold st_bind, st_modify at 1. edestruct IH as (s' & -> & H). eexists; split; [done|].
  change (a :: l) with ([a] ++ l). eapply inits_trans; [apply inits_one | exact H].
Qed.

Lemma setBrokerInit_inits l s :
  ∃ s', setBrokerInitBalanceIfNotExist l s = (Ok tt, s') ∧ inits l s s'.
Proof using All.
  assert (setBrokerInitBalanceIfNotExist l = setInitBalanceIfNotExist l) as ->.
  { unfold setBrokerInitBalanceIfNotExist, setInitBalanceIfNotExist.
    by rewrite normalInitBalance_value, brokerInitBalance_value. }
  apply setInit_inits.
Qed.

#[local] Arguments setInitBalanceIfNotExist : simpl never.
#[local] Arguments setBrokerInitBalanceIfNotExist : simpl never.

(** What an address observes after a debit, a credit, and a transfer. *)
Definition debit (led : Address → Z) (a : Address) (v : Z) : Address → Z :=
  λ b, if decide (a = b) then led b - v else led b.
Definition credit (led : Address → Z) (a : Address) (v : Z) : Address → Z :=
  λ b, if decide (a = b) then led b + v else led b.
Definition transfer (led : Address → Z) (from to : Address) (v : Z) : Address → Z :=
  credit (debit led from v) to v.

(** Sums of balances after a debit, a credit, a transfer. *)
Lemma sumZ_debit led a v accs : NoDup accs → a ∈ accs → sumZ (debit led a v) accs = sumZ led accs - v.
Proof using Type.
  intros Hnd Ha. rewrite (sumZ_update led _ a) by (done || (intros x Hx; unfold debit; by rewrite decide_False)).
  unfold debit. rewrite decide_True by done. lia.
Qed.
Lemma sumZ_credit led a v accs : NoDup accs → a ∈ accs → sumZ (credit led a v) accs = sumZ led accs + v.
Proof using Type.
  intros Hnd Ha. rewrite (sumZ_update led _ a) by (done || (intros x Hx; unfold credit; by rewrite decide_False)).
  unfold credit. rewrite decide_True by done. lia.
Qed.
Lemma sumZ_transfer led a b v accs : NoDup accs → a ∈ accs → b ∈ accs →
  sumZ (transfer led a b v) accs = sumZ led accs.
Proof using Type. intros Hnd Ha Hb. unfold transfer. rewrite sumZ_credit, sumZ_debit by done. lia. Qed.

Lemma can_transfer_eff s a v : db_Exist s a → core_CanTransfer s a v = bool_decide (v ≤ eff s a).
Proof using All. intros Ha. rewrite can_transfer_spec. unfold eff. by destruct (db_Exist s a). Qed.

Lemma eff_sub_debit s a v : in_u 256 v → db_Exist s a → v ≤ eff s a →
  ∀ b, eff (db_SubBalance a v s) b = debit (eff s) a v b.
Proof using All.
  intros Hv Ha Hle b. rewrite eff_SubBalance by done. unfold debit. case_decide; [|done]. subst.
  apply wrap_u_id. pose proof (eff_range s b) as Hr. unfold in_u in *. lia.
Qed.

Lemma eff_add_credit s a v : in_u 256 v → db_Exist s a → eff s a + v < 2 ^ 256 →
  ∀ b, eff (db_AddBalance a v s) b = credit (eff s) a v b.
Proof using All.
  intros Hv Ha Hlt b. rewrite eff_AddBalance by done. unfold credit. case_decide; [|done]. subst.
  apply wrap_u_id. pose proof (eff_range s b) as Hr. unfold in_u in *. lia.
Qed.

(** A debit that is covered followed by a credit that fits is a transfer. *)
Lemma eff_sub_add_transfer s a b v : in_u 256 v → db_Exist s a → db_Exist s b → v ≤ eff s a →
  debit (eff s) a v b + v < 2 ^ 256 →
  ∀ c, eff (db_AddBalance b v (db_SubBalance a v s)) c = transfer (eff s) a b v c.
Proof using All.
  intros Hv Ha Hb Hle Hlt c. rewrite eff_add_credit; try done.
  - unfold transfer, credit. case_decide; rewrite ?eff_sub_debit; done.
  - rewrite exist_SubBalance, orb_True. by right.
  - by rewrite eff_sub_debit.
Qed.

Lemma debit_ext led led' a v : (∀ b, led b = led' b) → ∀ b, debit led a v b = debit led' a v b.
Proof. intros H b. unfold debit. by rewrite H. Qed.
Lemma credit_ext led led' a v : (∀ b, led b = led' b) → ∀ b, credit led a v b = credit led' a v b.
Proof. intros H b. unfold credit. by rewrite H. Qed.
Lemma transfer_ext led led' a b v : (∀ c, led c = led' c) →
  ∀ c, transfer led a b v c = transfer led' a b v c.
Proof. intros H. by apply credit_ext, debit_ext. Qed.

Lemma BigToUInt256_in v : in_u 256 v → BigToUInt256 v = Ok v.
Proof. intros Hv. by apply BigToUInt256_ok. Qed.
Lemma BigToUInt256_out v : ¬ in_u 256 v → ∃ e, BigToUInt256 v = Err e.
Proof. unfold BigToUInt256, in_u. intros Hv. repeat case_decide; eauto. lia. Qed.

Lemma normal_refused tx s : (¬ in_u 256 (Value tx) → ∃ e, normalTxExecute tx s = (Err e, s)) ∧
  (in_u 256 (Value tx) → eff s (Sender tx) < Value tx →
    ∃ s', normalTxExecute tx s = (Err notEnough, s') ∧ ∀ a, eff s' a = eff s a).
Proof using All.
  unfold normalTxExecute, st_bind, st_wrap, st_lift, st_get, st_modify, st_fail.
  destruct (setInit_inits [Sender tx; Recipient tx] s) as (s1 & H1 & He & _ & Hx). split.
  - intros (e & ->)%BigToUInt256_out. cbn. eauto.
  - intros Hv Hlt. rewrite BigToUInt256_in by done. cbn. rewrite H1.
    rewrite can_transfer_eff, He, bool_decide_eq_false_2; [eauto | lia | apply Hx; set_solver].
Qed.

Lemma normal_covered tx s : in_u 256 (Value tx) → Value tx ≤ eff s (Sender tx) →
  (Sender tx = Recipient tx ∨ eff s (Recipient tx) + Value tx < 2 ^ 256) →
  ∃ s', normalTxExecute tx s = (Ok tt, s') ∧
    ∀ a, eff s' a = transfer (eff s) (Sender tx) (Recipient tx) (Value tx) a.
Proof using All.
  unfold normalTxExecute, st_bind, st_wrap, st_lift, st_get, st_modify, st_fail.
  destruct (setInit_inits [Sender tx; Recipient tx] s) as (s1 & H1 & He & _ & Hx).
  intros Hv Hle Hr. rewrite BigToUInt256_in by done. cbn. rewrite H1.
  rewrite can_transfer_eff, He, bool_decide_eq_true_2; [|lia | apply Hx; set_solver].
  eexists; split; [done|]. intros a.
  rewrite eff_sub_add_transfer; [by apply transfer_ext | done | apply Hx; set_solver.. | by rewrite He |].
  rewrite (debit_ext _ _ _ _ He). unfold debit in *. pose proof (eff_range s (Recipient tx)) as Hg.
  unfold in_u in *. case_decide as E; [lia|]. destruct Hr; [done | lia].
Qed.

(** C8: a normal transaction is a transfer between the balances the two
    accounts are seen to have (an account never touched counts with the initial
    balance).  A value outside uint256 is refused with the state untouched; a
    sender without the value is refused and no balance changes; otherwise the
    transaction succeeds and moves exactly the value, leaving every other
    balance alone (unless the recipient would exceed uint256). *)
Theorem normalTxExecute_transfer tx s :
  (¬ in_u 256 (Value tx) → ∃ e, normalTxExecute tx s = (Err e, s)) ∧
  (in_u 256 (Value tx) → eff s (Sender tx) < Value tx →
    ∃ s', normalTxExecute tx s = (Err notEnough, s') ∧ ∀ a, eff s' a = eff s a) ∧
  (in_u 256 (Value tx) → Value tx ≤ eff s (Sender tx) →
    (Sender tx = Recipient tx ∨ eff s (Recipient tx) + Value tx < 2 ^ 256) →
    ∃ s', normalTxExecute tx s = (Ok tt, s') ∧
      ∀ a, eff s' a = transfer (eff s) (Sender tx) (Recipient tx) (Value tx) a).
Proof using All.
  destruct (normal_refused tx s) as [Hout Hfew]. split_and!; [done|done|]. apply normal_covered.
Qed.

Ltac unfold_st :=
  unfold st_bind, st_wrap, st_lift, st_get, st_put, st_modify, st_fail, st_ret in *.

(** The three outcomes of a relay transaction's first half. *)
Lemma relay1_spec addrLoc shard tx s :
  tx_RelayStage tx = Relay1Tx → in_u 256 (Value tx) → loc_of addrLoc (Sender tx) = shard →
  (eff s (Sender tx) < Value tx → ∃ s',
     relayTxExecute addrLoc shard tx s = (Err notEnough, s') ∧ ∀ a, eff s' a = eff s a) ∧
  (Value tx ≤ eff s (Sender tx) → ∃ s',
     relayTxExecute addrLoc shard tx s = (Ok tt, s') ∧
     ∀ a, eff s' a = debit (eff s) (Sender tx) (Value tx) a).
Proof using All.
  intros Hs Hv Hl. unfold relayTxExecute. unfold_st.
  destruct (setInit_inits [Sender tx] s) as (s1 & H1 & He & _ & Hx).
  rewrite BigToUInt256_in by done. cbn. rewrite Hs, Hl, decide_True by done.
  rewrite decide_False by tauto. cbn. rewrite H1.
  rewrite can_transfer_eff, He by (apply Hx; set_solver). split; intros Hc.
  - rewrite bool_decide_eq_false_2 by lia. eauto.
  - rewrite bool_decide_eq_true_2 by lia. eexists; split; [done|]. intros a.
    rewrite eff_sub_debit; [by apply debit_ext | done | apply Hx; set_solver | by rewrite He].
Qed.

Lemma relay2_spec addrLoc shard tx s :
  tx_RelayStage tx = Relay2Tx → in_u 256 (Value tx) → loc_of addrLoc (Recipient tx) = shard →
  eff s (Recipient tx) + Value tx < 2 ^ 256 → ∃ s',
    relayTxExecute addrLoc shard tx s = (Ok tt, s') ∧
    ∀ a, eff s' a = credit (eff s) (Recipient tx) (Value tx) a.
Proof using All.
  intros Hs Hv Hl Hb. unfold relayTxExecute. unfold_st.
  destruct (setInit_inits [Recipient tx] s) as (s1 & H1 & He & _ & Hx).
  rewrite BigToUInt256_in by done. cbn. rewrite Hs, Hl. rewrite decide_False by done.
  rewrite decide_True by done. rewrite decide_False by tauto. cbn. rewrite H1.
  eexists; split; [done|]. intros a.
  rewrite eff_add_credit; [by apply credit_ext | done | apply Hx; set_solver | by rewrite He].
Qed.

(** A transaction that does not concern this shard changes nothing. *)
Lemma relay_elsewhere addrLoc shard tx s :
  in_u 256 (Value tx) →
  (tx_RelayStage tx = Relay1Tx ∧ loc_of addrLoc (Sender tx) ≠ shard) ∨
  (tx_RelayStage tx = Relay2Tx ∧ loc_of addrLoc (Recipient tx) ≠ shard) →
  relayTxExecute addrLoc shard tx s = (Ok tt, s).
Proof.
  intros Hv H. unfold relayTxExecute. unfold_st. rewrite BigToUInt256_in by done. cbn.
  destruct H as [[Hs H]|[Hs H]]; rewrite Hs.
  - by rewrite !decide_True.
  - by rewrite decide_False, !decide_True.
Qed.

(** C6: a cross-shard transfer conserves money.  When the source shard has
    executed the relay1 half and the destination shard the relay2 half (neither
    failing, no balance reaching uint256), the sum over any accounts of their
    balances in both shards is what it was, with the sender's balance in the
    source shard lower and the recipient's in the destination shard higher by
    the value, and every other balance of both shards unchanged. *)
Theorem relay_conservation addrLoc1 addrLoc2 shard1 shard2 tx1 tx2 s1 s2 s1' s2' accs :
  tx_RelayStage tx1 = Relay1Tx → tx_RelayStage tx2 = Relay2Tx →
  Sender tx2 = Sender tx1 → Recipient tx2 = Recipient tx1 → Value tx2 = Value tx1 →
  loc_of addrLoc1 (Sender tx1) = shard1 → loc_of addrLoc2 (Recipient tx1) = shard2 →
  relayTxExecute addrLoc1 shard1 tx1 s1 = (Ok tt, s1') →
  relayTxExecute addrLoc2 shard2 tx2 s2 = (Ok tt, s2') →
  eff s2 (Recipient tx1) + Value tx1 < 2 ^ 256 →
  NoDup accs → Sender tx1 ∈ accs → Recipient tx1 ∈ accs →
  (∀ a, eff s1' a = debit (eff s1) (Sender tx1) (Value tx1) a) ∧
  (∀ a, eff s2' a = credit (eff s2) (Recipient tx1) (Value tx1) a) ∧
  sumZ (λ a, eff s1' a + eff s2' a) accs = sumZ (λ a, eff s1 a + eff s2 a) accs.
Proof using All.
  intros St1 St2 ES ER EV L1 L2 E1 E2 Hb Hnd Hs Hr.
  assert (in_u 256 (Value tx1)) as Hv.
  { destruct (decide (in_u 256 (Value tx1))) as [|[e He]%BigToUInt256_out]; [done|].
    unfold relayTxExecute in E1. unfold_st. by rewrite He in E1. }
  assert (∀ a, eff s1' a = debit (eff s1) (Sender tx1) (Value tx1) a) as H1.
  { destruct (relay1_spec addrLoc1 shard1 tx1 s1 St1 Hv L1) as [Hf Ht].
    destruct (decide (Value tx1 ≤ eff s1 (Sender tx1))).
    - destruct Ht as (s' & Ht & He); [done|]. rewrite E1 in Ht. by injection Ht as <-.
    - destruct Hf as (s' & Hf & _); [lia|]. by rewrite E1 in Hf. }
  assert (∀ a, eff s2' a = credit (eff s2) (Recipient tx1) (Value tx1) a) as H2.
  { destruct (relay2_spec addrLoc2 shard2 tx2 s2) as (s' & Ht & He); try congruence. }
  split_and!; [done..|]. unfold debit, credit in *.
  rewrite (sumZ_update (λ a, eff s1 a + eff s2' a) _ (Sender tx1)); try done.
  - rewrite (sumZ_update (λ a, eff s1 a + eff s2 a) _ (Recipient tx1)); try done.
    + rewrite !H1, !H2. repeat case_decide; congruence || lia.
    + intros a Ha. by rewrite H2, decide_False.
  - intros a Ha. by rewrite H1, decide_False.
Qed.

Lemma broker1_spec addrLoc shard tx s :
  tx_BrokerStage tx = Sigma1BrokerStage → in_u 256 (Value tx) → loc_of addrLoc (Sender tx) = shard →
  (eff s (Sender tx) < Value tx → ∃ s',
     brokerTxExecute addrLoc shard tx s = (Err notEnough, s') ∧ ∀ a, eff s' a = eff s a) ∧
  (Value tx ≤ eff s (Sender tx) →
   debit (eff s) (Sender tx) (Value tx) (tx_Broker tx) + Value tx < 2 ^ 256 → ∃ s',
     brokerTxExecute addrLoc shard tx s = (Ok tt, s') ∧
     ∀ a, eff s' a = transfer (eff s) (Sender tx) (tx_Broker tx) (Value tx) a).
Proof using All.
  intros Hs Hv Hl. unfold brokerTxExecute. unfold_st.
  destruct (setInit_inits [Sender tx] s) as (s1 & H1 & I1).
  destruct (setBrokerInit_inits [tx_Broker tx] s1) as (s2 & H2 & I2).
  destruct (inits_trans _ _ _ _ _ I1 I2) as (He & _ & Hx).
  rewrite BigToUInt256_in by done. cbn. rewrite decide_True by done.
  rewrite decide_False by tauto. rewrite H1, H2.
  rewrite can_transfer_eff, He by (apply Hx; set_solver). split.
  - intros Hc. rewrite bool_decide_eq_false_2 by lia. eauto.
  - intros Hc Hb. rewrite bool_decide_eq_true_2 by lia. eexists; split; [done|]. intros a.
    rewrite eff_sub_add_transfer; [by apply transfer_ext | done | apply Hx; set_solver.. | by rewrite He |].
    by rewrite (debit_ext _ _ _ _ He).
Qed.

(** The state a broker2 transaction leaves: the broker's debit is not checked. *)
Lemma broker2_run addrLoc shard tx s :
  tx_BrokerStage tx = Sigma2BrokerStage → in_u 256 (Value tx) →
  loc_of addrLoc (Recipient tx) = shard → ∃ s1,
    inits [Recipient tx; tx_Broker tx] s s1 ∧
    brokerTxExecute addrLoc shard tx s =
      (Ok tt, db_AddBalance (Recipient tx) (Value tx) (db_SubBalance (tx_Broker tx) (Value tx) s1)).
Proof using All.
  intros Hs Hv Hl. unfold brokerTxExecute. unfold_st.
  destruct (setInit_inits [Recipient tx] s) as (s1 & H1 & I1).
  destruct (setBrokerInit_inits [tx_Broker tx] s1) as (s2 & H2 & I2).
  exists s2. split; [exact (inits_trans _ _ _ _ _ I1 I2)|].
  rewrite BigToUInt256_in by done. cbn. rewrite Hs. rewrite decide_False by discriminate.
  rewrite decide_True by done. rewrite decide_False by tauto. by rewrite H1, H2.
Qed.

(** C7: the two halves of a broker transaction are transfers, and the first is
    guarded.  When the sender has less than the value, Sigma1 in the sender's
    shard is refused as a transfer without balance and no balance changes.  When
    the sender has it, Sigma1 moves it from the sender to the broker; and when
    the broker has the value in the recipient's shard, Sigma2 moves it there from
    the broker to the recipient (neither credit reaching 2^256).  So over both
    shards the sender pays, the recipient gains, the broker moves the value
    between its two balances, and the total over any accounts is unchanged. *)
Theorem broker_pair_conservation addrLoc1 addrLoc2 shard1 shard2 tx1 tx2 s1 s2 accs :
  let v := Value tx1 in let b := tx_Broker tx1 in
  let from := Sender tx1 in let to := Recipient tx2 in
  tx_BrokerStage tx1 = Sigma1BrokerStage → tx_BrokerStage tx2 = Sigma2BrokerStage →
  Value tx2 = v → tx_Broker tx2 = b → in_u 256 v →
  loc_of addrLoc1 from = shard1 → loc_of addrLoc2 to = shard2 →
  (eff s1 from < v → ∃ s1',
    brokerTxExecute addrLoc1 shard1 tx1 s1 = (Err notEnough, s1') ∧ ∀ a, eff s1' a = eff s1 a) ∧
  (v ≤ eff s1 from → eff s1 b + v < 2 ^ 256 → v ≤ eff s2 b → eff s2 to + v < 2 ^ 256 →
  NoDup accs → from ∈ accs → to ∈ accs → b ∈ accs →
  ∃ s1' s2',
    brokerTxExecute addrLoc1 shard1 tx1 s1 = (Ok tt, s1') ∧
    brokerTxExecute addrLoc2 shard2 tx2 s2 = (Ok tt, s2') ∧
    (∀ a, eff s1' a = transfer (eff s1) from b v a) ∧
    (∀ a, eff s2' a = transfer (eff s2) b to v a) ∧
    sumZ (λ a, eff s1' a + eff s2' a) accs = sumZ (λ a, eff s1 a + eff s2 a) accs).
Proof using All.
  cbn zeta. intros St1 St2 EV EB Hv L1 L2. split; [by apply broker1_spec|].
  intros C1 C2 C3 C4 Hnd Hf Ht Hb.
  assert (∀ led a b v, 0 ≤ v → debit led a v b ≤ led b) as Hd.
  { intros led a b v Hp. unfold debit. case_decide; lia. }
  assert (0 ≤ Value tx1) as Hv0 by (by destruct Hv).
  destruct (broker1_spec addrLoc1 shard1 tx1 s1 St1 Hv L1) as [_ Hs1].
  destruct Hs1 as (s1' & E1 & T1); [done | |].
  { pose proof (Hd (eff s1) (Sender tx1) (tx_Broker tx1) (Value tx1) Hv0). lia. }
  destruct (broker2_run addrLoc2 shard2 tx2 s2) as (s2i & (He & _ & Hx) & E2); [done|by rewrite EV|done|].
  rewrite EV, EB in *. exists s1'. eexists. do 2 (split; [done|]). split; [done|].
  assert (∀ a, eff (db_AddBalance (Recipient tx2) (Value tx1) (db_SubBalance (tx_Broker tx1) (Value tx1) s2i)) a
    = transfer (eff s2) (tx_Broker tx1) (Recipient tx2) (Value tx1) a) as T2.
  { intros a. rewrite eff_sub_add_transfer;
      [by apply transfer_ext | done | apply Hx; set_solver.. | by rewrite He |].
    rewrite (debit_ext _ _ _ _ He).
    pose proof (Hd (eff s2) (tx_Broker tx1) (Recipient tx2) (Value tx1) Hv0). lia. }
  split; [done|].
  rewrite !sumZ_add, (sumZ_ext _ _ accs (λ a _, T1 a)), (sumZ_ext _ _ accs (λ a _, T2 a)).
  rewrite !sumZ_transfer by done. done.
Qed.

(** The debit of Sigma2 is not guarded: when the broker's balance in the
    recipient's shard is below the value, the transaction still succeeds and
    the broker's balance wraps around uint256, to more than it was. *)
Theorem broker2_overdraft addrLoc shard tx s :
  tx_BrokerStage tx = Sigma2BrokerStage → in_u 256 (Value tx) →
  loc_of addrLoc (Recipient tx) = shard → tx_Broker tx ≠ Recipient tx →
  eff s (tx_Broker tx) < Value tx → ∃ s',
    brokerTxExecute addrLoc shard tx s = (Ok tt, s') ∧
    eff s' (tx_Broker tx) = 2 ^ 256 + eff s (tx_Broker tx) - Value tx ∧
    eff s (tx_Broker tx) < eff s' (tx_Broker tx).
Proof using All.
  intros St Hv Hl Hne Hlt. destruct (broker2_run addrLoc shard tx s St Hv Hl) as (s1 & (He & _ & Hx) & ->).
  eexists; split; [done|].
  rewrite eff_AddBalance; [|done | rewrite exist_SubBalance, orb_True; right; apply Hx; set_solver].
  rewrite decide_False by done. rewrite eff_SubBalance; [|done | apply Hx; set_solver].
  rewrite decide_True, He by done. pose proof (eff_range s (tx_Broker tx)) as Hr.
  unfold in_u, wrap_u in *. rewrite <- (Z.mod_add _ 1), Z.mod_small by lia. lia.
Qed.

(** The native transactions destroy no account. *)
Definition native (tx : Transaction) : Prop :=
  TxType tx = NormalTxType ∨ TxType tx = RelayTxType ∨ TxType tx = BrokerTxType.
Definition none_destroyed (s : StateDB) : Prop := ∀ a, db_HasSelfDestructed s a = false.

Lemma none_modify h : (∀ s a, db_HasSelfDestructed (h s) a = db_HasSelfDestructed s a) →
  preserves none_destroyed (st_modify h).
Proof using Type. intros H. apply pres_modify. intros s Hs a. by rewrite H. Qed.

Lemma none_setInit l : preserves none_destroyed (setInitBalanceIfNotExist l).
Proof using All.
  apply pres_for. intros a _. apply none_modify. intros s b. destruct (db_Exist s a); [done|apply destructed_SetBalance].
Qed.
Lemma none_setBrokerInit l : preserves none_destroyed (setBrokerInitBalanceIfNotExist l).
Proof using All.
  apply pres_for. intros a _. apply none_modify. intros s b. destruct (db_Exist s a); [done|apply destructed_SetBalance].
Qed.
Lemma none_move a b v : preserves none_destroyed (st_modify (db_SubBalance a v) ;;! st_modify (db_AddBalance b v)).
Proof using All.
  apply pres_bind; [apply none_modify; intros; apply destructed_SubBalance|]. intros _. apply none_modify; intros; apply destructed_AddBalance.
Qed.

Lemma native_destroys_none {EV : EVMLib} shard ctx locs tx : native tx →
  preserves none_destroyed (txExecute shard ctx locs tx).
Proof using All.
  intros Hn. unfold txExecute.
  destruct (decide (TxType tx = NormalTxType)) as [_|N1];
    [|destruct (decide (TxType tx = RelayTxType)) as [_|N2];
      [|destruct (decide (TxType tx = BrokerTxType)) as [_|N3]; [|by destruct Hn as [|[|]]]]]; apply pres_wrap.
  - unfold normalTxExecute. apply pres_bind; [apply pres_wrap, pres_lift|]. intros v.
    apply pres_bind; [apply none_setInit|]. intros _. apply pres_get_bind. intros s _.
    destruct (core_CanTransfer _ _ _); [apply none_move|apply pres_fail].
  - unfold relayTxExecute. apply pres_bind; [apply pres_wrap, pres_lift|]. intros v.
    repeat case_decide; try apply pres_ret; try apply pres_fail.
    + apply pres_bind; [apply none_setInit|]. intros _. apply pres_get_bind. intros s _.
      destruct (core_CanTransfer _ _ _); [apply none_modify; intros; apply destructed_SubBalance|apply pres_fail].
    + apply pres_bind; [apply none_setInit|]. intros _. apply none_modify; intros; apply destructed_AddBalance.
  - unfold brokerTxExecute. apply pres_bind; [apply pres_wrap, pres_lift|]. intros v.
    repeat case_decide; try apply pres_ret; try apply pres_fail.
    + apply pres_bind; [apply none_setInit|]. intros _. apply pres_bind; [apply none_setBrokerInit|]. intros _.
      apply pres_get_bind. intros s _. destruct (core_CanTransfer _ _ _); [apply none_move|apply pres_fail].
    + apply pres_bind; [apply none_setInit|]. intros _. apply pres_bind; [apply none_setBrokerInit|]. intros _.
      apply none_move.
Qed.

(** C9: a migrated account arrives as it left: writing at the destination
    the state read at the source, and reading it there, gives the same nonce and
    the balance the account was seen to have, whether or not either shard's
    database had it before; no other account's balance changes. *)
Theorem migrated_state_roundtrip addr loc loc' src dst :
  in_u 64 (db_GetNonce src addr) → ∃ dst',
    setMigratedStates2VMTrie addr (readStateFromVMExecutor addr loc src) dst = (Ok tt, dst') ∧
    readStateFromVMExecutor addr loc' dst' =
      mkState addr (if db_Exist src addr then db_GetNonce src addr else 0) (eff src addr) [] [] loc' ∧
    ∀ b, b ≠ addr → eff dst' b = eff dst b ∧ db_GetNonce dst' b = db_GetNonce dst b.
Proof using All.
  intros Hn. set (st := readStateFromVMExecutor addr loc src).
  assert (S_Balance st = eff src addr ∧ in_u 64 (S_Nonce st) ∧
    S_Nonce st = if db_Exist src addr then db_GetNonce src addr else 0) as (E1 & E2 & E3).
  { unfold st, readStateFromVMExecutor, eff. case_match; split_and!; try done. }
  unfold setMigratedStates2VMTrie. unfold_st.
  rewrite E1, BigToUInt256_in by apply eff_range. cbn. eexists; split; [done|]. split.
  - unfold readStateFromVMExecutor. rewrite exist_SetNonce, bool_decide_eq_true_2 by done. cbn.
    rewrite nonce_SetNonce, balance_SetNonce, decide_True, balance_SetBalance, decide_True
      by (done || apply eff_range). by rewrite E3.
  - intros b Hb. rewrite eff_SetNonce, eff_SetBalance, decide_False; try done.
    + split; [done|]. rewrite nonce_SetNonce, decide_False, nonce_SetBalance by done. done.
    + apply eff_range.
    + rewrite exist_SetBalance, orb_True. left. by apply bool_decide_spec.
Qed.
End exec_facts.

(** ** Witnesses *)

Module ExecDemo.
Export MapStateDB.
Definition addr (n : Z) : Address := copy_to_array 20 (Z_to_be 20 n).
Definition A : Address := addr 1.
Definition B : Address := addr 2.
Definition K : Address := addr 3.
(** A transfer of [v] from A to B, as itself, as a relay and as a broker transaction. *)
Definition tx (v : Z) : Transaction := NewTransaction A B v 0 0 0.
Definition relay_tx (stage v : Z) : Transaction :=
  (tx v) <| RelayOpt := mkRelayTxOpt stage (str "h") |>.
Definition broker_tx (stage v : Z) : Transaction :=
  (tx v) <| BrokerOpt := mkBrokerTxOpt stage K (str "h") 0 0 0 0 |>.
Definition locs : gmap Address Z := {[ A := 0; B := 1 ]}.
(** A holds 100 in the first shard's database. *)
Definition s1 : StateDB := db_SetBalance A 100 ∅.
Definition s2 : StateDB := db_SetBalance K 5 (db_SetBalance B 7 ∅).
End ExecDemo.

Module ExecWitness.
Import ExecDemo.

Lemma normalTxExecute_transfer_witness :
  ∃ s', normalTxExecute (tx 30) s1 = (Ok tt, s') ∧ eff s' A = 70 ∧ eff s' B = initBalance + 30.
Proof.
  destruct (normalTxExecute_transfer (tx 30) s1) as (_ & _ & H).
  destruct H as (s' & H & He).
  - split; [vm_compute; discriminate | vm_compute; reflexivity].
  - vm_compute. discriminate.
  - right. vm_compute. reflexivity.
  - exists s'. split; [exact H|]. split; rewrite He; vm_compute; reflexivity.
Defined.

Lemma relay_conservation_witness :
  let s1' := (relayTxExecute locs 0 (relay_tx Relay1Tx 30) s1).2 in
  let s2' := (relayTxExecute locs 1 (relay_tx Relay2Tx 30) s2).2 in
  eff s1' A = 70 ∧ eff s2' B = 37 ∧
  sumZ (λ a, eff s1' a + eff s2' a) [A; B] = sumZ (λ a, eff s1 a + eff s2 a) [A; B].
Proof.
  cbn zeta. split; [vm_compute; reflexivity|]. split; [vm_compute; reflexivity|].
  apply (relay_conservation locs locs 0 1 (relay_tx Relay1Tx 30) (relay_tx Relay2Tx 30) s1 s2).
  1-7: reflexivity.
  1-2: apply run_fst; vm_compute; reflexivity.
  - vm_compute. reflexivity.
  - apply (bool_decide_unpack _). vm_compute. exact I.
  - left.
  - right. left.
Defined.

(** A pays B 4 through the broker K; A has not got 400. *)
Lemma broker_pair_conservation_witness :
  (∃ s1', brokerTxExecute locs 0 (broker_tx Sigma1BrokerStage 400) s1 = (Err notEnough, s1') ∧
    ∀ a, eff s1' a = eff s1 a) ∧
  ∃ s1' s2',
    brokerTxExecute locs 0 (broker_tx Sigma1BrokerStage 4) s1 = (Ok tt, s1') ∧
    brokerTxExecute locs 1 (broker_tx Sigma2BrokerStage 4) s2 = (Ok tt, s2') ∧
    (∀ a, eff s1' a = transfer (eff s1) A K 4 a) ∧
    (∀ a, eff s2' a = transfer (eff s2) K B 4 a) ∧
    sumZ (λ a, eff s1' a + eff s2' a) [A; B; K] = sumZ (λ a, eff s1 a + eff s2 a) [A; B; K].
Proof.
  split.
  - apply (broker_pair_conservation locs locs 0 1 (broker_tx Sigma1BrokerStage 400)
      (broker_tx Sigma2BrokerStage 400) s1 s2 [A; B; K]).
    1-4: reflexivity.
    2-3: reflexivity.
    + split; [vm_compute; discriminate | vm_compute; reflexivity].
    + vm_compute. reflexivity.
  - apply (broker_pair_conservation locs locs 0 1 (broker_tx Sigma1BrokerStage 4)
      (broker_tx Sigma2BrokerStage 4) s1 s2 [A; B; K]).
    1-4: reflexivity.
    2-3: reflexivity.
    2,4: vm_compute; discriminate.
    2-3: vm_compute; reflexivity.
    + split; [vm_compute; discriminate | vm_compute; reflexivity].
    + apply (bool_decide_unpack _). vm_compute. exact I.
    + left.
    + right. left.
    + right. right. left.
Defined.

Lemma broker2_overdraft_witness :
  ∃ s', brokerTxExecute locs 1 (broker_tx Sigma2BrokerStage 30) s2 = (Ok tt, s') ∧
    eff s' K = 2 ^ 256 + eff s2 K - 30 ∧ eff s2 K < eff s' K.
Proof.
  apply (broker2_overdraft locs 1 (broker_tx Sigma2BrokerStage 30) s2).
  - reflexivity.
  - split; [vm_compute; discriminate | vm_compute; reflexivity].
  - vm_compute. reflexivity.
  - intros H. apply (f_equal addr_bytes) in H. discriminate H.
  - vm_compute. reflexivity.
Defined.

Lemma migrated_state_roundtrip_witness :
  ∃ dst', setMigratedStates2VMTrie A (readStateFromVMExecutor A 0 s1) s2 = (Ok tt, dst') ∧
    readStateFromVMExecutor A 1 dst' = mkState A 0 100 [] [] 1.
Proof.
  destruct (migrated_state_roundtrip A 0 1 s1 s2) as (d & H1 & H2 & _).
  - split; [vm_compute; discriminate | vm_compute; reflexivity].
  - exists d. split; [exact H1|]. rewrite H2. vm_compute. reflexivity.
Defined.
End ExecWitness.
