(* ===== verification/ContractExec.v ===== *)
(** * The stand-alone contract executor

    Models pkg/contractexec/contractexec.go: contract transactions executed on a
    state database of their own, committed and reopened every [txCommitBatch]
    transactions.  Its mutex makes concurrent calls a sequence of calls. *)

From S2P Require Import Prelude GoHash Account Bloom Block Config StateDB TxExecute.
From Stdlib Require Import Lia.

Local Open Scope Z_scope.

Definition blockNumberBias : Z := 20000000.
Definition ce_blockGasLimit : Z := 1000000.
Definition txCommitBatch : Z := 200.

Section contractexec.
  Context {SL : StateDBLib} {EV : EVMLib}.

(** [curVMExec] is None once opening a new executor has failed: Go has assigned
    the nil it returned. *)
Record ContractExec := mkContractExec {
  stateStore : StateStore;
  ce_root : bytes;
  curVMExec : option StateDB;
  curBlockCtx : BlockContext;
  txCommitCnt : Z;
}.
#[export] Instance ContractExec_eta : Eta ContractExec := λ c,
  mkContractExec (stateStore c) (ce_root c) (curVMExec c) (curBlockCtx c) (txCommitCnt c).

Definition newBlockCtx (number : Z) (now : Time) : BlockContext :=
  mkBlockContext EmptyAccountAddr number (wrap_u64 (Unix now)) 0 ce_blockGasLimit 0.

(** [store] is what [vmstate.NewStateStore] returned. *)
Definition NewContractExec (store : result StateStore) (now : Time) : result ContractExec :=
  let* st := wrap_err "new state store failed" store in
  let* e := wrap_err "new an vm executor failed" (NewExecutor st EmptyRootHash) in
  Ok (mkContractExec st EmptyRootHash (Some e) (newBlockCtx blockNumberBias now) 0).

(** A method of the current executor; a nil one panics when its database is
    reached, after the value has been converted. *)
Definition on_exec {A} (tx : Transaction) (m : M StateDB A) : M ContractExec A := λ c,
  match curVMExec c with
  | Some s => let '(r, s') := m s in (r, c <| curVMExec := Some s' |>)
  | None => ((let* _ := wrap_err "failed to convert value to uint256" (BigToUInt256 (Value tx)) in Panic), c)
  end.

Definition tryResetVMExecAndBlockCtx (now : Time) : M ContractExec unit :=
  st_modify (λ c, c <| txCommitCnt ::= λ n, wrap_i64 (n + 1) |>) ;;!
  let! c := st_get in
  if decide (txCommitCnt c < txCommitBatch) then st_ret tt
  else
    st_modify (λ c, c <| txCommitCnt := 0 |>) ;;!
    let number := bc_BlockNumber (curBlockCtx c) in
    let! e := st_lift (or_panic (curVMExec c)) in
    let! root := st_wrap "vm executor commit failed"
      (st_zoom stateStore (λ st c, c <| stateStore := st |>) (db_Commit (wrap_u64 number) e)) in
    st_wrap "trie db commit failed"
      (st_zoom stateStore (λ st c, c <| stateStore := st |>) (triedb_Commit root)) ;;!
    let! c := st_get in
    match NewExecutor (stateStore c) root with
    | Ok e' => st_modify (λ c, c <| curVMExec := Some e' |> <| curBlockCtx := newBlockCtx (number + 1) now |>)
    | Err err => st_modify (λ c, c <| curVMExec := None |>) ;;! st_wrap "new vm executor failed" (st_fail err)
    | Panic => st_lift Panic
    end.

Definition ContractTxExec (now : Time) (tx : Transaction) : M ContractExec unit :=
  let! c := st_get in
  (if decide (TxType tx = CreateContractTxType) then
     st_wrap "deploy contract in vm executor failed" (on_exec tx (DeployContract (curBlockCtx c) tx)) ;;! st_ret tt
   else if decide (TxType tx = CallContractTxType) then
     st_wrap "call contract in vm executor failed" (on_exec tx (CallContract (curBlockCtx c) tx)) ;;! st_ret tt
   else st_fail "not a contract tx, tx type: %d") ;;!
  st_wrap "reset vm executor and block context failed" (tryResetVMExecAndBlockCtx now).

(** ** The specification: one long execution

    The abstract executor runs every transaction on the state the last one left,
    in blocks of [txCommitBatch] successful transactions; no store, no root and
    no counter. *)







(** Calls one after the other. *)
Fixpoint calls (l : list (Time * Transaction)) (c : ContractExec) : list (result unit) * ContractExec :=
  match l with
  | [] => ([], c)
  | (now, tx) :: l' =>
    let '(r, c1) := ContractTxExec now tx c in
    let '(rs, c2) := calls l' c1 in (r :: rs, c2)
  end.


(** ** Facts *)

Context {SLaws : StateDBLaws SL}.







End contractexec.

(** ** A contract is deployed, stores a value and is destroyed in one block *)

Module ContractExecDemo.
Export ExecDemo.
(** A machine with one contract, at K: a call with the data "set" stores a byte
    and one with "die" destroys it; any other call is a transfer. *)
#[export] Instance evm_k : EVMLib := {|
  evm_Create _ _ code gas _ s :=
    (Ok (K, gas), on_acc (λ x, x <| acc_nonce := 1 |> <| acc_code := code |>) K s);
  evm_Call _ from to data gas v s :=
    if decide (data = str "set") then (Ok ([], gas), on_acc (λ x, x <| acc_storage := {[ [] := str "v" ]} |>) to s)
    else if decide (data = str "die") then (Ok ([], gas), destruct_acc to s)
    else if core_CanTransfer s from v then (Ok ([], gas), db_AddBalance to v (db_SubBalance from v s))
    else (Err "insufficient balance for transfer", s);
|}.

Definition contract (to : Address) (v : Z) (data : string) : Transaction :=
  (NewTransaction A to v 0 0 0) <| Data := str data |>.
Definition deploy : Transaction := contract EmptyAccountAddr 0 "code".
(** 201 calls, the third of which fails; [last] is the one that fills the block. *)
Definition batch (last : Transaction) : list (Time * Transaction) :=
  map (pair 1) ([deploy; contract K 0 "set"; contract B 5 "pay"] ++ replicate 197 (contract B 0 "pay")) ++ [(2, last)].

Definition store : result StateStore := Ok {[EmptyRootHash := ∅]}.
Definition ce0 : ContractExec :=
  force (mkContractExec ∅ [] None (newBlockCtx 0 0) 0) (NewContractExec store 0).
Definition ran (last : Transaction) := calls (batch last) ce0.

(** The contract outlives the block with its code and storage; destroyed, it does not. *)
Example kept_and_gone :
  let show last := match curVMExec (ran last).2 with
    | Some s => (db_Exist s K, db_GetCode s K, db_GetState s K [], db_HasSelfDestructed s K) | None => (true, [], [], true) end in
  show (contract B 0 "pay") = (true, str "code", str "v", false) ∧
  show (contract K 0 "die") = (false, [], replicate 32 Byte.x00, false) ∧
  bc_BlockNumber (curBlockCtx (ran (contract K 0 "die")).2) = 20000001.
Proof. vm_compute. split_and!; reflexivity. Qed.
End ContractExecDemo.

Module ContractExecWitness.
Import ContractExecDemo.


End ContractExecWitness.
