(* ===== verification/Storage.v ===== *)
(** * Block and location storage

    Models pkg/storage/block/blot_db.go (the block store on bbolt),
    pkg/storage/trie/eth_db.go (the location trie on go-ethereum's trie) and
    pkg/utils/mptrootcalc.go.  bbolt and the trie are classes with laws; each
    has a concrete instance.  The theorems are the two stores' contracts:
    what is added is found, a preview computes the root a commit reaches and
    changes nothing, and a failed call changes nothing. *)

From S2P Require Import Prelude GoHash.
From Stdlib Require Import Lia.

Local Open Scope Z_scope.

(** ** bbolt *)

(** Buckets of a transaction, and [db.Update(fn)], which runs a write
    transaction: it commits what its function leaves when it returns nil, and
    rolls back otherwise or when the commit fails. *)
Class BoltLib := {
  BoltDB : Type;
  bolt_HasBucket : BoltDB → string → bool;
  bolt_CreateBucketIfNotExists : string → BoltDB → result BoltDB;
  bolt_Put : string → bytes → bytes → BoltDB → result BoltDB;
  bolt_Get : BoltDB → string → bytes → option bytes;
  bolt_Update : (BoltDB → result BoltDB) → M BoltDB unit;
}.

Class BoltLaws (BO : BoltLib) : Prop := {
  bolt_get_put : ∀ db b k v db' b' k', bolt_Put b k v db = Ok db' →
    bolt_Get db' b' k' = if decide (b = b' ∧ k = k') then Some v else bolt_Get db b' k';
  bolt_has_put : ∀ db b k v db' b', bolt_Put b k v db = Ok db' →
    bolt_HasBucket db' b' = bolt_HasBucket db b';
  bolt_has_create : ∀ db b db' b', bolt_CreateBucketIfNotExists b db = Ok db' →
    bolt_HasBucket db' b' = bolt_HasBucket db b' || bool_decide (b = b');
  bolt_update : ∀ fn db r db', bolt_Update fn db = (r, db') →
    (r = Ok tt ∧ fn db = Ok db') ∨ (is_ok r = false ∧ db' = db);
}.

Definition bucketBlock : string := "block".
Definition bucketBlockHeader : string := "block_header".
Definition bucketNewestBlock : string := "newest_block".
Definition newestBlockKey : bytes := str "newest_block".
#[local] Arguments newestBlockKey : simpl never.

Section bolt.
  Context {BO : BoltLib}.

Definition BoltStore : Type := BoltDB.

(** [bucket := tx.Bucket(name); if bucket == nil { return err }] *)
Definition bucket_or (name : string) (msg : error) (db : BoltDB) : result unit :=
  if bolt_HasBucket db name then Ok tt else Err msg.

(** The database [db] is what [bbolt.Open] returned. *)
Definition NewBoltStore (db : BoltDB) : result BoltStore :=
  let '(r, db') := bolt_Update (λ tx,
    let* tx := wrap_err "create bucket %s" (bolt_CreateBucketIfNotExists bucketBlock tx) in
    let* tx := wrap_err "create bucket %s" (bolt_CreateBucketIfNotExists bucketBlockHeader tx) in
    wrap_err "create bucket %s" (bolt_CreateBucketIfNotExists bucketNewestBlock tx)) db in
  let* _ := wrap_err "init db bucket err" r in Ok db'.

Definition UpdateNewestBlockHash (newBlockHash : bytes) : M BoltStore unit :=
  bolt_Update (λ tx,
    let* _ := bucket_or bucketNewestBlock "fetch bucketNewestBlock failed, bucket is nil" tx in
    wrap_err "put newest blockHash err" (bolt_Put bucketNewestBlock newestBlockKey newBlockHash tx)).

Definition GetNewestBlockHash (db : BoltStore) : result bytes :=
  let* _ := bucket_or bucketNewestBlock "fetch bucketNewestBlock failed, bucket is nil" db in
  match bolt_Get db bucketNewestBlock newestBlockKey with
  | Some v => Ok v
  | None => Err "get newest blockHash failed"
  end.

Definition AddBlockHeader (blockHash encodedBlockHeader : bytes) : M BoltStore unit :=
  bolt_Update (λ tx,
    let* _ := bucket_or bucketBlockHeader "fetch bucketBlockHeader failed, headerBucket is nil" tx in
    let* tx := wrap_err "put blockHeader err"
      (bolt_Put bucketBlockHeader blockHash encodedBlockHeader tx) in
    let* _ := bucket_or bucketNewestBlock "fetch bucketNewestBlock failed, newestBlockBucket is nil" tx in
    wrap_err "update newest blockHash err"
      (bolt_Put bucketNewestBlock newestBlockKey blockHash tx)).

Definition GetBlockHeaderByHash (blockHash : bytes) (db : BoltStore) : result bytes :=
  let* _ := bucket_or bucketBlockHeader "fetch bucketBlockHeader failed, bucket is nil" db in
  match bolt_Get db bucketBlockHeader blockHash with
  | Some v => Ok v
  | None => Err "get blockHash in the bucketBlockHeader failed"
  end.

Definition BoltStore_AddBlock (blockHash encodedBlock encodedBlockHeader : bytes) : M BoltStore unit :=
  bolt_Update (λ tx,
    let* _ := bucket_or bucketBlock "fetch bucketBlock failed, bucket is nil" tx in
    let* tx := wrap_err "put block err" (bolt_Put bucketBlock blockHash encodedBlock tx) in
    let* _ := bucket_or bucketBlockHeader "fetch bucketBlockHeader failed, headerBucket is nil" tx in
    let* tx := wrap_err "put blockHeader err"
      (bolt_Put bucketBlockHeader blockHash encodedBlockHeader tx) in
    let* _ := bucket_or bucketNewestBlock "fetch bucketNewestBlock failed, newestBlockBucket is nil" tx in
    wrap_err "update newest blockHash err"
      (bolt_Put bucketNewestBlock newestBlockKey blockHash tx)).

Definition GetBlockByHash (hash : bytes) (db : BoltStore) : result bytes :=
  let* _ := bucket_or bucketBlock "fetch bucketBlock failed, bucket is nil" db in
  match bolt_Get db bucketBlock hash with
  | Some v => Ok v
  | None => Err "get block by hash in bucketBlock failed"
  end.

(** The three buckets [NewBoltStore] makes. *)
Definition store_ok (db : BoltStore) : Prop :=
  bolt_HasBucket db bucketBlock ∧ bolt_HasBucket db bucketBlockHeader ∧
  bolt_HasBucket db bucketNewestBlock.
End bolt.

(** ** Tries *)

Class TrieLib := {
  TrieDB : Type;
  Trie : Type;
  NodeSet : Type;
  emptyRoot : bytes;
  trie_New : bytes → TrieDB → result Trie;
  trie_NewEmpty : Trie;
  trie_Update : bytes → bytes → Trie → result Trie;
  trie_Get : bytes → Trie → result (option bytes);
  trie_Hash : Trie → bytes;
  trie_Commit : Trie → bytes * option NodeSet;
  triedb_Update : bytes → bytes → NodeSet → TrieDB → result TrieDB;
  triedb_CommitRoot : bytes → TrieDB → result TrieDB;
}.

Section trie.
  Context {TL : TrieLib}.

(** [for i := range keys { t.Update(keys[i], values[i]) }] *)
Fixpoint trie_updates (msg : string) (keys values : list bytes) (t : Trie) : result Trie :=
  match keys, values with
  | [], _ => Ok t
  | k :: keys', v :: values' =>
    let* t' := wrap_err msg (trie_Update k v t) in trie_updates msg keys' values' t'
  | _ :: _, [] => Panic
  end.

Record EthTrieDB := mkEthTrieDB { trieDB : TrieDB; curStateRoot : bytes }.
#[export] Instance EthTrieDB_eta : Eta EthTrieDB := λ e, mkEthTrieDB (trieDB e) (curStateRoot e).

(** [oldRoot] is the configured [OldStateRoot] as a hash, if not empty. *)
Definition NewEthereumDefaultTrieDB (db : TrieDB) (oldRoot : option bytes) : result EthTrieDB :=
  match oldRoot with
  | None => Ok (mkEthTrieDB db emptyRoot)
  | Some r =>
    let* _ := wrap_err "failed to create old eth trie" (trie_New r db) in Ok (mkEthTrieDB db r)
  end.

Definition GetCurrentRoot (e : EthTrieDB) : result bytes := Ok (curStateRoot e).

Definition bad_input : error := "bad input, len(keys) != len(values): len(keys)=%d, len(values)=%d".

Definition MAddKeyValuesPreview (keys values : list bytes) (e : EthTrieDB) : result bytes :=
  if decide (length keys ≠ length values) then Err bad_input
  else
    let* curTrie := wrap_err "new trie failed, err" (trie_New (curStateRoot e) (trieDB e)) in
    let* curTrie := trie_updates "update trie db failed, err" keys values curTrie in
    Ok (trie_Hash curTrie).

Definition MAddKeyValuesAndCommit (keys values : list bytes) : M EthTrieDB bytes := λ e,
  if decide (length keys ≠ length values) then (Err bad_input, e)
  else
    match wrap_err "new trie failed, err" (trie_New (curStateRoot e) (trieDB e)) with
    | Err m => (Err m, e) | Panic => (Panic, e)
    | Ok curTrie =>
      match trie_updates "update current trie failed, err" keys values curTrie with
      | Err m => (Err m, e) | Panic => (Panic, e)
      | Ok curTrie =>
        match trie_Commit curTrie with
        | (_, None) => (Ok (curStateRoot e), e)
        | (newRoot, Some nodeSet) =>
          match wrap_err "update trie db failed, err"
                  (triedb_Update newRoot (curStateRoot e) nodeSet (trieDB e)) with
          | Err m => (Err m, e) | Panic => (Panic, e)
          | Ok db =>
            match wrap_err "commit trie db failed, err" (triedb_CommitRoot newRoot db) with
            | Ok db' => (Ok newRoot, mkEthTrieDB db' newRoot)
            | Err m => (Err m, mkEthTrieDB db newRoot)
            | Panic => (Panic, mkEthTrieDB db newRoot)
            end
          end
        end
      end
    end.

Definition MGetValsByKeys (keys : list bytes) (e : EthTrieDB) : result (list (option bytes)) :=
  let* curTrie := wrap_err "new trie failed, err" (trie_New (curStateRoot e) (trieDB e)) in
  rmap (λ key, wrap_err "get trie failed, err" (trie_Get key curTrie)) keys.

Definition SetStateRoot (newRoot : bytes) : M EthTrieDB unit := λ e,
  match wrap_err "new trie failed, err" (trie_New newRoot (trieDB e)) with
  | Ok _ => (Ok tt, e <| curStateRoot := newRoot |>)
  | Err m => (Err m, e)
  | Panic => (Panic, e)
  end.

Definition GenerateRootByGivenBytes (keys values : list bytes) : result bytes :=
  if decide (length keys ≠ length values) then Err bad_input
  else
    let* tempTrie := trie_updates "update trie db failed, err" keys values trie_NewEmpty in
    Ok (trie_Hash tempTrie).

(** The value a list of assignments gives a key: the last one wins. *)
Fixpoint assigned (keys values : list bytes) (k : bytes) (old : option bytes) : option bytes :=
  match keys, values with
  | k' :: keys', v :: values' => assigned keys' values' k (if decide (k' = k) then Some v else old)
  | _, _ => old
  end.
End trie.

(** The laws relied on of the trie library: reads after (non-empty) writes, and
    that a committed trie opens at its root, with a nil node set only when
    nothing changed. *)
Class TrieLaws (TL : TrieLib) : Prop := {
  trie_get_update : ∀ t k v t' k', v ≠ [] → trie_Update k v t = Ok t' →
    trie_Get k' t' = if decide (k = k') then Ok (Some v) else trie_Get k' t;
  trie_commit_hash : ∀ t, (trie_Commit t).1 = trie_Hash t;
  trie_commit_clean : ∀ r db t0 msg keys values t,
    trie_New r db = Ok t0 → trie_updates msg keys values t0 = Ok t →
    (trie_Commit t).2 = None → trie_Hash t = r ∧ ∀ k, trie_Get k t = trie_Get k t0;
  trie_commit_open : ∀ r db t0 msg keys values t ns db' db'',
    trie_New r db = Ok t0 → trie_updates msg keys values t0 = Ok t →
    (trie_Commit t).2 = Some ns →
    triedb_Update (trie_Hash t) r ns db = Ok db' → triedb_CommitRoot (trie_Hash t) db' = Ok db'' →
    ∃ t', trie_New (trie_Hash t) db'' = Ok t' ∧ ∀ k, trie_Get k t' = trie_Get k t;
}.

(** ** Facts *)

Section bolt_facts.
  Context {BO : BoltLib} {BLaws : BoltLaws BO}.

Lemma bucket_or_ok name msg db : bucket_or name msg db = Ok tt ↔ bolt_HasBucket db name.
Proof. unfold bucket_or. destruct (bolt_HasBucket db name); naive_solver. Qed.

Lemma bucket_or_has name msg db : bolt_HasBucket db name → bucket_or name msg db = Ok tt.
Proof. by rewrite bucket_or_ok. Qed.

Lemma NewBoltStore_ok db db' : NewBoltStore db = Ok db' → store_ok db'.
Proof using All.
  unfold NewBoltStore. destruct (bolt_Update _ db) as [r tx] eqn:EU.
  destruct r as [[]|e|]; cbn; [|done..]. intros [= <-].
  apply bolt_update in EU as [[_ E]|[? _]]; [|done].
  apply rbind_ok in E as (t1 & E1 & E). apply rbind_ok in E as (t2 & E2 & E3).
  rewrite wrap_err_ok in E1. rewrite wrap_err_ok in E2. rewrite wrap_err_ok in E3.
  unfold store_ok. rewrite !(bolt_has_create _ _ _ _ E3), !(bolt_has_create _ _ _ _ E2),
    !(bolt_has_create _ _ _ _ E1).
  split_and!; rewrite !orb_True; repeat (left; by apply bool_decide_spec) || (right; by apply bool_decide_spec) || left.
Qed.

Lemma BoltStore_AddBlock_spec h b hd db r db' :
  store_ok db → BoltStore_AddBlock h b hd db = (r, db') →
  (is_ok r = false ∧ db' = db) ∨
  (r = Ok tt ∧ store_ok db' ∧
   GetBlockByHash h db' = Ok b ∧ GetBlockHeaderByHash h db' = Ok hd ∧ GetNewestBlockHash db' = Ok h ∧
   ∀ h', h' ≠ h → GetBlockByHash h' db' = GetBlockByHash h' db ∧
     GetBlockHeaderByHash h' db' = GetBlockHeaderByHash h' db).
Proof using All.
  intros (H1 & H2 & H3). unfold BoltStore_AddBlock. intros [[-> EU]|[? ->]]%bolt_update; [|by left].
  rewrite bucket_or_has in EU by done. cbn in EU.
  destruct (bolt_Put bucketBlock h b db) as [t1|e|] eqn:E1; cbn in EU; [|done..].
  rewrite bucket_or_has in EU by (by rewrite (bolt_has_put _ _ _ _ _ _ E1)). cbn in EU.
  destruct (bolt_Put bucketBlockHeader h hd t1) as [t2|e|] eqn:E2; cbn in EU; [|done..].
  rewrite bucket_or_has in EU by (by rewrite (bolt_has_put _ _ _ _ _ _ E2), (bolt_has_put _ _ _ _ _ _ E1)).
  cbn in EU.
  destruct (bolt_Put bucketNewestBlock newestBlockKey h t2) as [t3|e|] eqn:E3; cbn in EU; [|done..].
  injection EU as <-. right. split; [done|].
  assert (∀ n, bolt_HasBucket t3 n = bolt_HasBucket db n) as Hh.
  { intros n. by rewrite (bolt_has_put _ _ _ _ _ _ E3), (bolt_has_put _ _ _ _ _ _ E2),
      (bolt_has_put _ _ _ _ _ _ E1). }
  assert (∀ n k, bolt_Get t3 n k =
    if decide (bucketNewestBlock = n ∧ newestBlockKey = k) then Some h
    else if decide (bucketBlockHeader = n ∧ h = k) then Some hd
    else if decide (bucketBlock = n ∧ h = k) then Some b else bolt_Get db n k) as Hg.
  { intros n k. by rewrite (bolt_get_put _ _ _ _ _ _ _ E3), (bolt_get_put _ _ _ _ _ _ _ E2),
      (bolt_get_put _ _ _ _ _ _ _ E1). }
  unfold store_ok, GetBlockByHash, GetBlockHeaderByHash, GetNewestBlockHash, bucket_or.
  rewrite !Hh, !Hg. destruct (bolt_HasBucket db bucketBlock); [|done].
  destruct (bolt_HasBucket db bucketBlockHeader); [|done].
  destruct (bolt_HasBucket db bucketNewestBlock); [|done]. cbn.
  split_and!; try done.
  - by rewrite decide_False by naive_solver; rewrite decide_False by naive_solver; rewrite decide_True.
  - by rewrite decide_False by naive_solver; rewrite decide_True.
  - intros h' Hne. rewrite !Hg. by rewrite !decide_False by naive_solver.
Qed.

(** C36: the block store keeps its contract.  Adding a block either changes
    nothing, or makes that block and its header the ones found under its hash and
    its hash the newest, leaving every other block and header as they were. *)
Theorem BoltStore_AddBlock_contract h b hd db r db' :
  store_ok db → BoltStore_AddBlock h b hd db = (r, db') →
  (is_ok r = false ∧ db' = db) ∨
  (r = Ok tt ∧ store_ok db' ∧
   GetBlockByHash h db' = Ok b ∧ GetBlockHeaderByHash h db' = Ok hd ∧ GetNewestBlockHash db' = Ok h ∧
   ∀ h', h' ≠ h → GetBlockByHash h' db' = GetBlockByHash h' db ∧
     GetBlockHeaderByHash h' db' = GetBlockHeaderByHash h' db).
Proof using All. apply BoltStore_AddBlock_spec. Qed.
End bolt_facts.

Section trie_facts.
  Context {TL : TrieLib} {TLaws : TrieLaws TL}.

Lemma trie_updates_get msg keys values t t' :
  length keys = length values → Forall (λ v, v ≠ []) values →
  trie_updates msg keys values t = Ok t' →
  ∀ k old, trie_Get k t = Ok old → trie_Get k t' = Ok (assigned keys values k old).
Proof using All.
  revert values t; induction keys as [|k0 keys IH]; intros [|v values] t Hlen Hv; try done; cbn.
  { intros [= <-]. done. }
  intros H k old Hold. apply rbind_ok in H as (t1 & E1 & E2). apply wrap_err_ok in E1.
  inversion Hv as [|? ? Hv1 Hv2]; subst.
  apply (IH values t1); [by injection Hlen|done|done|].
  rewrite (trie_get_update _ _ _ _ _ Hv1 E1). by case_decide.
Qed.

Lemma trie_updates_msg msg msg' keys values t t' :
  trie_updates msg keys values t = Ok t' → trie_updates msg' keys values t = Ok t'.
Proof.
  revert values t; induction keys as [|k keys IH]; intros [|v values] t; cbn; try done.
  intros (t1 & E1 & E2)%rbind_ok. apply wrap_err_ok in E1. rewrite E1. cbn. by apply IH.
Qed.

(** What a successful commit did. *)
Lemma MAddKeyValuesAndCommit_ok keys values e root e' :
  MAddKeyValuesAndCommit keys values e = (Ok root, e') →
  length keys = length values ∧ curStateRoot e' = root ∧
  ∃ t0 t t', trie_New (curStateRoot e) (trieDB e) = Ok t0 ∧
    trie_updates "update current trie failed, err" keys values t0 = Ok t ∧ root = trie_Hash t ∧
    trie_New root (trieDB e') = Ok t' ∧ ∀ k, trie_Get k t' = trie_Get k t.
Proof using All.
  unfold MAddKeyValuesAndCommit. case_decide as Hl; [done|].
  destruct (trie_New _ _) as [t0| |] eqn:E0; cbn; [|done..].
  destruct (trie_updates _ _ _ t0) as [t| |] eqn:Et; cbn; [|done..].
  pose proof (trie_commit_hash t) as Hh. destruct (trie_Commit t) as [r [ns|]] eqn:Ec; cbn in Hh; subst r.
  - destruct (triedb_Update _ _ _ _) as [db1| |] eqn:E1; cbn; [|done..].
    destruct (triedb_CommitRoot _ _) as [db2| |] eqn:E2; cbn; [|done..].
    intros [= <- <-]. split; [lia|]. split; [done|].
    destruct (trie_commit_open _ _ _ _ _ _ _ ns db1 db2 E0 Et) as (t' & Hn & Hg); [by rewrite Ec|done..|].
    exists t0, t, t'. by split_and!.
  - intros [= <- <-]. split; [lia|]. split; [done|].
    destruct (trie_commit_clean _ _ _ _ _ _ _ E0 Et) as [Hr Hg]; [by rewrite Ec|].
    exists t0, t, t0. by split_and!.
Qed.

Lemma MAddKeyValuesAndCommit_get keys values e root e' ks olds :
  Forall (λ v, v ≠ []) values →
  MAddKeyValuesAndCommit keys values e = (Ok root, e') →
  MGetValsByKeys ks e = Ok olds →
  MGetValsByKeys ks e' = Ok (zip_with (assigned keys values) ks olds).
Proof using All.
  intros Hv (Hl & Hr & t0 & t & t' & E0 & Et & Ht & En & Hg)%MAddKeyValuesAndCommit_ok.
  unfold MGetValsByKeys. rewrite E0, Hr, En. cbn. rewrite !rmap_ok.
  intros Ho. induction Ho as [|k o ks olds Hk _ IH]; cbn; constructor; [|done].
  apply wrap_err_ok in Hk. apply wrap_err_ok. rewrite Hg. by eapply trie_updates_get.
Qed.

Lemma MAddKeyValues_commit_spec keys values e root e' :
  Forall (λ v, v ≠ []) values → MAddKeyValuesAndCommit keys values e = (Ok root, e') →
  MAddKeyValuesPreview keys values e = Ok root ∧ GetCurrentRoot e' = Ok root ∧
  ∀ ks olds, MGetValsByKeys ks e = Ok olds →
    MGetValsByKeys ks e' = Ok (zip_with (assigned keys values) ks olds).
Proof using All.
  intros Hv Hc.
  destruct (MAddKeyValuesAndCommit_ok _ _ _ _ _ Hc) as (Hl & Hr & t0 & t & t' & E0 & Et & Ht & _).
  split_and!.
  - unfold MAddKeyValuesPreview. rewrite decide_False by lia. rewrite E0. cbn.
    rewrite (trie_updates_msg _ _ _ _ _ _ Et). cbn. by rewrite Ht.
  - unfold GetCurrentRoot. by rewrite Hr.
  - intros ks olds. by apply MAddKeyValuesAndCommit_get with root.
Qed.

(** The location trie's preview is the commit's forecast.  After a commit of
    some assignments the store reads every key as assigned by the last of them, or
    as before; its root is the returned one, which is what a preview of the
    same assignments, which cannot change the store, returns beforehand; and
    lists of different lengths are refused by both, changing nothing. *)
Theorem MAddKeyValues_preview_commit keys values e :
  (length keys ≠ length values →
     MAddKeyValuesPreview keys values e = Err bad_input ∧
     MAddKeyValuesAndCommit keys values e = (Err bad_input, e)) ∧
  ∀ root e', Forall (λ v, v ≠ []) values → MAddKeyValuesAndCommit keys values e = (Ok root, e') →
    MAddKeyValuesPreview keys values e = Ok root ∧ GetCurrentRoot e' = Ok root ∧
    ∀ ks olds, MGetValsByKeys ks e = Ok olds →
      MGetValsByKeys ks e' = Ok (zip_with (assigned keys values) ks olds).
Proof using All.
  split.
  - intros Hl. unfold MAddKeyValuesPreview, MAddKeyValuesAndCommit. by rewrite !decide_True.
  - intros root e'. apply MAddKeyValues_commit_spec.
Qed.
End trie_facts.

(** ** Concrete instances *)

Module MapStores.

#[export] Instance bolt : BoltLib := {|
  BoltDB := gmap string (gmap bytes bytes);
  bolt_HasBucket db b := bool_decide (is_Some (db !! b));
  bolt_CreateBucketIfNotExists b db := Ok (match db !! b with Some _ => db | None => <[b := ∅]> db end);
  bolt_Put b k v db :=
    match db !! b with
    | Some m => if decide (k = []) then Err "key required" else Ok (<[b := <[k := v]> m]> db)
    | None => Err "bucket not found"
    end;
  bolt_Get db b k := m ← db !! b; m !! k;
  bolt_Update fn db := match fn db with
    | Ok db' => (Ok tt, db') | Err e => (Err e, db) | Panic => (Panic, db) end;
|}.

#[export] Instance bolt_laws : BoltLaws bolt.
Proof.
  split; cbn.
  - intros db b k v db' b' k'. destruct (db !! b) as [m|] eqn:E; [|done].
    case_decide; [done|]. intros [= <-].
    destruct (decide (b = b')) as [->|Hb].
    + rewrite lookup_insert_eq, E. cbn. destruct (decide (k = k')) as [->|Hk].
      * rewrite lookup_insert_eq, decide_True; done.
      * rewrite lookup_insert_ne, decide_False by naive_solver. done.
    + rewrite lookup_insert_ne, decide_False by naive_solver. done.
  - intros db b k v db' b'. destruct (db !! b) as [m|] eqn:E; [|done].
    case_decide; [done|]. intros [= <-]. apply bool_decide_ext.
    destruct (decide (b = b')) as [->|Hb]; [rewrite lookup_insert_eq, E | rewrite lookup_insert_ne]; done.
  - intros db b db' b'. intros [= <-]. destruct (db !! b) as [m|] eqn:E.
    + destruct (decide (b = b')) as [->|Hb].
      * rewrite E. by rewrite !bool_decide_eq_true_2.
      * rewrite (bool_decide_eq_false_2 (b = b')) by done. by rewrite orb_false_r.
    + destruct (decide (b = b')) as [->|Hb].
      * rewrite lookup_insert_eq. rewrite (bool_decide_eq_true_2 (b' = b')) by done.
        rewrite orb_true_r. by apply bool_decide_eq_true_2.
      * rewrite lookup_insert_ne by done. rewrite (bool_decide_eq_false_2 (b = b')) by done.
        by rewrite orb_false_r.
  - intros fn db r db'. destruct (fn db); intros [= <- <-]; [by left | by right..].
Qed.

(** A trie is its contents; its root a checksum, a database the contents by root. *)
Definition root_of (t : gmap bytes bytes) : bytes :=
  Z_to_be 32 (map_fold (λ k v acc, be_to_Z k * 31 + be_to_Z v + acc) 0 t).
#[local] Arguments root_of : simpl never.

#[export] Instance trie : TrieLib := {|
  TrieDB := gmap bytes (gmap bytes bytes);
  Trie := gmap bytes bytes;
  NodeSet := gmap bytes bytes;
  emptyRoot := root_of ∅;
  trie_New r db := if decide (r = root_of ∅ ∧ db !! r = None) then Ok ∅ else
    match db !! r with Some t => Ok t | None => Err "missing trie node" end;
  trie_NewEmpty := ∅;
  trie_Update k v t := Ok (if decide (v = []) then delete k t else <[k := v]> t);
  trie_Get k t := Ok (t !! k);
  trie_Hash t := root_of t;
  trie_Commit t := (root_of t, Some t);
  triedb_Update root _ ns db := Ok (<[root := ns]> db);
  triedb_CommitRoot _ db := Ok db;
|}.

#[export] Instance trie_laws : TrieLaws trie.
Proof.
  split; cbn; try done.
  - intros t k v t' k' Hv. rewrite decide_False by done. intros [= <-].
    destruct (decide (k = k')) as [->|]; [by rewrite lookup_insert_eq | by rewrite lookup_insert_ne].
  - intros r db t0 msg keys values t ns db' db'' _ _ [= <-] [= <-] [= <-]. exists t.
    rewrite decide_False by (intros [_ H]; by rewrite lookup_insert_eq in H).
    by rewrite lookup_insert_eq.
Qed.
End MapStores.

Module StorageWitness.
Import MapStores.

Definition db0 : BoltStore := default ∅ (match NewBoltStore ∅ with Ok db => Some db | _ => None end).

Lemma BoltStore_AddBlock_contract_witness :
  let '(r, db') := BoltStore_AddBlock (str "h") (str "block") (str "header") db0 in
  r = Ok tt ∧ GetBlockByHash (str "h") db' = Ok (str "block").
Proof.
  destruct (BoltStore_AddBlock (str "h") (str "block") (str "header") db0) as [r db'] eqn:E.
  destruct (BoltStore_AddBlock_contract (str "h") (str "block") (str "header") db0 r db')
    as [[Hr _]|(Hr & _ & Hg & _)]; [by vm_compute | exact E | | by split].
  apply (f_equal fst) in E. vm_compute in E. subst r. discriminate Hr.
Defined.

Definition e0 : EthTrieDB := mkEthTrieDB ∅ emptyRoot.

Lemma MAddKeyValues_preview_commit_witness :
  let '(r, e') := MAddKeyValuesAndCommit [str "a"; str "b"; str "a"] [str "1"; str "2"; str "3"] e0 in
  MAddKeyValuesPreview [str "a"; str "b"; str "a"] [str "1"; str "2"; str "3"] e0 = r ∧
  MGetValsByKeys [str "a"; str "c"] e' = Ok [Some (str "3"); None].
Proof.
  destruct (MAddKeyValuesAndCommit _ _ e0) as [r e'] eqn:E.
  destruct (MAddKeyValues_preview_commit [str "a"; str "b"; str "a"] [str "1"; str "2"; str "3"] e0)
    as [_ H].
  destruct r as [root| |]; [|discriminate E..].
  destruct (H root e') as (H1 & _ & H2); [repeat constructor; discriminate | exact E |].
  split; [exact H1|]. rewrite (H2 _ [None; None]) by reflexivity. reflexivity.
Defined.
End StorageWitness.
