(* ===== verification/Chain.v ===== *)
(** * The blockchain

    Models pkg/chain/chain.go on the storages of Storage.v and StateDB.v:
    building, validating, adding and fetching blocks, and reading accounts.
    Every exported method but [ValidateBlock], the getters and [UpdateEpoch]
    holds the chain's mutex, so a run of a chain is a sequence of calls. *)

From S2P Require Import Prelude GoHash Account Bloom Block Config StateDB TxExecute Storage.
From Stdlib Require Import Lia Strings.Byte.

Local Open Scope Z_scope.

(** [gob] on a [uint64] and on an account state; [maps.Keys], whose order is
    unspecified. *)
Class GobU64 := {
  gob_encode_u64 : Z → result bytes;
  gob_decode_u64 : bytes → result Z;
}.
Class GobState := gob_encode_state : State → result bytes.
Class MapKeys := maps_Keys : gmap Address Z → list Address.

Class GobU64Laws (GU : GobU64) : Prop := {
  gob_u64_roundtrip : ∀ z b, in_u 64 z → gob_encode_u64 z = Ok b → gob_decode_u64 b = Ok z;
  gob_u64_nonempty : ∀ z b, gob_encode_u64 z = Ok b → b ≠ [];
}.
Class MapKeysLaws (MK : MapKeys) : Prop :=
  maps_Keys_perm : ∀ m, maps_Keys m ≡ₚ (map_to_list m).*1.

(** [common.Hash(b)]: a conversion from a slice to a 32-byte array. *)
Definition common_Hash (b : bytes) : result bytes :=
  if decide (length b < 32)%nat then Panic else Ok (take 32 b).

Definition blocksFetchLimit : Z := 100.

Section chain.
  Context {BL : BitSetLib} {RT : RlpTx} {RH : RlpHeader} {GB : GobBlock}.
  Context {GU : GobU64} {GS : GobState} {MK : MapKeys}.
  Context {SL : StateDBLib} {EV : EVMLib} {BO : BoltLib} {TL : TrieLib}.

Record Chain := mkChain {
  BlockStorage : BoltStore;
  LocStorage : EthTrieDB;
  StateStorage : StateStore;
  curHeader : Header;
  shardID : Z;
  epochID : Z;
  c_ShardNum : Z;
  c_Bloom : BloomFilterCfg;
}.
#[export] Instance Chain_eta : Eta Chain := λ c,
  mkChain (BlockStorage c) (LocStorage c) (StateStorage c) (curHeader c) (shardID c) (epochID c)
    (c_ShardNum c) (c_Bloom c).

Definition on_blocks {A} (m : M BoltStore A) : M Chain A :=
  st_zoom BlockStorage (λ s c, c <| BlockStorage := s |>) m.
Definition on_locs {A} (m : M EthTrieDB A) : M Chain A :=
  st_zoom LocStorage (λ s c, c <| LocStorage := s |>) m.
Definition on_states {A} (m : M StateStore A) : M Chain A :=
  st_zoom StateStorage (λ s c, c <| StateStorage := s |>) m.

Definition GetCurHeader (c : Chain) : Header := curHeader c.
Definition GetShardID (c : Chain) : Z := shardID c.
Definition GetEpochID (c : Chain) : Z := epochID c.
Definition UpdateEpoch (epoch : Z) (c : Chain) : Chain := c <| epochID := epoch |>.

Definition getVMExecutor (c : Chain) : result StateDB :=
  let* root := common_Hash (StateRoot (curHeader c)) in
  NewExecutor (StateStorage c) root.

(** *** Accounts *)

Definition decode_location (c : Chain) (addr : Address) (locByte : option bytes) : result Z :=
  match locByte with
  | None => DefaultAccountLoc addr (c_ShardNum c)
  | Some b =>
    let* uintLoc := wrap_err "decode location err" (gob_decode_u64 b) in Ok (wrap_i64 uintLoc)
  end.

Definition getAccountLocations (addresses : list Address) (c : Chain) : result (list Z) :=
  let* locBytes := wrap_err "get account locations from trie err"
    (MGetValsByKeys (map addr_bytes addresses) (LocStorage c)) in
  rmap (λ p, decode_location c p.1 p.2) (zip addresses locBytes).

Definition getAccountLocationsInTxs (txs : list Transaction) (c : Chain)
    : result (gmap Address Z) :=
  let accountLocations := fold_left (λ (m : gmap Address Z) tx,
    <[Recipient tx := -1]> (<[Sender tx := -1]> m)) txs ∅ in
  let requestAccounts := maps_Keys accountLocations in
  let* locations := wrap_err "GetAccountStates failed" (getAccountLocations requestAccounts c) in
  Ok (fold_left (λ (m : gmap Address Z) p, <[p.1 := p.2]> m) (zip requestAccounts locations)
        accountLocations).

Definition getAccountStates (addresses : list Address) (c : Chain) : result (list State) :=
  let* locations := wrap_err "get account locations err" (getAccountLocations addresses c) in
  let* vme := wrap_err "new vm executor err" (getVMExecutor c) in
  Ok (zip_with (λ addr loc, readStateFromVMExecutor addr (wrap_u64 loc) vme) addresses locations).

Definition GetAccountStates (accounts : list Address) (c : Chain) : result (list State) :=
  wrap_err "get account states err" (getAccountStates accounts c).

Definition GetAccountLocationsInTxs (txs : list Transaction) (c : Chain) : result (gmap Address Z) :=
  getAccountLocationsInTxs txs c.

(** *** Headers *)

Definition calcTxHeaderOpt (body : Body) (c : Chain) : result TxHeaderOpt :=
  if decide (TxList body = []) then Ok zeroTxHeaderOpt
  else
    let* bf := wrap_err "new bloom filter err" (NewFilter (c_Bloom c)) in
    let* kvs := rmap (λ tx,
      let* k := wrap_err "hash err" (tx_Hash tx) in
      let* v := wrap_err "encode tx err" (tx_Encode tx) in Ok (k, v)) (TxList body) in
    let* bf := Add bf kvs.*1 in
    let* root := wrap_err "generate root err" (GenerateRootByGivenBytes kvs.*1 kvs.*2) in
    Ok (mkTxHeaderOpt root bf).

(** [sList[i]] past the end of the states panics. *)
Fixpoint getMigrationAccountBytes (accList : list Address) (sList : list State)
    : result (list (bytes * bytes)) :=
  match accList, sList with
  | [], _ => Ok []
  | acc :: accList', s :: sList' =>
    let* v := wrap_err "encode state err" (gob_encode_state s) in
    let* rest := getMigrationAccountBytes accList' sList' in
    Ok ((addr_bytes acc, v) :: rest)
  | _ :: _, [] => Panic
  end.

Definition calcMigrationHeaderOpt (mOpt : MigrationOpt) : result MigrationHeaderOpt :=
  if decide (MigratedAddrs mOpt = []) then Ok zeroMigrationHeaderOpt
  else
    let* kvs := wrap_err "get migrated state Merkle root err"
      (getMigrationAccountBytes (MigratedAddrs mOpt) (MigratedStates mOpt)) in
    let* root := wrap_err "generate root err" (GenerateRootByGivenBytes kvs.*1 kvs.*2) in
    Ok (mkMigrationHeaderOpt root).

(** *** The effect of a block on the state *)

(** The loop over the migrated accounts: their states are written, and the keys
    and values for the location trie returned. *)
Fixpoint migrate_accounts (sid : Z) (addrs : list Address) (states : list State)
    : M StateDB (list (bytes * bytes)) :=
  match addrs, states with
  | [], _ => st_ret []
  | acc :: addrs', st :: states' =>
    (if decide (S_ShardLocation st = wrap_u64 sid)
     then st_wrap "set migrated state err" (setMigratedStates2VMTrie acc st) else st_ret tt) ;;!
    let! buf := st_wrap "encode state err" (st_lift (gob_encode_u64 (S_ShardLocation st))) in
    let! rest := migrate_accounts sid addrs' states' in
    st_ret ((addr_bytes acc, buf) :: rest)
  | _ :: _, [] => st_lift Panic
  end.

Definition calcStateModification (c : Chain) (b : Block) : M StateDB (list bytes * list bytes) :=
  let! accountLocMap := st_wrap "get account locations err"
    (st_lift (getAccountLocationsInTxs (TxList (b_Body b)) c)) in
  let bCtx := getBlockCtxByBlock b in
  st_for (λ tx, st_wrap "execute tx err" (txExecute (shardID c) bCtx accountLocMap tx))
    (TxList (b_Body b)) ;;!
  let! kvs := migrate_accounts (shardID c) (MigratedAddrs (b_MigrationOpt b))
    (MigratedStates (b_MigrationOpt b)) in
  st_ret (kvs.*1, kvs.*2).

Definition previewStateRootByBlock (b : Block) (c : Chain) : result (bytes * bytes) :=
  let* vme := wrap_err "get vm executor err" (getVMExecutor c) in
  let '(r, vme) := calcStateModification c b vme in
  let* ' (accountBytes, locationBytes) := wrap_err "calc state modification err" r in
  let stateRoot := db_IntermediateRoot vme in
  let* locRoot := wrap_err "preview updated accounts err"
    (MAddKeyValuesPreview accountBytes locationBytes (LocStorage c)) in
  Ok (stateRoot, locRoot).

Definition updateTrieByBlock (b : Block) : M Chain (bytes * bytes) :=
  let! c := st_get in
  let! vme := st_wrap "get vm executor err" (st_lift (getVMExecutor c)) in
  let '(r, vme) := calcStateModification c b vme in
  let! '(accountBytes, locationBytes) := st_wrap "calc state modification err" (st_lift r) in
  let! stateRoot := st_wrap "vme commit err"
    (on_states (db_Commit (bc_BlockNumber (getBlockCtxByBlock b)) vme)) in
  let! locRoot := st_wrap "preview updated accounts err"
    (on_locs (MAddKeyValuesAndCommit accountBytes locationBytes)) in
  st_wrap "commit state-db trie err" (on_states (triedb_Commit stateRoot)) ;;!
  st_ret (stateRoot, locRoot).

(** *** Blocks *)

Definition GenerateBlock (now : Time) (miner : Address) (blockType : Z) (body : Body)
    (mOpt : MigrationOpt) (c : Chain) : result Block :=
  let* parentHeader := wrap_err "create parent header err" (Header_Hash (curHeader c)) in
  let* tOpt := wrap_err "calc tx header opt err" (calcTxHeaderOpt body c) in
  let* mHeaderOpt := wrap_err "get account state root err" (calcMigrationHeaderOpt mOpt) in
  let header := mkHeader parentHeader [] (wrap_u64 (Number (curHeader c) + 1)) blockType miner now
    [] tOpt mHeaderOpt in
  let b := NewBlock header body mOpt in
  let* ' (stateRoot, locRoot) := wrap_err "preview updated trie by txs err"
    (previewStateRootByBlock b c) in
  Ok (b <| b_Header ::= λ h, h <| StateRoot := stateRoot |> <| LocationRoot := locRoot |> |>).

Definition AddBlock (b : Block) : M Chain unit :=
  let! blockHash := st_wrap "calc header hash err" (st_lift (Block_Hash b)) in
  let! blockByte := st_wrap "encode block err" (st_lift (Block_Encode b)) in
  let! headerByte := st_wrap "encode block header err" (st_lift (Header_Encode (b_Header b))) in
  let! _ := st_wrap "update trie err" (updateTrieByBlock b) in
  st_wrap "failed to add block to storage"
    (on_blocks (BoltStore_AddBlock blockHash blockByte headerByte)) ;;!
  st_modify (λ c, c <| curHeader := b_Header b |>).

Definition ValidateBlock (b : Block) (c : Chain) : result unit :=
  let* tH := wrap_err "get tx trie stateRoot err" (calcTxHeaderOpt (b_Body b) c) in
  if decide (TxRoot tH ≠ TxRoot (h_TxHeaderOpt (b_Header b))) then Err "tx root mismatch"
  else if Equal (h_Bloom tH) (h_Bloom (h_TxHeaderOpt (b_Header b))) then
    let* mH := wrap_err "get migrated account state Merkle root err"
      (calcMigrationHeaderOpt (b_MigrationOpt b)) in
    if decide (MigratedAccountsRoot mH ≠ MigratedAccountsRoot (h_MigrationHeaderOpt (b_Header b)))
    then Err "migration root mismatch" else Ok tt
  else Err "bloom mismatch".

(** [n] blocks back from the one of hash [bHash], oldest first. *)
Fixpoint fetch_blocks (n : nat) (bHash : bytes) (c : Chain) : result (list Block) :=
  match n with
  | O => Ok []
  | S n' =>
    let* bByte := wrap_err "get block err" (GetBlockByHash bHash (BlockStorage c)) in
    let* b := wrap_err "decode block err" (DecodeBlock bByte) in
    let* rest := fetch_blocks n' (ParentBlockHash (b_Header b)) c in
    Ok (rest ++ [b])
  end.

Definition GetBlocksAfterHeight (beginHeight : Z) (c : Chain) : result (list Block) :=
  if decide (beginHeight ≤ 0) then Err "beginHeight must be > 0"
  else
    let fetchedBlocksCnt := wrap_i64 (wrap_i64 (wrap_i64 (Number (curHeader c)) - beginHeight) + 1) in
    if decide (blocksFetchLimit < fetchedBlocksCnt) then Err "too many blocks (%d) to return"
    else
      let fetchedBlocksCnt := if decide (fetchedBlocksCnt < 0) then 0 else fetchedBlocksCnt in
      let* bHash := wrap_err "get header hash err" (Header_Hash (curHeader c)) in
      fetch_blocks (Z.to_nat fetchedBlocksCnt) bHash c.

Definition zeroHeader : Header :=
  mkHeader [] [] 0 0 EmptyAccountAddr 0 [] zeroTxHeaderOpt zeroMigrationHeaderOpt.

Definition initWithGenesisBlock (now : Time) : M Chain Block :=
  let! c := st_get in
  let! b := st_wrap "generate block err" (st_lift
    (GenerateBlock now EmptyAccountAddr TxBlockType emptyBody emptyMigrationOpt c)) in
  st_wrap "failed to add block to storage" (AddBlock b) ;;!
  st_ret b.

(** On the storages [NewStorage] opened. *)
Definition NewChain (bs : BoltStore) (ls : EthTrieDB) (ss : StateStore) (shardNum : Z)
    (bloom : BloomFilterCfg) (lp : LocalParams) (now : Time) : result Chain :=
  let chain := mkChain bs ls ss (zeroHeader <| StateRoot := EmptyRootHash |>)
    (ShardID lp) 0 shardNum bloom in
  let '(r, chain) := initWithGenesisBlock now chain in
  let* genesisBlock := wrap_err "create genesis block err" r in
  Ok (chain <| curHeader := b_Header genesisBlock |>).

End chain.

(** ** Facts *)

Section chain_facts.
  Context {BL : BitSetLib} {RT : RlpTx} {RH : RlpHeader} {GB : GobBlock}.
  Context {GU : GobU64} {GS : GobState} {MK : MapKeys}.
  Context {SL : StateDBLib} {EV : EVMLib} {BO : BoltLib} {TL : TrieLib}.

(** Which location-trie assignments and which state a block leads to. *)
Definition effect (c : Chain) (b : Block) (s : StateDB) (ks vs : list bytes) (s' : StateDB) : Prop :=
  getVMExecutor c = Ok s ∧ calcStateModification c b s = (Ok (ks, vs), s').

Lemma calcStateModification_header (c : Chain) (b : Block) (f : Header → Header) s :
  Miner (f (b_Header b)) = Miner (b_Header b) → Number (f (b_Header b)) = Number (b_Header b) →
  BCreateTime (f (b_Header b)) = BCreateTime (b_Header b) →
  calcStateModification c (b <| b_Header ::= f |>) s = calcStateModification c b s.
Proof.
  intros H1 H2 H3. unfold calcStateModification, getBlockCtxByBlock. cbn.
  by rewrite H1, H2, H3.
Qed.

Lemma previewStateRootByBlock_ok (c : Chain) b sr lr :
  previewStateRootByBlock b c = Ok (sr, lr) →
  ∃ s ks vs s', effect c b s ks vs s' ∧ sr = db_IntermediateRoot s' ∧
    MAddKeyValuesPreview ks vs (LocStorage c) = Ok lr.
Proof.
  unfold previewStateRootByBlock. intros (s & E1 & E)%rbind_ok. apply wrap_err_ok in E1.
  destruct (calcStateModification c b s) as [r s'] eqn:E2.
  apply rbind_ok in E as ([ks vs] & E3 & E). apply wrap_err_ok in E3. subst r.
  apply rbind_ok in E as (lr' & E4 & [= <- <-]). apply wrap_err_ok in E4.
  by exists s, ks, vs, s'.
Qed.

Lemma on_states_run {A} (m : M StateStore A) c :
  on_states m c = ((m (StateStorage c)).1, c <| StateStorage := (m (StateStorage c)).2 |>).
Proof. unfold on_states, st_zoom. by destruct (m (StateStorage c)). Qed.
Lemma on_locs_run {A} (m : M EthTrieDB A) c :
  on_locs m c = ((m (LocStorage c)).1, c <| LocStorage := (m (LocStorage c)).2 |>).
Proof. unfold on_locs, st_zoom. by destruct (m (LocStorage c)). Qed.
Lemma on_blocks_run {A} (m : M BoltStore A) c :
  on_blocks m c = ((m (BlockStorage c)).1, c <| BlockStorage := (m (BlockStorage c)).2 |>).
Proof. unfold on_blocks, st_zoom. by destruct (m (BlockStorage c)). Qed.

(** What a successful update of the state and location tries did. *)
Lemma updateTrieByBlock_ok (c : Chain) b sr lr c' :
  updateTrieByBlock b c = (Ok (sr, lr), c') →
  ∃ s ks vs s' ls ss1 ss2, effect c b s ks vs s' ∧
    db_Commit (bc_BlockNumber (getBlockCtxByBlock b)) s' (StateStorage c) = (Ok sr, ss1) ∧
    MAddKeyValuesAndCommit ks vs (LocStorage c) = (Ok lr, ls) ∧
    triedb_Commit sr ss1 = (Ok tt, ss2) ∧
    c' = c <| LocStorage := ls |> <| StateStorage := ss2 |>.
Proof.
  unfold updateTrieByBlock. intros (c0 & c1 & E0 & E)%st_bind_ok.
  injection E0 as <- <-. apply st_bind_ok in E as (s & c1 & E1%st_wrap_ok & E).
  injection E1 as E1 <-. destruct (calcStateModification c b s) as [r s'] eqn:E2.
  apply st_bind_ok in E as ([ks vs] & c1 & E3%st_wrap_ok & E). injection E3 as -> <-.
  apply st_bind_ok in E as (sr' & c1 & E4%st_wrap_ok & E). rewrite on_states_run in E4.
  destruct (db_Commit _ s' _) as [r1 ss1] eqn:E4'. injection E4 as -> <-.
  apply st_bind_ok in E as (lr' & c1 & E5%st_wrap_ok & E). rewrite on_locs_run in E5.
  destruct (MAddKeyValuesAndCommit _ _ _) as [r2 ls] eqn:E5'. injection E5 as -> <-.
  apply st_bind_ok in E as ([] & c1 & E6%st_wrap_ok & E). rewrite on_states_run in E6.
  destruct (triedb_Commit _ _) as [r3 ss2] eqn:E6'. injection E6 as -> <-. injection E as <- <- <-.
  exists s, ks, vs, s', ls, ss1, ss2. by split_and!.
Qed.

(** What a successful addition did. *)
Lemma AddBlock_ok (b : Block) (c c' : Chain) : AddBlock b c = (Ok tt, c') →
  ∃ h bb hb sr lr c1 bs, Block_Hash b = Ok h ∧ Block_Encode b = Ok bb ∧
    Header_Encode (b_Header b) = Ok hb ∧ updateTrieByBlock b c = (Ok (sr, lr), c1) ∧
    BoltStore_AddBlock h bb hb (BlockStorage c) = (Ok tt, bs) ∧
    c' = c1 <| BlockStorage := bs |> <| curHeader := b_Header b |>.
Proof.
  unfold AddBlock. intros (h & c0 & E1%st_wrap_ok & E)%st_bind_ok. injection E1 as E1 <-.
  apply st_bind_ok in E as (bb & c0 & E2%st_wrap_ok & E). injection E2 as E2 <-.
  apply st_bind_ok in E as (hb & c0 & E3%st_wrap_ok & E). injection E3 as E3 <-.
  apply st_bind_ok in E as ([sr lr] & c1 & E4%st_wrap_ok & E).
  apply st_bind_ok in E as ([] & c2 & E5%st_wrap_ok & E). rewrite on_blocks_run in E5.
  injection E as <-.
  assert (BlockStorage c1 = BlockStorage c) as Hb.
  { apply updateTrieByBlock_ok in E4 as (? & ? & ? & ? & ? & ? & ? & _ & _ & _ & _ & ->). done. }
  rewrite Hb in E5. destruct (BoltStore_AddBlock _ _ _ _) as [r bs] eqn:E5'. injection E5 as -> <-.
  by exists h, bb, hb, sr, lr, c1, bs.
Qed.

(** What a generated block is. *)
Lemma GenerateBlock_ok now miner ty body mOpt (c : Chain) b :
  GenerateBlock now miner ty body mOpt c = Ok b →
  ∃ ph tOpt mH sr lr, Header_Hash (curHeader c) = Ok ph ∧ calcTxHeaderOpt body c = Ok tOpt ∧
    calcMigrationHeaderOpt mOpt = Ok mH ∧ previewStateRootByBlock b c = Ok (sr, lr) ∧
    b = mkBlock (mkHeader ph sr (wrap_u64 (Number (curHeader c) + 1)) ty miner now lr tOpt mH) body mOpt.
Proof.
  unfold GenerateBlock. intros (ph & E1 & E)%rbind_ok. apply wrap_err_ok in E1.
  apply rbind_ok in E as (tOpt & E2 & E). apply wrap_err_ok in E2.
  apply rbind_ok in E as (mH & E3 & E). apply wrap_err_ok in E3.
  apply rbind_ok in E as ([sr lr] & E4 & E). apply wrap_err_ok in E4. injection E as <-.
  exists ph, tOpt, mH, sr, lr. split_and!; done.
Qed.

(** C11: a leader's own block passes validation: what [GenerateBlock] builds from
    a body and a migration part, [ValidateBlock] on the same chain accepts. *)
Theorem ValidateBlock_GenerateBlock now miner ty body mOpt (c : Chain) b :
  BitSetLaws BL → GenerateBlock now miner ty body mOpt c = Ok b → ValidateBlock b c = Ok tt.
Proof.
  intros BLaws (ph & tOpt & mH & sr & lr & _ & Et & Em & _ & ->)%GenerateBlock_ok.
  unfold ValidateBlock. cbn. rewrite Et. cbn. rewrite decide_False by tauto.
  assert (Equal (h_Bloom tOpt) (h_Bloom tOpt) = true) as ->.
  { unfold Equal. by apply bs_Equal_spec. }
  rewrite Em. cbn. by rewrite decide_False by tauto.
Qed.

(** *** The state after a block *)

Lemma migrate_accounts_values sid addrs states s kvs s' :
  migrate_accounts sid addrs states s = (Ok kvs, s') →
  (length addrs ≤ length states)%nat ∧ kvs.*1 = map addr_bytes addrs ∧
  Forall2 (λ st v, gob_encode_u64 (S_ShardLocation st) = Ok v) (take (length addrs) states) kvs.*2.
Proof.
  revert states s kvs; induction addrs as [|a addrs IH]; intros states s kvs; cbn.
  { intros [= <- <-]. cbn. split; [lia|]. by split; [|constructor]. }
  destruct states as [|st states]; [done|].
  intros ([] & s1 & _ & E)%st_bind_ok.
  apply st_bind_ok in E as (v & s2 & E2%st_wrap_ok & E). injection E2 as E2 <-.
  apply st_bind_ok in E as (rest & s3 & E3 & E). injection E as <- <-.
  destruct (IH _ _ _ E3) as (Hl & Hk & Hv). cbn. split; [lia|].
  split; [by rewrite Hk | by constructor].
Qed.

Lemma calcStateModification_values (c : Chain) b s ks vs s' :
  calcStateModification c b s = (Ok (ks, vs), s') →
  ks = map addr_bytes (MigratedAddrs (b_MigrationOpt b)) ∧
  Forall2 (λ st v, gob_encode_u64 (S_ShardLocation st) = Ok v)
    (take (length (MigratedAddrs (b_MigrationOpt b))) (MigratedStates (b_MigrationOpt b))) vs ∧
  length ks = length vs.
Proof.
  unfold calcStateModification. intros (m & s1 & _ & E)%st_bind_ok.
  apply st_bind_ok in E as ([] & s2 & _ & E).
  apply st_bind_ok in E as (kvs & s3 & (Hl & Hk & Hv)%migrate_accounts_values & E).
  injection E as <- <- <-. split_and!; [done..|]. by rewrite !length_fmap.
Qed.

Context {SLaws : StateDBLaws SL} {TLaws : TrieLaws TL} {GULaws : GobU64Laws GU}.

Lemma calcStateModification_nonempty (c : Chain) b s ks vs s' :
  calcStateModification c b s = (Ok (ks, vs), s') → Forall (λ v, v ≠ []) vs.
Proof using GULaws.
  intros (_ & Hv & _)%calcStateModification_values.
  induction Hv; constructor; [by eapply gob_u64_nonempty | done].
Qed.

Lemma common_Hash_root s : common_Hash (db_IntermediateRoot s) = Ok (db_IntermediateRoot s).
Proof using SLaws.
  unfold common_Hash. pose proof (root_length s) as Hl. rewrite decide_False by lia.
  f_equal. rewrite take_ge; [done|lia].
Qed.

(** The state opened after a block the chain generated. *)
Lemma AddBlock_reopens now miner ty body mOpt (c c' : Chain) b :
  GenerateBlock now miner ty body mOpt c = Ok b → AddBlock b c = (Ok tt, c') →
  ∃ s ks vs s' s'', effect c b s ks vs s' ∧ getVMExecutor c' = Ok s'' ∧ ∀ a,
    if db_HasSelfDestructed s' a || db_Empty s' a then gone s'' a ∧ eff s'' a = initBalance
    else same_account s' s'' a ∧ eff s'' a = eff s' a.
Proof using SLaws.
  intros Hg Ha. destruct (GenerateBlock_ok _ _ _ _ _ _ _ Hg) as (ph & tOpt & mH & sr & lr & _ & _ & _ & E4 & Eb).
  destruct (previewStateRootByBlock_ok _ _ _ _ E4) as (s & ks & vs & s' & Heff & Esr & _).
  destruct (AddBlock_ok _ _ _ Ha) as (h & bb & hb & sr2 & lr2 & c1 & bs & _ & _ & _ & Eu & _ & ->).
  destruct (updateTrieByBlock_ok _ _ _ _ _ Eu) as (s2 & ks2 & vs2 & s2' & ls & ss1 & ss2 & Heff2 & Ec & _ & Et & ->).
  destruct Heff as [H1 H2], Heff2 as [H3 H4]. rewrite H1 in H3; injection H3 as <-.
  rewrite H2 in H4; injection H4 as <- <- <-.
  pose proof (commit_root _ _ _ _ _ Ec) as ->.
  destruct (commit_open _ _ _ _ _ _ Ec Et) as (s'' & Hn & Hs'').
  exists s, ks, vs, s', s''. split; [split; congruence|]. split.
  { unfold getVMExecutor. rewrite Eb. cbn. rewrite Esr, common_Hash_root. cbn. unfold NewExecutor. by rewrite Hn. }
  intros a. specialize (Hs'' a). unfold eff. destruct (_ || _).
  - split; [exact Hs''|]. by destruct Hs'' as [-> _].
  - split; [exact Hs''|]. by destruct Hs'' as (-> & -> & _).
Qed.

Lemma AddBlock_head (b : Block) (c c' : Chain) : AddBlock b c = (Ok tt, c') →
  curHeader c' = b_Header b ∧ shardID c' = shardID c ∧ epochID c' = epochID c ∧ c_ShardNum c' = c_ShardNum c.
Proof using Type.
  intros (h & bb & hb & sr & lr & c1 & bs & _ & _ & _ & Eu & _ & ->)%AddBlock_ok.
  by apply updateTrieByBlock_ok in Eu as (? & ? & ? & ? & ? & ? & ? & _ & _ & _ & _ & ->).
Qed.

(** C10: the roots a leader announces are the ones its block reaches.  Adding a
    block just built by [GenerateBlock] commits exactly the previewed state and
    location roots; the chain then stands on the block (parent hash and number
    follow the old head), its state opens again at the announced root, and every
    account is there as the block's execution left it (its balance, nonce, code
    and storage), except for those that a contract of the block destroyed and
    those left without balance, nonce and code: these are gone, and read as never
    touched, with the initial balance. *)
Theorem AddBlock_generated now miner ty body mOpt (c c' : Chain) b :
  GenerateBlock now miner ty body mOpt c = Ok b → AddBlock b c = (Ok tt, c') →
  curHeader c' = b_Header b ∧
  Header_Hash (curHeader c) = Ok (ParentBlockHash (curHeader c')) ∧
  Number (curHeader c') = wrap_u64 (Number (curHeader c) + 1) ∧
  curStateRoot (LocStorage c') = LocationRoot (curHeader c') ∧
  shardID c' = shardID c ∧ epochID c' = epochID c ∧
  ∃ s ks vs s' s'', effect c b s ks vs s' ∧ getVMExecutor c' = Ok s'' ∧ ∀ a,
    if db_HasSelfDestructed s' a || db_Empty s' a then gone s'' a ∧ eff s'' a = initBalance
    else same_account s' s'' a ∧ eff s'' a = eff s' a.
Proof using All.
  intros Hg Ha. destruct (AddBlock_head _ _ _ Ha) as (Hh & Hsid & Hep & _).
  destruct (GenerateBlock_ok _ _ _ _ _ _ _ Hg) as (ph & tOpt & mH & sr & lr & E1 & _ & _ & E4 & Eb).
  split_and!; [done|by rewrite Hh, Eb|by rewrite Hh, Eb| |done|done|by apply (AddBlock_reopens now miner ty body mOpt)].
  destruct (previewStateRootByBlock_ok _ _ _ _ E4) as (s & ks & vs & s' & [Hs Hc] & _ & Elr).
  destruct (AddBlock_ok _ _ _ Ha) as (h & bb & hb & sr2 & lr2 & c1 & bs & _ & _ & _ & Eu & _ & ->).
  destruct (updateTrieByBlock_ok _ _ _ _ _ Eu) as (s2 & ks2 & vs2 & s2' & ls & ss1 & ss2 & [H1 H2] & _ & El & _ & ->).
  rewrite Hs in H1; injection H1 as <-. rewrite Hc in H2; injection H2 as <- <- <-.
  destruct (MAddKeyValues_commit_spec ks vs (LocStorage c) lr2 ls) as (Hp & Hr & _);
    [by eapply calcStateModification_nonempty|done|].
  rewrite Elr in Hp; injection Hp as <-. injection Hr as Hr. by rewrite Eb.
Qed.

(** *** Locations after a block *)

(** Where a migration part sends an address: its last state's location, or
    where it was. *)
Fixpoint moved (addrs : list Address) (states : list State) (a : Address) (old : Z) : Z :=
  match addrs, states with
  | a' :: addrs', st :: states' =>
    moved addrs' states' a (if decide (a' = a) then wrap_i64 (S_ShardLocation st) else old)
  | _, _ => old
  end.

Lemma addr_bytes_inj n (a b : vec byte n) : addr_bytes a = addr_bytes b → a = b.
Proof. intros H. rewrite <- (copy_to_array_bytes a), <- (copy_to_array_bytes b). by rewrite H. Qed.

Lemma decode_assigned (c : Chain) addrs states vs a old loc :
  Forall2 (λ st v, gob_encode_u64 (S_ShardLocation st) = Ok v) (take (length addrs) states) vs →
  (length addrs ≤ length states)%nat → Forall (λ st, in_u 64 (S_ShardLocation st)) states →
  decode_location c a old = Ok loc →
  decode_location c a (assigned (map addr_bytes addrs) vs (addr_bytes a) old) =
    Ok (moved addrs states a loc).
Proof using GULaws.
  revert states vs old loc; induction addrs as [|a' addrs IH]; intros states vs old loc Hv Hl Hs Ho; [done|].
  destruct states as [|st states]; [cbn in Hl; lia|]. cbn [length take] in Hv.
  inversion Hv as [|? v ? vs' H1 H2]; subst. inversion Hs as [|? ? Hs1 Hs2]; subst.
  cbn. apply IH; [done | cbn in Hl; lia | done |].
  case_decide as E; case_decide as E'; try done.
  - cbn. by rewrite (gob_u64_roundtrip _ _ Hs1 H1).
  - by apply addr_bytes_inj in E.
  - by subst.
Qed.

Lemma calcStateModification_length (c : Chain) b s ks vs s' :
  calcStateModification c b s = (Ok (ks, vs), s') →
  (length (MigratedAddrs (b_MigrationOpt b)) ≤ length (MigratedStates (b_MigrationOpt b)))%nat.
Proof.
  unfold calcStateModification. intros (m & s1 & _ & E)%st_bind_ok.
  apply st_bind_ok in E as ([] & s2 & _ & E).
  by apply st_bind_ok in E as (kvs & s3 & (Hl & _)%migrate_accounts_values & E).
Qed.

(** C12: locations follow migrations.  After a block is added, each account of its
    migration part is found in the shard its (last) migrated state names, and
    every other account where it was, by default or from earlier blocks. *)
Theorem AddBlock_locations (c c' : Chain) b addrs locs :
  AddBlock b c = (Ok tt, c') →
  Forall (λ st, in_u 64 (S_ShardLocation st)) (MigratedStates (b_MigrationOpt b)) →
  getAccountLocations addrs c = Ok locs →
  getAccountLocations addrs c' =
    Ok (zip_with (moved (MigratedAddrs (b_MigrationOpt b)) (MigratedStates (b_MigrationOpt b))) addrs locs).
Proof using GULaws TLaws.
  intros Ha Hs Hl.
  destruct (AddBlock_ok _ _ _ Ha) as (h & bb & hb & sr & lr & c1 & bs & _ & _ & _ & Eu & _ & ->).
  destruct (updateTrieByBlock_ok _ _ _ _ _ Eu) as (s & ks & vs & s' & ls & ss1 & ss2 & [_ Hc] & _ & El & _ & ->).
  pose proof (calcStateModification_nonempty _ _ _ _ _ _ Hc) as Hne.
  pose proof (calcStateModification_length _ _ _ _ _ _ Hc) as Hlen.
  destruct (calcStateModification_values _ _ _ _ _ _ Hc) as (-> & Hv & _).
  unfold getAccountLocations in *. cbn. apply rbind_ok in Hl as (olds & Eo & Hl).
  apply wrap_err_ok in Eo.
  rewrite (MAddKeyValuesAndCommit_get _ _ _ _ _ _ _ Hne El Eo). cbn.
  assert (length olds = length addrs) as Hlo.
  { unfold MGetValsByKeys in Eo. apply rbind_ok in Eo as (t & _ & Eo%rmap_ok).
    apply Forall2_length in Eo. rewrite length_map in Eo. lia. }
  apply rmap_ok. apply rmap_ok in Hl. clear Eo El Ha Eu.
  revert olds locs Hlo Hl; induction addrs as [|a addrs IH]; intros [|o olds] locs Hlo Hl; try done.
  cbn in Hl. inversion Hl as [|? loc ? locs' H1 H2]; subst. cbn. constructor.
  - cbn in *. by apply decode_assigned.
  - apply IH; [by injection Hlo | done].
Qed.

(** *** Chains without migrations *)

(** A chain whose accounts were never moved: each is where it is by default. *)
Definition default_locations (c : Chain) : Prop := 0 < c_ShardNum c ∧
  ∀ ks, MGetValsByKeys ks (LocStorage c) = Ok (replicate (length ks) None).

Lemma default_getAccountLocations (c : Chain) addrs locs : default_locations c →
  getAccountLocations addrs c = Ok locs → Forall2 (λ a l, DefaultAccountLoc a (c_ShardNum c) = Ok l) addrs locs.
Proof using Type.
  intros [Hn Hd]. unfold getAccountLocations. rewrite Hd. cbn. rewrite length_map. intros H%rmap_ok.
  revert locs H; induction addrs as [|a addrs IH]; intros locs H; inversion H; subst; constructor; [done|].
  by apply IH.
Qed.


Context {MKL : MapKeysLaws MK}.

(** What [GetAccountLocationsInTxs] returns is what [getAccountLocations] found. *)
Lemma default_GetAccountLocationsInTxs (c : Chain) txs locs a l : default_locations c →
  GetAccountLocationsInTxs txs c = Ok locs → locs !! a = Some l →
  DefaultAccountLoc a (c_ShardNum c) = Ok l.
Proof using MKL.
  intros Hd. unfold GetAccountLocationsInTxs, getAccountLocationsInTxs. cbn zeta.
  set (m := fold_left _ txs _). intros (ls & Hl%wrap_err_ok & [= <-])%rbind_ok.
  apply default_getAccountLocations in Hl; [|done]. intros [Hin|[Hm Hn]]%fold_insert_lookup.
  - apply list_elem_of_lookup in Hin as [i Hi]. apply lookup_zip_Some in Hi as [H1 H2].
    exact (Forall2_lookup_lr _ _ _ _ _ _ Hl H1 H2).
  - destruct Hn. rewrite fst_zip by (apply Forall2_length in Hl; lia).
    rewrite (maps_Keys_perm m). apply list_elem_of_fmap. exists (a, l). split; [done|].
    by apply elem_of_map_to_list.
Qed.

(** Blocks without a migration part leave the locations alone. *)
Lemma AddBlock_default (b : Block) (c c' : Chain) : b_MigrationOpt b = emptyMigrationOpt →
  default_locations c → AddBlock b c = (Ok tt, c') → default_locations c'.
Proof using TLaws.
  intros Hm [Hn Hd] Ha. split; [by destruct (AddBlock_head _ _ _ Ha) as (_ & _ & _ & ->)|].
  destruct (AddBlock_ok _ _ _ Ha) as (h & bb & hb & sr & lr & c1 & bs & _ & _ & _ & Eu & _ & ->).
  destruct (updateTrieByBlock_ok _ _ _ _ _ Eu) as (s & kk & vs & s' & ls & ss1 & ss2 & [_ Hc] & _ & El & _ & ->).
  destruct (calcStateModification_values _ _ _ _ _ _ Hc) as (Hk & Hv & _). rewrite Hm in Hk, Hv. cbn in Hk, Hv.
  apply Forall2_nil_inv_l in Hv as ->. subst kk. intros ks. cbn.
  rewrite (MAddKeyValuesAndCommit_get _ _ _ _ _ _ _ (Forall_nil_2 _) El (Hd ks)). f_equal.
  apply list_eq. intros i. rewrite lookup_zip_with.
  destruct (ks !! i) as [k|] eqn:Ek; cbn.
  - assert (i < length ks)%nat by by eapply lookup_lt_Some. by rewrite !lookup_replicate_2.
  - symmetry. apply lookup_replicate_None. by apply lookup_ge_None.
Qed.

(** The chain a node starts with. *)
Lemma NewChain_default bs ls ss n bloom lp now (c : Chain) : 0 < n →
  (∀ ks, MGetValsByKeys ks ls = Ok (replicate (length ks) None)) →
  NewChain bs ls ss n bloom lp now = Ok c →
  default_locations c ∧ c_ShardNum c = n ∧ shardID c = ShardID lp ∧ is_ok (getVMExecutor c) = true.
Proof using SLaws TLaws.
  intros Hn Hd. unfold NewChain. set (c0 := mkChain _ _ _ _ _ _ _ _).
  destruct (initWithGenesisBlock now c0) as [r c1] eqn:E. intros (g & ->%wrap_err_ok & [= <-])%rbind_ok.
  unfold initWithGenesisBlock in E. apply st_bind_ok in E as (? & ? & [= <- <-] & E).
  apply st_bind_ok in E as (b & ? & Eg%st_wrap_ok & E). injection Eg as Eg <-.
  apply st_bind_ok in E as ([] & c2 & Ea%st_wrap_ok & [= <- <-]).
  destruct (AddBlock_head _ _ _ Ea) as (Hh & Hs & _ & Hnum).
  destruct (AddBlock_reopens _ _ _ _ _ _ _ _ Eg Ea) as (s & ks & vs & s' & s'' & _ & Hv & _).
  match goal with |- default_locations ?c ∧ _ => assert (c = c2) as -> by (rewrite <- Hh; by destruct c2) end.
  split_and!.
  - apply (AddBlock_default b c0); [|exact (conj Hn Hd)|exact Ea].
    by destruct (GenerateBlock_ok _ _ _ _ _ _ _ Eg) as (? & ? & ? & ? & ? & _ & _ & _ & _ & ->).
  - by rewrite Hnum.
  - by rewrite Hs.
  - by rewrite Hv.
Qed.

(** *** Blocks by height *)

Context {BLaws : BoltLaws BO} {GBL : GobBlockLaws}.

(** A chain that grew by its own blocks, oldest first. *)
Inductive grows : Chain → list Block → Chain → Prop :=
| grows_nil c : grows c [] c
| grows_snoc c bs c1 now miner ty body mOpt b c2 :
    grows c bs c1 → GenerateBlock now miner ty body mOpt c1 = Ok b → AddBlock b c1 = (Ok tt, c2) →
    grows c (bs ++ [b]) c2.

(** The blocks found back from a hash. *)
Inductive stored (db : BoltStore) : list Block → bytes → Prop :=
| stored_nil h : stored db [] h
| stored_snoc bs b h e :
    stored db bs (ParentBlockHash (b_Header b)) → Block_Hash b = Ok h →
    GetBlockByHash h db = Ok e → DecodeBlock e = Ok b → stored db (bs ++ [b]) h.

Lemma stored_fetch (c : Chain) bs h n : stored (BlockStorage c) bs h → (n ≤ length bs)%nat →
  fetch_blocks n h c = Ok (drop (length bs - n) bs).
Proof.
  intros Hs. revert n; induction Hs as [h|bs b h e Hs IH Hh Hg Hd]; intros n Hn; cbn in Hn.
  { by replace n with 0%nat by lia. }
  rewrite length_app in *. cbn in *. destruct n as [|n]; cbn.
  { by rewrite drop_ge by (rewrite length_app; cbn; lia). }
  rewrite Hg. cbn. rewrite Hd. cbn. rewrite IH by lia. cbn. f_equal.
  replace (length bs + 1 - S n)%nat with (length bs - n)%nat by lia.
  by rewrite drop_app_le by lia.
Qed.

Lemma stored_add db h e hd db' bs h0 : store_ok db →
  BoltStore_AddBlock h e hd db = (Ok tt, db') → (∀ b, b ∈ bs → Block_Hash b ≠ Ok h) →
  stored db bs h0 → stored db' bs h0.
Proof using BLaws.
  intros Hok Ha Hne Hs. destruct (BoltStore_AddBlock_spec _ _ _ _ _ _ Hok Ha)
    as [[? _]|(_ & _ & _ & _ & _ & Hg)]; [done|].
  induction Hs as [h0|bs b h0 e0 Hs IH Hh Hg0 Hd]; [constructor|].
  econstructor; [|done| |done].
  - apply IH. intros b' Hb'. apply Hne, elem_of_app. by left.
  - destruct (Hg h0) as [-> _]; [|done]. intros ->. apply (Hne b); [|done].
    apply elem_of_app. right. by left.
Qed.

Lemma grows_spec (c c' : Chain) bs :
  store_ok (BlockStorage c) → grows c bs c' → NoDup (Block_Hash <$> bs) →
  0 ≤ Number (curHeader c) → Number (curHeader c) + Z.of_nat (length bs) ≤ int64_max →
  store_ok (BlockStorage c') ∧
  Number (curHeader c') = Number (curHeader c) + Z.of_nat (length bs) ∧
  (∃ h, Header_Hash (curHeader c') = Ok h ∧ stored (BlockStorage c') bs h) ∨ bs = [] ∧ c' = c.
Proof using BLaws GBL.
  intros Hok Hg. induction Hg as [c|c bs c1 now miner ty body mOpt b c2 Hg IH Eg Ea];
    intros Hnd Hn0 Hn; [by right|]. left.
  rewrite fmap_app in Hnd. apply NoDup_app in Hnd as (Hnd & Hdis & _).
  rewrite length_app in *. cbn in *.
  assert (store_ok (BlockStorage c1) ∧
    Number (curHeader c1) = Number (curHeader c) + Z.of_nat (length bs) ∧
    ∀ h, Header_Hash (curHeader c1) = Ok h → stored (BlockStorage c1) bs h) as (Ok1 & N1 & S1).
  { destruct (IH Hok Hnd Hn0) as [(H1 & H2 & h & H3 & H4)|[-> ->]]; [lia| |].
    - split_and!; [done..|]. intros h'. rewrite H3. by intros [= <-].
    - split_and!; [done | cbn; lia | intros; constructor]. }
  destruct (GenerateBlock_ok _ _ _ _ _ _ _ Eg) as (ph & tOpt & mH & sr & lr & Eh & _ & _ & _ & Eb).
  destruct (AddBlock_ok _ _ _ Ea) as (h & bb & hb & sr2 & lr2 & c3 & db & Hh & He & _ & Eu & Es & ->).
  destruct (BoltStore_AddBlock_spec _ _ _ _ _ _ Ok1 Es) as [[? _]|(_ & Ok2 & Hgb & _)]; [done|].
  cbn. split; [done|]. split.
  { rewrite Eb. cbn. rewrite N1, wrap_u_id; [lia|]. unfold in_u, int64_max in *. lia. }
  exists h. split; [done|]. econstructor; [|done|done|by apply DecodeBlock_Encode].
  eapply stored_add; [exact Ok1 | exact Es | | apply S1; by rewrite Eb].
  intros b' Hb' Hh'. apply (Hdis (Ok h)).
  - rewrite <- Hh'. by apply list_elem_of_fmap_2.
  - rewrite <- Hh. apply list_elem_of_singleton. done.
Qed.

(** Catch-up gets the missing blocks.  On a chain that grew from height N by
    the blocks it generated (with distinct hashes), asking for the blocks from
    height N+k+1 gives exactly the blocks after the k-th, oldest first and intact, if they
    are at most the fetch limit, and the limit error when they are more; a height
    that is not positive is refused. *)
Theorem GetBlocksAfterHeight_suffix (c c' : Chain) bs :
  store_ok (BlockStorage c) → grows c bs c' → bs ≠ [] → NoDup (Block_Hash <$> bs) →
  0 ≤ Number (curHeader c) → Number (curHeader c) + Z.of_nat (length bs) ≤ int64_max →
  (∀ k, (k ≤ length bs)%nat →
    GetBlocksAfterHeight (Number (curHeader c) + Z.of_nat k + 1) c' =
      if decide (blocksFetchLimit < Z.of_nat (length bs - k)) then Err "too many blocks (%d) to return"
      else Ok (drop k bs)) ∧
  (∀ begin, begin ≤ 0 → GetBlocksAfterHeight begin c' = Err "beginHeight must be > 0").
Proof using BLaws GBL.
  intros Hok Hg Hne Hnd Hn0 Hn.
  destruct (grows_spec c c' bs Hok Hg Hnd Hn0 Hn) as [(_ & Hnum & h & Hh & Hs)|[-> _]]; [|done].
  split; [|intros begin Hb; unfold GetBlocksAfterHeight; by rewrite decide_True].
  intros k Hk. unfold GetBlocksAfterHeight. rewrite decide_False by lia. rewrite Hnum.
  unfold int64_max in *.
  rewrite (wrap_s_id 64 (Number (curHeader c) + Z.of_nat (length bs))) by (unfold in_s; lia).
  replace (Number (curHeader c) + Z.of_nat (length bs) - (Number (curHeader c) + Z.of_nat k + 1))
    with (Z.of_nat (length bs - k) - 1) by lia.
  rewrite (wrap_s_id 64 (Z.of_nat (length bs - k) - 1)) by (unfold in_s; lia).
  replace (Z.of_nat (length bs - k) - 1 + 1) with (Z.of_nat (length bs - k)) by lia.
  rewrite wrap_s_id by (unfold in_s; lia).
  case_decide; [done|]. rewrite decide_False by lia. rewrite Hh. cbn. rewrite Nat2Z.id.
  rewrite (stored_fetch c' bs h) by (done || lia). f_equal. f_equal. lia.
Qed.
End chain_facts.


(** ** Witnesses *)

Module ChainDemo.
Export ListBitSet MapStateDB MapStores.

#[export] Instance rlp_t : RlpTx := λ t,
  Ok (addr_bytes (Sender t) ++ addr_bytes (Recipient t) ++ Z_to_be 32 (Value t)).
#[export] Instance rlp_h : RlpHeader := λ h, Ok (ParentBlockHash h ++ StateRoot h ++ Z_to_be 8 (Number h)).
#[export] Instance gob_u : GobU64 := {|
  gob_encode_u64 z := Ok (Z_to_be 8 z);
  gob_decode_u64 b := Ok (be_to_Z b);
|}.
#[export] Instance gob_u_laws : GobU64Laws gob_u.
Proof.
  split; intros z b; change (gob_encode_u64 z) with (@Ok bytes (Z_to_be 8 z)).
  - intros Hz E. assert (b = Z_to_be 8 z) as -> by congruence.
    change (Ok (be_to_Z (Z_to_be 8 z)) = Ok z). by rewrite be_to_Z_of_Z.
  - intros E ->. assert ([] = Z_to_be 8 z) as H by congruence.
    apply (f_equal length) in H. by rewrite length_Z_to_be in H.
Qed.
#[export] Instance gob_s : GobState := λ s, Ok (Z_to_be 32 (S_Balance s)).
#[export] Instance keys : MapKeys := λ m, (map_to_list m).*1.
#[export] Instance evm : EVMLib := {|
  evm_Create _ _ _ _ _ s := (Err "no evm", s);
  evm_Call _ _ _ _ _ _ s := (Err "no evm", s);
|}.

(** Blocks without transactions and migrations, by the fields of their header. *)
Definition plain (b : Block) : bool :=
  bool_decide (TxList (b_Body b) = []) &&
  bool_decide (MigratedAddrs (b_MigrationOpt b) = [] ∧ MigratedStates (b_MigrationOpt b) = []) &&
  bool_decide (TxRoot (h_TxHeaderOpt (b_Header b)) = []) &&
  bool_decide (FilterHashFs (h_Bloom (h_TxHeaderOpt (b_Header b))) = [] ∧
               B (h_Bloom (h_TxHeaderOpt (b_Header b))) = (0, ∅)) &&
  bool_decide (MigratedAccountsRoot (h_MigrationHeaderOpt (b_Header b)) = []).

Definition fields : Type := bytes * bytes * Z * Z * Address * Z * bytes.
Definition to_fields (h : Header) : fields :=
  (ParentBlockHash h, StateRoot h, Number h, BType h, Miner h, BCreateTime h, LocationRoot h).
Definition of_fields (f : fields) : Block :=
  let '(p, s, n, t, m, ct, l) := f in
  mkBlock (mkHeader p s n t m ct l zeroTxHeaderOpt zeroMigrationHeaderOpt) emptyBody emptyMigrationOpt.

Definition sizes_ok (h : Header) : bool :=
  bool_decide (length (ParentBlockHash h) = 32%nat ∧ length (StateRoot h) = 32%nat ∧
    length (LocationRoot h) = 32%nat) &&
  bool_decide (0 ≤ Number h < 2 ^ 64 ∧ 0 ≤ BType h < 2 ^ 64 ∧ 0 ≤ BCreateTime h < 2 ^ 64).

Definition enc_header (h : Header) : bytes :=
  ParentBlockHash h ++ StateRoot h ++ LocationRoot h ++ Z_to_be 8 (Number h) ++
  Z_to_be 8 (BType h) ++ Z_to_be 8 (BCreateTime h) ++ addr_bytes (Miner h).

(** The first [n] bytes, and the rest. *)
Definition cut (n : nat) (b : bytes) : bytes * bytes := (take n b, drop n b).

Definition dec_header (b : bytes) : fields :=
  let '(p, b) := cut 32 b in let '(s, b) := cut 32 b in let '(l, b) := cut 32 b in
  let '(n, b) := cut 8 b in let '(t, b) := cut 8 b in let '(ct, b) := cut 8 b in
  (p, s, be_to_Z n, be_to_Z t, copy_to_array 20 b, be_to_Z ct, l).

Lemma cut_app n b1 b2 : length b1 = n → cut n (b1 ++ b2) = (b1, b2).
Proof. intros <-. unfold cut. by rewrite take_app_length, drop_app_length. Qed.

Lemma dec_enc_header h : sizes_ok h = true → dec_header (enc_header h) = to_fields h.
Proof.
  unfold sizes_ok. rewrite andb_true_iff, !bool_decide_eq_true.
  intros ((H1 & H2 & H3) & H4 & H5 & H6). unfold dec_header, enc_header, to_fields.
  do 6 (rewrite cut_app by (done || apply length_Z_to_be)).
  by rewrite !be_to_Z_of_Z, copy_to_array_bytes.
Qed.

Definition gob_plain : GobBlock := {|
  gob_encode_block b := if plain b && sizes_ok (b_Header b) then Ok (enc_header (b_Header b))
                        else Err "unsupported";
  gob_decode_block b := Ok (of_fields (dec_header b));
|}.

#[export] Instance gob_plain_laws : GobBlockLaws (GB := gob_plain).
Proof.
  intros b p. unfold gob_encode_block, gob_decode_block, gob_plain.
  destruct (plain b && sizes_ok (b_Header b)) eqn:Hp; [|done].
  apply andb_true_iff in Hp as [Hp Hs]. intros E.
  assert (p = enc_header (b_Header b)) as -> by congruence.
  rewrite dec_enc_header by done. f_equal. unfold plain in Hp.
  rewrite !andb_true_iff, !bool_decide_eq_true in Hp. clear Hs E.
  destruct b as [[] [] []]. cbn in *. destruct h_TxHeaderOpt as [? []], h_MigrationHeaderOpt. cbn in *.
  destruct Hp as ((((-> & [-> ->]) & ->) & [-> ->]) & ->). done.
Qed.

(** An encoder that supports every block, for the examples that decode none. *)
Definition gob_any : GobBlock := {|
  gob_encode_block b := Ok [Z_to_byte 1];
  gob_decode_block b := Err "unsupported";
|}.

Definition addr (n : Z) : Address := copy_to_array 20 (Z_to_be 20 n).
Definition bloom_cfg : BloomFilterCfg := {| BitsetLen := 64; FilterHashFunc_cfg := ["sha256"] |}.
Definition lp : LocalParams := mkLocalParams 0 0 EmptyAccountAddr.
Definition bolt0 : BoltStore := force ∅ (NewBoltStore ∅).
Definition dummyChain : Chain :=
  mkChain bolt0 (mkEthTrieDB ∅ emptyRoot) {[EmptyRootHash := ∅]} zeroHeader 0 0 2 bloom_cfg.
Definition genesis {GB : GobBlock} : Chain :=
  force dummyChain (NewChain bolt0 (mkEthTrieDB ∅ emptyRoot) {[EmptyRootHash := ∅]} 2 bloom_cfg lp 7).
Definition dummyBlock : Block := of_fields ([], [], 0, 0, EmptyAccountAddr, 0, []).
(** A block of one transfer of 30 from account 2 to account 4, moving account 6 to shard 1. *)
Definition body : Body := mkBody [NewTransaction (addr 2) (addr 4) 30 0 0 0].
Definition mopt : MigrationOpt :=
  mkMigrationOpt [addr 6] [mkState (addr 6) 0 500 [] [] 1].
Definition next {GB : GobBlock} (b : Body) (m : MigrationOpt) (c : Chain) : Block :=
  force dummyBlock (GenerateBlock 8 EmptyAccountAddr TxBlockType b m c).
Definition after {GB : GobBlock} (b : Body) (m : MigrationOpt) (c : Chain) : Chain :=
  (AddBlock (next b m c) c).2.

Lemma next_ok {GB : GobBlock} b m (c : Chain) :
  is_ok (GenerateBlock 8 EmptyAccountAddr TxBlockType b m c) = true →
  GenerateBlock 8 EmptyAccountAddr TxBlockType b m c = Ok (next b m c).
Proof. apply force_ok. Qed.

Lemma after_ok {GB : GobBlock} b m (c : Chain) :
  (AddBlock (next b m c) c).1 = Ok tt → AddBlock (next b m c) c = (Ok tt, after b m c).
Proof. apply run_fst. Qed.
End ChainDemo.

Module ChainWitness.
Import ChainDemo.
#[local] Existing Instance gob_any.

Lemma ValidateBlock_GenerateBlock_witness : ValidateBlock (next body mopt genesis) genesis = Ok tt.
Proof.
  apply (ValidateBlock_GenerateBlock 8 EmptyAccountAddr TxBlockType body mopt genesis);
    [apply ListBitSet.laws|]. apply next_ok. vm_compute. reflexivity.
Defined.

Lemma AddBlock_generated_witness :
  curHeader (after body mopt genesis) = b_Header (next body mopt genesis) ∧
  is_ok (getVMExecutor (after body mopt genesis)) = true.
Proof.
  destruct (AddBlock_generated 8 EmptyAccountAddr TxBlockType body mopt genesis (after body mopt genesis)
    (next body mopt genesis)) as (H & _ & _ & _ & _ & _ & s & ks & vs & s' & s'' & _ & E & _).
  - apply next_ok. vm_compute. reflexivity.
  - apply after_ok. vm_compute. reflexivity.
  - split; [exact H|]. rewrite E. reflexivity.
Defined.

Lemma AddBlock_locations_witness :
  getAccountLocations [addr 6; addr 7] (after body mopt genesis) = Ok [1; 1].
Proof.
  rewrite (AddBlock_locations genesis (after body mopt genesis) (next body mopt genesis)
    [addr 6; addr 7] [0; 1]).
  - vm_compute. reflexivity.
  - apply after_ok. vm_compute. reflexivity.
  - apply (bool_decide_unpack _). vm_compute. exact I.
  - vm_compute. reflexivity.
Defined.

Lemma GetBlocksAfterHeight_suffix_witness :
  let c1 := after (GB := gob_plain) emptyBody emptyMigrationOpt (genesis (GB := gob_plain)) in
  let b1 := next (GB := gob_plain) emptyBody emptyMigrationOpt (genesis (GB := gob_plain)) in
  let b2 := next (GB := gob_plain) emptyBody emptyMigrationOpt c1 in
  let c2 := after (GB := gob_plain) emptyBody emptyMigrationOpt c1 in
  GetBlocksAfterHeight (GB := gob_plain) 3 c2 = Ok [b2].
Proof.
  cbn zeta.
  destruct (GetBlocksAfterHeight_suffix (GB := gob_plain) (genesis (GB := gob_plain))
    (after (GB := gob_plain) emptyBody emptyMigrationOpt
      (after (GB := gob_plain) emptyBody emptyMigrationOpt (genesis (GB := gob_plain))))
    [next (GB := gob_plain) emptyBody emptyMigrationOpt (genesis (GB := gob_plain));
     next (GB := gob_plain) emptyBody emptyMigrationOpt
       (after (GB := gob_plain) emptyBody emptyMigrationOpt (genesis (GB := gob_plain)))]) as [H _].
  - split; [|split]; vm_compute; exact I.
  - apply (grows_snoc _ [_]  (after (GB := gob_plain) emptyBody emptyMigrationOpt (genesis (GB := gob_plain))) 8 EmptyAccountAddr TxBlockType emptyBody emptyMigrationOpt).
    + apply (grows_snoc _ [] (genesis (GB := gob_plain)) 8 EmptyAccountAddr TxBlockType emptyBody emptyMigrationOpt).
      * constructor.
      * apply next_ok. vm_compute. reflexivity.
      * apply after_ok. vm_compute. reflexivity.
    + apply next_ok. vm_compute. reflexivity.
    + apply after_ok. vm_compute. reflexivity.
  - discriminate.
  - assert (∀ (r1 r2 : result bytes), r1 ≠ r2 → NoDup [r1; r2]) as Hnd.
    { intros r1 r2 Hne. repeat constructor; set_solver. }
    apply Hnd. vm_compute. discriminate.
  - vm_compute. discriminate.
  - vm_compute. discriminate.
  - specialize (H 1%nat ltac:(cbn; lia)). etrans; [|exact H]. f_equal.
Defined.
End ChainWitness.
