(* ===== verification/Float64.v ===== *)
(** * Go's float64 and durations

    IEEE binary64 as the Standard Library's executable [spec_float], with the
    operations and comparisons the source uses: [+ - * /], [<], conversion from
    [int], and [slices.Min]. *)

From S2P Require Import Prelude.
From stdpp Require Import pretty.
From Stdlib Require Import Floats.SpecFloat Lia.

Local Open Scope Z_scope.

Abbreviation float64 := spec_float.

Definition fadd : float64 → float64 → float64 := SFadd 53 1024.
Definition fsub : float64 → float64 → float64 := SFsub 53 1024.
Definition fmul : float64 → float64 → float64 := SFmul 53 1024.
Definition fdiv : float64 → float64 → float64 := SFdiv 53 1024.
Definition fltb : float64 → float64 → bool := SFltb.
Definition float_of_Z (z : Z) : float64 := binary_normalize 53 1024 z 0 false.

Definition f0 : float64 := S754_zero false.
Definition f1 : float64 := float_of_Z 1.
Definition f2 : float64 := float_of_Z 2.

(** The built-in [min] of two floats: a NaN wins, and -0 is below 0. *)
Definition fmin (a b : float64) : float64 :=
  match a, b with
  | S754_nan, _ | _, S754_nan => S754_nan
  | _, _ => if fltb a b then a else if fltb b a then b
            else match a with S754_zero true => a | _ => b end
  end.

(** [slices.Min], which panics on an empty slice. *)
Definition slices_Min (l : list float64) : result float64 :=
  match l with
  | [] => Panic
  | x :: l' => Ok (fold_left fmin l' x)
  end.

(** [t.Sub(u)]: the difference in nanoseconds, held to the range of a duration. *)
Definition time_Sub (t u : Z) : Z := Z.max int64_min (Z.min int64_max (t - u)).

(** [d.Seconds()] of a duration in nanoseconds. *)
Definition Seconds (d : Z) : float64 :=
  fadd (float_of_Z (Z.quot d 1000000000)) (fdiv (float_of_Z (Z.rem d 1000000000)) (float_of_Z 1000000000)).

(** [fmt.Sprintf("%.2f", x)]: the nearest number of hundredths, ties to even. *)
Definition round_div (n d : Z) : Z :=
  let q := n / d in
  let r := 2 * (n mod d) in
  if decide (r < d) then q else if decide (d < r) then q + 1 else if Z.even q then q else q + 1.

Definition hundredths (m : positive) (e : Z) : Z :=
  if decide (0 ≤ e) then Zpos m * 2 ^ e * 100 else round_div (Zpos m * 100) (2 ^ (- e)).

Definition show_hundredths (neg : bool) (h : Z) : string :=
  ((if neg then "-" else "") +:+ pretty (h / 100) +:+ "." +:+ pretty (h / 10 mod 10) +:+ pretty (h mod 10))%string.

Definition sprintf_2f (x : float64) : string :=
  match x with
  | S754_nan => "NaN"
  | S754_infinity s => if s then "-Inf" else "+Inf"
  | S754_zero s => show_hundredths s 0
  | S754_finite s m e => show_hundredths s (hundredths m e)
  end.

Example sprintf_third : sprintf_2f (fdiv (float_of_Z 20) (float_of_Z 3)) = "6.67".
Proof. vm_compute. reflexivity. Qed.
Example sprintf_negative : sprintf_2f (fdiv (float_of_Z (-1)) (float_of_Z 8)) = "-0.12".
Proof. vm_compute. reflexivity. Qed.

Example float_third : fltb (fdiv f1 (float_of_Z 3)) (fdiv f1 f2) = true.
Proof. vm_compute. reflexivity. Qed.
Example float_exact : fadd (float_of_Z 7) (fdiv f1 f2) = fdiv (float_of_Z 15) f2.
Proof. vm_compute. reflexivity. Qed.
