(* ===== verification/Partition.v ===== *)
(** * Account partitioning: CLPA

    Models pkg/partition/graph.go and clpa.go: the transaction graph and the
    constrained label propagation.  Go iterates maps in an unspecified order:
    the passes over the vertexes take their orders as an argument ([ord k] for
    pass k), and the theorems hold for every order.  A [Vertex] is its address.
    Integer counters of Go's [int] stay below the number of edges and are Z. *)

From S2P Require Import Prelude GoHash Account Float64.
From Stdlib Require Import Floats.SpecFloat Lia.

Local Open Scope Z_scope.

Definition updateThreshold : Z := 50.

Abbreviation Vertex := Address.

Record Graph := mkGraph { VertexSet : gset Vertex; EdgeSet : gmap Vertex (list Vertex) }.
#[export] Instance Graph_eta : Eta Graph := λ g, mkGraph (VertexSet g) (EdgeSet g).

Definition NewGraph : Graph := mkGraph ∅ ∅.

Definition AddVertex (v : Vertex) (g : Graph) : Graph := g <| VertexSet ::= λ s, {[v]} ∪ s |>.

(** [g.EdgeSet[v]]: a missing key reads nil. *)
Definition neighbors (g : Graph) (v : Vertex) : list Vertex := default [] (EdgeSet g !! v).

Definition append_edge (u v : Vertex) (g : Graph) : Graph :=
  g <| EdgeSet ::= λ e, <[u := neighbors g u ++ [v]]> e |>.

Definition Graph_AddEdge (u v : Vertex) (g : Graph) : Graph :=
  append_edge v u (append_edge u v (AddVertex v (AddVertex u g))).

Record CLPAState := mkCLPAState {
  netGraph : Graph;
  partitionMap : gmap Vertex Z;
  shardWeight : list float64;
  vertexNumInShard : list Z;
  minShardWeight : float64;
  crossShardEdgeNum : float64;
  maxIterations : Z;
  weightPenalty : float64;
  shardNum : Z;
}.
#[export] Instance CLPAState_eta : Eta CLPAState := λ c,
  mkCLPAState (netGraph c) (partitionMap c) (shardWeight c) (vertexNumInShard c)
    (minShardWeight c) (crossShardEdgeNum c) (maxIterations c) (weightPenalty c) (shardNum c).

Definition NewCLPAState (wp : float64) (maxIterations shardNum : Z) : result CLPAState :=
  let* sw := make f0 shardNum in
  let* vn := make 0 shardNum in
  Ok (mkCLPAState NewGraph ∅ sw vn f0 f0 maxIterations wp shardNum).

Definition getVertexLocation (cs : CLPAState) (v : Vertex) : result Z :=
  match partitionMap cs !! v with
  | Some val => Ok val
  | None => DefaultAccountLoc v (shardNum cs)
  end.

Definition GetVertexLocation := getVertexLocation.

Definition addVertex (v : Vertex) (cs : CLPAState) : result CLPAState :=
  let cs := cs <| netGraph ::= AddVertex v |> in
  match partitionMap cs !! v with
  | Some _ => Ok cs
  | None =>
    let* loc := DefaultAccountLoc v (shardNum cs) in
    let cs := cs <| partitionMap ::= λ m, <[v := loc]> m |> in
    let* vn := idx_upd (λ n, n + 1) (vertexNumInShard cs) loc in
    Ok (cs <| vertexNumInShard := vn |>)
  end.

Definition AddEdge (u v : Vertex) (cs : CLPAState) : result CLPAState :=
  let* cs := if decide (u ∈ VertexSet (netGraph cs)) then Ok cs else addVertex u cs in
  let* cs := if decide (v ∈ VertexSet (netGraph cs)) then Ok cs else addVertex v cs in
  Ok (cs <| netGraph ::= Graph_AddEdge u v |>).

(** The edge counters of [computeEdges2Shard] over one vertex's list. *)
Definition count_edges (cs : CLPAState) (acc : list Z * list Z) (p : Vertex * list Vertex)
    : result (list Z * list Z) :=
  let* vShard := getVertexLocation cs p.1 in
  rfold (λ acc u,
    let* uShard := getVertexLocation cs u in
    if decide (vShard ≠ uShard) then
      let* cross := idx_upd (λ n, n + 1) acc.1 vShard in Ok (cross, acc.2)
    else
      let* inter := idx_upd (λ n, n + 1) acc.2 vShard in Ok (acc.1, inter)) acc p.2.

Definition computeEdges2Shard (cs : CLPAState) : result CLPAState :=
  let* zeros := make 0 (shardNum cs) in
  let* ' (crossEdge, interEdge) :=
    rfold (count_edges cs) (zeros, zeros) (map_to_list (EdgeSet (netGraph cs))) in
  let cross := fold_left (λ acc val, fadd acc (fdiv (float_of_Z val) f2)) crossEdge f0 in
  let sw := zip_with (λ c i, fadd (float_of_Z c) (fdiv (float_of_Z i) f2)) crossEdge interEdge in
  let* m := slices_Min sw in
  Ok (cs <| crossShardEdgeNum := cross |> <| shardWeight := sw |> <| minShardWeight := m |>).

Definition changeShardRecompute (v : Vertex) (old : Z) (cs : CLPAState) : result CLPAState :=
  let* newShard := getVertexLocation cs v in
  let* sw := rfold (λ sw u,
    let* uShard := getVertexLocation cs u in
    if decide (uShard ≠ newShard ∧ uShard ≠ old) then
      let* sw := idx_upd (λ w, fadd w f1) sw newShard in
      idx_upd (λ w, fsub w f1) sw old
    else if decide (uShard = newShard) then idx_upd (λ w, fsub w f1) sw old
    else idx_upd (λ w, fadd w f1) sw newShard) (shardWeight cs) (neighbors (netGraph cs) v) in
  let* m := slices_Min sw in
  Ok (cs <| shardWeight := sw |> <| minShardWeight := m |>).

Definition getShardScore (cs : CLPAState) (v : Vertex) (uShard : Z) : result float64 :=
  let vOutdegree := Z.of_nat (length (neighbors (netGraph cs) v)) in
  let* edge2uShard := rfold (λ n item,
    let* l := getVertexLocation cs item in Ok (if decide (l = uShard) then n + 1 else n)) 0
    (neighbors (netGraph cs) v) in
  let* w := idx (shardWeight cs) uShard in
  Ok (fmul (fdiv (float_of_Z edge2uShard) (float_of_Z vOutdegree))
        (fsub f1 (fdiv (fmul (weightPenalty cs) w) (minShardWeight cs)))).

(** The loop over the neighbors of [v]: the best neighbor shard. *)
Fixpoint best_shard (cs : CLPAState) (v : Vertex) (vNowShard : Z) (lst : list Vertex)
    (neighborShardScore : gmap Z float64) (maxScore : float64) (maxScoreShard : Z) : result Z :=
  match lst with
  | [] => Ok maxScoreShard
  | u :: lst' =>
    let* uShard := getVertexLocation cs u in
    if decide (uShard = vNowShard) then
      best_shard cs v vNowShard lst' neighborShardScore maxScore maxScoreShard
    else
      match neighborShardScore !! uShard with
      | Some _ => best_shard cs v vNowShard lst' neighborShardScore maxScore maxScoreShard
      | None =>
        let* score := getShardScore cs v uShard in
        let scores := <[uShard := score]> neighborShardScore in
        if fltb maxScore score then best_shard cs v vNowShard lst' scores score uShard
        else best_shard cs v vNowShard lst' scores maxScore maxScoreShard
      end
  end.

(** The running state of [CLPAPartition]. *)
Record Run := mkRun { r_cs : CLPAState; r_ret : gmap Address Z; r_updateTimes : gmap Vertex Z }.

Definition visit (r : Run) (v : Vertex) : result Run :=
  let cs := r_cs r in
  let times := default 0 (r_updateTimes r !! v) in
  if decide (updateThreshold ≤ times) then Ok r
  else
    let* vNowShard := getVertexLocation cs v in
    let* maxScoreShard :=
      best_shard cs v vNowShard (neighbors (netGraph cs) v) ∅ (float_of_Z (-9999)) vNowShard in
    if decide (vNowShard = maxScoreShard) then Ok r
    else
      let* n := idx (vertexNumInShard cs) vNowShard in
      if decide (1 < n) then
        let cs := cs <| partitionMap ::= λ m, <[v := maxScoreShard]> m |> in
        let ret := <[v := maxScoreShard]> (r_ret r) in
        let ut := <[v := times + 1]> (r_updateTimes r) in
        let* vn := idx_upd (λ n, n - 1) (vertexNumInShard cs) vNowShard in
        let* vn := idx_upd (λ n, n + 1) vn maxScoreShard in
        let* cs := changeShardRecompute v vNowShard (cs <| vertexNumInShard := vn |>) in
        Ok (mkRun cs ret ut)
      else Ok r.

(** [for range cs.maxIterations { for v := range VertexSet { ... } }] *)
Fixpoint passes (ord : nat → list Vertex) (k : nat) (n : nat) (r : Run) : result Run :=
  match n with
  | O => Ok r
  | S n' => let* r' := rfold visit r (ord k) in passes ord (S k) n' r'
  end.

(** Drop the accounts that are back where they were. *)
Definition prune (originalLoc ret : gmap Address Z) : gmap Address Z :=
  filter (λ p, originalLoc !! p.1 ≠ Some p.2) ret.

Definition originals (cs : CLPAState) : result (gmap Address Z) :=
  rfold (λ m v, let* l := getVertexLocation cs v in Ok (<[v := l]> m)) ∅
    (elements (VertexSet (netGraph cs))).

Definition CLPAPartition (ord : nat → list Vertex) (cs : CLPAState)
    : result (gmap Address Z * float64 * CLPAState) :=
  let* cs := computeEdges2Shard cs in
  let* originalLoc := originals cs in
  let* r := passes ord 0 (Z.to_nat (maxIterations cs)) (mkRun cs ∅ ∅) in
  let ret := prune originalLoc (r_ret r) in
  let* cs := computeEdges2Shard (r_cs r) in
  Ok (ret, crossShardEdgeNum cs, cs).

(** ** Invariant *)

Definition shard_count (m : gmap Vertex Z) (i : Z) : Z :=
  Z.of_nat (size (filter (λ p : Vertex * Z, p.2 = i) m)).

Record clpa_inv (cs : CLPAState) : Prop := {
  inv_shards : 0 < shardNum cs;
  inv_dom : dom (partitionMap cs) = VertexSet (netGraph cs);
  inv_range : ∀ v l, partitionMap cs !! v = Some l → 0 ≤ l < shardNum cs;
  inv_num_len : length (vertexNumInShard cs) = Z.to_nat (shardNum cs);
  inv_weight_len : length (shardWeight cs) = Z.to_nat (shardNum cs);
  inv_count : ∀ i n, vertexNumInShard cs !! i = Some n →
    n = shard_count (partitionMap cs) (Z.of_nat i);
  inv_edges : ∀ v, Forall (λ u, u ∈ VertexSet (netGraph cs)) (neighbors (netGraph cs) v);
  inv_edge_dom : dom (EdgeSet (netGraph cs)) ⊆ VertexSet (netGraph cs);
}.

(** ** Facts *)

Lemma shard_count_insert m v new i :
  shard_count (<[v := new]> m) i =
    shard_count m i - (if decide (m !! v = Some i) then 1 else 0) + (if decide (new = i) then 1 else 0).
Proof.
  unfold shard_count. rewrite map_filter_insert. cbn.
  set (P := λ p : Vertex * Z, p.2 = i).
  assert (Z.of_nat (size (filter P (delete v m))) =
    Z.of_nat (size (filter P m)) - (if decide (m !! v = Some i) then 1 else 0)) as Hd.
  { rewrite map_filter_delete, map_size_delete. destruct (filter P m !! v) as [x|] eqn:E.
    - pose proof E as [E1 E2]%map_lookup_filter_Some. unfold P in E2. cbn in E2. subst x.
      rewrite decide_True by done. assert (size (filter P m) ≠ 0%nat); [|lia].
      intros H%map_size_empty_inv. by rewrite H in E.
    - rewrite decide_False; [unfold id; lia|]. intros Hv. rewrite map_lookup_filter_None in E.
      destruct E as [E|E]; [congruence|]. by apply (E i). }
  destruct (decide (new = i)) as [En|En].
  - rewrite <- insert_delete_eq. rewrite map_size_insert, <- map_filter_delete.
    assert (filter P (delete v m) !! v = None) as ->.
    { apply map_lookup_filter_None. left. apply lookup_delete_eq. }
    rewrite Nat2Z.inj_succ, Hd. lia.
  - rewrite Hd. lia.
Qed.

Section inv.
  Context (cs : CLPAState) (Hi : clpa_inv cs).

Lemma location_ok v : v ∈ VertexSet (netGraph cs) →
  ∃ l, getVertexLocation cs v = Ok l ∧ partitionMap cs !! v = Some l ∧ 0 ≤ l < shardNum cs.
Proof using Hi.
  intros Hv. rewrite <- (inv_dom cs Hi) in Hv. apply elem_of_dom in Hv as [l Hl].
  exists l. unfold getVertexLocation. rewrite Hl. split_and!; try done; by apply (inv_range cs Hi v l).
Qed.

Lemma neighbor_ok v u : u ∈ neighbors (netGraph cs) v →
  ∃ l, getVertexLocation cs u = Ok l ∧ partitionMap cs !! u = Some l ∧ 0 ≤ l < shardNum cs.
Proof using Hi.
  intros Hu. apply location_ok. pose proof (inv_edges cs Hi v) as He.
  rewrite Forall_forall in He. by apply He.
Qed.

Lemma slices_Min_ok (l : list float64) : length l = Z.to_nat (shardNum cs) → ∃ m, slices_Min l = Ok m.
Proof using Hi.
  intros Hl. pose proof (inv_shards cs Hi). destruct l; cbn in *; [lia | eauto].
Qed.

Lemma computeEdges2Shard_ok : ∃ sw m x,
  computeEdges2Shard cs = Ok (cs <| crossShardEdgeNum := x |> <| shardWeight := sw |>
    <| minShardWeight := m |>) ∧ length sw = Z.to_nat (shardNum cs).
Proof using Hi.
  pose proof (inv_shards cs Hi) as Hs. unfold computeEdges2Shard, make.
  rewrite decide_False by lia. cbn.
  destruct (rfold_inv (λ acc : list Z * list Z,
      length acc.1 = Z.to_nat (shardNum cs) ∧ length acc.2 = Z.to_nat (shardNum cs))
    (count_edges cs) (map_to_list (EdgeSet (netGraph cs)))
    (replicate (Z.to_nat (shardNum cs)) 0, replicate (Z.to_nat (shardNum cs)) 0))
    as ([cross inter] & -> & Hl1 & Hl2).
  - cbn. by rewrite !length_replicate.
  - intros acc [v lst] Hacc Hv. apply elem_of_map_to_list in Hv. unfold count_edges. cbn.
    destruct (location_ok v) as (l & -> & _ & Hl).
    { apply (inv_edge_dom cs Hi). by apply elem_of_dom. }
    cbn. apply rfold_inv; [done|]. intros [a1 a2] u [H1 H2] Hu.
    destruct (neighbor_ok v u) as (lu & -> & _ & _); [unfold neighbors; by rewrite Hv|]. cbn in *.
    case_decide.
    + destruct (idx_upd_ok (λ n, n + 1) a1 l _ H1 Hl) as (x & _ & -> & Hx). cbn. by eexists.
    + destruct (idx_upd_ok (λ n, n + 1) a2 l _ H2 Hl) as (x & _ & -> & Hx). cbn. by eexists.
  - cbn in *. set (sw := zip_with _ cross inter).
    assert (length sw = Z.to_nat (shardNum cs)) as Hsw by (unfold sw; rewrite length_zip_with; lia).
    destruct (slices_Min_ok sw Hsw) as [m ->]. cbn. by eexists sw, m, _.
Qed.

Lemma changeShardRecompute_ok v old : v ∈ VertexSet (netGraph cs) → 0 ≤ old < shardNum cs →
  ∃ sw m, changeShardRecompute v old cs = Ok (cs <| shardWeight := sw |> <| minShardWeight := m |>) ∧
    length sw = Z.to_nat (shardNum cs).
Proof using Hi.
  intros Hv Ho. unfold changeShardRecompute.
  destruct (location_ok v Hv) as (new & -> & _ & Hnew). cbn [rbind].
  match goal with |- context [rfold ?b ?a ?l] =>
    destruct (rfold_inv (λ sw : list float64, length sw = Z.to_nat (shardNum cs)) b l a)
      as (sw & -> & Hsw) end.
  - apply (inv_weight_len cs Hi).
  - intros acc u Hacc Hu. destruct (neighbor_ok v u Hu) as (lu & -> & _ & _). cbn [rbind].
    destruct (idx_upd_ok (λ w, fadd w f1) acc new _ Hacc Hnew) as (x1 & _ & E1 & H1).
    destruct (idx_upd_ok (λ w, fsub w f1) acc old _ Hacc Ho) as (x2 & _ & E2 & H2).
    case_decide; [|case_decide; [rewrite E2 | rewrite E1]; eauto].
    rewrite E1. cbn [rbind].
    destruct (idx_upd_ok (λ w, fsub w f1) _ old _ H1 Ho) as (x3 & _ & E3 & H3). eauto.
  - cbn. destruct (slices_Min_ok sw Hsw) as [m ->]. cbn. by exists sw, m.
Qed.

Lemma getShardScore_ok v s : 0 ≤ s < shardNum cs → ∃ x, getShardScore cs v s = Ok x.
Proof using Hi.
  intros Hs. unfold getShardScore.
  match goal with |- context [rfold ?b ?a ?l] =>
    destruct (rfold_inv (λ _ : Z, True) b l a) as (n & -> & _); [done| |] end.
  - intros n u _ Hu. destruct (neighbor_ok v u Hu) as (lu & -> & _ & _). cbn. eauto.
  - cbn. destruct (idx_ok (shardWeight cs) s _ (inv_weight_len cs Hi) Hs) as (w & -> & _). cbn. eauto.
Qed.

Lemma best_shard_ok v now lst scores maxScore best :
  (∀ u, u ∈ lst → u ∈ neighbors (netGraph cs) v) → 0 ≤ best < shardNum cs →
  ∃ s, best_shard cs v now lst scores maxScore best = Ok s ∧ 0 ≤ s < shardNum cs.
Proof using Hi.
  revert scores maxScore best; induction lst as [|u lst IH]; intros scores maxScore best Hl Hb; cbn; [eauto|].
  destruct (neighbor_ok v u) as (lu & -> & _ & Hlu); [apply Hl; by left|]. cbn.
  assert (∀ w, w ∈ lst → w ∈ neighbors (netGraph cs) v) by (intros; apply Hl; by right).
  case_decide; [by apply IH|]. case_match; [by apply IH|].
  destruct (getShardScore_ok v lu Hlu) as [x ->]. cbn. case_match; by apply IH.
Qed.
End inv.

(** The invariant only looks at these parts. *)
Lemma clpa_inv_weights cs sw m x : clpa_inv cs → length sw = Z.to_nat (shardNum cs) →
  clpa_inv (cs <| crossShardEdgeNum := x |> <| shardWeight := sw |> <| minShardWeight := m |>).
Proof. intros [] Hl. by constructor. Qed.

Lemma clpa_inv_insert cs v new old vn1 vn2 :
  clpa_inv cs → partitionMap cs !! v = Some old → 0 ≤ new < shardNum cs → old ≠ new →
  idx_upd (λ n, n - 1) (vertexNumInShard cs) old = Ok vn1 →
  idx_upd (λ n, n + 1) vn1 new = Ok vn2 →
  clpa_inv (cs <| partitionMap ::= λ m, <[v := new]> m |> <| vertexNumInShard := vn2 |>).
Proof.
  intros Hi Hv Hnew Hne E1 E2. pose proof (inv_range cs Hi v old Hv) as Hold.
  destruct (idx_upd_ok (λ n, n - 1) _ old _ (inv_num_len cs Hi) Hold) as (x & Hx & E & Hl1).
  rewrite E in E1. injection E1 as <-.
  destruct (idx_upd_ok (λ n, n + 1) _ new _ Hl1 Hnew) as (y & Hy & E' & Hl2).
  rewrite E' in E2. injection E2 as <-. destruct Hi; constructor; cbn; try done.
  - rewrite dom_insert_L. rewrite <- inv_dom0. assert (v ∈ dom (partitionMap cs)); [|set_solver].
    apply elem_of_dom. by eexists.
  - intros w l [[<- <-]|[_ Hw]]%lookup_insert_Some; [done | by apply (inv_range0 w)].
  - intros i n Hn. rewrite shard_count_insert, Hv.
    rewrite list_lookup_insert_ne in Hy by lia.
    apply list_lookup_insert_Some in Hn as [(<- & <- & _)|(Hne1 & Hn)].
    + rewrite (inv_count0 _ _ Hy), Z2Nat.id by lia.
      rewrite (decide_False (P := Some old = Some new)) by congruence.
      rewrite decide_True by done. lia.
    + rewrite (decide_False (P := new = Z.of_nat i)) by lia.
      apply list_lookup_insert_Some in Hn as [(<- & <- & _)|(Hne2 & Hn)].
      * rewrite (inv_count0 _ _ Hx), Z2Nat.id by lia. rewrite decide_True by done. lia.
      * rewrite (inv_count0 _ _ Hn). rewrite decide_False; [lia|]. intros [= ->]. lia.
Qed.

Lemma NewCLPAState_inv wp iters n : 0 < n →
  ∃ cs, NewCLPAState wp iters n = Ok cs ∧ clpa_inv cs ∧ netGraph cs = NewGraph.
Proof.
  intros Hn. unfold NewCLPAState, make. rewrite !(decide_False (P := n < 0)) by lia. cbn.
  eexists. split_and!; [reflexivity| |reflexivity].
  constructor; cbn; rewrite ?length_replicate, ?dom_empty_L; try done.
  intros i x [-> _]%lookup_replicate. unfold shard_count. by rewrite map_filter_empty, map_size_empty.
Qed.

Lemma graph_add_edge_inv cs u v : clpa_inv cs → u ∈ VertexSet (netGraph cs) →
  v ∈ VertexSet (netGraph cs) → clpa_inv (cs <| netGraph ::= Graph_AddEdge u v |>).
Proof.
  intros [] Hu Hv. assert (VertexSet (Graph_AddEdge u v (netGraph cs)) = VertexSet (netGraph cs)) as HV.
  { cbn. set_solver. }
  constructor; cbn -[Graph_AddEdge neighbors]; rewrite ?HV; try done.
  - intros w. apply Forall_forall. intros x Hx. specialize (inv_edges0 w) as Hw.
    pose proof (inv_edges0 u) as Hu'. pose proof (inv_edges0 v) as Hv'. rewrite Forall_forall in Hw, Hu', Hv'.
    unfold neighbors at 1 in Hx. cbn in Hx.
    destruct (decide (w = v)) as [->|Hne]; [rewrite lookup_insert_eq in Hx | rewrite lookup_insert_ne in Hx by done].
    + cbn in Hx. apply elem_of_app in Hx as [Hx| ->%list_elem_of_singleton]; [|done].
      unfold neighbors in Hx at 1. cbn in Hx.
      destruct (decide (u = v)) as [->|]; [rewrite lookup_insert_eq in Hx | rewrite lookup_insert_ne in Hx by done].
      * cbn in Hx. apply elem_of_app in Hx as [Hx| ->%list_elem_of_singleton]; [|done]. by apply Hv'.
      * by apply Hv'.
    + destruct (decide (u = w)) as [->|]; [rewrite lookup_insert_eq in Hx | rewrite lookup_insert_ne in Hx by done].
      * cbn in Hx. apply elem_of_app in Hx as [Hx| ->%list_elem_of_singleton]; [|done]. by apply Hu'.
      * by apply Hw.
  - set_solver.
Qed.

Lemma addVertex_inv v cs : clpa_inv cs →
  ∃ cs', addVertex v cs = Ok cs' ∧ clpa_inv cs' ∧ v ∈ VertexSet (netGraph cs') ∧
    VertexSet (netGraph cs) ⊆ VertexSet (netGraph cs').
Proof.
  intros Hi. unfold addVertex. cbn.
  destruct (partitionMap cs !! v) as [l|] eqn:Ev.
  { assert (v ∈ VertexSet (netGraph cs)) as Hv.
    { rewrite <- (inv_dom cs Hi). apply elem_of_dom. by eexists. }
    assert ({[v]} ∪ VertexSet (netGraph cs) = VertexSet (netGraph cs)) as HV by set_solver.
    eexists. split_and!; [done| |cbn; set_solver|cbn; set_solver].
    destruct Hi. constructor; cbn; rewrite ?HV; done. }
  destruct (DefaultAccountLoc_range v (shardNum cs) (inv_shards cs Hi)) as (l & -> & Hl). cbn.
  destruct (idx_upd_ok (λ n, n + 1) _ l _ (inv_num_len cs Hi) Hl) as (x & Hx & -> & Hlen). cbn.
  eexists. split_and!; [done| |cbn; set_solver|cbn; set_solver].
  destruct Hi; constructor; cbn; try done.
  - rewrite dom_insert_L. by rewrite inv_dom0.
  - intros w k [[<- <-]|[_ Hw]]%lookup_insert_Some; [done | by apply (inv_range0 w)].
  - intros i n Hn. rewrite shard_count_insert, Ev, (decide_False (P := None = _)) by done.
    apply list_lookup_insert_Some in Hn as [(<- & <- & _)|(Hne & Hn)].
    + rewrite (inv_count0 _ _ Hx), Z2Nat.id by lia. rewrite decide_True by done. lia.
    + rewrite (inv_count0 _ _ Hn). rewrite decide_False; lia.
  - intros w. eapply Forall_impl; [apply inv_edges0|]. set_solver.
  - set_solver.
Qed.

Lemma AddEdge_inv u v cs : clpa_inv cs →
  ∃ cs', AddEdge u v cs = Ok cs' ∧ clpa_inv cs' ∧
    neighbors (netGraph cs') u = (if decide (u = v) then neighbors (netGraph cs) u ++ [v; u]
                                  else neighbors (netGraph cs) u ++ [v]).
Proof.
  intros Hi. unfold AddEdge.
  assert (∀ w cs, clpa_inv cs → ∃ cs',
    (if decide (w ∈ VertexSet (netGraph cs)) then Ok cs else addVertex w cs) = Ok cs' ∧ clpa_inv cs' ∧
    w ∈ VertexSet (netGraph cs') ∧ VertexSet (netGraph cs) ⊆ VertexSet (netGraph cs') ∧
    EdgeSet (netGraph cs') = EdgeSet (netGraph cs)) as Hadd.
  { intros w c Hc. case_decide as Hw; [by exists c|].
    destruct (addVertex_inv w c Hc) as (c' & E & Hc' & Hin & Hsub). exists c'. split_and!; try done.
    unfold addVertex in E. cbn in E. case_match; [by simplify_eq|].
    destruct (DefaultAccountLoc w (shardNum c)); try discriminate E. cbn in E.
    destruct (idx_upd _ _ _); try discriminate E. cbn in E. by simplify_eq. }
  destruct (Hadd u cs Hi) as (c1 & -> & Hc1 & Hu & _ & He1). cbn [rbind].
  destruct (Hadd v c1 Hc1) as (c2 & -> & Hc2 & Hv & Hsub & He2). cbn [rbind].
  eexists. split_and!; [done | apply graph_add_edge_inv; [done | set_solver | done] |].
  unfold neighbors. cbn. rewrite <- He1, <- He2.
  case_decide as Huv.
  - subst v. rewrite lookup_insert_eq. cbn. unfold neighbors; cbn.
    rewrite lookup_insert_eq. cbn. unfold neighbors. cbn. by rewrite <- app_assoc.
  - rewrite lookup_insert_ne, lookup_insert_eq by done. done.
Qed.

(** ** A run of the label propagation

    [run_inv]: the graph is the one the run started with, the map of results is
    the difference between the labels and the starting labels [pm0], the update
    counters are bounded, and no shard that had an account is left without. *)

Record run_inv (cs0 : CLPAState) (r : Run) : Prop := {
  ri_inv : clpa_inv (r_cs r);
  ri_graph : netGraph (r_cs r) = netGraph cs0;
  ri_shards : shardNum (r_cs r) = shardNum cs0;
  ri_iters : maxIterations (r_cs r) = maxIterations cs0;
  ri_ret : partitionMap (r_cs r) = r_ret r ∪ partitionMap cs0;
  ri_times : ∀ v t, r_updateTimes r !! v = Some t → 0 < t ≤ updateThreshold;
  ri_kept : ∀ i, 0 < shard_count (partitionMap cs0) i → 0 < shard_count (partitionMap (r_cs r)) i;
}.

Lemma visit_ok cs0 r v : run_inv cs0 r → v ∈ VertexSet (netGraph cs0) →
  ∃ r', visit r v = Ok r' ∧ run_inv cs0 r'.
Proof.
  intros Hr Hv. pose proof (ri_inv _ _ Hr) as Hi. pose proof (ri_graph _ _ Hr) as Hg. unfold visit.
  case_decide as Ht; [by exists r|]. set (cs := r_cs r) in *.
  assert (v ∈ VertexSet (netGraph cs))  as Hv' by (by rewrite Hg).
  destruct (location_ok cs Hi v Hv') as (old & -> & Hold & Hor). cbn [rbind].
  destruct (best_shard_ok cs Hi v old (neighbors (netGraph cs) v) ∅ (float_of_Z (-9999)) old)
    as (new & -> & Hnr); [done..|]. cbn [rbind]. case_decide as Hne; [by exists r|].
  destruct (idx_ok (vertexNumInShard cs) old _ (inv_num_len cs Hi) Hor) as (n & En & Hn).
  rewrite En. cbn [rbind]. case_decide as Hn1; [|by exists r]. cbn [vertexNumInShard upd].
  destruct (idx_upd_ok (λ n, n - 1) _ old _ (inv_num_len cs Hi) Hor) as (x & Hx & E1 & Hl1).
  destruct (idx_upd_ok (λ n, n + 1) _ new _ Hl1 Hnr) as (y & Hy & E2 & Hl2).
  pose proof (clpa_inv_insert cs v new old _ _ Hi Hold Hnr Hne E1 E2) as Hi'.
  change (vertexNumInShard _) with (vertexNumInShard cs). rewrite E1. cbn [rbind]. rewrite E2. cbn [rbind].
  match goal with |- context [changeShardRecompute v old ?c] =>
    destruct (changeShardRecompute_ok c Hi' v old) as (sw & m & -> & Hsw) end; [done..|]. cbn [rbind].
  eexists; split; [done|]. destruct Hr; constructor; cbn; try done.
  - destruct Hi'; constructor; done.
  - fold cs in ri_ret0. rewrite ri_ret0. by rewrite insert_union_l.
  - intros w t [[<- <-]|[_ Hw]]%lookup_insert_Some; [|by apply (ri_times0 w)].
    destruct (r_updateTimes r !! v) as [t|] eqn:E; cbn in *; [|unfold updateThreshold; lia].
    pose proof (ri_times0 v t E). unfold updateThreshold in *. lia.
  - intros i Hs. pose proof (ri_kept0 i Hs) as Hk. rewrite shard_count_insert, Hold.
    destruct (decide (i = old)) as [->|].
    + rewrite decide_True by done. fold cs in Hk.
      rewrite (inv_count cs Hi _ _ Hn), Z2Nat.id in Hn1 by lia. case_decide; lia.
    + rewrite decide_False by congruence. fold cs in Hk. case_decide; lia.
Qed.

Lemma passes_ok cs0 ord : (∀ k, ord k ≡ₚ elements (VertexSet (netGraph cs0))) →
  ∀ n k r, run_inv cs0 r → ∃ r', passes ord k n r = Ok r' ∧ run_inv cs0 r'.
Proof.
  intros Ho. induction n as [|n IH]; intros k r Hr; cbn; [by exists r|].
  destruct (rfold_inv (run_inv cs0) visit (ord k) r Hr) as (r1 & -> & H1).
  - intros acc v Hacc Hv. apply visit_ok; [done|]. rewrite (Ho k) in Hv. by apply elem_of_elements.
  - cbn. by apply IH.
Qed.

Lemma originals_ok cs : clpa_inv cs → originals cs = Ok (partitionMap cs).
Proof.
  intros Hi. unfold originals.
  assert (∀ l (m : gmap Address Z), (∀ v, v ∈ l → v ∈ VertexSet (netGraph cs)) →
    ∃ m', rfold (λ m v, let* l := getVertexLocation cs v in Ok (<[v := l]> m)) m l = Ok m' ∧
      ∀ v, m' !! v = if decide (v ∈ l) then partitionMap cs !! v else m !! v) as Hf.
  { intros l; induction l as [|w l IH]; intros m Hl; cbn.
    - exists m. split; [done|]. intros v. rewrite decide_False; [done | apply not_elem_of_nil].
    - destruct (location_ok cs Hi w) as (x & -> & Hx & _); [apply Hl; by left|]. cbn.
      destruct (IH (<[w := x]> m)) as (m' & -> & Hm'); [intros; apply Hl; by right|].
      exists m'. split; [done|]. intros v. rewrite Hm'. case_decide as H1.
      + rewrite decide_True; [done | by right].
      + destruct (decide (v = w)) as [->|Hne].
        * rewrite decide_True by (by left). by rewrite lookup_insert_eq.
        * rewrite decide_False; [by rewrite lookup_insert_ne|].
          by intros [?|?]%elem_of_cons. }
  destruct (Hf (elements (VertexSet (netGraph cs))) ∅) as (m' & -> & Hm').
  { intros v. by rewrite elem_of_elements. }
  f_equal. apply map_eq. intros v. rewrite Hm'. case_decide as H1; [done|].
  rewrite lookup_empty. symmetry. apply not_elem_of_dom. rewrite (inv_dom cs Hi).
  by rewrite elem_of_elements in H1.
Qed.

Lemma CLPAPartition_ok ord cs : clpa_inv cs → (∀ k, ord k ≡ₚ elements (VertexSet (netGraph cs))) →
  ∃ ret x cs', CLPAPartition ord cs = Ok (ret, x, cs') ∧ clpa_inv cs' ∧
    netGraph cs' = netGraph cs ∧ shardNum cs' = shardNum cs ∧ x = crossShardEdgeNum cs' ∧
    (∀ v l, ret !! v = Some l ↔ partitionMap cs' !! v = Some l ∧ partitionMap cs !! v ≠ Some l) ∧
    (∀ i, 0 < shard_count (partitionMap cs) i → 0 < shard_count (partitionMap cs') i).
Proof.
  intros Hi Ho. unfold CLPAPartition.
  destruct (computeEdges2Shard_ok cs Hi) as (sw & m & x & -> & Hsw). cbn [rbind].
  set (c1 := cs <| crossShardEdgeNum := x |> <| shardWeight := sw |> <| minShardWeight := m |>).
  assert (clpa_inv c1) as H1 by (by apply clpa_inv_weights).
  rewrite (originals_ok c1 H1). cbn [rbind].
  destruct (passes_ok c1 ord Ho (Z.to_nat (maxIterations c1)) 0%nat (mkRun c1 ∅ ∅)) as (r & -> & Hr).
  { constructor; cbn; try done. by rewrite map_empty_union. }
  cbn [rbind]. destruct Hr as [Hri Hg Hs Hm Hret _ Hk].
  destruct (computeEdges2Shard_ok (r_cs r) Hri) as (sw' & m' & x' & -> & Hsw'). cbn [rbind].
  eexists _, _, _. split; [reflexivity|]. split; [by apply clpa_inv_weights|].
  cbn. split_and!; [exact Hg | exact Hs | done | | exact Hk].
  intros v l. unfold prune. rewrite map_lookup_filter_Some. cbn. rewrite Hret. cbn.
  rewrite lookup_union_Some_raw. split.
  - intros [Hv Hne]. split; [by left | done].
  - intros [[Hv|[_ Hv]] Hne]; done.
Qed.

(** C13: Running the constrained label propagation terminates without a panic
    for every order in which Go may range over the vertex map in each pass, on
    every state that satisfies the invariant: it leaves the graph alone, keeps
    the invariant (every vertex has a label below the number of shards and the
    per-shard counters are the counts of the labels), returns exactly the
    accounts whose label differs from the one before the run with their new
    label, and never takes the last account of a shard. *)
Theorem CLPAPartition_spec ord cs :
  clpa_inv cs → (∀ k, ord k ≡ₚ elements (VertexSet (netGraph cs))) →
  ∃ ret x cs', CLPAPartition ord cs = Ok (ret, x, cs') ∧ clpa_inv cs' ∧
    netGraph cs' = netGraph cs ∧ shardNum cs' = shardNum cs ∧ x = crossShardEdgeNum cs' ∧
    (∀ v l, ret !! v = Some l ↔ partitionMap cs' !! v = Some l ∧ partitionMap cs !! v ≠ Some l) ∧
    (∀ i, 0 < shard_count (partitionMap cs) i → 0 < shard_count (partitionMap cs') i).
Proof. apply CLPAPartition_ok. Qed.

(** The calls a committee makes on a CLPA state after creating it. *)
Inductive clpa_reach (wp : float64) (iters n : Z) : CLPAState → Prop :=
| reach_new cs : NewCLPAState wp iters n = Ok cs → clpa_reach wp iters n cs
| reach_edge cs u v cs' : clpa_reach wp iters n cs → AddEdge u v cs = Ok cs' → clpa_reach wp iters n cs'
| reach_run cs ord ret x cs' : clpa_reach wp iters n cs →
    (∀ k, ord k ≡ₚ elements (VertexSet (netGraph cs))) →
    CLPAPartition ord cs = Ok (ret, x, cs') → clpa_reach wp iters n cs'.

Lemma clpa_reach_inv wp iters n cs : 0 < n → clpa_reach wp iters n cs → clpa_inv cs.
Proof.
  intros Hn. induction 1 as [cs E|cs u v cs' _ IH E|cs ord ret x cs' _ IH Ho E].
  - destruct (NewCLPAState_inv wp iters n Hn) as (c & E' & Hc & _).
    rewrite E' in E. by injection E as <-.
  - destruct (AddEdge_inv u v cs IH) as (c & E' & Hc & _). rewrite E' in E. by injection E as <-.
  - destruct (CLPAPartition_ok ord cs IH Ho) as (r & y & c & E' & Hc & _).
    rewrite E' in E. by injection E as _ _ <-.
Qed.

(** C14: Every state a committee can bring a CLPA state into (created with at
    least one shard, then any sequence of edges and partition runs) satisfies
    the invariant, in it adding any edge succeeds, and the location of every
    account, in the graph or not, is a shard. *)
Theorem clpa_reachable_total wp iters n cs : 0 < n → clpa_reach wp iters n cs →
  clpa_inv cs ∧ (∀ u v, ∃ cs', AddEdge u v cs = Ok cs') ∧
  (∀ v, ∃ l, GetVertexLocation cs v = Ok l ∧ 0 ≤ l < shardNum cs).
Proof.
  intros Hn Hr. pose proof (clpa_reach_inv _ _ _ _ Hn Hr) as Hi. split_and!; [done| |].
  - intros u v. destruct (AddEdge_inv u v cs Hi) as (c & E & _). by exists c.
  - intros v. unfold GetVertexLocation, getVertexLocation. case_match eqn:E.
    + eexists; split; [done|]. by apply (inv_range cs Hi v).
    + apply DefaultAccountLoc_range, Hi.
Qed.

(** ** Concrete runs *)

Module PartitionDemo.
Definition vertex (n : Z) : Vertex := copy_to_array 20 (Z_to_be 20 n).
Definition build (iters : Z) (edges : list (Z * Z)) : result CLPAState :=
  let* cs := NewCLPAState (fdiv f1 f2) iters 2 in
  rfold (λ cs e, AddEdge (vertex e.1) (vertex e.2) cs) cs edges.
Definition order (cs : CLPAState) (k : nat) : list Vertex := elements (VertexSet (netGraph cs)).
Definition none : CLPAState := mkCLPAState NewGraph ∅ [] [] f0 f0 0 f0 0.
(** Even accounts start in shard 0 and odd ones in shard 1; only 0-1 and 0-3 cross. *)
Definition demo : CLPAState := force none (build 5 [(0, 1); (0, 3); (1, 3); (2, 4); (2, 6)]).
(** Account 0 has paid itself once. *)
Definition loops : CLPAState := force none (build 5 [(0, 0); (0, 1); (2, 4)]).
Definition move0 (cs : CLPAState) : CLPAState := cs <| partitionMap ::= λ m, <[vertex 0 := 1]> m |>.

Lemma build_reach iters edges cs : build iters edges = Ok cs → clpa_reach (fdiv f1 f2) iters 2 cs.
Proof.
  unfold build. destruct (NewCLPAState (fdiv f1 f2) iters 2) as [c| |] eqn:E; try discriminate. cbn [rbind].
  assert (clpa_reach (fdiv f1 f2) iters 2 c) as Hc by (by constructor). clear E. revert c Hc.
  induction edges as [|e edges IH]; intros c Hc; cbn; [by intros [= <-]|].
  destruct (AddEdge _ _ c) as [c'| |] eqn:E; try discriminate. cbn. apply IH.
  by econstructor 2.
Qed.

Lemma demo_reach : clpa_reach (fdiv f1 f2) 5 2 demo.
Proof. apply (build_reach 5 [(0, 1); (0, 3); (1, 3); (2, 4); (2, 6)]). apply force_ok. vm_compute. reflexivity. Qed.
End PartitionDemo.

Module PartitionWitness.
Import PartitionDemo.

Lemma CLPAPartition_spec_witness :
  ∃ ret x cs', CLPAPartition (order demo) demo = Ok (ret, x, cs') ∧ ret !! vertex 0 = Some 1.
Proof.
  destruct (CLPAPartition_spec (order demo) demo) as (ret & x & cs' & E & _ & _ & _ & _ & Hret & _).
  - apply (clpa_reach_inv (fdiv f1 f2) 5 2); [lia | apply demo_reach].
  - reflexivity.
  - exists ret, x, cs'. split; [exact E|]. apply Hret.
    assert (force None (let* p := CLPAPartition (order demo) demo in
      Ok (partitionMap p.2 !! vertex 0)) = Some 1) as Hf by (vm_compute; reflexivity).
    rewrite E in Hf. split; [exact Hf|]. vm_compute. discriminate.
Defined.

Lemma clpa_reachable_total_witness :
  ∃ l, GetVertexLocation demo (vertex 9) = Ok l ∧ 0 ≤ l < 2.
Proof.
  destruct (clpa_reachable_total (fdiv f1 f2) 5 2 demo) as (_ & _ & H); [lia | apply demo_reach |].
  destruct (H (vertex 9)) as (l & E & Hl). exists l. split; [exact E|].
  assert (shardNum demo = 2) as Hs by (vm_compute; reflexivity). by rewrite Hs in Hl.
Defined.

(** A self-loop is an edge of [changeShardRecompute] that it takes off the old
    shard twice and never adds to the new one: after account 0, which has paid
    itself, moves to shard 1, the incremental weights differ from the ones
    [computeEdges2Shard] finds for the same labels. *)
Lemma changeShardRecompute_self_loop :
  (let* cs := computeEdges2Shard loops in
   let* cs := changeShardRecompute (vertex 0) 0 (move0 cs) in Ok (shardWeight cs)) =
    Ok [f0; f1] ∧
  (let* cs := computeEdges2Shard (move0 loops) in Ok (shardWeight cs)) = Ok [f1; f2].
Proof. split; vm_compute; reflexivity. Qed.
End PartitionWitness.
