(* ===== verification/TxSource.v ===== *)
(** * Transaction sources

    Models supervisor/txsource: the interface ([TxSource]), the CSV data set
    (csvsource), random transactions (randomsource) and the empty source.

    What encoding/csv's reader yields is a list of records and errors that ends
    at the end of the file.  Random bytes and numbers are arguments, named by
    the transaction they are drawn for. *)

From S2P Require Import Prelude GoStrings GoHash Account Utils Config Float64.
From Stdlib Require Import Floats.SpecFloat Lia Ascii.

Local Open Scope Z_scope.

(** ** The interface *)

(** [ReadTxs size] at an instant. *)
Class TxSource (S : Type) := ReadTxs : Time → Z → M S (list Transaction).

(** What a client relies on: never more than it asked for. *)
Class TxSourceLaws (S : Type) {TS : TxSource S} : Prop :=
  ReadTxs_bound : ∀ now n s l s', 0 ≤ n → ReadTxs now n s = (Ok l, s') → Z.of_nat (length l) ≤ n.

Inductive NoOperationTxSource := NoOperation.
#[export] Instance NoOperation_ReadTxs : TxSource NoOperationTxSource := λ _ _, st_ret [].

(** ** csvsource *)

Definition line2Tx (line : list string) (count : Z) (excludeContractTxs : bool) (now : Time)
    : result Transaction :=
  let* fromAddrStr := idx line 3 in
  let* toAddrStr := idx line 4 in
  let* toCreateStr := idx line 5 in
  let* callingFuncStr := idx line 12 in
  let present s := negb (bool_decide (s = "")) && negb (equal_fold s "none") in
  let hasCallData := present callingFuncStr && negb (equal_fold callingFuncStr "0x") in
  let hasToCreate := present toCreateStr in
  let hasToAddr := present toAddrStr in
  let* fromFlag := idx line 6 in
  let* toFlag := idx line 7 in
  let isContractRelated := (negb hasToAddr && hasToCreate) || bool_decide (fromFlag = "1") || bool_decide (toFlag = "1") in
  if isContractRelated && excludeContractTxs then Err "contract transactions have been filtered"
  else if hasToAddr && bool_decide (fromAddrStr = toAddrStr) then Err "sender and recipient are the same"
  else
    let* valStr := idx line 8 in
    match big_SetString valStr with
    | None => Err "failed to parse value, val=%s"
    | Some val =>
      let* senderAddr := wrap_err "failed to parse sender address" (Hex2Addr fromAddrStr) in
      let* receiverAddr :=
        if hasToAddr then wrap_err "failed to parse receiver address" (Hex2Addr toAddrStr)
        else if negb hasToCreate then Err "missing account address"
        else Ok EmptyAccountAddr in
      let tx := NewTransaction senderAddr receiverAddr val 0 (wrap_u64 count) now in
      if hasCallData then
        let* data := wrap_err "failed to parse calling function" (Hex2Bytes callingFuncStr) in
        Ok (tx <| Data := data |>)
      else Ok tx
    end.

(** What [csv.Reader.Read] returns before the end of the file. *)
Inductive csv_read := Row (line : list string) | ReadErr (e : error).

Record CSVSource := mkCSVSource {
  cs_count : Z; cr : list csv_read; done : bool; excludeContractTxs : bool;
}.
#[export] Instance CSVSource_eta : Eta CSVSource := λ s, mkCSVSource (cs_count s) (cr s) (done s) (excludeContractTxs s).

(** The first record is the title line. *)
Definition NewCSVSource (file : result (list csv_read)) (exclude : bool) : result CSVSource :=
  let* rows := wrap_err "failed to open dataset file" file in
  match rows with
  | Row _ :: rows' => Ok (mkCSVSource 1 rows' false exclude)
  | _ => Err "failed to read the first line"
  end.

Definition csv_close (s : CSVSource) : CSVSource := s <| done := true |>.

(** The loop, over what is left to read. *)
Fixpoint csv_loop (now : Time) (size : Z) (rows : list csv_read) (count : Z) (exclude : bool)
    (ret : list Transaction) : result (list Transaction) * CSVSource :=
  if decide (Z.of_nat (length ret) < size) then
    match rows with
    | [] => (Ok ret, csv_close (mkCSVSource count [] false exclude))
    | ReadErr e :: rows' =>
      (wrap_err "failed to read dataset file" (Err e), csv_close (mkCSVSource count rows' false exclude))
    | Row txLine :: rows' =>
      match line2Tx txLine count exclude now with
      | Ok tx => csv_loop now size rows' (wrap_i64 (count + 1)) exclude (ret ++ [tx])
      | Err _ => csv_loop now size rows' count exclude ret
      | Panic => (Panic, mkCSVSource count rows' false exclude)
      end
    end
  else (Ok ret, mkCSVSource count rows false exclude).

#[export] Instance CSV_ReadTxs : TxSource CSVSource := λ now size s,
  if done s then (Ok [], s)
  else if decide (size < 0) then (Panic, s)
  else csv_loop now size (cr s) (cs_count s) (excludeContractTxs s) [].

(** ** randomsource *)

Definition accountPrefixZeroBytes : nat := 18.
Definition upperBoundTransferAmount : Z := 1000.
(** 0.1 *)
Definition feePercentage : float64 := fdiv f1 (float_of_Z 10).

(** [int64(x)] of a float: truncation toward zero. *)
Definition int_of_float (x : float64) : Z :=
  match x with
  | S754_finite s m e =>
    let v := if decide (0 ≤ e) then Zpos m * 2 ^ e else Zpos m / 2 ^ (- e) in if s then - v else v
  | _ => 0
  end.

(** What is drawn for transaction [c]: the k-th two random bytes, and the amount below the bound. *)
Record Rand := mkRand { rand_Read : Z → nat → bytes; rand_Int : Z → Z }.

Record RandomSource := mkRandomSource { rs_count : Z }.
Definition NewRandomSource : RandomSource := mkRandomSource 1.

Section random.
  Context (rnd : Rand) (fuel : nat).

(** [rand.Read(addr[accountPrefixZeroBytes:])] *)
Definition random_address (c : Z) (k : nat) : Address :=
  copy_to_array 20 (replicate accountPrefixZeroBytes (Z_to_byte 0) ++ rand_Read rnd c k).

(** The loop that draws a receiver other than the sender, from draw [k] on. *)
Fixpoint draw_receiver (c : Z) (sender : Address) (k : nat) (fuel : nat) : option Address :=
  match fuel with
  | O => None
  | S fuel' =>
    let receiver := random_address c k in
    if decide (sender = receiver) then draw_receiver c sender (S k) fuel' else Some receiver
  end.

Definition generateRandomTransaction (c : Z) (now : Time) : option Transaction :=
  let sender := random_address c 0 in
  receiver ← draw_receiver c sender 1 fuel;
  let amount := rand_Int rnd c + 1 in
  let fee := int_of_float (fmul (float_of_Z amount) feePercentage) in
  Some (NewTransaction sender receiver amount fee (wrap_u64 c) now).

Fixpoint random_loop (now : Time) (n : nat) (count : Z) : result (list Transaction) * RandomSource :=
  match n with
  | O => (Ok [], mkRandomSource count)
  | S n' =>
    match generateRandomTransaction count now with
    | None => (Err "out of fuel", mkRandomSource count)
    | Some tx =>
      let '(r, s) := random_loop now n' (wrap_i64 (count + 1)) in
      ((let* txs := r in Ok (tx :: txs)), s)
    end
  end.

#[export] Instance Random_ReadTxs : TxSource RandomSource := λ now size s,
  if decide (size < 0) then (Panic, s) else random_loop now (Z.to_nat size) (rs_count s).
End random.

(** ** txsource.NewTxSource *)

Definition csvsource_Key : string := "csv_source".
Definition randomsource_Key : string := "random_source".

Inductive AnyTxSource := SrcCSV (s : CSVSource) | SrcRandom (s : RandomSource) | SrcNone.

Definition NewTxSource (cfg : TxSourceCfg) (file : result (list csv_read)) : result AnyTxSource :=
  if decide (TxSourceType cfg = csvsource_Key) then
    let* cs := wrap_err "failed to create CSV source" (NewCSVSource file (ExcludeContractTxs cfg)) in
    Ok (SrcCSV cs)
  else if decide (TxSourceType cfg = randomsource_Key) then Ok (SrcRandom NewRandomSource)
  else Ok SrcNone.

#[export] Instance Any_ReadTxs (rnd : Rand) (fuel : nat) : TxSource AnyTxSource := λ now size s,
  match s with
  | SrcCSV s => let '(r, s') := ReadTxs now size s in (r, SrcCSV s')
  | SrcRandom s => let '(r, s') := Random_ReadTxs rnd fuel now size s in (r, SrcRandom s')
  | SrcNone => ((ReadTxs now size NoOperation).1, SrcNone)
  end.

(** ** Facts *)

Lemma csv_loop_bound now size rows count ex ret l s : Z.of_nat (length ret) ≤ size →
  csv_loop now size rows count ex ret = (Ok l, s) → Z.of_nat (length l) ≤ size.
Proof.
  revert count ret; induction rows as [|[line|e] rows IH]; intros count ret Hr; cbn [csv_loop]; case_decide.
  1,2,4,5,6: by intros [= <- _].
  destruct (line2Tx line count ex now); [|by apply IH|done]. apply IH. rewrite length_app. cbn. lia.
Qed.

#[export] Instance CSV_laws : TxSourceLaws CSVSource.
Proof.
  intros now n s l s' Hn. unfold ReadTxs, CSV_ReadTxs. destruct (done s); [intros [= <- _]; cbn; lia|].
  rewrite decide_False by lia. apply csv_loop_bound. cbn. lia.
Qed.

Lemma random_loop_length rnd fuel now n c l s : random_loop rnd fuel now n c = (Ok l, s) → length l = n.
Proof.
  revert c l s; induction n as [|n IH]; intros c l s; cbn [random_loop]; [by intros [= <- _]|].
  destruct (generateRandomTransaction _ _ _ _); [|done].
  destruct (random_loop _ _ _ _ _) as [r s1] eqn:E. intros [= H _].
  apply rbind_ok in H as (txs & -> & [= <-]). cbn. f_equal. by eapply IH.
Qed.

#[export] Instance Any_laws rnd fuel : TxSourceLaws AnyTxSource (TS := Any_ReadTxs rnd fuel).
Proof.
  intros now n [s|s|] l s' Hn; cbn.
  - destruct (ReadTxs now n s) as [r s1] eqn:E. intros [= -> _]. by eapply (ReadTxs_bound now n s).
  - unfold Random_ReadTxs. rewrite decide_False by lia. destruct (random_loop _ _ _ _ _) as [r s1] eqn:E.
    intros [= -> _]. apply random_loop_length in E. lia.
  - intros [= <- _]. cbn. lia.
Qed.

Definition prepend {A} (pre : list A) (r : result (list A)) : result (list A) := let* l := r in Ok (pre ++ l).

Lemma csv_loop_shift now pre size rows count ex ret :
  csv_loop now (Z.of_nat (length pre) + size) rows count ex (pre ++ ret) =
  let '(r, s) := csv_loop now size rows count ex ret in (prepend pre r, s).
Proof.
  revert count ret; induction rows as [|[line|e] rows IH]; intros count ret; cbn [csv_loop];
    rewrite length_app; case_decide; case_decide; try lia; try done.
  destruct (line2Tx line count ex now); [|apply IH|done]. rewrite <- app_assoc. apply IH.
Qed.

Lemma csv_loop_more now n1 n2 rows count ex ret l1 s1 : 0 ≤ n2 → Z.of_nat (length ret) ≤ n1 →
  csv_loop now n1 rows count ex ret = (Ok l1, s1) →
  csv_loop now (n1 + n2) rows count ex ret = let '(r, s2) := CSV_ReadTxs now n2 s1 in (prepend l1 r, s2).
Proof.
  intros Hn2. revert count ret; induction rows as [|[line|e] rows IH]; intros count ret Hr; cbn [csv_loop]; case_decide as H1.
  - intros [= <- <-]. rewrite decide_True by lia. cbn. by rewrite app_nil_r.
  - intros [= <- <-]. assert (n1 = Z.of_nat (length ret)) as -> by lia.
    unfold CSV_ReadTxs. cbn [done cr cs_count excludeContractTxs]. rewrite (decide_False (P := n2 < 0)) by lia.
    rewrite <- csv_loop_shift, app_nil_r. done.
  - rewrite decide_True by lia. destruct (line2Tx line count ex now); [|by apply IH|done]. apply IH.
    rewrite length_app. cbn. lia.
  - intros [= <- <-]. assert (n1 = Z.of_nat (length ret)) as -> by lia.
    unfold CSV_ReadTxs. cbn [done cr cs_count excludeContractTxs]. rewrite (decide_False (P := n2 < 0)) by lia.
    rewrite <- csv_loop_shift, app_nil_r. done.
  - done.
  - intros [= <- <-]. assert (n1 = Z.of_nat (length ret)) as -> by lia.
    unfold CSV_ReadTxs. cbn [done cr cs_count excludeContractTxs]. rewrite (decide_False (P := n2 < 0)) by lia.
    rewrite <- csv_loop_shift, app_nil_r. done.
Qed.

(** ** Properties *)

(** How the data set is cut into requests does not matter.  After a request
    for n1 transactions that succeeded, one for n2 returns what a single
    request for n1 + n2 returns after the first ones, the same error or panic
    included, and leaves the same source: no record is lost, repeated or
    reordered, at the end of the file neither. *)
Theorem csv_chunks now n1 n2 s l1 s1 : 0 ≤ n1 → 0 ≤ n2 →
  ReadTxs now n1 s = (Ok l1, s1) →
  ReadTxs now (n1 + n2) s = let '(r2, s2) := ReadTxs now n2 s1 in (prepend l1 r2, s2).
Proof.
  intros H1 H2. unfold ReadTxs, CSV_ReadTxs at 1 2. destruct (done s) eqn:Ed.
  - intros [= <- <-]. cbn. unfold CSV_ReadTxs. by rewrite Ed.
  - rewrite !decide_False by lia. apply csv_loop_more; [done|]. cbn. lia.
Qed.

(** A tenth of the amount, rounded down: exact for every amount there is. *)
Lemma fee_value a : 1 ≤ a ≤ upperBoundTransferAmount →
  int_of_float (fmul (float_of_Z a) feePercentage) = a / 10.
Proof.
  intros Ha. unfold upperBoundTransferAmount in Ha.
  assert (forallb (λ n, int_of_float (fmul (float_of_Z (Z.of_nat n)) feePercentage) =? Z.of_nat n / 10) (seq 1 1000) = true)
    as H by (vm_compute; reflexivity).
  rewrite forallb_forall in H. specialize (H (Z.to_nat a)). rewrite Z2Nat.id in H by lia.
  apply Z.eqb_eq, H, in_seq. lia.
Qed.

Section random_facts.
  Context (rnd : Rand) (fuel : nat).

Lemma draw_receiver_ok c sender k n : (∃ j, (k ≤ j < k + n)%nat ∧ random_address rnd c j ≠ sender) →
  ∃ receiver, draw_receiver rnd c sender k n = Some receiver ∧ receiver ≠ sender ∧ ∃ j, receiver = random_address rnd c j.
Proof.
  revert k; induction n as [|n IH]; intros k (j & Hj & Hne); [lia|]. cbn. case_decide as E.
  - apply IH. exists j. split; [|done]. assert (j ≠ k) by (intros ->; by rewrite E in Hne). lia.
  - eexists. split; [done|]. split; [by intros H|]. by exists k.
Qed.

(** What is known of a random transaction. *)
Definition random_tx_ok (now : Time) (n : Z) (tx : Transaction) : Prop :=
  Sender tx ≠ Recipient tx ∧ 1 ≤ Value tx ≤ upperBoundTransferAmount ∧ PriorityFee tx = Value tx / 10 ∧
  Nonce tx = n ∧ CreateTime tx = now ∧ TxType tx = NormalTxType ∧
  take accountPrefixZeroBytes (addr_bytes (Sender tx)) = replicate accountPrefixZeroBytes (Z_to_byte 0) ∧
  take accountPrefixZeroBytes (addr_bytes (Recipient tx)) = replicate accountPrefixZeroBytes (Z_to_byte 0).

Lemma generate_ok c now : in_u 64 c → 0 ≤ rand_Int rnd c < upperBoundTransferAmount →
  (∃ j, (1 ≤ j < 1 + fuel)%nat ∧ random_address rnd c j ≠ random_address rnd c 0) →
  ∃ tx, generateRandomTransaction rnd fuel c now = Some tx ∧ random_tx_ok now c tx.
Proof.
  intros Hc Ha Hj. unfold generateRandomTransaction.
  destruct (draw_receiver_ok c (random_address rnd c 0) 1 fuel Hj) as (r & -> & Hr & k & ->).
  eexists. split; [done|]. split_and!; cbn; try done.
  - lia.
  - lia.
  - apply fee_value. lia.
  - by apply wrap_u_id.
Qed.

(** The random source gives what it is asked for.  When the two-byte draws
    for each transaction differ from the sender's within the turns allowed to
    the loop, a request for [size] transactions returns exactly that many: each
    has a sender other than its recipient, both of 18 leading zero bytes, a
    value from 1 to 1000, a tenth of it (rounded down) as its fee although the
    code computes it in floating point, and the next number as its nonce; the
    counter moves on by [size]. *)
Theorem random_ReadTxs_spec now size c : 0 ≤ size → 0 ≤ c → c + size ≤ int64_max →
  (∀ i, 0 ≤ rand_Int rnd i < upperBoundTransferAmount) →
  (∀ i, ∃ j, (1 ≤ j < 1 + fuel)%nat ∧ random_address rnd i j ≠ random_address rnd i 0) →
  ∃ l, Random_ReadTxs rnd fuel now size (mkRandomSource c) = (Ok l, mkRandomSource (c + size)) ∧
    Z.of_nat (length l) = size ∧
    ∀ k tx, l !! k = Some tx → random_tx_ok now (c + Z.of_nat k) tx.
Proof.
  intros Hs Hc Hm Ha Hj. unfold Random_ReadTxs. rewrite decide_False by lia. cbn [rs_count].
  rewrite <- (Z2Nat.id size) in Hm |- * by done. generalize dependent c. generalize (Z.to_nat size). clear size Hs.
  induction n as [|n IH]; intros c Hc Hm; cbn [random_loop].
  { exists []. rewrite Nat2Z.id. cbn. split_and!; [by rewrite Z.add_0_r|done|]. intros k tx. by rewrite lookup_nil. }
  destruct (IH (c + 1)) as (l & E & Hl & Hk); [lia..|]. unfold int64_max in Hm. rewrite Nat2Z.id in *.
  destruct (generate_ok c now) as (tx & Et & Htx); [split; lia|apply Ha|apply Hj|].
  cbn [random_loop]. rewrite Et, wrap_s_id by (split; lia). rewrite E. exists (tx :: l). split_and!.
  - cbn. do 2 f_equal. lia.
  - cbn. lia.
  - intros [|k] tx'; cbn.
    + intros [= <-]. by rewrite Z.add_0_r.
    + intros Hx%Hk. replace (c + Z.of_nat (S k)) with (c + 1 + Z.of_nat k) by lia. done.
Qed.
End random_facts.

(** ** Concrete sources *)

Module TxSourceWitness.

Definition row (from to v : string) : csv_read :=
  Row ["b"; "t"; "h"; from; to; "None"; "0"; "0"; v; "g"; "p"; "f"; "0x"].
Definition data : result (list csv_read) := Ok
  [Row ["title"]; row "0xa1" "0xa2" "5"; row "0xa1" "0xa1" "6"; row "0xa2" "0xb1" "7"; row "0xa3" "None" "8";
   row "0xa4" "0xa5" "9"].
Definition source : AnyTxSource := force SrcNone (NewTxSource (mkTxSourceCfg csvsource_Key true) data).
Definition csv0 : CSVSource := match source with SrcCSV s => s | _ => mkCSVSource 0 [] true true end.

Lemma csv_chunks_witness :
  map Value (force [] (ReadTxs 3 (1 + 5) csv0).1) = [5; 7; 9] ∧
  ReadTxs 3 (1 + 5) csv0 = let '(r2, s2) := ReadTxs 3 5 (ReadTxs 3 1 csv0).2 in
    (prepend (force [] (ReadTxs 3 1 csv0).1) r2, s2).
Proof.
  split; [vm_compute; reflexivity|].
  apply (csv_chunks 3 1 5 csv0); [lia|lia|]. vm_compute. reflexivity.
Defined.

Definition draws : Rand := mkRand (λ _ k, match k with 0%nat | 1%nat => Z_to_be 2 1 | _ => Z_to_be 2 2 end) (λ c, (c * 7) `mod` 1000).

Lemma random_ReadTxs_spec_witness : ∃ l,
  Random_ReadTxs draws 2 9 3 (mkRandomSource 1) = (Ok l, mkRandomSource 4) ∧ map Value l = [8; 15; 22].
Proof.
  destruct (random_ReadTxs_spec draws 2 9 3 1) as (l & H & _).
  - lia.
  - lia.
  - vm_compute. discriminate.
  - intros i. cbn. apply Z.mod_pos_bound. reflexivity.
  - intros i. exists 2%nat. split; [split; repeat constructor|]. vm_compute. discriminate.
  - exists l. split; [exact H|]. assert (force [] (Random_ReadTxs draws 2 9 3 (mkRandomSource 1)).1 = l) as <-.
    { rewrite H. reflexivity. }
    vm_compute. reflexivity.
Defined.
End TxSourceWitness.
