(* ===== verification/ContractGen.v ===== *)
(** * The contract data-set generator

    Models cmd/generatecontracttxfile/usetxt/main.go: a tool that reads a
    scenario (accounts, contracts, deployments and calls), loads the contracts,
    and writes a data set with one transaction per step.

    The scenario is the lines its scanner yields.  solc, the JSON decoder,
    go-ethereum's ABI and address functions, and the files are the class
    [GenLib]; the random hash of a row is an argument. *)

From S2P Require Import Prelude GoStrings GoHash Account Utils CsvWrite.
From stdpp Require Import pretty.
From Stdlib Require Import Lia Ascii.

Local Open Scope Z_scope.

(** ** The library code *)

(** The kinds of [abi.Type] the tool converts. *)
Inductive AbiKind := AddressTy | UintTy | IntTy | BoolTy | StringTy | BytesTy | OtherTy.

(** The [interface{}] an argument is converted to. *)
Inductive ArgVal :=
| ArgAddress (a : Address)
| ArgInt (v : Z)
| ArgBool (b : bool)
| ArgString (s : string)
| ArgBytes (b : bytes).

(** [abi_Methods] gives the kinds of the inputs of a method.  [json_combined]
    decodes solc's output: the contracts with their abi and bin, in the order
    the map is ranged over. *)
Class GenLib := {
  Abi : Type;
  abi_zero : Abi;
  abi_JSON : string → result Abi;
  abi_Methods : Abi → string → option (list AbiKind);
  abi_Pack : Abi → string → list ArgVal → result bytes;
  crypto_CreateAddress : Address → Z → Address;
  common_IsHexAddress : string → bool;
  common_HexToAddress : string → Address;
  addr_Hex : Address → string;
  json_combined : string → result (list (string * (string * string)));
  json_abi_field : string → result string;
  json_string : string → result string;
  os_ReadFile : string → result string;
  path_IsAbs : string → bool;
  path_Join : string → string → string;
  path_Dir : string → string;
  exec_solc : list string → result string;
}.

(** An address is printed as 0x and its forty hexadecimal digits, in mixed case
    (EIP-55). *)
Class GenLaws {GL : GenLib} : Prop :=
  addr_Hex_digits : ∀ a, map to_lower (String.list_ascii_of_string (addr_Hex a)) =
    String.list_ascii_of_string ("0x" +:+ hex_EncodeToString (addr_bytes a)).

Section gen.
  Context {GL : GenLib}.

(** ** The program *)

Record ContractDef := mkContractDef {
  Alias : string; SolPath : string; ContractName : string;
  ABIPath : string; BytecodePath : string;
  ABI : Abi; Bytecode : string;
}.
#[export] Instance ContractDef_eta : Eta ContractDef := λ c,
  mkContractDef (Alias c) (SolPath c) (ContractName c) (ABIPath c) (BytecodePath c) (ABI c) (Bytecode c).

Record Step := mkStep {
  Scenario : string; s_Type : string; ID : string; Contract : string; ContractRef : string;
  From : string; s_Function : string; Params : list string; s_GasLimit : string; s_Value : string;
}.

(** [Program] *)
Record GenProgram := mkGenProgram {
  Accounts : gmap string string;
  Contracts : gmap string ContractDef;
  Steps : list Step;
}.
#[export] Instance GenProgram_eta : Eta GenProgram := λ p, mkGenProgram (Accounts p) (Contracts p) (Steps p).

(** ** Small text functions *)

Definition csvHeader : list string :=
  ["blockNumber"; "timestamp"; "transactionHash"; "from"; "to"; "toCreate";
   "fromIsContract"; "toIsContract"; "value"; "gasLimit"; "gasPrice"; "gasUsed";
   "callingFunction"; "isError"; "eip2718type"; "baseFeePerGas"; "maxFeePerGas"; "maxPriorityFeePerGas"].

Definition parseKV (parts : list string) : gmap string string :=
  fold_left (λ m p,
    match cut "="%char p with
    | Some (k, v) => <[strings_ToLower (strings_TrimSpace k) := strings_TrimSpace v]> m
    | None => m
    end) parts ∅.

(** [kv[k]] *)
Definition kv_get (kv : gmap string string) (k : string) : string := default "" (kv !! k).

Definition splitParams (s : string) : list string :=
  let s := strings_TrimSpace s in
  if decide (s = "") then [] else map strings_TrimSpace (strings_Split s "|"%char).

Definition normalizeHex (s : string) : result string :=
  let s := strings_TrimSpace s in
  let s := strings_TrimPrefix (strings_TrimPrefix s "0x") "0X" in
  if decide (s = "") then Err "empty hex"
  else
    let s := if Nat.odd (String.length s) then "0" +:+ s else s in
    let* _ := hex_DecodeString s in
    Ok ("0x" +:+ strings_ToLower s).

Definition bool01 (b : bool) : string := if b then "1" else "0".

Definition defaultStr (s d : string) : string := if decide (strings_TrimSpace s = "") then d else s.

(** ** The scenario parser *)

(** The program read so far and the current scenario. *)
Definition Parser : Type := GenProgram * string.

Definition add_step (st : Step) : M Parser unit :=
  st_modify (λ p, (p.1 <| Steps ::= λ l, l ++ [st] |>, p.2)).

Definition parse_command (cmd : string) (fields : list string) : M Parser unit :=
  if decide (cmd = "SCENARIO") then
    if decide (length fields < 2)%nat then st_fail "line %d: SCENARIO missing name"
    else
      let! name := st_lift (idx fields 1) in
      st_modify (λ p, (p.1, name))
  else if decide (cmd = "ACCOUNT") then
    if decide (length fields ≠ 3%nat) then st_fail "line %d: ACCOUNT format error"
    else
      let! name := st_lift (idx fields 1) in
      let! addr := st_lift (idx fields 2) in
      if negb (common_IsHexAddress addr) then st_fail "line %d: invalid account address %s"
      else st_modify (λ p, (p.1 <| Accounts ::= <[name := strings_ToLower addr]> |>, p.2))
  else if decide (cmd = "CONTRACT") then
    if decide (length fields < 3)%nat then st_fail "line %d: CONTRACT format error"
    else
      let! alias := st_lift (idx fields 1) in
      let kv := parseKV (drop 2 fields) in
      let c := mkContractDef alias (kv_get kv "sol") (kv_get kv "name") (kv_get kv "abi")
                 (kv_get kv "bytecode") abi_zero "" in
      st_modify (λ p, (p.1 <| Contracts ::= <[alias := c]> |>, p.2))
  else if decide (cmd = "DEPLOY" ∨ cmd = "CALL") then
    let! p := st_get in
    let kv := parseKV (drop 1 fields) in
    let params := if decide (kv_get kv "params" = "") then [] else splitParams (kv_get kv "params") in
    add_step (mkStep p.2 cmd (kv_get kv "id") (kv_get kv "contract") (kv_get kv "contract_ref")
      (kv_get kv "from") (kv_get kv "function") params (kv_get kv "gas") (kv_get kv "value"))
  else st_fail "line %d: unknown command %s".

Definition parse_line (text : string) : M Parser unit :=
  let line := strings_TrimSpace text in
  if decide (line = "") then st_ret tt
  else if strings_HasPrefix line "#" then st_ret tt
  else
    let fields := strings_Fields line in
    let! cmd := st_lift (idx fields 0) in
    parse_command (strings_ToUpper cmd) fields.

(** [file]: the error of opening it, or its lines and the error that ended the scan. *)
Definition parseScenarioTXT (path : string) (file : result (list string * result unit))
    : result (GenProgram * string) :=
  let* f := file in
  let '(lines, scanned) := f in
  let '(r, p) := st_for parse_line lines (mkGenProgram ∅ ∅ [], "default") in
  let* _ := r in
  let* _ := scanned in
  Ok (p.1, path_Dir path).

(** ** Loading contracts *)

Definition resolve_path (rootDir path : string) : string :=
  if path_IsAbs path then path else path_Join rootDir path.

Definition normalizeABIText (raw : string) : result string :=
  let s := strings_TrimSpace raw in
  if decide (s = "" ∨ s = "null") then Err "empty abi"
  else if strings_HasPrefix s (String (ascii_of_nat 34) "") then
    let* unq := json_string raw in
    let unq := strings_TrimSpace unq in
    if decide (unq = "") then Err "empty abi string" else Ok unq
  else if strings_HasPrefix s "[" || strings_HasPrefix s "{" then Ok s
  else Err "unknown abi format: %s".

Definition selectContractKey (c : ContractDef) (contracts : list (string * (string * string))) : result string :=
  let keys := (filter (λ p, strings_TrimSpace p.2.2 ≠ "") contracts).*1 in
  let with_suffix suffix := head (filter (λ k, strings_HasSuffix k suffix = true) keys) in
  if decide (keys = []) then Err "no deployable contract found (bin empty)"
  else if decide (strings_TrimSpace (ContractName c) ≠ "") then
    match with_suffix (":" +:+ ContractName c) with
    | Some k => Ok k
    | None => Err "contract %s not found in solc output"
    end
  else
    match with_suffix (":" +:+ Alias c), keys with
    | Some k, _ => Ok k
    | None, [k] => Ok k
    | None, _ => Err "multiple deployable contracts found, please set name=... in CONTRACT line; candidates=%v"
    end.

(** [cj.Contracts[targetKey]], zero when absent. *)
Definition contract_item (contracts : list (string * (string * string))) (k : string) : string * string :=
  default ("", "") (list_to_map (M := gmap string (string * string)) contracts !! k).

Definition compileWithSolc (c : ContractDef) (rootDir basePath includePath : string) (optimize : bool)
    : result ContractDef :=
  if decide (strings_TrimSpace (SolPath c) = "") then Err "contract %s requires sol=... when -use-solc=true"
  else
    let solPath := resolve_path rootDir (SolPath c) in
    let args := (if optimize then ["--optimize"] else []) ++
      (if decide (strings_TrimSpace basePath ≠ "") then ["--base-path"; basePath] else []) ++
      (if decide (strings_TrimSpace includePath ≠ "") then ["--include-path"; includePath] else []) ++
      ["--combined-json"; "abi,bin"; solPath] in
    let* out := wrap_err "solc failed" (exec_solc args) in
    let* cj := wrap_err "parse solc output failed" (json_combined out) in
    let* targetKey := selectContractKey c cj in
    let item := contract_item cj targetKey in
    let* abiText := wrap_err "normalize abi failed" (normalizeABIText item.1) in
    if decide (strings_TrimSpace item.2 = "") then Err "empty bin for contract key %s"
    else
      let* parsedABI := wrap_err "parse abi failed" (abi_JSON abiText) in
      Ok (c <| ABI := parsedABI |>
            <| Bytecode := "0x" +:+ strings_TrimPrefix (strings_ToLower (strings_TrimSpace item.2)) "0x" |>).

Definition loadArtifacts (c : ContractDef) (rootDir : string) : result ContractDef :=
  if decide (strings_TrimSpace (ABIPath c) = "" ∨ strings_TrimSpace (BytecodePath c) = "") then
    Err "contract %s requires abi=... and bytecode=... when -use-solc=false"
  else
    let* abiBytes := wrap_err "read abi failed" (os_ReadFile (resolve_path rootDir (ABIPath c))) in
    let abiText := strings_TrimSpace abiBytes in
    let* abiText :=
      if strings_HasPrefix abiText "{" then
        let* field := wrap_err "parse abi json failed" (json_abi_field abiBytes) in
        Ok (strings_TrimSpace field)
      else Ok abiText in
    let* parsedABI := wrap_err "parse abi failed" (abi_JSON abiText) in
    let* binBytes := wrap_err "read bytecode failed" (os_ReadFile (resolve_path rootDir (BytecodePath c))) in
    let* bin := wrap_err "invalid bytecode" (normalizeHex binBytes) in
    Ok (c <| ABI := parsedABI |> <| Bytecode := bin |>).

(** ** The generator *)

Record Generator := mkGenerator {
  prog : GenProgram;
  rows : list (list string);
  block : Z; ts : Z; bStep : Z; tStep : Z;
  nonceBySender : gmap string Z;
  deployedByID : gmap string Address;
  lastByContract : gmap string Address;
  deployID2Contract : gmap string string;
  contractAddrSet : gset string;
}.
#[export] Instance Generator_eta : Eta Generator := λ g,
  mkGenerator (prog g) (rows g) (block g) (ts g) (bStep g) (tStep g) (nonceBySender g) (deployedByID g)
    (lastByContract g) (deployID2Contract g) (contractAddrSet g).

(** The literal in [main]. *)
Definition NewGenerator (p : GenProgram) (startBlock startTS blockStep tsStep : Z) : Generator :=
  mkGenerator p [csvHeader] startBlock startTS blockStep tsStep ∅ ∅ ∅ ∅ ∅.

(** The key of an address in the maps, and its text in a row. *)
Definition addr_key (a : Address) : string := strings_ToLower (addr_Hex a).

(** [resolveAddress] for what is known of deployed ids. *)
Definition resolve_token (p : GenProgram) (deployed : string → option Address) (token : string)
    : result Address :=
  let token := strings_TrimSpace token in
  match Accounts p !! token with
  | Some v => Ok (common_HexToAddress v)
  | None =>
    match deployed token with
    | Some v => Ok v
    | None =>
      if common_IsHexAddress token then Ok (common_HexToAddress token)
      else Err "cannot resolve address token: %s"
    end
  end.

Definition resolveAddress (token : string) (g : Generator) : result Address :=
  resolve_token (prog g) (λ t, deployedByID g !! t) token.

Definition convert_value (resolve : string → result Address) (raw : string) (t : AbiKind) : result ArgVal :=
  match t with
  | AddressTy => let* a := resolve raw in Ok (ArgAddress a)
  | UintTy | IntTy =>
    match big_SetString (strings_TrimSpace raw) with
    | Some v => Ok (ArgInt v)
    | None => Err "invalid int: %s"
    end
  | BoolTy =>
    let s := strings_ToLower (strings_TrimSpace raw) in
    Ok (ArgBool (bool_decide (s = "true") || bool_decide (s = "1")))
  | StringTy => Ok (ArgString raw)
  | BytesTy =>
    let* h := normalizeHex raw in
    let* b := hex_DecodeString (strings_TrimPrefix h "0x") in
    Ok (ArgBytes b)
  | OtherTy => Err "unsupported abi type: %s"
  end.

Definition convertArg (raw : string) (t : AbiKind) (g : Generator) : result ArgVal :=
  convert_value (λ token, resolveAddress token g) raw t.

Definition isContract (addr : Address) (g : Generator) : bool :=
  bool_decide (addr_key addr ∈ contractAddrSet g).

(** The columns of a row that its step decides; the others are [baseRow]'s. *)
Definition row_of (block ts : Z) (hash : bytes) (from to toCreate fromIsC toIsC value gas data : string)
    : list string :=
  [pretty block; pretty ts; "0x" +:+ hex_EncodeToString hash; from; to; toCreate; fromIsC; toIsC; value; gas;
   "0"; "0"; data; "None"; "None"; "None"; "None"; "None"].

Definition baseRow (hash : bytes) (g : Generator) : list string :=
  row_of (block g) (ts g) hash "" "" "None" "0" "0" "0" "100000" "None".

Definition step : M Generator unit := st_modify (λ g,
  g <| block := wrap_i64 (block g + bStep g) |> <| ts := wrap_i64 (ts g + tStep g) |>).

(** [row[i] = v], for indices in range. *)
Definition set_cols (cols : list (nat * string)) (row : list string) : list string :=
  fold_left (λ r c, <[c.1 := c.2]> r) cols row.

(** The methods of a contract and the packing of a call. *)
Definition pack_call (convert : string → AbiKind → result ArgVal) (c : ContractDef) (st : Step) : result bytes :=
  match abi_Methods (ABI c) (s_Function st) with
  | None => Err "method not found: %s.%s"
  | Some inputs =>
    if decide (length inputs ≠ length (Params st)) then Err "%s.%s params mismatch, want=%d got=%d"
    else
      let* args := rmap (λ p, wrap_err "param[%d] convert failed" (convert p.1 p.2))
                     (zip (Params st) inputs) in
      wrap_err "abi pack failed" (abi_Pack (ABI c) (s_Function st) args)
  end.

(** [if st.ID != "" { m[st.ID] = ... }] *)
Definition if_named {A} (id : string) (put : A → A) (m : A) : A := if decide (id ≠ "") then put m else m.

Section run.
  (** [rand.Read(hash)] for the row of that index. *)
  Context (rand_hash : nat → bytes).

Definition execDeploy (st : Step) : M Generator unit :=
  let! g := st_get in
  match Contracts (prog g) !! Contract st with
  | None => st_fail "unknown contract: %s"
  | Some c =>
    let! from := st_lift (resolveAddress (From st) g) in
    let senderKey := strings_ToLower (addr_Hex from) in
    let nonce := default 0 (nonceBySender g !! senderKey) in
    let contractAddr := crypto_CreateAddress from nonce in
    st_modify (λ g, g <| nonceBySender ::= <[senderKey := wrap_u64 (nonce + 1)]> |>) ;;!
    st_modify (λ g,
      let row := set_cols [(3, addr_Hex from); (4, "None"); (5, strings_ToLower (addr_Hex contractAddr));
        (6, bool01 (isContract from g)); (7, "0"); (8, defaultStr (s_Value st) "0");
        (9, defaultStr (s_GasLimit st) "2000000"); (12, Bytecode c)]%nat (baseRow (rand_hash (length (rows g))) g) in
      g <| rows ::= λ l, l ++ [row] |>) ;;!
    st_modify (λ g, g <| lastByContract ::= <[Contract st := contractAddr]> |>
      <| contractAddrSet ::= union {[strings_ToLower (addr_Hex contractAddr)]} |>) ;;!
    st_modify (λ g, g <| deployedByID ::= if_named (ID st) (<[ID st := contractAddr]>) |>
      <| deployID2Contract ::= if_named (ID st) (<[ID st := Contract st]>) |>) ;;!
    step
  end.

(** [common.Address{}] *)
Definition zero_address : Address := EmptyAccountAddr.

(** The address called and the contract whose ABI is used. *)
Definition call_target (st : Step) (byID : string → option (Address * string))
    (last : string → option Address) : result (Address * string) :=
  let* ref :=
    if decide (ContractRef st ≠ "") then
      match byID (ContractRef st) with
      | None => Err "unknown contract_ref: %s"
      | Some r => Ok r
      end
    else Ok (zero_address, "") in
  if decide (Contract st ≠ "") then
    if decide (ref.1 = zero_address) then
      match last (Contract st) with
      | None => Err "contract %s not deployed yet"
      | Some addr => Ok (addr, Contract st)
      end
    else Ok (ref.1, Contract st)
  else Ok ref.

Definition execCall (st : Step) : M Generator unit :=
  let! g := st_get in
  let! from := st_lift (resolveAddress (From st) g) in
  let! target := st_lift (call_target st
    (λ id, (λ a, (a, default "" (deployID2Contract g !! id))) <$> deployedByID g !! id)
    (λ c, lastByContract g !! c)) in
  let '(to, contractKey) := target in
  if decide (contractKey = "") then st_fail "CALL requires contract or contract_ref"
  else
    match Contracts (prog g) !! contractKey with
    | None => st_fail "unknown contract: %s"
    | Some c =>
      let! data := st_lift (pack_call (λ raw t, convertArg raw t g) c st) in
      st_modify (λ g,
        let row := set_cols [(3, addr_Hex from); (4, strings_ToLower (addr_Hex to)); (5, "None");
          (6, bool01 (isContract from g)); (7, "1"); (8, defaultStr (s_Value st) "0");
          (9, defaultStr (s_GasLimit st) "100000"); (12, "0x" +:+ hex_EncodeToString data)]%nat
          (baseRow (rand_hash (length (rows g))) g) in
        g <| rows ::= λ l, l ++ [row] |>) ;;!
      step
    end.

Definition run_step (st : Step) : M Generator unit :=
  if decide (s_Type st = "DEPLOY") then st_wrap "step %d DEPLOY failed" (execDeploy st)
  else if decide (s_Type st = "CALL") then st_wrap "step %d CALL failed" (execCall st)
  else st_fail "step %d unknown type: %s".

Definition run : M Generator unit := let! g := st_get in st_for run_step (Steps (prog g)).
End run.

(** ** The whole tool *)

(** [os.Create] overwrites a file. *)
Definition writeCSV {CL : CsvLib} (os_Create : string → M Fs Csw) (path : string) (table : list (list string))
    : M Fs unit :=
  let! f := os_Create path in
  λ fs, let '(r, f') := (st_for csv_Write table ;;! flush_error ;;! flush_error) f in
        (r, (file_Close f' fs).2).

Record GenFlags := mkGenFlags {
  in_ : string; out_ : string; useSolc : bool; startBlock : Z; startTS : Z; blockStep : Z; tsStep : Z;
  basePath : string; includePath : string; optimize : bool;
}.

Definition load_contract (fl : GenFlags) (rootDir : string) (c : ContractDef) : result ContractDef :=
  if useSolc fl then
    wrap_err "compile %s failed" (compileWithSolc c rootDir (basePath fl) (includePath fl) (optimize fl))
  else wrap_err "load artifacts %s failed" (loadArtifacts c rootDir).

(** Every contract is loaded in place. *)
Definition load_contracts (fl : GenFlags) (rootDir : string) (p : GenProgram) : result GenProgram :=
  let* cs := rmap (λ kc, let* c := load_contract fl rootDir kc.2 in Ok (kc.1, c)) (map_to_list (Contracts p)) in
  Ok (p <| Contracts := list_to_map cs |>).

(** [main] after the flags are parsed; an error is fatal. *)
Definition gen_main {CL : CsvLib} (os_Create : string → M Fs Csw) (rand_hash : nat → bytes) (fl : GenFlags)
    (file : result (list string * result unit)) : M Fs unit :=
  if decide (strings_TrimSpace (in_ fl) = "") then st_fail "usage"
  else
    let! parsed := st_lift (parseScenarioTXT (in_ fl) file) in
    let '(p, rootDir) := parsed in
    let! p := st_lift (load_contracts fl rootDir p) in
    let '(r, g) := run rand_hash (NewGenerator p (startBlock fl) (startTS fl) (blockStep fl) (tsStep fl)) in
    let! _ := st_lift r in
    writeCSV os_Create (out_ fl) (rows g).
End gen.

(** ** Facts *)

Lemma hex_string_ascii l : ascii_text (String.list_ascii_of_string (hex_EncodeToString l)).
Proof.
  induction l as [|x l IH]; [constructor|]. unfold hex_EncodeToString in *. cbn [map].
  rewrite concat_nil_cons, !append_cons, append_nil. cbn.
  assert (∀ n, nat_of_ascii (hex_digit n) < 128)%nat as Hd.
  { intros n. unfold hex_digit. do 16 (destruct n as [|n]; [apply Nat.ltb_lt; reflexivity|]). destruct n; apply Nat.ltb_lt; reflexivity. }
  constructor; [apply Hd|]. constructor; [apply Hd|exact IH].
Qed.

Lemma hex_value_lower c : hex_value (to_lower c) = hex_value c.
Proof.
  unfold to_lower. case_decide as Hn; [|done]. unfold hex_value.
  rewrite nat_ascii_embedding by lia. rewrite Nat2Z.inj_add.
  repeat case_decide; try lia; try done. f_equal. lia.
Qed.

(** Decoding ignores the case of the digits. *)
Lemma hex_Decode_lower s t : map to_lower (String.list_ascii_of_string s) = String.list_ascii_of_string t →
  hex_DecodeString s = hex_DecodeString t.
Proof.
  remember (String.length s) as n eqn:Hn. revert s t Hn. induction (lt_wf n) as [n _ IH]. intros s t Hn H.
  destruct s as [|a [|b s]], t as [|x [|y t]]; try done; cbn in H; simplify_eq; cbn.
  - by rewrite hex_value_lower.
  - rewrite !hex_value_lower. rewrite (IH (String.length s) ltac:(cbn; lia) s t) by done. done.
Qed.

Lemma hex_digit_of_value c x : hex_value c = Some x →
  0 ≤ x < 16 ∧ (nat_of_ascii c < 128)%nat ∧ to_lower c = hex_digit (Z.to_nat x).
Proof.
  unfold hex_value. intros H.
  assert (nat_of_ascii c < 103)%nat as Hc by (repeat case_decide; simplify_eq; lia).
  assert (forallb (λ n, match hex_value (ascii_of_nat n) with
      | Some x => (0 <=? x) && (x <? 16) && bool_decide (to_lower (ascii_of_nat n) = hex_digit (Z.to_nat x))
      | None => true end) (seq 0 103) = true) as Hall by (vm_compute; reflexivity).
  rewrite forallb_forall in Hall. specialize (Hall (nat_of_ascii c)). rewrite ascii_nat_embedding in Hall.
  unfold hex_value in Hall. rewrite H in Hall.
  assert (In (nat_of_ascii c) (seq 0 103)) as Hin by (apply in_seq; lia).
  apply Hall in Hin. rewrite !andb_true_iff, bool_decide_eq_true in Hin. destruct Hin as [[??]?].
  split_and!; [lia..|done].
Qed.

#[local] Arguments hex_digit : simpl never.
#[local] Arguments Nat.div : simpl never.
#[local] Arguments Nat.modulo : simpl never.

(** What was decoded is printed as it was, in lower case. *)
Lemma hex_decode_encode s b : hex_DecodeString s = Ok b →
  ascii_text (String.list_ascii_of_string s) ∧
  map to_lower (String.list_ascii_of_string s) = String.list_ascii_of_string (hex_EncodeToString b).
Proof.
  remember (String.length s) as n eqn:Hn. revert s b Hn. induction (lt_wf n) as [n _ IH]. intros s b Hn H.
  destruct s as [|c [|d s]]; cbn [hex_DecodeString] in H;
    [simplify_eq; split; [constructor|done]|by destruct (hex_value c)|].
  destruct (hex_value c) as [x|] eqn:Ex; [|done]. destruct (hex_value d) as [y|] eqn:Ey; [|done].
  apply rbind_ok in H as (rest & Hrest & [= <-]).
  apply hex_digit_of_value in Ex as (Hx & Hc & Hcl). apply hex_digit_of_value in Ey as (Hy & Hd & Hdl).
  destruct (IH (String.length s) ltac:(subst; cbn; lia) s rest eq_refl Hrest) as [IH1 IH2].
  split; [constructor; [done|]; constructor; done|].
  assert (Z.of_nat (Byte.to_nat (Z_to_byte (16 * x + y))) = 16 * x + y) as Hb.
  { pose proof (byte_to_Z_to_byte (16 * x + y)) as E. rewrite Z.mod_small in E by lia.
    unfold byte_to_Z in E. rewrite <- E. unfold Byte.to_nat, Byte.to_N. by destruct (Z_to_byte _). }
  unfold hex_EncodeToString. cbn [map]. rewrite concat_nil_cons, !append_cons, append_nil. cbn.
  replace (Byte.to_nat (Z_to_byte (16 * x + y))) with (Z.to_nat x * 16 + Z.to_nat y)%nat by lia.
  rewrite Nat.div_add_l, Nat.div_small, Nat.add_0_r by lia.
  rewrite Nat.add_comm, Nat.Div0.mod_add, Nat.mod_small by lia.
  rewrite Hcl, Hdl. do 2 f_equal. exact IH2.
Qed.

Lemma normalizeHex_spec s h : normalizeHex s = Ok h → ∃ b, h = "0x" +:+ hex_EncodeToString b.
Proof.
  unfold normalizeHex. case_decide; [done|]. intros (b & Hb & [= <-])%rbind_ok. exists b. f_equal.
  apply hex_decode_encode in Hb as [Ha Hl]. apply string_list_inj. by rewrite ToLower_ascii.
Qed.

Lemma loadArtifacts_hex {GL : GenLib} c rootDir c' : loadArtifacts c rootDir = Ok c' →
  ∃ code, Bytecode c' = "0x" +:+ hex_EncodeToString code.
Proof.
  unfold loadArtifacts. case_decide as Hpaths; [done|]. intros (abiBytes & _ & H)%rbind_ok.
  apply rbind_ok in H as (abiText & _ & H). apply rbind_ok in H as (parsed & _ & H).
  apply rbind_ok in H as (binBytes & _ & H). apply rbind_ok in H as (bin & Hb & [= <-]).
  apply wrap_err_ok in Hb. by apply normalizeHex_spec in Hb.
Qed.

Lemma load_contracts_hex {GL : GenLib} fl rootDir p p' : useSolc fl = false → load_contracts fl rootDir p = Ok p' →
  Accounts p' = Accounts p ∧ Steps p' = Steps p ∧
  ∀ key c, Contracts p' !! key = Some c → ∃ code, Bytecode c = "0x" +:+ hex_EncodeToString code.
Proof.
  intros Hf (cs & Hcs%rmap_ok & [= <-])%rbind_ok. split_and!; [done..|]. intros key c Hc.
  apply elem_of_list_to_map_2, list_elem_of_lookup_1 in Hc as [i Hi].
  apply (Forall2_lookup_r _ _ _ _ _ Hcs) in Hi as ([k c0] & _ & Hc). cbn in Hc.
  apply rbind_ok in Hc as (c' & Hc & [= _ <-]). unfold load_contract in Hc. rewrite Hf in Hc.
  apply wrap_err_ok in Hc. by apply loadArtifacts_hex in Hc.
Qed.

Lemma idx_lt {A} (l : list A) (n : nat) : (n < length l)%nat → ∃ x, idx l (Z.of_nat n) = Ok x.
Proof.
  intros H. apply lookup_lt_is_Some_2 in H as [x Hx]. exists x. unfold idx.
  rewrite decide_False by lia. by rewrite Nat2Z.id, Hx.
Qed.

Section parser.
  Context {GL : GenLib}.

(** The types of a program: accounts are lower-case addresses, a contract is
    kept under its own alias with nothing loaded yet, and every step is a
    deployment or a call. *)
Record typed (p : GenProgram) : Prop := {
  typed_accounts : ∀ name a, Accounts p !! name = Some a →
    ∃ text, common_IsHexAddress text = true ∧ a = strings_ToLower text;
  typed_contracts : ∀ alias c, Contracts p !! alias = Some c →
    Alias c = alias ∧ ABI c = abi_zero ∧ Bytecode c = "";
  typed_steps : Forall (λ st, s_Type st ∈ ["DEPLOY"; "CALL"]) (Steps p);
}.

Definition option_list {A} (o : option A) : list A := match o with Some x => [x] | None => [] end.

(** *** What the lines of a scenario mean

    Stated for one line at a time, over its words; a name that is declared again
    is what the last declaration says, and so is a field. *)

Definition words (line : string) : list string := strings_Fields (strings_TrimSpace line).

(** The command of a line that is neither blank nor a comment. *)
Definition command (line : string) : option string :=
  if decide (strings_TrimSpace line = "") then None
  else if strings_HasPrefix (strings_TrimSpace line) "#" then None
  else strings_ToUpper <$> head (words line).

(** The value of a field among words of the form [key=value]. *)
Definition valued (key w : string) : option string :=
  match cut "="%char w with
  | Some (k, v) => if decide (strings_ToLower (strings_TrimSpace k) = key) then Some (strings_TrimSpace v) else None
  | None => None
  end.
Definition field (key : string) (ws : list string) : string := default "" (last (omap (valued key) ws)).

Definition scenario_name (line : string) : option string :=
  if decide (command line = Some "SCENARIO") then words line !! 1%nat else None.

Definition account_decl (name line : string) : option string :=
  if decide (command line = Some "ACCOUNT" ∧ words line !! 1%nat = Some name) then
    strings_ToLower <$> words line !! 2%nat
  else None.

Definition contract_decl (alias line : string) : option ContractDef :=
  if decide (command line = Some "CONTRACT" ∧ words line !! 1%nat = Some alias) then
    let ws := drop 2 (words line) in
    Some (mkContractDef alias (field "sol" ws) (field "name" ws) (field "abi" ws) (field "bytecode" ws) abi_zero "")
  else None.

(** The arguments of a call: separated by bars, without the space around them. *)
Definition params_of (v : string) : list string :=
  if decide (strings_TrimSpace v = "") then [] else map strings_TrimSpace (strings_Split (strings_TrimSpace v) "|"%char).

(** The step of a line in a scenario. *)
Definition step_decl (scenario line : string) : option Step :=
  match command line with
  | Some cmd =>
    if decide (cmd = "DEPLOY" ∨ cmd = "CALL") then
      let ws := drop 1 (words line) in
      Some (mkStep scenario cmd (field "id" ws) (field "contract" ws) (field "contract_ref" ws) (field "from" ws)
        (field "function" ws) (params_of (field "params" ws)) (field "gas" ws) (field "value" ws))
    else None
  | None => None
  end.

(** The steps of the lines that follow in a scenario, each in the scenario that
    was named last. *)
Fixpoint step_decls (scenario : string) (lines : list string) : list Step :=
  match lines with
  | [] => []
  | l :: lines' => option_list (step_decl scenario l) ++ step_decls (default scenario (scenario_name l)) lines'
  end.

(** The lines the parser takes. *)
Definition valid_line (line : string) : Prop :=
  match command line with
  | None => True
  | Some cmd =>
    cmd = "SCENARIO" ∧ (2 ≤ length (words line))%nat ∨
    cmd = "ACCOUNT" ∧ (∃ w name addr, words line = [w; name; addr] ∧ common_IsHexAddress addr = true) ∨
    cmd = "CONTRACT" ∧ (3 ≤ length (words line))%nat ∨
    cmd = "DEPLOY" ∨ cmd = "CALL"
  end.

(** *** The parser reads them so *)

Lemma last_omap_cons {A B} (f : A → option B) x l :
  last (omap f (x :: l)) = match last (omap f l) with Some y => Some y | None => f x end.
Proof. cbn. destruct (f x) as [y|]; [by rewrite last_cons|]. by destruct (last _). Qed.

Lemma parseKV_field k ws : kv_get (parseKV ws) k = field k ws.
Proof.
  unfold kv_get, field, parseKV. f_equal.
  assert (∀ m : gmap string string, fold_left (λ m p, match cut "="%char p with
      | Some (k, v) => <[strings_ToLower (strings_TrimSpace k) := strings_TrimSpace v]> m | None => m end) ws m !! k =
    match last (omap (valued k) ws) with Some v => Some v | None => m !! k end) as H.
  { induction ws as [|w ws IH]; intros m; [done|]. rewrite last_omap_cons. cbn [fold_left]. rewrite IH.
    destruct (last (omap (valued k) ws)); [done|]. unfold valued. destruct (cut _ w) as [[a v]|]; [|done].
    case_decide as Hk; [by rewrite <- Hk, lookup_insert_eq|by rewrite lookup_insert_ne]. }
  rewrite H. destruct (last _); [done|]. apply lookup_empty.
Qed.

(** What a line does to the program and the scenario. *)
Definition reads (line : string) (p p' : Parser) : Prop :=
  (∀ name, Accounts p'.1 !! name = match account_decl name line with Some a => Some a | None => Accounts p.1 !! name end) ∧
  (∀ alias, Contracts p'.1 !! alias = match contract_decl alias line with Some c => Some c | None => Contracts p.1 !! alias end) ∧
  Steps p'.1 = Steps p.1 ++ option_list (step_decl p.2 line) ∧
  p'.2 = default p.2 (scenario_name line).

Definition outcome (line : string) (m : M Parser unit) : Prop := ∀ p,
  valid_line line ∧ (∃ p', m p = (Ok tt, p') ∧ reads line p p') ∨ ¬ valid_line line ∧ ∃ e p', m p = (Err e, p').

Lemma idx_words (l : list string) (k : nat) x : l !! k = Some x → idx l (Z.of_nat k) = Ok x.
Proof. intros H. unfold idx. rewrite decide_False by lia. by rewrite Nat2Z.id, H. Qed.

Lemma parse_line_words line : parse_line line =
  (if decide (strings_TrimSpace line = "") then st_ret tt
   else if strings_HasPrefix (strings_TrimSpace line) "#" then st_ret tt
   else let! cmd := st_lift (idx (words line) 0) in parse_command (strings_ToUpper cmd) (words line)).
Proof. unfold words. reflexivity. Qed.
Lemma words_trimmed line : strings_TrimSpace line ≠ "" → words line ≠ [].
Proof. unfold words. apply Fields_trimmed. Qed.

#[local] Arguments kv_get : simpl never.
#[local] Arguments parseKV : simpl never.
#[local] Arguments drop : simpl never.
#[local] Arguments words : simpl never.
#[local] Arguments splitParams : simpl never.

(** A line that is another command declares nothing of a kind. *)
Lemma reads_other line cmd : command line = Some cmd →
  (cmd ≠ "SCENARIO" → scenario_name line = None) ∧
  (cmd ≠ "ACCOUNT" → ∀ name, account_decl name line = None) ∧
  (cmd ≠ "CONTRACT" → ∀ alias, contract_decl alias line = None) ∧
  (cmd ≠ "DEPLOY" → cmd ≠ "CALL" → ∀ sc, step_decl sc line = None).
Proof.
  intros Hc. unfold scenario_name, account_decl, contract_decl, step_decl. rewrite Hc.
  split_and!; intros; rewrite ?decide_False by naive_solver; done.
Qed.

Lemma scenario_outcome line : command line = Some "SCENARIO" → outcome line (parse_command "SCENARIO" (words line)).
Proof.
  intros Hc p. destruct (reads_other _ _ Hc) as (_ & Ha & Hk & Hst). unfold valid_line. rewrite Hc.
  unfold parse_command. rewrite decide_True by done. case_decide as Hl.
  - right. split; [|by eexists _, _]. intros [[_ ?]|[[? _]|[[? _]|[?|?]]]]; [lia|done..].
  - left. split; [left; split; [done|lia]|]. destruct (lookup_lt_is_Some_2 (words line) 1) as [x Hx]; [lia|].
    rewrite (idx_words _ 1 x Hx : idx (words line) 1 = Ok x). eexists. split; [reflexivity|].
    split_and!; cbn; intros; rewrite ?Ha, ?Hk, ?Hst by done; [done|done|by rewrite app_nil_r|].
    unfold scenario_name. rewrite decide_True by done. by rewrite Hx.
Qed.

Lemma account_outcome line : command line = Some "ACCOUNT" → outcome line (parse_command "ACCOUNT" (words line)).
Proof.
  intros Hc p. destruct (reads_other _ _ Hc) as (Hs & _ & Hk & Hst). unfold valid_line. rewrite Hc.
  unfold parse_command. rewrite decide_False, decide_True by done. case_decide as Hl.
  - right. split; [|by eexists _, _]. intros [[? _]|[[_ (w & n & a & Hw & _)]|[[? _]|[?|?]]]]; [done| |done..]. by rewrite Hw in Hl.
  - destruct (words line) as [|w [|name [|addr [|]]]] eqn:Hw; cbn in Hl; try lia.
    change (idx [w; name; addr] 1) with (Ok name). change (idx [w; name; addr] 2) with (Ok addr).
    cbn [st_bind st_lift]. destruct (common_IsHexAddress addr) eqn:Eh; cbn [negb].
    + left. split; [right; left; eauto 8|]. eexists. split; [reflexivity|].
      split_and!; cbn; intros; rewrite ?Hs, ?Hk, ?Hst by done; [|done|by rewrite app_nil_r|done].
      unfold account_decl. rewrite Hw. cbn. case_decide as Hn.
      * destruct Hn as [_ [= ->]]. by rewrite lookup_insert_eq.
      * rewrite lookup_insert_ne; [done|]. intros ->. by destruct Hn.
    + right. split; [|by eexists _, _]. intros [[? _]|[[_ (w' & n & a & [= <- <- <-] & ?)]|[[? _]|[?|?]]]]; congruence || done.
Qed.

Lemma contract_outcome line : command line = Some "CONTRACT" → outcome line (parse_command "CONTRACT" (words line)).
Proof.
  intros Hc p. destruct (reads_other _ _ Hc) as (Hs & Ha & _ & Hst). unfold valid_line. rewrite Hc.
  unfold parse_command. rewrite !decide_False, decide_True by done. case_decide as Hl.
  - right. split; [|by eexists _, _]. intros [[? _]|[[? _]|[[_ ?]|[?|?]]]]; [done|done|lia|done..].
  - left. split; [right; right; left; split; [done|lia]|]. destruct (lookup_lt_is_Some_2 (words line) 1) as [alias Hx]; [lia|].
    rewrite (idx_words _ 1 alias Hx : idx (words line) 1 = Ok alias). eexists. split; [reflexivity|].
    split_and!; cbn; intros; rewrite ?Hs, ?Ha, ?Hst by done; [done| |by rewrite app_nil_r|done].
    unfold contract_decl. rewrite Hc, Hx. case_decide as Hn.
    + destruct Hn as [_ [= ->]]. rewrite lookup_insert_eq, !parseKV_field. reflexivity.
    + rewrite lookup_insert_ne; [done|]. intros ->. by destruct Hn.
Qed.

Lemma splitParams_spec v : (if decide (v = "") then [] else splitParams v) = params_of v.
Proof. unfold splitParams, params_of. by case_decide as H; [rewrite H|]. Qed.

Lemma step_outcome line cmd : cmd = "DEPLOY" ∨ cmd = "CALL" → command line = Some cmd → outcome line (parse_command cmd (words line)).
Proof.
  intros Hcmd Hc p. destruct (reads_other _ _ Hc) as (Hs & Ha & Hk & _). unfold valid_line. rewrite Hc. left. split; [tauto|].
  unfold parse_command. rewrite !decide_False by (destruct Hcmd as [-> | ->]; done). rewrite decide_True by done.
  specialize (Hs ltac:(destruct Hcmd as [-> | ->]; done)). specialize (Ha ltac:(destruct Hcmd as [-> | ->]; done)).
  specialize (Hk ltac:(destruct Hcmd as [-> | ->]; done)). eexists. split; [reflexivity|].
  split_and!; cbn; intros; rewrite ?Hs, ?Ha, ?Hk; [done|done| |done].
  unfold step_decl. rewrite Hc, (decide_True (P := cmd = "DEPLOY" ∨ cmd = "CALL")) by done. rewrite splitParams_spec, !parseKV_field. reflexivity.
Qed.

Lemma parse_line_outcome line : outcome line (parse_line line).
Proof.
  rewrite parse_line_words.
  assert (command line = None → outcome line (st_ret tt)) as Hnone.
  { intros Hc p. left. unfold valid_line. rewrite Hc. split; [done|]. eexists. split; [reflexivity|].
    unfold reads, account_decl, contract_decl, step_decl, scenario_name. rewrite Hc. cbn. by rewrite app_nil_r. }
  case_decide as He; [apply Hnone; unfold command; by rewrite decide_True|].
  destruct (strings_HasPrefix _ "#") eqn:Ep; [apply Hnone; unfold command; by rewrite decide_False, Ep|].
  pose proof (words_trimmed _ He) as Hf. destruct (words line) as [|w ws] eqn:Ew; [done|].
  assert (command line = Some (strings_ToUpper w)) as Hc by (unfold command; by rewrite decide_False, Ep, Ew).
  change (outcome line (parse_command (strings_ToUpper w) (w :: ws))). rewrite <- Ew. revert Hc.
  generalize (strings_ToUpper w). intros cmd Hc.
  destruct (decide (cmd = "SCENARIO")) as [->|H1]; [by apply scenario_outcome|].
  destruct (decide (cmd = "ACCOUNT")) as [->|H2]; [by apply account_outcome|].
  destruct (decide (cmd = "CONTRACT")) as [->|H3]; [by apply contract_outcome|].
  destruct (decide (cmd = "DEPLOY" ∨ cmd = "CALL")) as [H4|H4]; [by apply step_outcome|].
  intros p. right. unfold valid_line, parse_command. rewrite Hc, !decide_False by done. split; [tauto|by eexists _, _].
Qed.

(** The lines of a file, from a program and a scenario read before. *)
Lemma parse_lines_outcome lines : ∀ p, 
  Forall valid_line lines ∧ (∃ p', st_for parse_line lines p = (Ok tt, p') ∧
    (∀ name, Accounts p'.1 !! name =
       match last (omap (account_decl name) lines) with Some a => Some a | None => Accounts p.1 !! name end) ∧
    (∀ alias, Contracts p'.1 !! alias =
       match last (omap (contract_decl alias) lines) with Some c => Some c | None => Contracts p.1 !! alias end) ∧
    Steps p'.1 = Steps p.1 ++ step_decls p.2 lines) ∨
  ¬ Forall valid_line lines ∧ ∃ e p', st_for parse_line lines p = (Err e, p').
Proof.
  induction lines as [|l lines IH]; intros p; cbn [st_for].
  { left. split; [constructor|]. eexists. split; [reflexivity|]. cbn. by rewrite app_nil_r. }
  unfold st_bind. destruct (parse_line_outcome l p) as [(Hv & p1 & -> & R1 & R2 & R3 & R4)|(Hv & e & p1 & ->)].
  2: { right. split; [by intros [? _]%Forall_cons|by eexists _, _]. }
  destruct (IH p1) as [(Hvs & p2 & -> & S1 & S2 & S3)|(Hvs & e & p2 & ->)].
  2: { right. split; [by intros [_ ?]%Forall_cons|by eexists _, _]. }
  left. split; [by constructor|]. eexists. split; [reflexivity|]. split_and!.
  - intros name. rewrite S1, last_omap_cons, R1. by destruct (last _).
  - intros alias. rewrite S2, last_omap_cons, R2. by destruct (last _).
  - cbn [step_decls]. by rewrite S3, R3, R4, app_assoc.
Qed.

(** What the lines declare is well typed. *)
Lemma step_decls_typed lines : ∀ sc, Forall (λ st, s_Type st ∈ ["DEPLOY"; "CALL"]) (step_decls sc lines).
Proof.
  induction lines as [|l lines IH]; intros sc; cbn [step_decls]; [constructor|]. apply Forall_app_2; [|apply IH].
  unfold step_decl. destruct (command l) as [cmd|]; [|constructor]. case_decide as H; [|constructor].
  constructor; [|constructor]. cbn. rewrite !elem_of_cons. tauto.
Qed.

Lemma last_omap_Some {A B} (f : A → option B) l y : last (omap f l) = Some y → ∃ x, x ∈ l ∧ f x = Some y.
Proof. intros H%last_Some_elem_of. by apply list_elem_of_omap in H. Qed.

Lemma declared_typed lines p : Forall valid_line lines →
  (∀ name, Accounts p !! name = last (omap (account_decl name) lines)) →
  (∀ alias, Contracts p !! alias = last (omap (contract_decl alias) lines)) →
  Steps p = step_decls "default" lines → typed p.
Proof.
  intros Hv Ha Hc Hs. split.
  - intros name a. rewrite Ha. intros (l & Hl & H)%last_omap_Some. unfold account_decl in H. case_decide as Hd; [|done].
    rewrite Forall_forall in Hv. specialize (Hv l Hl). unfold valid_line in Hv. destruct Hd as [Hcmd _]. rewrite Hcmd in Hv.
    destruct Hv as [[? _]|[[_ (w & n & addr & Hw & Hx)]|[[? _]|[?|?]]]]; [done| |done..]. rewrite Hw in H. cbn in H.
    injection H as <-. by exists addr.
  - intros alias c. rewrite Hc. intros (l & _ & H)%last_omap_Some. unfold contract_decl in H. case_decide; [|done]. by injection H as <-.
  - rewrite Hs. apply step_decls_typed.
Qed.

(** C32: the scenario parser reads what the lines say, and nothing else.  Parsing
    never panics, and it succeeds exactly when every line is valid (blank, a
    comment, or one of the five commands with the words it needs) and the scan
    ended without an error.  Then every name is the account, in lower case, of
    the last line that declares it, every alias the contract of the last line
    that declares it, with the paths of its fields and no code loaded, and the
    steps are those of the DEPLOY and CALL lines, in order, none lost: each in
    the scenario named last, with its command and the last value of each field
    of its line.  In particular every account was validated as an address,
    every contract is kept under its own alias, and every step is a deployment
    or a call (the generator's "unknown type" branch is dead). *)
Theorem parse_total_typed path lines scanned : scanned ≠ Panic →
  match parseScenarioTXT path (Ok (lines, scanned)) with
  | Ok (p, rootDir) =>
      Forall valid_line lines ∧ scanned = Ok tt ∧ typed p ∧ rootDir = path_Dir path ∧
      (∀ name, Accounts p !! name = last (omap (account_decl name) lines)) ∧
      (∀ alias, Contracts p !! alias = last (omap (contract_decl alias) lines)) ∧
      Steps p = step_decls "default" lines
  | Err _ => ¬ (Forall valid_line lines ∧ scanned = Ok tt)
  | Panic => False
  end.
Proof.
  intros Hs. unfold parseScenarioTXT. cbn [rbind].
  destruct (parse_lines_outcome lines (mkGenProgram ∅ ∅ [], "default")) as [(Hv & p & -> & H1 & H2 & H3)|(Hv & e & p & ->)].
  2: { cbn. tauto. }
  assert (∀ name, Accounts p.1 !! name = last (omap (account_decl name) lines)) as Ha.
  { intros name. rewrite H1. destruct (last _); [done|]. apply lookup_empty. }
  assert (∀ alias, Contracts p.1 !! alias = last (omap (contract_decl alias) lines)) as Hc.
  { intros alias. rewrite H2. destruct (last _); [done|]. apply lookup_empty. }
  cbn [rbind]. destruct scanned as [[]|e|]; [|by intros [_ ?]|done]. cbn. split_and!; try done. by apply (declared_typed lines).
Qed.
End parser.

(** ** A concrete library *)

Module GenDemo.
(** Two methods; a call is packed as the length of its name and its arguments. *)
Definition pack_arg (a : ArgVal) : bytes :=
  match a with
  | ArgAddress a => addr_bytes a
  | ArgInt v => Z_to_be 4 v
  | ArgBool b => [Z_to_byte (Z.b2z b)]
  | ArgString s => String.list_byte_of_string s
  | ArgBytes b => b
  end.

#[export] Instance lib : GenLib := {|
  Abi := list (string * list AbiKind);
  abi_zero := [];
  abi_JSON _ := Ok [("set", [UintTy; BoolTy]); ("send", [AddressTy; BytesTy])];
  abi_Methods a f := snd <$> head (filter (λ m, m.1 = f) a);
  abi_Pack _ f args := Ok (Z_to_byte (Z.of_nat (String.length f)) :: mbind pack_arg args);
  crypto_CreateAddress a n := copy_to_array 20 (Z_to_be 4 (n + 1) ++ drop 4 (addr_bytes a));
  common_IsHexAddress s := bool_decide (String.length s = 42%nat) && is_ok (Hex2Bytes s);
  common_HexToAddress s := force EmptyAccountAddr (Hex2Addr s);
  addr_Hex a := "0x" +:+ hex_EncodeToString (addr_bytes a);
  json_combined _ := Err "no compiler";
  json_abi_field _ := Ok "[]";
  json_string _ := Ok "[]";
  os_ReadFile p := Ok (if decide (p = "dir/c.bin") then " 0xAB1 " else "[]");
  path_IsAbs s := String.prefix "/" s;
  path_Join d p := d +:+ "/" +:+ p;
  path_Dir _ := "dir";
  exec_solc _ := Err "no compiler";
|}.

Lemma hex_digit_lower n : to_lower (hex_digit n) = hex_digit n.
Proof. unfold hex_digit. do 16 (destruct n as [|n]; [reflexivity|]). destruct n; reflexivity. Qed.

Lemma hex_text_lower l :
  map to_lower (String.list_ascii_of_string (hex_EncodeToString l)) = String.list_ascii_of_string (hex_EncodeToString l).
Proof.
  induction l as [|x l IH]; [reflexivity|]. unfold hex_EncodeToString in *. cbn [map].
  rewrite concat_nil_cons, !append_cons, append_nil. cbn. by rewrite !hex_digit_lower, IH.
Qed.

#[export] Instance laws : GenLaws.
Proof. intros a. apply (f_equal (λ l, "0"%char :: "x"%char :: l)), hex_text_lower. Qed.

Definition lines : list string :=
  ["# two users"; "ACCOUNT alice 0x00000000000000000000000000000000000000A1";
   "account bob 0x00000000000000000000000000000000000000b2";
   "CONTRACT C abi=c.json bytecode=c.bin"; "";
   "DEPLOY id=d1 contract=C from=alice"; "deploy id=d2 contract=C from=alice value=7";
   " CALL contract_ref=d1 from=bob function=set params=42|true gas=9";
   "CALL contract=C from=bob function=send params=d1|0x1"].

Definition fl : GenFlags := mkGenFlags "s.txt" "o.csv" false 10 20 1 3 "" "" true.
Definition parsed : GenProgram := (force (mkGenProgram ∅ ∅ [], "") (parseScenarioTXT "s.txt" (Ok (lines, Ok tt)))).1.
Definition loaded : GenProgram := force (mkGenProgram ∅ ∅ []) (load_contracts fl "dir" parsed).

Example parsed_ex : map s_Type (Steps parsed) = ["DEPLOY"; "DEPLOY"; "CALL"; "CALL"] ∧
  map Params (Steps parsed) = [[]; []; ["42"; "true"]; ["d1"; "0x1"]].
Proof. vm_compute. split; reflexivity. Qed.
Example loaded_ex : Bytecode <$> Contracts loaded !! "C" = Some "0x0ab1". Proof. vm_compute. reflexivity. Qed.

Example step_decls_ex : map (λ st, (From st, s_Function st, Params st, s_GasLimit st)) (step_decls "default" lines) =
  [("alice", "", [], ""); ("alice", "", [], ""); ("bob", "set", ["42"; "true"], "9"); ("bob", "send", ["d1"; "0x1"], "")].
Proof. vm_compute. reflexivity. Qed.

Lemma parse_total_typed_witness :
  typed parsed ∧ Accounts parsed !! "alice" = Some "0x00000000000000000000000000000000000000a1" ∧
  Steps parsed = step_decls "default" lines.
Proof.
  pose proof (parse_total_typed "s.txt" lines (Ok tt)) as H. unfold parsed.
  assert (is_ok (parseScenarioTXT "s.txt" (Ok (lines, Ok tt))) = true) as E by (vm_compute; reflexivity).
  destruct (parseScenarioTXT "s.txt" (Ok (lines, Ok tt))) as [[p d]|e|]; [|discriminate E..].
  destruct H as (_ & _ & Ht & _ & Ha & _ & Hst); [discriminate|]. split; [exact Ht|]. split; [|exact Hst].
  etransitivity; [exact (Ha "alice")|]. vm_compute. reflexivity.
Defined.
End GenDemo.
