(* ===== verification/Dataset.v ===== *)
(** * Contract data sets

    What the generator of ContractGen.v produces, and what the CSV source of
    TxSource.v reads from it.

    The abstract specification ([ledger_run]) has no maps and no counters: its
    only state is the history of deployments, and the nonce of a sender, the
    contract an id or an alias stands for, and whether an address is a contract
    are looked up there.  The generator refines it. *)

From stdpp Require Import pretty.
From S2P Require Import Prelude GoStrings GoHash Account Utils TxSource ContractGen.
From Stdlib Require Import Lia Ascii.

Local Open Scope Z_scope.

(** ** The ledger of deployments *)

Record Deployed := mkDeployed { d_sender : Address; d_id : string; d_contract : string; d_addr : Address }.

(** What a step sends: [x_to] is None for a deployment, whose contract gets the
    address [x_created]. *)
Record Sent := mkSent {
  x_from : Address; x_to : option Address; x_created : Address;
  x_fromIsContract : bool; x_value : string; x_gas : string; x_data : string;
}.

Section ledger.
  Context {GL : GenLib}.

(** Newest first. *)
Definition find_id (hist : list Deployed) (id : string) : option Deployed :=
  if decide (id = "") then None else head (filter (λ d, d_id d = id) hist).
Definition find_contract (hist : list Deployed) (c : string) : option Deployed :=
  head (filter (λ d, d_contract d = c) hist).
Definition deployments (hist : list Deployed) (a : Address) : Z :=
  Z.of_nat (length (filter (λ d, d_sender d = a) hist)).

Definition ledger_resolve (p : GenProgram) (hist : list Deployed) : string → result Address :=
  resolve_token p (λ id, d_addr <$> find_id hist id).

Definition ledger_deploy (p : GenProgram) (hist : list Deployed) (st : Step) : result (Sent * list Deployed) :=
  match Contracts p !! Contract st with
  | None => Err "unknown contract: %s"
  | Some c =>
    let* from := ledger_resolve p hist (From st) in
    let addr := crypto_CreateAddress from (wrap_u64 (deployments hist from)) in
    Ok (mkSent from None addr (bool_decide (from ∈ map d_addr hist)) (defaultStr (s_Value st) "0")
          (defaultStr (s_GasLimit st) "2000000") (Bytecode c),
        mkDeployed from (ID st) (Contract st) addr :: hist)
  end.

Definition ledger_call (p : GenProgram) (hist : list Deployed) (st : Step) : result Sent :=
  let* from := ledger_resolve p hist (From st) in
  let* target := call_target st (λ id, (λ d, (d_addr d, d_contract d)) <$> find_id hist id)
    (λ c, d_addr <$> find_contract hist c) in
  if decide (target.2 = "") then Err "CALL requires contract or contract_ref"
  else
    match Contracts p !! target.2 with
    | None => Err "unknown contract: %s"
    | Some c =>
      let* data := pack_call (convert_value (ledger_resolve p hist)) c st in
      Ok (mkSent from (Some target.1) zero_address (bool_decide (from ∈ map d_addr hist))
            (defaultStr (s_Value st) "0") (defaultStr (s_GasLimit st) "100000")
            ("0x" +:+ hex_EncodeToString data))
    end.

Definition ledger_step (p : GenProgram) (hist : list Deployed) (st : Step) : result (Sent * list Deployed) :=
  if decide (s_Type st = "DEPLOY") then wrap_err "step %d DEPLOY failed" (ledger_deploy p hist st)
  else if decide (s_Type st = "CALL") then
    wrap_err "step %d CALL failed" (let* x := ledger_call p hist st in Ok (x, hist))
  else Err "step %d unknown type: %s".

(** What was sent before the first error, and the history. *)
Fixpoint ledger_run (p : GenProgram) (hist : list Deployed) (steps : list Step)
    : result unit * (list Sent * list Deployed) :=
  match steps with
  | [] => (Ok tt, ([], hist))
  | st :: steps' =>
    match ledger_step p hist st with
    | Ok (x, hist') => let '(r, (xs, h)) := ledger_run p hist' steps' in (r, (x :: xs, h))
    | Err e => (Err e, ([], hist))
    | Panic => (Panic, ([], hist))
    end
  end.

(** The row of the k-th step. *)
Definition sent_row (g0 : Generator) (rand_hash : nat → bytes) (k : nat) (x : Sent) : list string :=
  row_of (wrap_i64 (block g0 + Z.of_nat k * bStep g0)) (wrap_i64 (ts g0 + Z.of_nat k * tStep g0))
    (rand_hash (S k)) (addr_Hex (x_from x))
    (match x_to x with Some a => addr_key a | None => "None" end)
    (match x_to x with Some _ => "None" | None => addr_key (x_created x) end)
    (bool01 (x_fromIsContract x))
    (match x_to x with Some _ => "1" | None => "0" end)
    (x_value x) (x_gas x) (x_data x).

(** ** The generator's maps are the history *)

Context {LAWS : GenLaws}.

Lemma addr_Hex_ascii a : ascii_text (String.list_ascii_of_string (addr_Hex a)).
Proof using LAWS.
  assert (ascii_text (map to_lower (String.list_ascii_of_string (addr_Hex a)))) as H.
  { rewrite addr_Hex_digits. repeat constructor; [apply Nat.ltb_lt; reflexivity..|]. apply hex_string_ascii. }
  unfold ascii_text in *. rewrite Forall_map in H. eapply Forall_impl; [exact H|]. intros c. apply to_lower_ascii.
Qed.

Lemma addr_key_value a : addr_key a = "0x" +:+ hex_EncodeToString (addr_bytes a).
Proof using LAWS.
  apply string_list_inj. unfold addr_key. rewrite ToLower_ascii by apply addr_Hex_ascii. apply addr_Hex_digits.
Qed.

Lemma Hex2Addr_key a : Hex2Addr ("0x" +:+ hex_EncodeToString (addr_bytes a)) = Ok a.
Proof. apply (Hex2Bytes_roundtrip [] "0x"). right. by left. Qed.

Lemma addr_key_inj a b : addr_key a = addr_key b → a = b.
Proof using LAWS. rewrite !addr_key_value. intros H%(f_equal Hex2Addr). rewrite !Hex2Addr_key in H. by simplify_eq. Qed.

Context (rand_hash : nat → bytes) (g0 : Generator).

Record tracks (g : Generator) (k : nat) (hist : list Deployed) : Prop := {
  tr_prog : prog g = prog g0;
  tr_steps : bStep g = bStep g0 ∧ tStep g = tStep g0;
  tr_block : block g = wrap_i64 (block g0 + Z.of_nat k * bStep g0);
  tr_ts : ts g = wrap_i64 (ts g0 + Z.of_nat k * tStep g0);
  tr_rows : length (rows g) = S k;
  tr_nonce : ∀ a, default 0 (nonceBySender g !! addr_key a) = wrap_u64 (deployments hist a);
  tr_id : ∀ id, deployedByID g !! id = d_addr <$> find_id hist id;
  tr_idc : ∀ id, deployID2Contract g !! id = d_contract <$> find_id hist id;
  tr_last : ∀ c, lastByContract g !! c = d_addr <$> find_contract hist c;
  tr_set : ∀ a, addr_key a ∈ contractAddrSet g ↔ a ∈ map d_addr hist;
}.

(** *** Texts that are looked up the same are resolved the same *)

Lemma resolve_token_ext p f h token : (∀ t, f t = h t) → resolve_token p f token = resolve_token p h token.
Proof. intros H. unfold resolve_token. by rewrite H. Qed.

Lemma convert_value_ext f h raw t : (∀ x, f x = h x) → convert_value f raw t = convert_value h raw t.
Proof. intros H. destruct t; cbn; by rewrite ?H. Qed.

Lemma rmap_ext {A B} (f h : A → result B) l : (∀ x, f x = h x) → rmap f l = rmap h l.
Proof. intros H. induction l as [|x l IH]; cbn; [done|]. by rewrite H, IH. Qed.

Lemma pack_call_ext f h c st : (∀ raw t, f raw t = h raw t) → pack_call f c st = pack_call h c st.
Proof.
  intros H. unfold pack_call. destruct (abi_Methods _ _) as [inputs|]; [|done]. case_decide; [done|].
  erewrite rmap_ext; [done|]. intros [raw t]. cbn. by rewrite H.
Qed.

Lemma call_target_ext st f h u v : (∀ x, f x = h x) → (∀ x, u x = v x) → call_target st f u = call_target st h v.
Proof. intros H1 H2. unfold call_target. by rewrite H1, H2. Qed.

Lemma tracks_resolve g k hist token : tracks g k hist →
  resolveAddress token g = ledger_resolve (prog g0) hist token.
Proof. intros T. unfold resolveAddress, ledger_resolve. rewrite (tr_prog _ _ _ T). apply resolve_token_ext, (tr_id _ _ _ T). Qed.

Lemma tracks_isContract g k hist a : tracks g k hist → isContract a g = bool_decide (a ∈ map d_addr hist).
Proof. intros T. apply bool_decide_ext, (tr_set _ _ _ T). Qed.

Lemma wrap_s_add b s : wrap_i64 (wrap_i64 b + s) = wrap_i64 (b + s).
Proof.
  unfold wrap_s. replace ((b + 2 ^ (64 - 1)) `mod` 2 ^ 64 - 2 ^ (64 - 1) + s + 2 ^ (64 - 1))
    with ((b + 2 ^ (64 - 1)) `mod` 2 ^ 64 + s) by lia.
  rewrite Zplus_mod_idemp_l. do 2 f_equal. lia.
Qed.

(** The position after one more step. *)
Lemma next_position x s k : wrap_i64 (wrap_i64 (x + Z.of_nat k * s) + s) = wrap_i64 (x + Z.of_nat (S k) * s).
Proof. rewrite wrap_s_add. f_equal. lia. Qed.

(** *** Deployments *)

Lemma find_id_cons d hist id : find_id (d :: hist) id =
  if decide (id ≠ "" ∧ d_id d = id) then Some d else find_id hist id.
Proof. unfold find_id. rewrite filter_cons. repeat case_decide; naive_solver. Qed.

Lemma find_contract_cons d hist c : find_contract (d :: hist) c =
  if decide (d_contract d = c) then Some d else find_contract hist c.
Proof. unfold find_contract. rewrite filter_cons. by case_decide. Qed.

Lemma deployments_cons d hist a : deployments (d :: hist) a =
  deployments hist a + (if decide (d_sender d = a) then 1 else 0).
Proof. unfold deployments. rewrite filter_cons. case_decide; cbn [length]; lia. Qed.

Lemma wrap_u_add a : wrap_u64 (wrap_u64 a + 1) = wrap_u64 (a + 1).
Proof. unfold wrap_u. by rewrite Zplus_mod_idemp_l. Qed.

(** The maps keyed by the id of a deployment. *)
Lemma put_id_lookup {A} (h : Deployed → A) d hist (m : gmap string A) :
  (∀ id, m !! id = h <$> find_id hist id) →
  ∀ id, if_named (d_id d) (<[d_id d := h d]>) m !! id = h <$> find_id (d :: hist) id.
Proof.
  intros H id. rewrite find_id_cons. unfold if_named. destruct (decide (d_id d = id)) as [<-|Hne].
  - destruct (decide (d_id d ≠ "")) as [Hd|Hd]; [rewrite decide_True by done; by rewrite lookup_insert_eq|].
    by rewrite decide_False by naive_solver.
  - rewrite (decide_False (P := id ≠ "" ∧ _)) by naive_solver.
    case_decide; [by rewrite lookup_insert_ne | done].
Qed.

Lemma put_nonce_lookup d hist (m : gmap string Z) :
  (∀ a, default 0 (m !! addr_key a) = wrap_u64 (deployments hist a)) →
  ∀ a, default 0 (<[addr_key (d_sender d) := wrap_u64 (wrap_u64 (deployments hist (d_sender d)) + 1)]> m !! addr_key a)
       = wrap_u64 (deployments (d :: hist) a).
Proof using LAWS.
  intros H a. rewrite deployments_cons. destruct (decide (d_sender d = a)) as [<-|Hne].
  - rewrite lookup_insert_eq. apply wrap_u_add.
  - rewrite lookup_insert_ne by (by intros ?%addr_key_inj). by rewrite H, Z.add_0_r.
Qed.

Lemma put_contract_lookup d hist (m : gmap string Address) :
  (∀ c, m !! c = d_addr <$> find_contract hist c) →
  ∀ c, <[d_contract d := d_addr d]> m !! c = d_addr <$> find_contract (d :: hist) c.
Proof.
  intros H c. rewrite find_contract_cons. destruct (decide (d_contract d = c)) as [<-|Hne].
  - by rewrite lookup_insert_eq.
  - by rewrite lookup_insert_ne.
Qed.

Lemma put_set_lookup d hist (s : gset string) :
  (∀ a, addr_key a ∈ s ↔ a ∈ map d_addr hist) →
  ∀ a, addr_key a ∈ {[addr_key (d_addr d)]} ∪ s ↔ a ∈ map d_addr (d :: hist).
Proof using LAWS.
  intros H a. cbn [map]. rewrite elem_of_union, elem_of_singleton, H, elem_of_cons. split; intros [E|E]; auto.
  - left. by apply addr_key_inj.
  - left. by rewrite E.
Qed.

(** A call of the generator does what a step of the ledger says. *)
Definition refines (g : Generator) (k : nat) (m : M Generator unit) (spec : result (Sent * list Deployed)) : Prop :=
  match spec with
  | Ok (x, hist') => ∃ g', m g = (Ok tt, g') ∧ tracks g' (S k) hist' ∧
      rows g' = rows g ++ [sent_row g0 rand_hash k x]
  | Err e => m g = (Err e, g)
  | Panic => m g = (Panic, g)
  end.

Lemma deploy_refines g k hist st : tracks g k hist →
  refines g k (execDeploy rand_hash st) (ledger_deploy (prog g0) hist st).
Proof using LAWS.
  intros T. unfold execDeploy, ledger_deploy, refines. pose proof (tracks_resolve g k hist (From st) T) as Hr.
  pose proof T as [T1 [T2 T2'] T3 T4 T5 T6 T7 T8 T9 T10].
  cbn [st_bind st_get]. rewrite T1. destruct (Contracts (prog g0) !! Contract st) as [c|]; [|reflexivity].
  cbn [st_bind st_lift]. rewrite Hr. destruct (ledger_resolve _ _ _) as [from|e|]; [|done..]. cbn [rbind].
  change (strings_ToLower (addr_Hex from)) with (addr_key from). rewrite T6.
  set (addr := crypto_CreateAddress _ _). change (strings_ToLower (addr_Hex addr)) with (addr_key addr).
  eexists. split; [reflexivity|].
  assert (isContract from (g <| nonceBySender ::= <[addr_key from := wrap_u64 (wrap_u64 (deployments hist from) + 1)]> |>)
          = bool_decide (from ∈ map d_addr hist)) as Hc by (rewrite <- (tracks_isContract g k hist from T); reflexivity).
  cbn [upd prog rows block ts bStep tStep nonceBySender deployedByID lastByContract deployID2Contract contractAddrSet] in *.
  split.
  - split.
    + exact T1.
    + exact (conj T2 T2').
    + etransitivity; [|apply next_position]. by rewrite <- T3, <- T2.
    + etransitivity; [|apply next_position]. by rewrite <- T4, <- T2'.
    + etransitivity; [apply length_app|]. rewrite T5. cbn [length]. lia.
    + by apply (put_nonce_lookup (mkDeployed from (ID st) (Contract st) addr)).
    + by apply (put_id_lookup d_addr (mkDeployed from (ID st) (Contract st) addr)).
    + by apply (put_id_lookup d_contract (mkDeployed from (ID st) (Contract st) addr)).
    + by apply (put_contract_lookup (mkDeployed from (ID st) (Contract st) addr)).
    + by apply (put_set_lookup (mkDeployed from (ID st) (Contract st) addr)).
  - rewrite Hc, T3, T4, T5. reflexivity.
Qed.

Lemma call_refines g k hist st : tracks g k hist →
  refines g k (execCall rand_hash st) (let* x := ledger_call (prog g0) hist st in Ok (x, hist)).
Proof.
  intros T. unfold execCall, ledger_call, refines.
  pose proof (λ tok, tracks_resolve g k hist tok T) as Hr. pose proof (tracks_isContract g k hist) as Hc.
  pose proof T as [T1 [T2 T2'] T3 T4 T5 _ T7 T8 T9 _].
  cbn [st_bind st_get st_lift]. rewrite Hr. destruct (ledger_resolve _ _ (From st)) as [from|e|]; [|reflexivity..].
  cbn [rbind]. rewrite (call_target_ext st (λ id, (λ a, (a, default "" (deployID2Contract g !! id))) <$> deployedByID g !! id)
    (λ id, (λ d, (d_addr d, d_contract d)) <$> find_id hist id) (λ c, lastByContract g !! c)
    (λ c, d_addr <$> find_contract hist c)); [|intros id; rewrite T7, T8; by destruct (find_id hist id)|exact T9].
  destruct (call_target st _ _) as [[to key]|e|]; [|reflexivity..]. cbn [rbind fst snd].
  destruct (decide (key = "")); [reflexivity|]. rewrite T1.
  destruct (Contracts (prog g0) !! key) as [c|]; [|reflexivity].
  cbn [st_bind st_lift]. rewrite (pack_call_ext (λ raw t, convertArg raw t g) (convert_value (ledger_resolve (prog g0) hist)))
    by (intros raw t; apply convert_value_ext; intros x; apply Hr).
  destruct (pack_call _ c st) as [data|e|]; [|reflexivity..]. cbn [rbind].
  eexists. split; [reflexivity|]. split.
  - destruct T. split; try done.
    + etransitivity; [|apply next_position]. by rewrite <- T3, <- T2.
    + etransitivity; [|apply next_position]. by rewrite <- T4, <- T2'.
    + etransitivity; [apply length_app|]. rewrite T5. cbn [length]. lia.
  - change (rows g ++ [row_of (block g) (ts g) (rand_hash (length (rows g))) (addr_Hex from) (addr_key to) "None"
      (bool01 (isContract from g)) "1" (defaultStr (s_Value st) "0") (defaultStr (s_GasLimit st) "100000")
      ("0x" +:+ hex_EncodeToString data)] = rows g ++ [sent_row g0 rand_hash k (mkSent from (Some to) zero_address
        (bool_decide (from ∈ map d_addr hist)) (defaultStr (s_Value st) "0") (defaultStr (s_GasLimit st) "100000")
        ("0x" +:+ hex_EncodeToString data))]).
    by rewrite (Hc from T), T3, T4, T5.
Qed.

Lemma refines_wrap g k msg m spec : refines g k m spec → refines g k (st_wrap msg m) (wrap_err msg spec).
Proof.
  unfold refines, st_wrap. destruct spec as [[x hist']|e|]; cbn.
  - intros (g' & -> & H). by exists g'.
  - by intros ->.
  - by intros ->.
Qed.

Lemma step_refines g k hist st : tracks g k hist →
  refines g k (run_step rand_hash st) (ledger_step (prog g0) hist st).
Proof using LAWS.
  intros T. unfold run_step, ledger_step. case_decide; [by apply refines_wrap, deploy_refines|].
  case_decide; [by apply refines_wrap, call_refines|]. done.
Qed.

Lemma steps_refine steps g k hist : tracks g k hist →
  let spec := ledger_run (prog g0) hist steps in
  let res := st_for (run_step rand_hash) steps g in
  res.1 = spec.1 ∧ tracks res.2 (k + length spec.2.1) spec.2.2 ∧
  rows res.2 = rows g ++ imap (λ i, sent_row g0 rand_hash (k + i)) spec.2.1.
Proof using LAWS.
  revert g k hist; induction steps as [|st steps IH]; intros g k hist T; cbn [st_for ledger_run].
  { cbn. rewrite Nat.add_0_r, app_nil_r. done. }
  pose proof (step_refines g k hist st T) as H. unfold refines in H. unfold st_bind.
  destruct (ledger_step _ _ _) as [[x hist']|e|].
  - destruct H as (g' & -> & T' & Hrows). specialize (IH g' (S k) hist' T'). cbn zeta in IH.
    destruct (ledger_run _ hist' steps) as [r [xs h]]. cbn [fst snd] in *. destruct IH as (I1 & I2 & I3).
    split_and!; [done| |].
    + cbn [length]. by rewrite Nat.add_succ_r.
    + rewrite I3, Hrows, <- app_assoc. cbn. rewrite Nat.add_0_r. do 2 f_equal.
      apply imap_ext. intros i y _. cbn. by rewrite Nat.add_succ_r.
  - rewrite H. cbn. by rewrite Nat.add_0_r, app_nil_r.
  - rewrite H. cbn. by rewrite Nat.add_0_r, app_nil_r.
Qed.

(** *** What the ledger says of calls *)

Lemma find_id_in hist id d : find_id hist id = Some d → d ∈ hist.
Proof.
  unfold find_id. case_decide; [done|]. intros Hd. destruct (filter _ hist) as [|d' l] eqn:E; [done|].
  simplify_eq/=. assert (d ∈ filter (λ d, d_id d = id) hist) as Hin by (rewrite E; by left).
  by apply list_elem_of_filter in Hin as [_ ?].
Qed.

Lemma find_contract_in hist c d : find_contract hist c = Some d → d ∈ hist.
Proof.
  unfold find_contract. intros Hd. destruct (filter _ hist) as [|d' l] eqn:E; [done|].
  simplify_eq/=. assert (d ∈ filter (λ d, d_contract d = c) hist) as Hin by (rewrite E; by left).
  by apply list_elem_of_filter in Hin as [_ ?].
Qed.

Lemma call_target_deployed st hist a key :
  call_target st (λ id, (λ d, (d_addr d, d_contract d)) <$> find_id hist id)
    (λ c, d_addr <$> find_contract hist c) = Ok (a, key) → key ≠ "" → a ∈ map d_addr hist.
Proof.
  intros H Hkey. assert (∀ d, d ∈ hist → d_addr d ∈ map d_addr hist) as Hin
    by (intros d Hd; apply list_elem_of_fmap; by exists d).
  unfold call_target in H. apply rbind_ok in H as ([ra rk] & Hr & H). cbn [fst snd] in *.
  assert (ContractRef st ≠ "" → ra ∈ map d_addr hist) as Hra.
  { intros Hc. rewrite decide_True in Hr by done. destruct (find_id hist _) as [d|] eqn:E; [|done].
    cbn in Hr. simplify_eq. by eapply Hin, find_id_in. }
  destruct (decide (Contract st ≠ "")).
  - destruct (decide (ra = zero_address)).
    + destruct (find_contract hist _) as [d|] eqn:E; [|done]. cbn in H. simplify_eq. by eapply Hin, find_contract_in.
    + simplify_eq. apply Hra. intros Hc. rewrite decide_False in Hr by tauto. by simplify_eq.
  - simplify_eq. apply Hra. intros Hc. rewrite decide_False in Hr by tauto. by simplify_eq.
Qed.

(** What a step that succeeds sends. *)
Lemma ledger_step_ok p hist st x hist' : ledger_step p hist st = Ok (x, hist') →
  x_value x = defaultStr (s_Value st) "0" ∧
  match x_to x with
  | Some a => a ∈ map d_addr hist ∧ hist' = hist ∧ ∃ data, x_data x = "0x" +:+ hex_EncodeToString data
  | None => ∃ c, Contracts p !! Contract st = Some c ∧ x_data x = Bytecode c ∧
      x_created x = crypto_CreateAddress (x_from x) (wrap_u64 (deployments hist (x_from x))) ∧
      hist' = mkDeployed (x_from x) (ID st) (Contract st) (x_created x) :: hist
  end.
Proof.
  unfold ledger_step. case_decide; [|case_decide; [|done]]; rewrite wrap_err_ok.
  - unfold ledger_deploy. destruct (Contracts p !! Contract st) as [c|]; [|done].
    intros (from & _ & [= <- <-])%rbind_ok. split; [done|]. cbn [x_to]. by exists c.
  - intros (y & Hy & [= -> <-])%rbind_ok. unfold ledger_call in Hy.
    apply rbind_ok in Hy as (from & _ & Hy). apply rbind_ok in Hy as ([to key] & Ht & Hy). cbn [fst snd] in Hy.
    case_decide as Hk; [done|]. destruct (Contracts p !! key); [|done].
    apply rbind_ok in Hy as (data & _ & [= <-]). split; [done|]. cbn [x_to]. split_and!; [|done|by exists data].
    by eapply call_target_deployed.
Qed.

Definition is_deploy_of (a : Address) (x : Sent) : bool :=
  match x_to x with None => bool_decide (x_from x = a) | Some _ => false end.

(** How many deployments [a] sent. *)
Definition sent_deploys (a : Address) (l : list Sent) : Z :=
  Z.of_nat (length (filter (λ y, is_deploy_of a y = true) l)).

Lemma sent_deploys_snoc a l x : sent_deploys a (l ++ [x]) = sent_deploys a l + (if is_deploy_of a x then 1 else 0).
Proof.
  unfold sent_deploys. rewrite filter_app, length_app, filter_cons, filter_nil.
  destruct (is_deploy_of a x); [rewrite decide_True by done|rewrite decide_False by done]; cbn [length]; lia.
Qed.

(** Number [k] of what was sent, with what was sent before it. *)
Definition sent_spec (p : GenProgram) (before : list Sent) (x : Sent) : Prop :=
  match x_to x with
  | None => x_created x = crypto_CreateAddress (x_from x)
      (wrap_u64 (sent_deploys (x_from x) before))
  | Some a => ∃ y, y ∈ before ∧ x_to y = None ∧ x_created y = a
  end.

(** The history of what was sent. *)
Definition hist_of (hist : list Deployed) (before : list Sent) : Prop :=
  (∀ a, deployments hist a = sent_deploys a before) ∧
  (∀ a, a ∈ map d_addr hist → ∃ y, y ∈ before ∧ x_to y = None ∧ x_created y = a).

Lemma hist_of_step p hist st x hist' before : hist_of hist before → ledger_step p hist st = Ok (x, hist') →
  sent_spec p before x ∧ hist_of hist' (before ++ [x]).
Proof.
  intros [H1 H2] (_ & Hx)%ledger_step_ok. unfold sent_spec. destruct (x_to x) as [a|] eqn:Et.
  - destruct Hx as (Ha & -> & _). split; [by apply H2|]. split.
    + intros b. rewrite sent_deploys_snoc, H1. unfold is_deploy_of. rewrite Et. lia.
    + intros b (y & Hy & ?)%H2. exists y. split; [apply elem_of_app; by left|done].
  - destruct Hx as (c & _ & _ & Hc & ->). rewrite <- H1. split; [done|]. split.
    + intros b. rewrite deployments_cons, sent_deploys_snoc, H1. unfold is_deploy_of. rewrite Et. cbn [d_sender].
      by case_decide; case_bool_decide.
    + intros b [->|Hb]%elem_of_cons; [exists x; split; [apply elem_of_app; right; by left|done]|]. apply H2 in Hb as (y & Hy & ?).
      exists y. split; [apply elem_of_app; by left|done].
Qed.

Lemma ledger_run_spec p steps hist before : hist_of hist before →
  ∀ k x, (ledger_run p hist steps).2.1 !! k = Some x →
  sent_spec p (before ++ take k (ledger_run p hist steps).2.1) x.
Proof.
  revert hist before; induction steps as [|st steps IH]; intros hist before Hh k x; cbn [ledger_run]; [done|].
  destruct (ledger_step p hist st) as [[y hist']|e|] eqn:E; [|done..].
  destruct (hist_of_step _ _ _ _ _ before Hh E) as [Hy Hh']. specialize (IH hist' _ Hh').
  destruct (ledger_run p hist' steps) as [r [xs h]]. cbn [fst snd] in *. destruct k as [|k]; cbn.
  - intros [= <-]. by rewrite app_nil_r.
  - intros Hk. specialize (IH k x Hk). by rewrite <- app_assoc in IH.
Qed.
End ledger.

(** ** Reading the rows *)

(** The transaction the CSV source makes of the k-th step. *)
Definition read_tx (now : Time) (k : nat) (x : Sent) : Transaction :=
  (NewTransaction (x_from x) (default EmptyAccountAddr (x_to x)) (default 0 (big_SetString (x_value x))) 0
    (Z.of_nat k + 1) now) <| Data := force [] (Hex2Bytes (x_data x)) |>.

(** A step the source accepts: the value is a number, the data are hexadecimal,
    and it is not a contract that calls itself. *)
Definition readable (x : Sent) : Prop :=
  is_Some (big_SetString (x_value x)) ∧ (∃ data, x_data x = "0x" +:+ hex_EncodeToString data) ∧
  x_to x ≠ Some (x_from x).

Section reading.
  Context {GL : GenLib} {LAWS : GenLaws}.

Lemma Hex2Addr_lower s t : map to_lower (String.list_ascii_of_string s) = String.list_ascii_of_string ("0x" +:+ t) →
  ∃ c s', s = String "0" (String c s') ∧ (c = "x"%char ∨ c = "X"%char) ∧
    map to_lower (String.list_ascii_of_string s') = String.list_ascii_of_string t.
Proof.
  assert (∀ c, to_lower c = "0"%char → c = "0"%char) as H0.
  { intros c. unfold to_lower. case_decide as Hn; [|done]. intros H%(f_equal nat_of_ascii).
    rewrite nat_ascii_embedding in H by lia. change (nat_of_ascii "0") with 48%nat in H. lia. }
  assert (∀ c, to_lower c = "x"%char → c = "x"%char ∨ c = "X"%char) as H1.
  { intros c. unfold to_lower. case_decide as Hn; [|by left]. intros H%(f_equal nat_of_ascii).
    rewrite nat_ascii_embedding in H by lia. right. rewrite <- (ascii_nat_embedding c).
    change (nat_of_ascii "x") with 120%nat in H. assert (nat_of_ascii c = 88%nat) as -> by lia. done. }
  destruct s as [|c0 [|c s']]; [done..|]. cbn. intros [= E0 E1 E2]. exists c, s'. rewrite (H0 c0) by done. auto.
Qed.

Lemma Hex2Addr_Hex a : Hex2Addr (addr_Hex a) = Ok a.
Proof using LAWS.
  destruct (Hex2Addr_lower _ _ (addr_Hex_digits a)) as (c & s' & -> & Hc & Hl).
  unfold Hex2Addr, Hex2Bytes. rewrite decide_True by done. rewrite (hex_Decode_lower s' _ Hl), hex_roundtrip.
  cbn [wrap_err rbind]. by rewrite copy_to_array_bytes.
Qed.

Lemma addr_key_not_same a b : addr_Hex a = addr_key b → a = b.
Proof using LAWS.
  intros H%(f_equal Hex2Addr). rewrite Hex2Addr_Hex, addr_key_value, Hex2Addr_key in H. by simplify_eq.
Qed.

(** Hexadecimal text is none of the words that mean that a column is empty. *)
Lemma hex_present t : ("0x" +:+ t ≠ "") ∧ equal_fold ("0x" +:+ t) "none" = false.
Proof. split; [done|]. apply bool_decide_eq_false_2. cbn. intros [= H]. Qed.
Lemma hex_no_data (data : bytes) : equal_fold ("0x" +:+ hex_EncodeToString data) "0x" = bool_decide (data = []).
Proof.
  destruct data as [|x data]; [reflexivity|]. apply bool_decide_ext. split; [|done].
  unfold hex_EncodeToString. cbn [map]. rewrite concat_nil_cons, !append_cons, append_nil. cbn. intros [=].
Qed.

Lemma line2Tx_sent g0 rand_hash k x now : readable x → Z.of_nat k < int64_max →
  line2Tx (sent_row g0 rand_hash k x) (Z.of_nat k + 1) false now = Ok (read_tx now k x).
Proof using LAWS.
  intros ([v Hv] & (data & Hd) & Hself) Hk. unfold line2Tx.
  assert (∀ i s, (i <? 0) = false → sent_row g0 rand_hash k x !! Z.to_nat i = Some s →
    idx (sent_row g0 rand_hash k x) i = Ok s) as Hi.
  { intros i s Hneg Hs. unfold idx. rewrite decide_False by lia. by rewrite Hs. }
  rewrite (Hi 3 _ eq_refl eq_refl), (Hi 4 _ eq_refl eq_refl), (Hi 5 _ eq_refl eq_refl), (Hi 12 _ eq_refl eq_refl),
    (Hi 6 _ eq_refl eq_refl), (Hi 7 _ eq_refl eq_refl), (Hi 8 _ eq_refl eq_refl).
  cbn [rbind]. clear Hi.
  rewrite andb_false_r, Hv.
  assert (Hex2Bytes (x_data x) = Ok data) as Hb by (rewrite Hd; apply (Hex2Bytes_roundtrip data "0x"); right; by left).
  assert (∀ t, negb (bool_decide ("0x" +:+ t = "")) && negb (equal_fold ("0x" +:+ t) "none") = true) as Hp.
  { intros t. destruct (hex_present t) as [Hn ->]. by rewrite bool_decide_eq_false_2. }
  assert (wrap_u64 (Z.of_nat k + 1) = Z.of_nat k + 1) as Hn by (apply wrap_u_id; unfold in_u, int64_max in *; lia).
  rewrite Hex2Addr_Hex. unfold read_tx. rewrite Hv, Hb. cbn [force default].
  assert (∀ to, (if (negb (bool_decide (x_data x = "")) && negb (equal_fold (x_data x) "none")) &&
      negb (equal_fold (x_data x) "0x") then
        Ok (NewTransaction (x_from x) to v 0 (wrap_u64 (Z.of_nat k + 1)) now) <| Data := data |>
      else Ok (NewTransaction (x_from x) to v 0 (wrap_u64 (Z.of_nat k + 1)) now)) =
    Ok (NewTransaction (x_from x) to v 0 (Z.of_nat k + 1) now) <| Data := data |>) as Hdata.
  { intros to. rewrite Hn, Hd, Hp, hex_no_data. by destruct data. }
  destruct (x_to x) as [a|].
  - rewrite addr_key_value, Hp, <- addr_key_value.
    rewrite (bool_decide_eq_false_2 (addr_Hex _ = addr_key a)) by (intros ?%addr_key_not_same; by subst).
    cbn [andb negb]. rewrite addr_key_value, Hex2Addr_key. cbn [wrap_err rbind]. exact (Hdata _).
  - rewrite addr_key_value, Hp. cbn [wrap_err rbind]. exact (Hdata _).
Qed.

(** The source after [k] of the transactions were returned: the rest is still to
    be read, or the file was read to its end. *)
Definition at_row (g0 : Generator) (rand_hash : nat → bytes) (xs : list Sent) (k : nat) (src : CSVSource) : Prop :=
  src = mkCSVSource (Z.of_nat k + 1) (map Row (drop k (imap (sent_row g0 rand_hash) xs))) false false ∨
  done src = true ∧ k = length xs.

Lemma csv_loop_sent g0 rand_hash xs now : Forall readable xs → Z.of_nat (length xs) < int64_max →
  ∀ n k ret size, Z.of_nat (length ret) + Z.of_nat n = size → (k ≤ length xs)%nat → ∃ src,
  csv_loop now size (map Row (drop k (imap (sent_row g0 rand_hash) xs))) (Z.of_nat k + 1) false ret =
    (Ok (ret ++ take n (drop k (imap (read_tx now) xs))), src) ∧ at_row g0 rand_hash xs ((k + n) `min` length xs) src.
Proof using LAWS.
  intros Hr Hlen. induction n as [|n IH]; intros k ret size Hsize Hk.
  - eexists. rewrite Nat.add_0_r, Nat.min_l, app_nil_r by lia.
    split; [|by left]. destruct (map Row (drop k (imap (sent_row g0 rand_hash) xs))); cbn [csv_loop]; by rewrite decide_False by lia.
  - destruct (decide (k = length xs)) as [->|Hne].
    { rewrite !(drop_ge (imap _ _)) by (by rewrite length_imap). rewrite take_nil, app_nil_r. cbn [map csv_loop].
      rewrite decide_True by lia. eexists. split; [done|]. right. split; [done|lia]. }
    destruct (lookup_lt_is_Some_2 xs k) as [x Hx]; [lia|].
    rewrite (drop_S _ (sent_row g0 rand_hash k x)) by (by rewrite list_lookup_imap, Hx).
    rewrite (drop_S _ (read_tx now k x)) by (by rewrite list_lookup_imap, Hx).
    cbn [map csv_loop firstn]. rewrite decide_True by lia.
    rewrite line2Tx_sent; [|by eapply Forall_lookup_1|lia].
    rewrite wrap_s_id by (unfold in_s, int64_max in *; lia).
    replace (Z.of_nat k + 1 + 1) with (Z.of_nat (S k) + 1) by lia.
    destruct (IH (S k) (ret ++ [read_tx now k x]) size) as (src & -> & H); [rewrite length_app; cbn [length]; lia|lia|].
    exists src. rewrite <- app_assoc. split; [done|]. by replace (k + S n)%nat with (S k + n)%nat by lia.
Qed.

(** Every row of a generated data set is about a contract, so a source that
    excludes contract transactions takes none. *)
Lemma line2Tx_excluded g0 rand_hash k x c now : ∃ e, line2Tx (sent_row g0 rand_hash k x) c true now = Err e.
Proof using LAWS.
  unfold line2Tx. set (row := sent_row g0 rand_hash k x).
  change (idx row 3) with (Ok (addr_Hex (x_from x))).
  change (idx row 4) with (Ok (match x_to x with Some a => addr_key a | None => "None" end)).
  change (idx row 5) with (Ok (match x_to x with Some _ => "None" | None => addr_key (x_created x) end)).
  change (idx row 6) with (Ok (bool01 (x_fromIsContract x))).
  change (idx row 7) with (Ok (match x_to x with Some _ => "1" | None => "0" end)).
  change (idx row 12) with (Ok (x_data x)). cbn [rbind]. destruct (x_to x) as [a|].
  - rewrite orb_true_r. by eexists.
  - rewrite addr_key_value. destruct (hex_present (hex_EncodeToString (addr_bytes (x_created x)))) as [Hn ->].
    rewrite (bool_decide_eq_false_2 _ Hn). by eexists.
Qed.

Definition filtered (row : list string) : Prop := ∀ c now, ∃ e, line2Tx row c true now = Err e.

Lemma csv_loop_excluded now size c ret rows : Forall filtered rows → ∃ src,
  csv_loop now size (map Row rows) c true ret = (Ok ret, src) ∧
  (done src = true ∨ src = mkCSVSource c (map Row rows) false true).
Proof.
  intros Hall. assert (∃ src, csv_loop now size (map Row rows) c true ret = (Ok ret, src) ∧
    (done src = true ∨ ¬ Z.of_nat (length ret) < size ∧ src = mkCSVSource c (map Row rows) false true)) as (src & E & H).
  2: { exists src. split; [done|]. naive_solver. }
  induction Hall as [|row rows Hrow _ IH]; cbn [map csv_loop]; (case_decide as Hs; [|eexists; split; [done|by right]]).
  - eexists. split; [done|by left].
  - destruct (Hrow c now) as [e ->]. destruct IH as (src & -> & [?|[? _]]); [eauto|done].
Qed.

Lemma tracks_new p b t bs tss : in_s 64 b → in_s 64 t →
  tracks (NewGenerator p b t bs tss) (NewGenerator p b t bs tss) 0 [].
Proof.
  intros Hb Ht. split; cbn [prog rows block ts bStep tStep NewGenerator]; try done.
  - cbn. by rewrite Z.add_0_r, wrap_s_id.
  - cbn. by rewrite Z.add_0_r, wrap_s_id.
  - intros id. unfold find_id. by case_decide.
  - intros id. unfold find_id. by case_decide.
  - intros a. cbn. split; [by intros ?%not_elem_of_empty|by intros ?%not_elem_of_nil].
Qed.

Lemma run_ledger rand_hash p b t bs tss : in_s 64 b → in_s 64 t →
  let g0 := NewGenerator p b t bs tss in
  (run rand_hash g0).1 = (ledger_run p [] (Steps p)).1 ∧
  rows (run rand_hash g0).2 = csvHeader :: imap (sent_row g0 rand_hash) (ledger_run p [] (Steps p)).2.1.
Proof using LAWS.
  intros Hb Ht g0. pose proof (steps_refine rand_hash g0 (Steps p) g0 0 [] (tracks_new p b t bs tss Hb Ht)) as (H1 & _ & H3).
  split; [exact H1 | exact H3].
Qed.

(** C25: the generator implements the ledger of deployments.  Whatever the
    program and whether or not a step fails, [run] returns what the abstract
    specification returns (the same error for the same step), and its rows are
    the title and one row for each step before the failure, in order, with the
    block numbers and timestamps of an arithmetic progression (wrapping at 64
    bits).  In what is sent, the n-th deployment of a sender gets the address
    go-ethereum derives from that sender and the nonce n (from 0), and every
    call goes to an address that an earlier row created. *)
Theorem generator_refines_ledger rand_hash p b t bs tss : in_s 64 b → in_s 64 t →
  let g0 := NewGenerator p b t bs tss in
  let '(r, (sent, _)) := ledger_run p [] (Steps p) in
  (run rand_hash g0).1 = r ∧
  rows (run rand_hash g0).2 = csvHeader :: imap (sent_row g0 rand_hash) sent ∧
  (∀ k x, sent !! k = Some x → sent_spec p (take k sent) x).
Proof using LAWS.
  intros Hb Ht g0. destruct (run_ledger rand_hash p b t bs tss Hb Ht) as [H1 H2].
  pose proof (ledger_run_spec p (Steps p) [] []) as Hs.
  destruct (ledger_run p [] (Steps p)) as [r [sent h]]. split_and!; [done..|]. apply Hs. split.
  - intros a. reflexivity.
  - by intros a ?%not_elem_of_nil.
Qed.

Lemma ledger_run_sent p steps hist h sent : ledger_run p hist steps = (Ok tt, (sent, h)) →
  length sent = length steps ∧ Forall2 (λ st x, ∃ hist hist', ledger_step p hist st = Ok (x, hist')) steps sent.
Proof.
  revert hist sent; induction steps as [|st steps IH]; intros hist sent; cbn; [by intros [= <- <-]|].
  destruct (ledger_step p hist st) as [[x hist']|e|] eqn:E; [|done..].
  destruct (ledger_run p hist' steps) as [r [xs h']] eqn:Er. intros [= -> <- ->].
  destruct (IH _ _ Er) as [Hl ?]. split; [cbn; by rewrite Hl|]. constructor; [by exists hist, hist'|done].
Qed.

(** What a run of requests, of the given sizes, returns in all. *)
Fixpoint requests (now : Time) (sizes : list Z) (src : CSVSource) : result (list Transaction) :=
  match sizes with
  | [] => Ok []
  | size :: sizes' =>
    let '(r, src') := ReadTxs now size src in
    let* txs := r in let* txs' := requests now sizes' src' in Ok (txs ++ txs')
  end.

Lemma requests_sent g0 rand_hash xs now sizes : Forall readable xs → Z.of_nat (length xs) < int64_max →
  Forall (Z.le 0) sizes → ∀ k src, at_row g0 rand_hash xs k src → (k ≤ length xs)%nat →
  requests now sizes src = Ok (take (Z.to_nat (foldr Z.add 0 sizes)) (drop k (imap (read_tx now) xs))).
Proof using LAWS.
  intros Hr Hlen. induction 1 as [|size sizes Hs Hall IH]; intros k src Hsrc Hk; [done|].
  assert (0 ≤ foldr Z.add 0 sizes) as Hpos by (clear -Hall; induction Hall; cbn; lia).
  cbn [requests foldr]. unfold ReadTxs, CSV_ReadTxs. destruct Hsrc as [->|[Hd ->]].
  - cbn [done cs_count cr excludeContractTxs]. rewrite decide_False by lia.
    destruct (csv_loop_sent g0 rand_hash xs now Hr Hlen (Z.to_nat size) k [] size) as (src' & -> & Hat); [cbn; lia|done|].
    cbn [rbind app]. rewrite (IH _ _ Hat) by lia. cbn [rbind]. f_equal.
    rewrite Z2Nat.inj_add by lia. rewrite <- take_take_drop, drop_drop. f_equal. f_equal.
    destruct (decide (k + Z.to_nat size ≤ length xs)%nat); [by rewrite Nat.min_l by lia|].
    rewrite Nat.min_r by lia. by rewrite !(drop_ge (imap _ _)) by (rewrite length_imap; lia).
  - rewrite Hd. cbn [rbind]. rewrite (IH (length xs) src) by (done || by right). cbn [rbind app].
    by rewrite !drop_ge, !take_nil by (rewrite length_imap; lia).
Qed.

Lemma requests_excluded now sizes rows : Forall (Z.le 0) sizes → Forall filtered rows → ∀ c src,
  (src = mkCSVSource c (map Row rows) false true ∨ done src = true) → requests now sizes src = Ok [].
Proof.
  intros Hall Hrows. induction Hall as [|size sizes Hs Hall IH]; intros c src Hsrc; [done|].
  cbn [requests]. unfold ReadTxs, CSV_ReadTxs. destruct Hsrc as [->|Hd].
  - cbn [done cs_count cr excludeContractTxs]. rewrite decide_False by lia.
    destruct (csv_loop_excluded now size c [] rows Hrows) as (src' & -> & H). cbn [rbind].
    rewrite (IH c src') by naive_solver. done.
  - rewrite Hd. cbn [rbind]. by rewrite (IH c src) by auto.
Qed.

(** C26: the data set is read back as it was meant.  Let the contracts be loaded
    from artifacts, the steps be fewer than 2^63-1 with numbers as values, and no
    contract call itself.  After a run that succeeds, a CSV source that takes
    contract transactions opens the rows it wrote, and any requests of sizes that
    are not negative return, joined, the first transactions of the scenario, as
    many as were asked for and there are: one for each step, in order, whose
    sender is the account the step resolves to (through the mixed-case text of
    the address), whose recipient is the contract called, or the empty address of
    a deployment, with the value, the next nonce, and the bytes of the bytecode or
    of the packed call as its data.  A source configured to exclude contract
    transactions ([exclude_contract_txs]) opens the same rows and returns nothing,
    whatever is asked of it: every generated row is about a contract. *)
Theorem generated_dataset_read rand_hash fl rootDir p0 p b t bs tss g' now sizes :
  in_s 64 b → in_s 64 t → useSolc fl = false → load_contracts fl rootDir p0 = Ok p →
  run rand_hash (NewGenerator p b t bs tss) = (Ok tt, g') →
  let sent := (ledger_run p [] (Steps p)).2.1 in
  (∀ st, st ∈ Steps p → is_Some (big_SetString (defaultStr (s_Value st) "0"))) →
  (∀ x, x ∈ sent → x_to x ≠ Some (x_from x)) →
  Z.of_nat (length (Steps p)) < int64_max → Forall (Z.le 0) sizes →
  length sent = length (Steps p) ∧
  ∃ src src_excl,
    NewCSVSource (Ok (map Row (rows g'))) false = Ok src ∧
    requests now sizes src = Ok (take (Z.to_nat (foldr Z.add 0 sizes)) (imap (read_tx now) sent)) ∧
    NewCSVSource (Ok (map Row (rows g'))) true = Ok src_excl ∧ requests now sizes src_excl = Ok [].
Proof using LAWS.
  intros Hb Ht Hf Hload Hrun sent Hval Hself Hlen Hsizes.
  destruct (load_contracts_hex fl rootDir p0 p Hf Hload) as (_ & _ & Hcode).
  destruct (run_ledger rand_hash p b t bs tss Hb Ht) as [H1 H2]. rewrite Hrun in H1, H2. cbn [fst snd] in H1, H2.
  subst sent. destruct (ledger_run p [] (Steps p)) as [r [sent h]] eqn:El. cbn [fst snd] in *. subst r.
  destruct (ledger_run_sent _ _ _ _ _ El) as [Hl Hsent]. split; [done|].
  assert (Forall readable sent) as Hr.
  { apply Forall_lookup_2. intros k x Hx.
    destruct (Forall2_lookup_r _ _ _ _ _ Hsent Hx) as (st & Hst & hi & hi' & Hok%ledger_step_ok).
    apply list_elem_of_lookup_2 in Hst, Hx. destruct Hok as [Hv Hx']. split_and!.
    - rewrite Hv. by apply Hval.
    - destruct (x_to x); [by destruct Hx' as (_ & _ & ?)|]. destruct Hx' as (c & Hc & -> & _). by eapply Hcode.
    - by apply Hself. }
  rewrite H2. eexists _, _. split_and!; [reflexivity| |reflexivity|].
  - apply (requests_sent (NewGenerator p b t bs tss) rand_hash sent now sizes Hr ltac:(lia) Hsizes 0%nat); [by left|lia].
  - apply (requests_excluded now sizes (imap (sent_row (NewGenerator p b t bs tss) rand_hash) sent) Hsizes) with 1; [|by left].
    apply Forall_lookup_2. intros k row. rewrite list_lookup_imap. destruct (sent !! k) as [x|]; [intros [= <-] c n|done]. apply line2Tx_excluded.
Qed.
End reading.

(** ** A concrete scenario *)

Module DatasetDemo.
Import GenDemo.

Definition hash (k : nat) : bytes := [Z_to_byte (Z.of_nat k)].
Definition sent : list Sent := (ledger_run loaded [] (Steps loaded)).2.1.

Example sent_ex : map (λ x, (x_from x, x_to x)) sent =
  let a := Hex2Addr "0x00000000000000000000000000000000000000A1" in
  let b := Hex2Addr "0x00000000000000000000000000000000000000b2" in
  let get := force EmptyAccountAddr in
  [(get a, None); (get a, None);
   (get b, Some (crypto_CreateAddress (get a) 0)); (get b, Some (crypto_CreateAddress (get a) 1))].
Proof. vm_compute. reflexivity. Qed.

Lemma generator_refines_ledger_witness :
  map (λ r, (nth 0 r "", nth 6 r "", nth 12 r "")) (rows (run hash (NewGenerator loaded 10 20 1 3)).2) =
    [("blockNumber", "fromIsContract", "callingFunction");
     ("10", "0", "0x0ab1"); ("11", "0", "0x0ab1"); ("12", "0", "0x030000002a01");
     ("13", "0", "0x0400000001000000000000000000000000000000a101")] ∧
  (∀ k x, sent !! k = Some x → sent_spec loaded (take k sent) x).
Proof.
  split; [vm_compute; reflexivity|].
  pose proof (generator_refines_ledger hash loaded 10 20 1 3) as H. unfold sent.
  destruct (ledger_run loaded [] (Steps loaded)) as [r [xs h]]. apply H; split; discriminate || reflexivity.
Defined.

Lemma generated_dataset_read_witness :
  length sent = length (Steps loaded) ∧
  ∃ src src_excl,
    NewCSVSource (Ok (map Row (rows (run hash (NewGenerator loaded 10 20 1 3)).2))) false = Ok src ∧
    requests 5 [1; 0; 2] src = Ok (take 3 (imap (read_tx 5) sent)) ∧
    NewCSVSource (Ok (map Row (rows (run hash (NewGenerator loaded 10 20 1 3)).2))) true = Ok src_excl ∧
    requests 5 [1; 0; 2] src_excl = Ok [].
Proof.
  apply (generated_dataset_read hash fl "dir" parsed loaded 10 20 1 3 _ 5 [1; 0; 2]).
  - split; discriminate || reflexivity.
  - split; discriminate || reflexivity.
  - reflexivity.
  - apply force_ok. vm_compute. reflexivity.
  - apply run_fst. vm_compute. reflexivity.
  - apply Forall_forall. apply (bool_decide_unpack _). vm_compute. exact I.
  - apply Forall_forall. apply (bool_decide_unpack _). vm_compute. exact I.
  - vm_compute. reflexivity.
  - apply (bool_decide_unpack _). vm_compute. exact I.
Defined.
End DatasetDemo.
