(* ===== verification/Network.v ===== *)
(** * Node topology and message sending

    Models pkg/nodetopo/topogetter.go (which nodes and leaders a shard has),
    pkg/network/network.go (sending to several nodes) and
    pkg/message/senderfunc.go (sending transactions to shards).

    The transport below [P2PConn] is outside the model: [SendMsg2Dest] puts the
    message in the connection's outbox.  Several sends of one call run in
    goroutines of their own, so an outbox is meaningful up to the order of its
    entries.  A Go map that is ranged over is an argument in the order it is
    ranged over. *)

From S2P Require Import Prelude GoHash Account Bloom Block Config.
From Stdlib Require Import Lia.

Local Open Scope Z_scope.

(** ** nodetopo.TopoGetter *)

Record TopoGetter := mkTopoGetter {
  leaders : gmap Z NodeInfo;
  shard2nodes : gmap Z (list NodeInfo);
}.
#[export] Instance TopoGetter_eta : Eta TopoGetter := λ t, mkTopoGetter (leaders t) (shard2nodes t).

Definition NewTopoGetter (l : gmap Z NodeInfo) (s : gmap Z (list NodeInfo)) : TopoGetter :=
  mkTopoGetter l s.

(** [t.shard2nodes[shard] = append(t.shard2nodes[shard], info)] *)
Definition append_node (shard : Z) (info : NodeInfo) (t : TopoGetter) : TopoGetter :=
  t <| shard2nodes ::= λ m, <[shard := default [] (m !! shard) ++ [info]]> m |>.

Definition add_node (shard : Z) (t : TopoGetter) (node : Z) : TopoGetter :=
  let t := append_node shard (mkNodeInfo node shard) t in
  if decide (node = 0) then t <| leaders ::= λ m, <[shard := mkNodeInfo node shard]> m |> else t.

Definition SetTopoGetter (infoSet : list (Z * list Z)) (_ : TopoGetter) : TopoGetter :=
  let t := mkTopoGetter ∅ ∅ in
  let t := fold_left (λ t p, fold_left (add_node p.1) p.2 t) infoSet t in
  let t := t <| leaders ::= λ m, <[SupervisorShardID := mkNodeInfo 0 SupervisorShardID]> m |> in
  append_node SupervisorShardID (mkNodeInfo 0 SupervisorShardID) t.

Definition GetSupervisor (t : TopoGetter) : result NodeInfo :=
  match leaders t !! SupervisorShardID with
  | Some leader => Ok leader
  | None => Err "no supervisor found"
  end.

Definition GetNodesInShard (shard : Z) (t : TopoGetter) : result (list NodeInfo) :=
  match shard2nodes t !! shard with
  | Some v => Ok v
  | None => Err "shard %d not found"
  end.

Definition GetLeader (shard : Z) (t : TopoGetter) : result NodeInfo :=
  match leaders t !! shard with
  | Some v => Ok v
  | None => Err "shard %d not found"
  end.

Definition ChangeLeader (shard : Z) (info : NodeInfo) : M TopoGetter unit := λ t,
  match leaders t !! shard with
  | Some _ => (Ok tt, t <| leaders ::= λ m, <[shard := info]> m |>)
  | None => (Err "shard %d not found", t)
  end.

Definition GetAllLeaders (t : TopoGetter) : result (list NodeInfo) :=
  Ok (filter (λ v, ni_ShardID v ≠ SupervisorShardID) (map_to_list (leaders t)).*2).

(** ** network.ConnHandler *)

Record Conn := mkConn {
  buffer : list WrappedMsg;
  outbox : list (NodeInfo * WrappedMsg);
}.
#[export] Instance Conn_eta : Eta Conn := λ c, mkConn (buffer c) (outbox c).

(** The [P2PConn] the model starts from: what is sent, and the messages received. *)
Definition SendMsg2Dest (dest : NodeInfo) (msg : WrappedMsg) (c : Conn) : Conn :=
  c <| outbox ::= λ o, o ++ [(dest, msg)] |>.
Definition DrainMsgBuffer (c : Conn) : list WrappedMsg * Conn :=
  (buffer c, c <| buffer := [] |>).

Definition MSendDifferentMessages (node2Msg : gmap NodeInfo WrappedMsg) (c : Conn) : Conn :=
  fold_left (λ c p, SendMsg2Dest p.1 p.2 c) (map_to_list node2Msg) c.

Definition GroupBroadcastMessage (group : list NodeInfo) (msg : WrappedMsg) (c : Conn) : Conn :=
  fold_left (λ c node, SendMsg2Dest node msg c) group c.

(** ** message.SendWrappedTxs2Shards *)

Section sender.
  Context {BL : BitSetLib} {GM : GobMsg}.

(** The messages of the loop from shard [i] on. *)
Fixpoint wrap_shard_txs (i : Z) (txs : list (list Transaction)) (r : TopoGetter)
    (node2Msg : gmap NodeInfo WrappedMsg) : result (gmap NodeInfo WrappedMsg) :=
  match txs with
  | [] => Ok node2Msg
  | txs2Shard :: txs' =>
    if decide (length txs2Shard = 0%nat) then wrap_shard_txs (i + 1) txs' r node2Msg
    else
      let* l := wrap_err "GetLeader failed" (GetLeader i r) in
      let* w := wrap_err "WrapMsg failed" (WrapMsg KReceiveTxs (mkReceiveTxsMsg txs2Shard)) in
      wrap_shard_txs (i + 1) txs' r (<[l := w]> node2Msg)
  end.

Definition SendWrappedTxs2Shards (txs : list (list Transaction)) (r : TopoGetter) : M Conn unit := λ c,
  match wrap_shard_txs 0 txs r ∅ with
  | Ok node2Msg => (Ok tt, MSendDifferentMessages node2Msg c)
  | Err e => (Err e, c)
  | Panic => (Panic, c)
  end.
End sender.

(** ** Facts *)

Lemma fold_send (l : list (NodeInfo * WrappedMsg)) c :
  fold_left (λ c p, SendMsg2Dest p.1 p.2 c) l c = c <| outbox ::= λ o, o ++ l |>.
Proof.
  revert c; induction l as [|[d m] l IH]; intros c; cbn -[SendMsg2Dest].
  - destruct c; cbn. by rewrite app_nil_r.
  - rewrite IH. destruct c; cbn. by rewrite <- app_assoc.
Qed.

Lemma MSend_outbox m c : MSendDifferentMessages m c = c <| outbox ::= λ o, o ++ map_to_list m |>.
Proof. apply fold_send. Qed.

Lemma GroupBroadcast_outbox group msg c :
  GroupBroadcastMessage group msg c = c <| outbox ::= λ o, o ++ map (λ n, (n, msg)) group |>.
Proof.
  unfold GroupBroadcastMessage. rewrite <- fold_send. revert c.
  induction group as [|n group IH]; intros c; cbn -[SendMsg2Dest]; [done|]. apply IH.
Qed.

(** A topology whose leaders are the nodes 0 of its shards, as [SetTopoGetter] leaves it. *)
Definition own_leaders (t : TopoGetter) : Prop :=
  ∀ s n, leaders t !! s = Some n → n = mkNodeInfo 0 s.

Lemma add_nodes_spec shard nodes t :
  let t' := fold_left (add_node shard) nodes t in
  (∀ s, leaders t' !! s = if decide (s = shard ∧ 0 ∈ nodes) then Some (mkNodeInfo 0 shard)
                          else leaders t !! s) ∧
  (∀ s, default [] (shard2nodes t' !! s) =
        default [] (shard2nodes t !! s) ++
        (if decide (s = shard) then map (λ n, mkNodeInfo n shard) nodes else [])).
Proof.
  revert t; induction nodes as [|n nodes IH]; intros t.
  - cbn. split; intros s.
    + rewrite decide_False; [done|]. intros [_ H]. by apply not_elem_of_nil in H.
    + case_decide; by rewrite app_nil_r.
  - cbn. destruct (IH (add_node shard t n)) as [H1 H2]. split; intros s.
    + rewrite H1. unfold add_node, append_node. destruct (decide (n = 0)) as [->|Hn]; cbn.
      * destruct (decide (s = shard)) as [->|Hs].
        -- rewrite lookup_insert_eq. repeat case_decide; rewrite ?elem_of_cons in *; naive_solver.
        -- rewrite lookup_insert_ne by done. rewrite !decide_False; [done|naive_solver..].
      * repeat case_decide; rewrite ?elem_of_cons in *; naive_solver.
    + rewrite H2. unfold add_node, append_node.
      assert (∀ t0 : TopoGetter, shard2nodes (if decide (n = 0)
        then t0 <| leaders ::= λ m, <[shard := mkNodeInfo n shard]> m |> else t0) = shard2nodes t0) as E
        by (intros; destruct (decide (n = 0)); reflexivity). cbn zeta. rewrite E. cbn.
      destruct (decide (s = shard)) as [->|Hs].
      * rewrite lookup_insert_eq. cbn. by rewrite <- app_assoc.
      * by rewrite lookup_insert_ne.
Qed.

Lemma set_topo_fold infoSet t : NoDup infoSet.*1 →
  let t' := fold_left (λ t p, fold_left (add_node p.1) p.2 t) infoSet t in
  (∀ s nodes, (s, nodes) ∈ infoSet →
    leaders t' !! s = (if decide (0 ∈ nodes) then Some (mkNodeInfo 0 s) else leaders t !! s) ∧
    default [] (shard2nodes t' !! s) = default [] (shard2nodes t !! s) ++ map (λ n, mkNodeInfo n s) nodes) ∧
  (∀ s, s ∉ infoSet.*1 → leaders t' !! s = leaders t !! s ∧
    default [] (shard2nodes t' !! s) = default [] (shard2nodes t !! s)).
Proof.
  revert t; induction infoSet as [|[s0 nodes0] l IH]; intros t Hnd; cbn.
  { split; [|done]. intros s nodes H. by apply not_elem_of_nil in H. }
  cbn in Hnd. apply NoDup_cons in Hnd as [Hs0 Hnd].
  destruct (add_nodes_spec s0 nodes0 t) as [A1 A2]. set (t1 := fold_left (add_node s0) nodes0 t) in *.
  destruct (IH t1 Hnd) as [I1 I2]. split.
  - intros s nodes [[= -> ->]|Hin]%elem_of_cons.
    + destruct (I2 s0 Hs0) as [-> ->]. rewrite A1, A2. rewrite (decide_True (P := s0 = s0)) by done.
      split; [|done]. repeat case_decide; naive_solver.
    + assert (s ≠ s0) as Hne.
      { intros ->. apply Hs0. apply list_elem_of_fmap. by exists (s0, nodes). }
      destruct (I1 s nodes Hin) as [-> ->]. rewrite A1, A2. rewrite (decide_False (P := s = s0)) by done.
      rewrite (decide_False (P := s = s0 ∧ 0 ∈ nodes0)) by naive_solver. by rewrite app_nil_r.
  - intros s Hs. apply not_elem_of_cons in Hs as [Hne Hs]. destruct (I2 s Hs) as [-> ->].
    rewrite A1, A2. rewrite (decide_False (P := s = s0)) by done.
    rewrite (decide_False (P := s = s0 ∧ 0 ∈ nodes0)) by naive_solver. by rewrite app_nil_r.
Qed.

(** Every leader of a topology set up this way is node 0 of its shard. *)
Lemma SetTopoGetter_own infoSet t : NoDup infoSet.*1 → SupervisorShardID ∉ infoSet.*1 →
  own_leaders (SetTopoGetter infoSet t).
Proof.
  intros Hnd Hsup. unfold SetTopoGetter.
  pose proof (set_topo_fold infoSet (mkTopoGetter ∅ ∅) Hnd) as [F1 F2]. cbn zeta in F1, F2.
  set (t1 := fold_left _ infoSet _) in *. intros s n. cbn. intros [[<- <-]|[Hne Hn]]%lookup_insert_Some; [done|].
  destruct (decide (s ∈ infoSet.*1)) as [Hin|Hin].
  - apply list_elem_of_fmap in Hin as ([s' nodes] & -> & Hin). cbn in *.
    destruct (F1 s' nodes Hin) as [H1 _]. rewrite H1 in Hn. case_decide; [by simplify_eq | done].
  - destruct (F2 s Hin) as [H2 _]. cbn in H2. rewrite H2 in Hn. done.
Qed.

(** After [SetTopoGetter], whatever the topology held before and in
    whatever order the node map is ranged over, every shard of the node map has
    exactly its registered nodes, its leader is its node 0 when that node is
    registered (and it has none otherwise), the supervisor is node 0 of the
    supervisor shard, and a shard that is not in the map has no leader. *)
Theorem SetTopoGetter_spec infoSet t : NoDup infoSet.*1 → SupervisorShardID ∉ infoSet.*1 →
  let t' := SetTopoGetter infoSet t in
  GetSupervisor t' = Ok (mkNodeInfo 0 SupervisorShardID) ∧
  (∀ s nodes, (s, nodes) ∈ infoSet → nodes ≠ [] →
    GetNodesInShard s t' = Ok (map (λ n, mkNodeInfo n s) nodes) ∧
    GetLeader s t' = if decide (0 ∈ nodes) then Ok (mkNodeInfo 0 s) else Err "shard %d not found") ∧
  (∀ s, s ∉ infoSet.*1 → s ≠ SupervisorShardID → GetLeader s t' = Err "shard %d not found") ∧
  own_leaders t'.
Proof.
  intros Hnd Hsup. cbn zeta. unfold SetTopoGetter.
  pose proof (set_topo_fold infoSet (mkTopoGetter ∅ ∅) Hnd) as [F1 F2]. cbn zeta in F1, F2.
  set (t1 := fold_left _ infoSet _) in *.
  assert (∀ s, s ≠ SupervisorShardID → s ∉ infoSet.*1 → leaders t1 !! s = None) as Hno.
  { intros s _ Hs. by destruct (F2 s Hs) as [-> _]. }
  split_and!.
  - unfold GetSupervisor. cbn. by rewrite lookup_insert_eq.
  - intros s nodes Hin Hnil. assert (SupervisorShardID ≠ s) as Hne.
    { intros <-. apply Hsup. apply list_elem_of_fmap. by exists (SupervisorShardID, nodes). }
    destruct (F1 s nodes Hin) as [H1 H2]. unfold GetNodesInShard, GetLeader. cbn.
    rewrite !lookup_insert_ne by done. rewrite H1. cbn in H2. split.
    + destruct (shard2nodes t1 !! s) as [l|]; cbn in H2; [by rewrite H2|].
      by destruct nodes.
    + by case_decide.
  - intros s Hs Hne. unfold GetLeader. cbn. rewrite lookup_insert_ne by done. by rewrite Hno.
  - by apply (SetTopoGetter_own infoSet t).
Qed.

Section sender_facts.
  Context {BL : BitSetLib} {GM : GobMsg}.

(** The message shard [i]'s leader gets for the transactions [txs]. *)
Definition shard_msg (r : TopoGetter) (i : Z) (txs : list Transaction) (p : NodeInfo * WrappedMsg) : Prop :=
  txs ≠ [] ∧ GetLeader i r = Ok p.1 ∧ WrapMsg KReceiveTxs (mkReceiveTxsMsg txs) = Ok p.2.

Lemma wrap_shard_txs_spec i txs r m m' : own_leaders r →
  (∀ s, i ≤ s → m !! mkNodeInfo 0 s = None) →
  wrap_shard_txs i txs r m = Ok m' →
  (∀ n w, m' !! n = Some w ↔ m !! n = Some w ∨
    ∃ k l, txs !! k = Some l ∧ shard_msg r (i + Z.of_nat k) l (n, w)) ∧
  (∀ k l, txs !! k = Some l → l ≠ [] → ∃ p, shard_msg r (i + Z.of_nat k) l p).
Proof.
  intros Hown. revert i m; induction txs as [|l txs IH]; intros i m Hm; cbn [wrap_shard_txs].
  { intros [= <-]. split; [|done]. intros n w. split; [by left|]. intros [?|(k & l & ? & _)]; done. }
  destruct (decide (length l = 0%nat)) as [Hl|Hl].
  - apply nil_length_inv in Hl as ->. intros H.
    destruct (IH (i + 1) m) as [H1 H2]; [intros; apply Hm; lia|done|]. split.
    + intros n w. rewrite H1. split; (intros [?|(k & l & Hk & Hs)]; [by left|right]).
      * exists (S k), l. split; [done|]. by replace (i + Z.of_nat (S k)) with (i + 1 + Z.of_nat k) by lia.
      * destruct k as [|k]; [cbn in Hk; simplify_eq; by destruct Hs|]. exists k, l. split; [done|].
        by replace (i + 1 + Z.of_nat k) with (i + Z.of_nat (S k)) by lia.
    + intros [|k] l Hk Hne; [cbn in Hk; by simplify_eq|].
      replace (i + Z.of_nat (S k)) with (i + 1 + Z.of_nat k) by lia. by apply (H2 k).
  - intros (ld & El & H)%rbind_ok. apply wrap_err_ok in El.
    apply rbind_ok in H as (w0 & Ew & H). apply wrap_err_ok in Ew.
    assert (ld = mkNodeInfo 0 i) as ->.
    { apply Hown. unfold GetLeader in El. by case_match; simplify_eq. }
    assert (l ≠ []) as Hln by (by intros ->).
    destruct (IH (i + 1) (<[mkNodeInfo 0 i := w0]> m)) as [H1 H2]; [|done|].
    { intros s Hs. rewrite lookup_insert_ne; [apply Hm; lia|]. intros [= ->]. lia. }
    split.
    + intros n w. rewrite H1, lookup_insert_Some. split.
      * intros [[[<- <-]|[_ ?]]|(k & l' & Hk & Hs)]; [right|by left|right].
        -- exists 0%nat, l. split; [done|]. rewrite Z.add_0_r. by split_and!.
        -- exists (S k), l'. split; [done|].
           by replace (i + Z.of_nat (S k)) with (i + 1 + Z.of_nat k) by lia.
      * intros [Hn|([|k] & l' & Hk & Hs)].
        -- left. right. split; [|done]. intros <-. by rewrite Hm in Hn by lia.
        -- cbn in Hk. simplify_eq. left. left. rewrite Z.add_0_r in Hs. destruct Hs as (_ & Hs1 & Hs2).
           cbn in *. rewrite El in Hs1. rewrite Ew in Hs2. by simplify_eq.
        -- right. exists k, l'. split; [done|].
           by replace (i + 1 + Z.of_nat k) with (i + Z.of_nat (S k)) by lia.
    + intros [|k] l' Hk Hne.
      * cbn in Hk. simplify_eq. rewrite Z.add_0_r. exists (mkNodeInfo 0 i, w0). by split_and!.
      * replace (i + Z.of_nat (S k)) with (i + 1 + Z.of_nat k) by lia. by apply (H2 k).
Qed.

(** The messages it adds, in the order of the shards: one per shard that gets
    something, holding what the shard gets. *)
Definition shard_packets (r : TopoGetter) (i : Z) (txs : list (list Transaction))
    (l : list (list Transaction * (NodeInfo * WrappedMsg))) : Prop :=
  concat l.*1 = concat txs ∧
  Forall (λ q, ∃ k, txs !! k = Some q.1 ∧ shard_msg r (i + Z.of_nat k) q.1 q.2) l.

Lemma wrap_shard_txs_packets i txs r m m' : own_leaders r → (∀ s, i ≤ s → m !! mkNodeInfo 0 s = None) →
  wrap_shard_txs i txs r m = Ok m' →
  ∃ l, map_to_list m' ≡ₚ l.*2 ++ map_to_list m ∧ shard_packets r i txs l.
Proof.
  intros Hown. revert i m; induction txs as [|t txs IH]; intros i m Hm; cbn [wrap_shard_txs].
  { intros [= <-]. exists []. split; [done|]. by split. }
  assert (∀ l, shard_packets r (i + 1) txs l → Forall (λ q, ∃ k, (t :: txs) !! k = Some q.1 ∧
    shard_msg r (i + Z.of_nat k) q.1 q.2) l) as Hshift.
  { intros l [_ Hl]. eapply Forall_impl; [exact Hl|]. intros q (k & Hk & Hq). exists (S k).
    split; [done|]. by replace (i + Z.of_nat (S k)) with (i + 1 + Z.of_nat k) by lia. }
  destruct (decide (length t = 0%nat)) as [Ht|Ht].
  - apply nil_length_inv in Ht as ->. intros (l & Hp & Hl)%IH; [|intros; apply Hm; lia].
    exists l. split; [done|]. split; [apply Hl | by apply Hshift].
  - intros (ld & El & H)%rbind_ok. apply wrap_err_ok in El.
    apply rbind_ok in H as (w & Ew & H). apply wrap_err_ok in Ew.
    assert (ld = mkNodeInfo 0 i) as ->.
    { apply Hown. unfold GetLeader in El. by case_match; simplify_eq. }
    apply IH in H as (l & Hp & Hl).
    + exists ((t, (mkNodeInfo 0 i, w)) :: l). split.
      * rewrite Hp, map_to_list_insert by (apply Hm; lia). cbn. by rewrite <- Permutation_middle.
      * split; [rewrite fmap_cons; cbn [concat fst]; f_equal; apply Hl|]. constructor; [|by apply Hshift].
        exists 0%nat. rewrite Z.add_0_r. split; [done|]. cbn [fst snd]. split_and!; [by intros -> | done..].
    + intros s Hs. rewrite lookup_insert_ne; [apply Hm; lia|]. intros [= ->]. lia.
Qed.

Lemma SendWrappedTxs2Shards_packets txs r c c' : own_leaders r →
  SendWrappedTxs2Shards txs r c = (Ok tt, c') →
  ∃ l sent, sent ≡ₚ l.*2 ∧ c' = c <| outbox ::= λ o, o ++ sent |> ∧ shard_packets r 0 txs l.
Proof.
  intros Hown. unfold SendWrappedTxs2Shards.
  destruct (wrap_shard_txs 0 txs r ∅) as [m|e|] eqn:E; try discriminate. intros [= <-].
  destruct (wrap_shard_txs_packets 0 txs r ∅ m Hown) as (l & Hp & Hl); [intros; by rewrite lookup_empty|done|].
  rewrite MSend_outbox. exists l, (map_to_list m). split_and!; [|done..].
  by rewrite Hp, map_to_list_empty, app_nil_r.
Qed.

(** What a call that succeeds puts in the outbox, and that one that fails sends nothing. *)
Lemma SendWrappedTxs2Shards_ok txs r c c' : own_leaders r →
  SendWrappedTxs2Shards txs r c = (Ok tt, c') →
  ∃ sent, c' = c <| outbox ::= λ o, o ++ sent |> ∧ NoDup sent ∧
    (∀ p, p ∈ sent ↔ ∃ k l, txs !! k = Some l ∧ shard_msg r (Z.of_nat k) l p) ∧
    (∀ k l, txs !! k = Some l → l ≠ [] → ∃ p, p ∈ sent ∧ shard_msg r (Z.of_nat k) l p).
Proof.
  intros Hown. unfold SendWrappedTxs2Shards.
  destruct (wrap_shard_txs 0 txs r ∅) as [m|e|] eqn:E; try discriminate. intros [= <-].
  destruct (wrap_shard_txs_spec 0 txs r ∅ m Hown) as [H1 H2]; [intros; by rewrite lookup_empty|done|].
  rewrite MSend_outbox. exists (map_to_list m).
  assert (∀ p, p ∈ map_to_list m ↔ ∃ k l, txs !! k = Some l ∧ shard_msg r (Z.of_nat k) l p) as Hp.
  { intros [n w]. rewrite elem_of_map_to_list, H1, lookup_empty. split; [by intros [?|?]|by right]. }
  split_and!; [done | apply NoDup_map_to_list | exact Hp |].
  intros k l Hk Hne. destruct (H2 k l Hk Hne) as [p Hs]. exists p. split; [|exact Hs].
  apply Hp. by exists k, l.
Qed.

Lemma SendWrappedTxs2Shards_fail txs r c x c' :
  SendWrappedTxs2Shards txs r c = (x, c') → is_ok x = false → c' = c.
Proof. unfold SendWrappedTxs2Shards. case_match; intros [= <- <-]; done. Qed.
End sender_facts.

Module NetworkWitness.
Lemma SetTopoGetter_spec_witness :
  GetLeader 1 (SetTopoGetter [(0, [0; 1]); (1, [1; 0])] (NewTopoGetter ∅ ∅)) = Ok (mkNodeInfo 0 1).
Proof.
  destruct (SetTopoGetter_spec [(0, [0; 1]); (1, [1; 0])] (NewTopoGetter ∅ ∅)) as (_ & H & _).
  - apply (bool_decide_unpack _). vm_compute. exact I.
  - apply (bool_decide_unpack _). vm_compute. exact I.
  - destruct (H 1 [1; 0]) as [_ E]; [right; left | discriminate | exact E].
Defined.
End NetworkWitness.
