(* ===== verification/Transport.v ===== *)
(** * The direct transport

    Models pkg/network/clientconnrpc/rpcconn.go: the connection of a node over
    gRPC, with its bounded message buffer and its pool of clients.  Network.v
    starts from an ideal connection ([Conn]); this file says how far the real
    one is ideal.

    The buffered channel is the list of its messages.  gRPC is not part of the
    program: its client is an argument of the operations, and a group of nodes
    that call each other is a run in which gRPC decides when a server's handler
    runs and when and how a call is answered, under hypotheses ([grpc_laws]) that
    state what gRPC documents of unary calls and nothing of their order. *)

From S2P Require Import Prelude GoHash Account Bloom Block Config Network.
From Stdlib Require Import Lia.

Local Open Scope Z_scope.

(** ** The message buffer *)

Definition msgBufferSize : Z := Z.shiftl 1 20.

(** [select { case buffer <- msg: default: }] *)
Definition buffer_add (msg : WrappedMsg) : M (list WrappedMsg) unit := λ buf,
  if decide (Z.of_nat (length buf) < msgBufferSize) then (Ok tt, buf ++ [msg])
  else (Err "message buffer is full or closed", buf).

(** The loop that receives until the channel is empty. *)
Fixpoint buffer_drain (ret buf : list WrappedMsg) : list WrappedMsg * list WrappedMsg :=
  match buf with
  | [] => (ret, [])
  | msg :: buf' => buffer_drain (ret ++ [msg]) buf'
  end.

Lemma buffer_drain_all ret buf : buffer_drain ret buf = (ret ++ buf, []).
Proof.
  revert ret; induction buf as [|m buf IH]; intros ret; cbn; [by rewrite app_nil_r|]. by rewrite IH, <- app_assoc.
Qed.

Lemma buffer_add_cases msg buf : buffer_add msg buf =
  if decide (Z.of_nat (length buf) < msgBufferSize) then (Ok tt, buf ++ [msg])
  else (Err "message buffer is full or closed", buf).
Proof. reflexivity. Qed.

(** ** rpcconn.go *)

(** The From and To of a request are the shard and node of a NodeInfo. *)
Record HandleMessageRequest := mkHandleMessageRequest {
  req_Msg : WrappedMsg; req_From : NodeInfo; req_To : NodeInfo;
}.

(** [Client]: a gRPC client connection; [World]: what is behind it. *)
Section rpc.
  Context {Client World : Type}.
  Context (grpc_NewClient : string → result Client).
  Context (client_HandleMessage : Client → HandleMessageRequest → M World bool).

Record RPCConn := mkRPCConn {
  me : NodeInfo;
  info2Host : gmap NodeInfo string;
  msgBuffer : list WrappedMsg;
  clientPool : gmap NodeInfo Client;
}.
#[export] Instance RPCConn_eta : Eta RPCConn := λ r,
  mkRPCConn (me r) (info2Host r) (msgBuffer r) (clientPool r).

Definition NewRPCConn (me : NodeInfo) (info2Host : gmap NodeInfo string) : RPCConn :=
  mkRPCConn me info2Host [] ∅.

Definition add2LocalBuffer (msg : WrappedMsg) : M RPCConn unit :=
  st_zoom msgBuffer (λ b r, r <| msgBuffer := b |>) (buffer_add msg).

(** The server's handler; the value is the Ack. *)
Definition HandleMessage (req : HandleMessageRequest) : M RPCConn bool :=
  st_wrap "add message to buffer failed" (add2LocalBuffer (req_Msg req)) ;;!
  st_ret true.

Definition rpc_DrainMsgBuffer : M RPCConn (list WrappedMsg) := λ r,
  let '(ret, b) := buffer_drain [] (msgBuffer r) in (Ok ret, r <| msgBuffer := b |>).

Definition on_conn {A} (m : M RPCConn A) : M (RPCConn * World) A := st_zoom fst (λ r s, (r, s.2)) m.
Definition on_world {A} (m : M World A) : M (RPCConn * World) A := st_zoom snd (λ w s, (s.1, w)) m.

Definition sendMessage (dest : NodeInfo) (msg : WrappedMsg) : M (RPCConn * World) unit :=
  let! s := st_get in
  if decide (me s.1 = dest) then on_conn (add2LocalBuffer msg)
  else
    match info2Host s.1 !! dest with
    | None => st_fail "node %+v not exist in the p2p connection"
    | Some host =>
      match clientPool s.1 !! dest with
      | Some _ => st_ret tt
      | None =>
        let! conn := st_wrap "gRPC client fail to connect" (st_lift (grpc_NewClient host)) in
        on_conn (st_modify (λ r, r <| clientPool ::= <[dest := conn]> |>))
      end ;;!
      let! s := st_get in
      let! client := st_lift (or_panic (clientPool s.1 !! dest)) in
      st_wrap "gRPC client fail to send message, type: %s, err"
        (on_world (client_HandleMessage client (mkHandleMessageRequest msg (me s.1) dest))) ;;!
      st_ret tt
    end.

Definition rpc_SendMsg2Dest (dest : NodeInfo) (msg : WrappedMsg) : M (RPCConn * World) unit :=
  log_error (sendMessage dest msg).
End rpc.
Arguments RPCConn : clear implicits.

(** ** A group of nodes

    Every operation of a node runs under its locks, so a run of the group is a
    sequence of atomic actions: a send up to the point where it hands its call to
    gRPC (or to its end, when it makes none), the end of a send that made a call,
    a server's handler, and a drain.  Which handler runs when, and how a call is
    answered, is not computed: it is part of the run. *)

Section group.
  Context {Client : Type}.
  Context (grpc_NewClient : string → result Client).

(** A [sendMessage] that was called: the call it made, if it made one, how gRPC
    answers that call, and what [sendMessage] returns when it does. *)
Record Call := mkCall {
  c_src : NodeInfo; c_dest : NodeInfo; c_msg : WrappedMsg;
  c_ans : result bool;
  c_out : option (Client * HandleMessageRequest);
  c_res : result unit;
}.

(** [held]: the nodes whose connLock is held, by the number of the send that holds it. *)
Record Group := mkGroup {
  nodes : gmap NodeInfo (RPCConn Client);
  calls : list Call;
  held : gmap NodeInfo nat;
}.

Inductive Act :=
| Send (src dest : NodeInfo) (msg : WrappedMsg) (ans : result bool)
| Return (id : nat)
| Handle (id : nat) (n : NodeInfo)
| Drain (n : NodeInfo).

Inductive Event :=
| ESend (id : nat) (c : Call)
| EReturn (id : nat)
| EHandle (id : nat) (n : NodeInfo) (res : result bool)
| EDrain (n : NodeInfo) (msgs : list WrappedMsg).

(** What is behind a client while [sendMessage] runs: it notes the call and has the answer. *)
Definition noting (ans : result bool) (cl : Client) (req : HandleMessageRequest)
    : M (option (Client * HandleMessageRequest)) bool := λ _, (ans, Some (cl, req)).

(** An action and what it shows; [None]: it cannot happen now.  A send to another
    node waits for connLock, which it holds until its call is answered. *)
Definition act (a : Act) (g : Group) : option (Event * Group) :=
  match a with
  | Send src dest msg ans =>
    r ← nodes g !! src;
    if decide (me r ≠ dest ∧ is_Some (held g !! src)) then None
    else
      let '(res, (r', out)) := sendMessage grpc_NewClient (noting ans) dest msg (r, None) in
      let id := length (calls g) in
      let c := mkCall src dest msg ans out res in
      Some (ESend id c, mkGroup (<[src := r']> (nodes g)) (calls g ++ [c])
        (match out with Some _ => <[src := id]> (held g) | None => held g end))
  | Return id =>
    c ← calls g !! id;
    if decide (held g !! c_src c = Some id) then
      Some (EReturn id, mkGroup (nodes g) (calls g) (delete (c_src c) (held g)))
    else None
  | Handle id n =>
    c ← calls g !! id;
    p ← c_out c;
    r ← nodes g !! n;
    let '(res, r') := HandleMessage p.2 r in
    Some (EHandle id n res, mkGroup (<[n := r']> (nodes g)) (calls g) (held g))
  | Drain n =>
    r ← nodes g !! n;
    let '(res, r') := rpc_DrainMsgBuffer r in
    Some (EDrain n (force [] res), mkGroup (<[n := r']> (nodes g)) (calls g) (held g))
  end.

Fixpoint acts (l : list Act) (g : Group) : option (list Event * Group) :=
  match l with
  | [] => Some ([], g)
  | a :: l' =>
    '(e, g') ← act a g;
    '(es, g'') ← acts l' g'; Some (e :: es, g'')
  end.

(** Every node of the set starts with the same table of hosts. *)
Definition new_group (table : gmap NodeInfo string) (ns : gset NodeInfo) : Group :=
  mkGroup (set_to_map (λ n, (n, NewRPCConn n table)) ns) [] ∅.

(** ** What gRPC promises of the calls of a run *)

Definition handled_id (e : Event) : option nat := match e with EHandle id _ _ => Some id | _ => None end.

(** [target cl] is what the client was created for.  Nothing is said of when a
    call that fails is handled, if ever, nor of the order of any two calls. *)
Record grpc_laws (table : gmap NodeInfo string) (target : Client → string) (es : list Event) : Prop := {
  (** a call is handled at most once *)
  grpc_once : NoDup (omap handled_id es);
  (** by the server that listens at the target of the client it was made on *)
  grpc_routed : ∀ id n res c cl req, EHandle id n res ∈ es → ESend id c ∈ es → c_out c = Some (cl, req) →
    table !! n = Some (target cl);
  (** a call is answered without an error only with the answer of its handler, which ran before *)
  grpc_answer : ∀ k id c b, es !! k = Some (EReturn id) → ESend id c ∈ es → c_ans c = Ok b →
    ∃ n, EHandle id n (Ok b) ∈ take k es;
  (** and every call that is answered at all is, with a value or an error *)
  grpc_returns : ∀ id c, ESend id c ∈ es → c_ans c ≠ Panic;
}.

(** ** What a run shows *)

(** The sends whose message reached a buffer, in that order. *)
Definition landed (es : list Event) : list nat :=
  omap (λ e, match e with
    | ESend id c => match c_out c, c_res c with None, Ok _ => Some id | _, _ => None end
    | EHandle id _ (Ok _) => Some id
    | _ => None
    end) es.

Definition drained_at (n : NodeInfo) (es : list Event) : list WrappedMsg :=
  mbind (λ e, match e with EDrain n' l => if decide (n' = n) then l else [] | _ => [] end) es.

Definition buffer_of (g : Group) (n : NodeInfo) : list WrappedMsg := default [] (msgBuffer <$> nodes g !! n).

(** The messages for a node among the sends of a list. *)
Definition addressed (cs : list Call) (n : NodeInfo) (ids : list nat) : list WrappedMsg :=
  omap (λ id, c ← cs !! id; if decide (c_dest c = n) then Some (c_msg c) else None) ids.

(** A send that returned: it does not hold connLock. *)
Definition finished (g : Group) (id : nat) : Prop := ∀ n, held g !! n ≠ Some id.

Definition sends (l : list Act) : list (NodeInfo * NodeInfo * WrappedMsg) :=
  omap (λ a, match a with Send src dest msg _ => Some (src, dest, msg) | _ => None end) l.
End group.
Arguments Call : clear implicits.
Arguments Group : clear implicits.
Arguments Event : clear implicits.

(** ** A run under gRPC *)

Section run.
  Context {Client : Type} (grpc_NewClient : string → result Client) (target : Client → string).
  Context (NewClient_target : ∀ h cl, grpc_NewClient h = Ok cl → target cl = h).
  Context (NewClient_returns : ∀ h, grpc_NewClient h ≠ Panic).
  Context (table : gmap NodeInfo string).
  Context (Hinj : ∀ m n h, table !! m = Some h → table !! n = Some h → m = n).

Abbreviation laws := (grpc_laws table target).

Lemma grpc_laws_prefix es es' : laws (es ++ es') → laws es.
Proof.
  intros [L1 L2 L3 L4]. split.
  - rewrite omap_app in L1. by apply NoDup_app in L1 as [? _].
  - intros id n res c cl req H1 H2. apply (L2 id n res c cl req); by apply elem_of_app; left.
  - intros k id c b Hk Hc Hb. pose proof (lookup_lt_Some _ _ _ Hk). destruct (L3 k id c b) as [n Hn]; [|by apply elem_of_app; left|done|].
    + by rewrite lookup_app_l.
    + exists n. by rewrite take_app_le in Hn by lia.
  - intros id c H. apply (L4 id c). by apply elem_of_app; left.
Qed.

(** A property of runs holds when every action keeps it. *)
Lemma acts_invariant (P : list (Event Client) → Group Client → Prop) :
  (∀ es a g e g', P es g → laws (es ++ [e]) → act grpc_NewClient a g = Some (e, g') → P (es ++ [e]) g') →
  ∀ l pre g es g', P pre g → acts grpc_NewClient l g = Some (es, g') → laws (pre ++ es) → P (pre ++ es) g'.
Proof.
  intros Hstep l. induction l as [|a l IH]; intros pre g es g' HP; cbn [acts].
  - intros [= <- <-] _. by rewrite app_nil_r.
  - destruct (act grpc_NewClient a g) as [[e g1]|] eqn:Ea; [|done]. cbn.
    destruct (acts grpc_NewClient l g1) as [[es' g2]|] eqn:El; [|done]. cbn. intros [= <- <-] HL.
    rewrite (app_assoc pre [e] es' : pre ++ e :: es' = _) in HL |- *. apply (IH _ g1); [|done..].
    apply (Hstep pre a g); [done| |done]. by apply grpc_laws_prefix in HL.
Qed.

(** A node of the group: it has the table, and its clients are for the hosts of the table. *)
Definition wired (n : NodeInfo) (r : RPCConn Client) : Prop :=
  me r = n ∧ info2Host r = table ∧ Z.of_nat (length (msgBuffer r)) ≤ msgBufferSize ∧
  ∀ d cl, clientPool r !! d = Some cl → table !! d = Some (target cl).

Definition push (msg : WrappedMsg) (r : RPCConn Client) : RPCConn Client := r <| msgBuffer ::= λ b, b ++ [msg] |>.

Lemma wired_push n r msg : wired n r → Z.of_nat (length (msgBuffer r)) < msgBufferSize → wired n (push msg r).
Proof. intros (W1 & W2 & W3 & W4) H. split_and!; try done. cbn. rewrite length_app. cbn. lia. Qed.

(** What a send that was called is known to be. *)
Definition call_ok (c : Call Client) : Prop :=
  match c_out c with
  | Some (cl, req) =>
    c_src c ≠ c_dest c ∧ table !! c_dest c = Some (target cl) ∧ req_Msg req = c_msg c ∧
    (c_res c = Ok tt → ∃ b, c_ans c = Ok b)
  | None => c_res c = Ok tt → c_src c = c_dest c
  end.

(** [sendMessage] by cases: the node itself; nothing done; a call was made. *)
Lemma sendMessage_cases n r dest msg ans : wired n r → ∃ res r' out,
  sendMessage grpc_NewClient (noting ans) dest msg (r, None) = (res, (r', out)) ∧
  call_ok (mkCall n dest msg ans out res) ∧ (res = Panic → ans = Panic) ∧ (is_Some out → n ≠ dest) ∧ wired n r' ∧
  match out, res with
  | None, Ok _ => r' = push msg r
  | _, _ => msgBuffer r' = msgBuffer r
  end.
Proof using NewClient_target NewClient_returns.
  intros Hw. pose proof Hw as (Hme & Htab & Hroom & Hpool). unfold sendMessage. cbn [st_bind st_get fst snd].
  assert (∀ out, is_Some (out : option (Client * HandleMessageRequest)) → out = None → n ≠ dest) as Hno by (by intros ? [] ->).
  case_decide as Hd.
  { unfold on_conn, add2LocalBuffer, st_zoom. cbn [fst snd]. rewrite buffer_add_cases.
    case_decide; eexists _, _, _; (split; [reflexivity|]).
    - split_and!; [by intros _; cbn; congruence|done|by intros []|by apply wired_push|done].
    - assert (r <| msgBuffer := msgBuffer r |> = r) as -> by (by destruct r). split_and!; [done..|by intros []|done|done]. }
  rewrite Htab. destruct (table !! dest) as [host|] eqn:Eh.
  2: { eexists _, _, _. split; [reflexivity|]. split_and!; [done..|by intros []|done|done]. }
  assert (∀ r1 cl, wired n r1 → clientPool r1 !! dest = Some cl → msgBuffer r1 = msgBuffer r → ∃ res r' out,
    (let! s := st_get in let! client := st_lift (or_panic (clientPool s.1 !! dest)) in
     st_wrap "gRPC client fail to send message, type: %s, err"
       (on_world (noting ans client (mkHandleMessageRequest msg (me s.1) dest))) ;;! st_ret tt) (r1, None) =
      (res, (r', out)) ∧
    call_ok (mkCall n dest msg ans out res) ∧ (res = Panic → ans = Panic) ∧ (is_Some out → n ≠ dest) ∧ wired n r' ∧
    match out, res with None, Ok _ => r' = push msg r | _, _ => msgBuffer r' = msgBuffer r end) as Hcall.
  { intros r1 cl Hw1 Hcl Hb. cbn [st_bind st_get st_lift fst snd]. rewrite Hcl. cbn.
    pose proof Hw1 as (Hme1 & _ & _ & Hp1). apply Hp1 in Hcl. rewrite Eh in Hcl. injection Hcl as Hcl.
    destruct ans as [b|e|]; cbn; eexists _, _, _; (split; [reflexivity|]); cbn;
      (split_and!; [congruence|congruence|done|by eauto|done|congruence|done|done]). }
  destruct (clientPool r !! dest) as [cl|] eqn:Ec.
  - destruct (Hcall r cl Hw Ec eq_refl) as (res & r' & out & H & ?). exists res, r', out. by split.
  - destruct (grpc_NewClient host) as [cl|e|] eqn:En; [|eexists _, _, _; split; [reflexivity|]; by split_and!; try by intros []|by destruct (NewClient_returns host)].
    destruct (Hcall (r <| clientPool ::= <[dest := cl]> |>) cl) as (res & r' & out & H & ?).
    + split_and!; [done..|]. cbn. intros d x [[<- <-]|[_ Hx]]%lookup_insert_Some; [by rewrite (NewClient_target _ _ En)|by apply Hpool].
    + cbn. by rewrite lookup_insert_eq.
    + done.
    + exists res, r', out. by split.
Qed.
Lemma HandleMessage_cases n (r : RPCConn Client) req : wired n r → ∃ res r', HandleMessage req r = (res, r') ∧ wired n r' ∧
  ((∃ b, res = Ok b) ∧ r' = push (req_Msg req) r ∨ (∃ e, res = Err e) ∧ r' = r).
Proof.
  intros Hw. unfold HandleMessage, st_bind, st_wrap, add2LocalBuffer, st_zoom. rewrite buffer_add_cases. case_decide as Hl.
  - eexists _, _. split; [reflexivity|]. split; [by apply (wired_push n r)|]. left. eauto.
  - eexists _, _. split; [reflexivity|]. assert (r <| msgBuffer := msgBuffer r |> = r) as -> by (by destruct r).
    split; [done|]. right. eauto.
Qed.

(** What holds of the events so far and the group after them. *)
Record inv (es : list (Event Client)) (g : Group Client) : Prop := {
  inv_wired : ∀ n r, nodes g !! n = Some r → wired n r;
  inv_sends : ∀ id c, calls g !! id = Some c ↔ ESend id c ∈ es;
  inv_call : ∀ id c, calls g !! id = Some c → call_ok c ∧ c_res c ≠ Panic;
  inv_held : ∀ n id, held g !! n = Some id → ∃ c, calls g !! id = Some c ∧ c_src c = n ∧ is_Some (c_out c);
  inv_serial : ∀ i j ci cj, (i < j)%nat → calls g !! i = Some ci → calls g !! j = Some cj →
    c_src ci = c_src cj → c_dest ci = c_dest cj → finished g i;
  inv_landed : ∀ id, id ∈ landed es → ∃ c, calls g !! id = Some c ∧ (c_out c = None ∨ id ∈ omap handled_id es);
  inv_once : NoDup (landed es);
  inv_accepted : ∀ id c, calls g !! id = Some c → finished g id → c_res c = Ok tt → id ∈ landed es;
  inv_order : ∀ i j ci cj, (i < j)%nat → calls g !! i = Some ci → calls g !! j = Some cj →
    c_src ci = c_src cj → c_dest ci = c_dest cj → c_res ci = Ok tt → j ∈ landed es → [i; j] `sublist_of` landed es;
  inv_msgs : ∀ n, drained_at n es ++ buffer_of g n = addressed (calls g) n (landed es);
}.

Lemma landed_snoc es e : landed (es ++ [e]) = landed es ++ landed [e :> Event Client].
Proof. apply omap_app. Qed.
Lemma drained_snoc n es e : drained_at n (es ++ [e]) = drained_at n es ++ drained_at n [e :> Event Client].
Proof. apply bind_app. Qed.
Lemma addressed_app cs n l l' : addressed cs n (l ++ l') = addressed cs n l ++ addressed (Client := Client) cs n l'.
Proof. apply omap_app. Qed.
Lemma addressed_more cs (c : Call Client) n l : Forall (λ id, (id < length cs)%nat) l →
  addressed (cs ++ [c]) n l = addressed cs n l.
Proof. induction 1 as [|id l H _ IH]; [done|]. cbn. rewrite lookup_app_l by done. unfold addressed in IH. by rewrite IH. Qed.

Lemma sublist_pair_snoc (i j : nat) l : i ∈ l → [i; j] `sublist_of` l ++ [j].
Proof.
  intros H. apply (sublist_app [i] l [j] [j]); [|done]. by apply singleton_sublist_l.
Qed.

(** Buffers of a group one of whose nodes changed. *)
Lemma buffer_insert g n r' cs h m :
  buffer_of (mkGroup (<[n := r']> (nodes g)) cs h) m = if decide (n = m) then msgBuffer r' else buffer_of (Client := Client) g m.
Proof.
  unfold buffer_of. cbn. case_decide as H; [subst; by rewrite lookup_insert_eq|by rewrite lookup_insert_ne].
Qed.

Lemma nodes_insert g n r' cs h : (∀ m r, nodes g !! m = Some r → wired m r) → wired n r' →
  ∀ m r, nodes (mkGroup (<[n := r']> (nodes g)) cs h) !! m = Some r → wired m r.
Proof. cbn. intros Hw Hn m r [[<- <-]|[_ H]]%lookup_insert_Some; [done|by apply Hw]. Qed.

Lemma sends_snoc es (e : Event Client) g : (∀ id c, calls g !! id = Some c ↔ ESend id c ∈ es) →
  (∀ id c, e ≠ ESend id c) → ∀ id c, calls g !! id = Some c ↔ ESend id c ∈ es ++ [e].
Proof.
  intros H He id c. rewrite H, elem_of_app, list_elem_of_singleton. split; [by left|]. intros [?|?]; [done|]. by destruct (He id c).
Qed.

Lemma landed_more es (e : Event Client) (g : Group Client) (id : nat) :
  (∃ c, calls g !! id = Some c ∧ (c_out c = None ∨ id ∈ omap handled_id es)) →
  ∃ c, calls g !! id = Some c ∧ (c_out c = None ∨ id ∈ omap handled_id (es ++ [e])).
Proof. intros (c & Hc & H). exists c. split; [done|]. rewrite omap_app, elem_of_app. naive_solver. Qed.

Lemma drain_keeps es g n r : inv es g → nodes g !! n = Some r →
  inv (es ++ [EDrain n (msgBuffer r)]) (mkGroup (<[n := r <| msgBuffer := [] |>]> (nodes g)) (calls g) (held g)).
Proof.
  intros I Hr. assert (landed (es ++ [EDrain n (msgBuffer r)]) = landed es) as El by (rewrite landed_snoc; apply app_nil_r).
  destruct (inv_wired _ _ I n r Hr) as (W1 & W2 & W3 & W4).
  split; cbn [calls held]; rewrite ?El; try by apply I.
  - apply (nodes_insert g n); [apply I|]. split_and!; [done..|vm_compute; discriminate|done].
  - apply sends_snoc; [apply I|done].
  - intros id Hid. apply (landed_more es _ g). by apply (inv_landed _ _ I).
  - intros m. rewrite drained_snoc, buffer_insert, <- app_assoc, <- (inv_msgs _ _ I m). f_equal. cbn. unfold buffer_of.
    case_decide as Hm; [subst m; rewrite Hr; cbn; by rewrite !app_nil_r|done].
Qed.

Lemma return_keeps es g id c : inv es g → laws (es ++ [EReturn id]) → calls g !! id = Some c → held g !! c_src c = Some id →
  inv (es ++ [EReturn id]) (mkGroup (nodes g) (calls g) (delete (c_src c) (held g))).
Proof.
  intros I HL Hc Hh. assert (landed (es ++ [EReturn id]) = landed es) as El by (rewrite landed_snoc; apply app_nil_r).
  assert (∀ i, finished g i → finished (mkGroup (nodes g) (calls g) (delete (c_src c) (held g))) i) as Hf.
  { intros i Hi n. cbn. intros [_ H]%lookup_delete_Some. by apply (Hi n). }
  split; cbn [calls held nodes]; rewrite ?El; try by apply I.
  - apply sends_snoc; [apply I|done].
  - intros n i [_ H]%lookup_delete_Some. by apply (inv_held _ _ I).
  - intros i j ci cj H1 H2 H3 H4 H5. apply Hf. by apply (inv_serial _ _ I i j ci cj).
  - intros i Hi. apply (landed_more es _ g). by apply (inv_landed _ _ I).
  - intros i ci Hi Hfin Hok. destruct (decide (i = id)) as [->|Hne].
    2: { apply (inv_accepted _ _ I i ci); [done| |done]. intros n Hn. destruct (decide (n = c_src c)) as [->|]; [congruence|].
         apply (Hfin n). cbn. by rewrite lookup_delete_ne. }
    rewrite Hc in Hi. injection Hi as <-. destruct (inv_held _ _ I _ _ Hh) as (c' & Hc' & _ & [[cl req] Ho]).
    rewrite Hc in Hc'. injection Hc' as <-. destruct (inv_call _ _ I id c Hc) as [Hcall _].
    unfold call_ok in Hcall. rewrite Ho in Hcall. destruct Hcall as (_ & _ & _ & Hb). destruct (Hb Hok) as [b Hans].
    destruct (grpc_answer _ _ _ HL (length es) id c b) as [n Hn]; [by rewrite lookup_app_r, Nat.sub_diag| |done|].
    + apply elem_of_app. left. by apply (inv_sends _ _ I).
    + rewrite take_app_length in Hn. apply list_elem_of_omap. by eexists (EHandle id n (Ok b)).
  - intros m. rewrite drained_snoc. cbn. rewrite app_nil_r. apply (inv_msgs _ _ I m).
Qed.
(** A message lands: the send that it is of is one that no earlier event let land,
    and what that send follows has landed. *)
Lemma order_snoc (es : list (Event Client)) (g : Group Client) j cj :
  (∀ i ci, calls g !! i = Some ci → c_res ci = Ok tt → finished g i → i ∈ landed es) →
  (∀ i k ci ck, (i < k)%nat → calls g !! i = Some ci → calls g !! k = Some ck →
    c_src ci = c_src ck → c_dest ci = c_dest ck → finished g i) →
  calls g !! j = Some cj → ∀ i ci, (i < j)%nat → calls g !! i = Some ci →
  c_src ci = c_src cj → c_dest ci = c_dest cj → c_res ci = Ok tt →
  [i; j] `sublist_of` landed es ++ [j].
Proof.
  intros Hacc Hser Hj i ci Hlt Hi Hs Hd Hok. apply sublist_pair_snoc, (Hacc i ci); [done..|].
  by apply (Hser i j ci cj).
Qed.

Lemma handle_keeps es g id n c cl req r res r' : inv es g → laws (es ++ [EHandle id n res]) →
  calls g !! id = Some c → c_out c = Some (cl, req) → nodes g !! n = Some r → HandleMessage req r = (res, r') →
  inv (es ++ [EHandle id n res]) (mkGroup (<[n := r']> (nodes g)) (calls g) (held g)).
Proof using Hinj.
  intros I HL Hc Ho Hr HH. destruct (inv_call _ _ I id c Hc) as [Hcall _]. unfold call_ok in Hcall. rewrite Ho in Hcall.
  destruct Hcall as (_ & Hd & Hm & _).
  assert (n = c_dest c) as ->.
  { apply (Hinj _ _ (target cl)); [|done]. apply (grpc_routed _ _ _ HL id n res c cl req); [..|done]; apply elem_of_app;
      [right; by apply list_elem_of_singleton|left; by apply (inv_sends _ _ I)]. }
  assert (id ∉ landed es) as Hnew.
  { intros (c' & Hc' & [?|Hin])%(inv_landed _ _ I); [congruence|]. pose proof (grpc_once _ _ _ HL) as Hnd.
    rewrite omap_app in Hnd. apply NoDup_app in Hnd as (_ & Hnd & _). apply (Hnd id Hin). by left. }
  destruct (HandleMessage_cases _ r req (inv_wired _ _ I _ _ Hr)) as (res' & r1 & HH' & Hw & Hcases).
  rewrite HH in HH'. injection HH' as <- <-.
  assert (landed (es ++ [EHandle id (c_dest c) res]) = landed es ++ match res with Ok _ => [id] | _ => [] end) as El.
  { rewrite landed_snoc. by destruct res. }
  split; cbn [calls held]; rewrite ?El; try by apply I.
  - apply (nodes_insert g); [apply I|done].
  - apply sends_snoc; [apply I|done].
  - intros i [Hi|Hi]%elem_of_app; [apply (landed_more es _ g); by apply (inv_landed _ _ I)|].
    destruct Hcases as [[[b ->] _]|[[e ->] _]]; [|by apply not_elem_of_nil in Hi]. apply list_elem_of_singleton in Hi as ->.
    exists c. split; [done|]. right. rewrite omap_app. apply elem_of_app. right. by left.
  - destruct Hcases as [[[b ->] _]|[[e ->] _]]; [|rewrite app_nil_r; apply I]. apply NoDup_app.
    split_and!; [apply I|by intros x Hx ->%list_elem_of_singleton|apply NoDup_singleton].
  - intros i ci H1 H2 H3. apply elem_of_app. left. by apply (inv_accepted _ _ I i ci).
  - intros i j ci cj Hlt Hi Hj Hs Hdd Hok [Hin|Hin]%elem_of_app.
    { apply sublist_inserts_r. by apply (inv_order _ _ I i j ci cj). }
    destruct Hcases as [[[b ->] _]|[[e ->] _]]; [|by apply not_elem_of_nil in Hin]. apply list_elem_of_singleton in Hin as ->.
    apply (order_snoc es g id cj) with ci; try done; [|apply I]. intros k ck H1 H2 H3. by apply (inv_accepted _ _ I k ck).
  - intros m. rewrite drained_snoc, buffer_insert, addressed_app, <- (inv_msgs _ _ I m). cbn. rewrite app_nil_r, <- app_assoc. f_equal.
    destruct Hcases as [[[b ->] ->]|[[e ->] ->]]; cbn; [rewrite Hc; cbn|]; unfold buffer_of.
    + case_decide; [subst m; by rewrite Hr, <- Hm|by rewrite app_nil_r].
    + rewrite app_nil_r. case_decide; [subst m; by rewrite Hr|done].
Qed.

(** *** A send *)
Section send.
  Context es g (src dest : NodeInfo) (msg : WrappedMsg) (ans : result bool) (r r' : RPCConn Client)
    (res : result unit) (out : option (Client * HandleMessageRequest)) (I : inv es g).
  Context (Hr : nodes g !! src = Some r).
  Context (Hfree : ¬ (src ≠ dest ∧ is_Some (held g !! src))).
  Context (HS : sendMessage grpc_NewClient (noting ans) dest msg (r, None) = (res, (r', out))).

  #[local] Abbreviation id := (length (calls g)).
  #[local] Abbreviation c := (mkCall src dest msg ans out res).
  #[local] Abbreviation g' := (mkGroup (<[src := r']> (nodes g)) (calls g ++ [c])
    (match out with Some _ => <[src := id]> (held g) | None => held g end)).

Lemma send_call : call_ok c ∧ (res = Panic → ans = Panic) ∧ (is_Some out → src ≠ dest) ∧ wired src r' ∧
  (landed [ESend id c] = [] ∧ msgBuffer r' = msgBuffer r ∧ (out = None → res ≠ Ok tt) ∨
   landed [ESend id c] = [id] ∧ r' = push msg r ∧ out = None ∧ src = dest).
Proof using NewClient_target NewClient_returns I Hr HS.
  destruct (sendMessage_cases src r dest msg ans (inv_wired _ _ I _ _ Hr)) as (res' & r1 & out' & HS' & H1 & H2 & H3 & H4 & H5).
  rewrite HS in HS'. injection HS' as <- <- <-. split_and!; [done..|].
  clear Hfree. unfold call_ok in H1. cbn in H1 |- *. destruct out as [?|], res as [[]|?|]; naive_solver.
Qed.

Lemma send_old i x : calls g !! i = Some x → (i < id)%nat ∧ (calls g ++ [c]) !! i = Some x.
Proof. intros Hx. pose proof (lookup_lt_Some _ _ _ Hx). by rewrite lookup_app_l. Qed.
Lemma send_calls i x : (calls g ++ [c]) !! i = Some x → calls g !! i = Some x ∨ i = id ∧ x = c.
Proof. intros [[_ ?]|[-> <-]]%lookup_snoc_Some; auto. Qed.
Lemma send_last : (calls g ++ [c]) !! id = Some c.
Proof. by apply list_lookup_middle. Qed.
Lemma send_before i : i ∈ landed es → (i < id)%nat.
Proof using I. intros (x & Hx & _)%(inv_landed _ _ I). by apply lookup_lt_Some in Hx. Qed.

Lemma send_finished i : (i < id)%nat → finished g i ↔ finished g' i.
Proof using NewClient_target NewClient_returns I Hr HS Hfree.
  destruct send_call as (_ & _ & Hne & _). intros Hi. unfold finished. cbn. destruct out as [p|]; [|done]. split; intros Hf n.
  - intros [[_ ?]|[_ ?]]%lookup_insert_Some; [lia|by apply (Hf n)].
  - intros Hn. apply (Hf n). rewrite lookup_insert_ne; [done|]. intros <-. apply Hfree. split; [by apply Hne|by eexists].
Qed.

(** What was sent before along the same way has returned: a node waits for itself
    only under connLock, which is free. *)
Lemma send_serial i j ci cj : (i < j)%nat → (calls g ++ [c]) !! i = Some ci → (calls g ++ [c]) !! j = Some cj →
  c_src ci = c_src cj → c_dest ci = c_dest cj → calls g !! i = Some ci ∧ finished g i.
Proof using I Hfree.
  intros Hij [Hi|[-> _]]%send_calls [Hj|[-> ->]]%send_calls Hs Hd; [|split; [done|]|apply send_old in Hj; lia|lia].
  { split; [done|]. by apply (inv_serial _ _ I i j ci cj). }
  intros n Hn. apply Hfree. destruct (inv_held _ _ I _ _ Hn) as (x & Hx & Hsrc & Ho). assert (x = ci) as -> by congruence.
  destruct (inv_call _ _ I i ci Hi) as [Hci _]. unfold call_ok in Hci. destruct Ho as [[? ?] Ho]. rewrite Ho in Hci.
  destruct Hci as [Hci _]. cbn in Hs, Hd. subst n. rewrite Hs, Hd in Hci. rewrite Hs in Hn. split; [done|by eexists].
Qed.

Lemma send_held n i : held g' !! n = Some i → ∃ x, calls g' !! i = Some x ∧ c_src x = n ∧ is_Some (c_out x).
Proof using I.
  clear HS. assert (∀ n i, held g !! n = Some i → ∃ x, calls g' !! i = Some x ∧ c_src x = n ∧ is_Some (c_out x)) as Hh.
  { intros m k (x & Hx & ?)%(inv_held _ _ I). exists x. split; [by apply send_old|done]. }
  cbn. destruct out as [p|]; [|apply Hh]. intros [[<- <-]|[_ Hi]]%lookup_insert_Some; [|by apply Hh].
  eexists. split_and!; [by apply list_lookup_middle|done|by eexists].
Qed.

Lemma send_accepted i x : calls g' !! i = Some x → finished g' i → c_res x = Ok tt → i ∈ landed es ++ landed [ESend id c].
Proof using NewClient_target NewClient_returns I Hr HS Hfree.
  intros [Hi|[-> ->]]%send_calls Hf Hok; apply elem_of_app.
  - left. apply (inv_accepted _ _ I i x); [done|apply send_finished; [by eapply send_old|done]|done].
  - right. destruct send_call as (_ & _ & _ & _ & [(_ & _ & Hno)|(-> & _)]); [|by left]. cbn in Hok. unfold finished in Hf.
    cbn in Hf. destruct out as [p|]; [|by destruct Hno]. destruct (Hf src). by rewrite lookup_insert_eq.
Qed.

Lemma send_order i j ci cj : (i < j)%nat → calls g' !! i = Some ci → calls g' !! j = Some cj →
  c_src ci = c_src cj → c_dest ci = c_dest cj → c_res ci = Ok tt → j ∈ landed es ++ landed [ESend id c] →
  [i; j] `sublist_of` landed es ++ landed [ESend id c].
Proof using NewClient_target NewClient_returns I Hr HS Hfree.
  intros Hij Hi Hj Hs Hd Hok Hin. destruct (send_serial i j ci cj Hij Hi Hj Hs Hd) as [Hi' Hf].
  assert (j ∈ landed es ∨ j = id ∧ landed [ESend id c] = [id]) as [Hjl|[-> Hn]].
  { apply elem_of_app in Hin as [?|Hin]; [by left|]. right.
    destruct send_call as (_ & _ & _ & _ & [(Hn & _)|(Hn & _)]); rewrite Hn in Hin |- *;
      [by apply not_elem_of_nil in Hin|by apply list_elem_of_singleton in Hin]. }
  - apply sublist_inserts_r. pose proof (send_before j Hjl). destruct (send_calls j cj Hj) as [Hj'|[-> _]]; [|lia].
    by apply (inv_order _ _ I i j ci cj).
  - rewrite Hn. apply sublist_pair_snoc. by apply (inv_accepted _ _ I i ci).
Qed.

Lemma send_msgs m : buffer_of g' m = buffer_of g m ++ addressed (calls g ++ [c]) m (landed [ESend id c]).
Proof using NewClient_target NewClient_returns I Hr HS.
  rewrite buffer_insert. destruct send_call as (Hc & _ & _ & _ & [(-> & Hb & _)|(-> & Hb & _ & Hd)]).
  - rewrite app_nil_r. case_decide; [subst m|done]. unfold buffer_of. by rewrite Hr.
  - unfold addressed. cbn [omap list_omap]. rewrite send_last. cbn. rewrite <- Hd. unfold buffer_of.
    case_decide as Hm; [rewrite <- Hm, Hb; by rewrite Hr|by rewrite app_nil_r].
Qed.

Lemma send_keeps : laws (es ++ [ESend id c]) → inv (es ++ [ESend id c]) g'.
Proof using NewClient_target NewClient_returns I Hr HS Hfree.
  intros HL. destruct send_call as (Hcall & Hp & _ & Hw & Hnew).
  split; rewrite ?(landed_snoc es (ESend id c)).
  - by apply (nodes_insert g src); [apply I|].
  - intros i x. rewrite elem_of_app, list_elem_of_singleton, <- (inv_sends _ _ I). split.
    + intros [?|[-> ->]]%send_calls; auto.
    + intros [?|[= -> ->]]; [by apply send_old|apply send_last].
  - intros i x [Hi|[-> ->]]%send_calls; [by apply (inv_call _ _ I i)|]. split; [done|]. intros HP.
    apply (grpc_returns _ _ _ HL id c); [apply elem_of_app; right; by apply list_elem_of_singleton|by apply Hp].
  - apply send_held.
  - intros i j ci cj Hij Hi Hj Hs Hd. destruct (send_serial i j ci cj) as [[Hlt _]%send_old ?]; [done..|]. by apply send_finished.
  - intros i [(x & Hx & Hh)%(inv_landed _ _ I)|Hi]%elem_of_app.
    + exists x. split; [by apply send_old|]. rewrite omap_app, elem_of_app. naive_solver.
    + destruct Hnew as [(Hn & _)|(Hn & _ & Ho & _)]; rewrite Hn in Hi; [by apply not_elem_of_nil in Hi|].
      apply list_elem_of_singleton in Hi as ->. exists c. split; [apply send_last|by left].
  - apply NoDup_app. split_and!; [apply I| |destruct Hnew as [(-> & _)|(-> & _)]; [constructor|apply NoDup_singleton]].
    intros i Hi%send_before. destruct Hnew as [(-> & _)|(-> & _)]; [apply not_elem_of_nil|]. intros ->%list_elem_of_singleton. lia.
  - apply send_accepted.
  - apply send_order.
  - intros m. change (calls g') with (calls g ++ [c]). rewrite drained_snoc, send_msgs, addressed_app, (addressed_more (calls g) c m (landed es)) by (apply Forall_forall, send_before).
    rewrite <- (inv_msgs _ _ I m). cbn [drained_at mbind list_bind app]. by rewrite app_nil_r, app_assoc.
Qed.
End send.

Lemma act_keeps es a g e g' : inv es g → laws (es ++ [e]) → act grpc_NewClient a g = Some (e, g') → inv (es ++ [e]) g'.
Proof using NewClient_target NewClient_returns Hinj.
  intros I HL. destruct a as [src dest msg ans|id|id n|n]; cbn [act].
  - destruct (nodes g !! src) as [r|] eqn:Hr; [|done]. cbn [mbind option_bind]. destruct (inv_wired _ _ I _ _ Hr) as [Hme _]. rewrite Hme.
    case_decide as Hfree; [done|]. destruct (sendMessage grpc_NewClient (noting ans) dest msg (r, None)) as [res [r' out]] eqn:HS.
    intros [= <- <-]. by apply (send_keeps es g src dest msg ans r r' res out).
  - destruct (calls g !! id) as [c|] eqn:Hc; [|done]. cbn. case_decide; [|done]. intros [= <- <-]. by apply return_keeps.
  - destruct (calls g !! id) as [c|] eqn:Hc; [|done]. cbn. destruct (c_out c) as [[cl req]|] eqn:Ho; [|done]. cbn.
    destruct (nodes g !! n) as [r|] eqn:Hr; [|done]. cbn [mbind option_bind]. destruct (HandleMessage req r) as [res r'] eqn:HH.
    intros [= <- <-]. by apply (handle_keeps es g id n c cl req r).
  - destruct (nodes g !! n) as [r|] eqn:Hr; [|done]. cbn [mbind option_bind]. unfold rpc_DrainMsgBuffer.
    rewrite buffer_drain_all. intros [= <- <-]. by apply drain_keeps.
Qed.

Lemma new_group_inv ns : inv [] (new_group table ns).
Proof.
  assert (∀ n r, nodes (new_group (Client := Client) table ns) !! n = Some r → r = NewRPCConn n table) as Hn.
  { intros n r (m & _ & [= <- <-])%lookup_set_to_map; [done|]. by intros ???? [= ->]. }
  split; cbn; try done.
  - intros n r ->%Hn. split_and!; [done..|vm_compute; discriminate|done].
  - intros id c. split; [done|]. by intros ?%not_elem_of_nil.
  - by intros id ?%not_elem_of_nil.
  - constructor.
  - intros n. unfold buffer_of. destruct (nodes (new_group table ns) !! n) as [r|] eqn:E; [|done]. by apply Hn in E as ->.
Qed.

Lemma acts_inv l ns es g : acts grpc_NewClient l (new_group table ns) = Some (es, g) → laws es → inv es g.
Proof using NewClient_target NewClient_returns Hinj.
  intros Hl HL. apply (acts_invariant inv) with (pre := []) (l := l) (g := new_group table ns); try done.
  - intros; by eapply act_keeps.
  - apply new_group_inv.
Qed.

Lemma acts_sends l : ∀ g es g', acts grpc_NewClient l g = Some (es, g') →
  map (λ c, (c_src c, c_dest c, c_msg c)) (calls g') = map (λ c, (c_src c, c_dest c, c_msg c)) (calls g) ++ sends l.
Proof.
  induction l as [|a l IH]; intros g es g'; cbn [acts].
  { intros [= _ <-]. cbn. by rewrite app_nil_r. }
  destruct (act grpc_NewClient a g) as [[e g1]|] eqn:Ea; [|done]. cbn [mbind option_bind].
  destruct (acts grpc_NewClient l g1) as [[es' g2]|] eqn:El; [|done]. cbn [mbind option_bind]. intros [= _ <-].
  rewrite (IH _ _ _ El). destruct a as [src dest msg ans|id|id n|n]; cbn [act] in Ea.
  - destruct (nodes g !! src) as [r|]; [|done]. cbn [mbind option_bind] in Ea. case_decide; [done|].
    destruct (sendMessage grpc_NewClient (noting ans) dest msg (r, None)) as [res [r' out]]. injection Ea as <- <-. cbn. by rewrite map_app, <- app_assoc.
  - destruct (calls g !! id); [|done]. cbn in Ea. case_decide; [|done]. by injection Ea as <- <-.
  - destruct (calls g !! id) as [c|]; [|done]. cbn in Ea. destruct (c_out c) as [p|]; [|done]. cbn in Ea.
    destruct (nodes g !! n) as [r|]; [|done]. cbn [mbind option_bind] in Ea. destruct (HandleMessage p.2 r). by injection Ea as <- <-.
  - destruct (nodes g !! n) as [r|]; [|done]. cbn [mbind option_bind] in Ea. destruct (rpc_DrainMsgBuffer r). by injection Ea as <- <-.
Qed.
End run.

(** C29: between nodes connected by gRPC no message is lost unreported, sent twice
    or taken for another, and what is accepted keeps its order.  Take a table in
    which every host is one node's, any set of nodes, and any run of sends,
    handlers, answers and drains that respects what gRPC documents of unary calls:
    a call is handled at most once, by the server at the host its client was
    created for, and is answered, without an error only by its handler, which
    ran before (one that fails may be handled at any later time, or never).  Then there
    is a list of sends, those that landed, without repetition, such that at every
    node what was drained followed by what is still buffered is exactly the
    messages sent to it, in that order; every send that returned nil has landed;
    and of two sends from one node to the same destination, the later lands
    after the earlier if the earlier returns nil, since connLock is held until a
    call is answered.  No send panics and no buffer outgrows its channel. *)
Theorem rpc_group_fifo {Client} (grpc_NewClient : string → result Client) (target : Client → string)
    (table : gmap NodeInfo string) (ns : gset NodeInfo) (l : list Act) es g :
  (∀ h cl, grpc_NewClient h = Ok cl → target cl = h) → (∀ h, grpc_NewClient h ≠ Panic) →
  (∀ m n h, table !! m = Some h → table !! n = Some h → m = n) →
  acts grpc_NewClient l (new_group table ns) = Some (es, g) → grpc_laws table target es →
  map (λ c, (c_src c, c_dest c, c_msg c)) (calls g) = sends l ∧
  NoDup (landed es) ∧
  (∀ n, drained_at n es ++ buffer_of g n = addressed (calls g) n (landed es)) ∧
  (∀ id c, calls g !! id = Some c → c_res c = Ok tt → finished g id → id ∈ landed es) ∧
  (∀ i j ci cj, (i < j)%nat → calls g !! i = Some ci → calls g !! j = Some cj →
    c_src ci = c_src cj → c_dest ci = c_dest cj → c_res ci = Ok tt → j ∈ landed es → [i; j] `sublist_of` landed es) ∧
  (∀ id c, calls g !! id = Some c → c_res c ≠ Panic) ∧
  (∀ n, Z.of_nat (length (buffer_of g n)) ≤ msgBufferSize).
Proof.
  intros Ht Hr Hinj Hl HL. pose proof (acts_inv grpc_NewClient target Ht Hr table Hinj l ns es g Hl HL) as I.
  split_and!; [by rewrite (acts_sends _ _ _ _ _ Hl)|apply I|apply I| |apply I| |].
  - intros id c Hc Hok Hf. by apply (inv_accepted _ _ _ _ I id c).
  - intros id c Hc. by apply (inv_call _ _ _ _ I id).
  - intros n. unfold buffer_of. destruct (nodes g !! n) as [r|] eqn:E; [|done].
    by destruct (inv_wired _ _ _ _ I n r E) as (_ & _ & ? & _).
Qed.

Module TransportDemo.
Definition n0 : NodeInfo := mkNodeInfo 0 0.
Definition n1 : NodeInfo := mkNodeInfo 1 0.
Definition tab : gmap NodeInfo string := {[n0 := "a:1"; n1 := "b:1"]}.
Definition m (s : string) : WrappedMsg := mkWrappedMsg s [].

(** The second call to node 1 times out and is handled only after the third was answered. *)
Definition late : list Act :=
  [Send n0 n1 (m "1") (Ok true); Handle 0 n1; Return 0;
   Send n0 n1 (m "2") (Err "deadline exceeded"); Return 1;
   Send n0 n1 (m "3") (Ok true); Send n0 n0 (m "4") (Err ""); Handle 2 n1; Drain n1; Handle 1 n1; Return 2;
   Drain n0; Send n1 n0 (m "5") (Err "unavailable"); Return 4].
Definition run1 : list (Event string) * Group string := default ([], mkGroup ∅ [] ∅) (acts Ok late (new_group tab {[n0; n1]})).

Example late_ex :
  (map MsgType (drained_at n1 run1.1), map MsgType (buffer_of run1.2 n1), map MsgType (drained_at n0 run1.1), landed run1.1) =
  (["1"; "3"], ["2"], ["4"], [0; 3; 2; 1]%nat).
Proof. vm_compute. reflexivity. Qed.

(** While a call is under way its node sends to no other. *)
Example lock_ex : acts Ok [Send n0 n1 (m "1") (Ok true); Send n0 n1 (m "2") (Ok true)]
  (new_group (Client := string) tab {[n0; n1]}) = None.
Proof. vm_compute. reflexivity. Qed.

Lemma tab_inj x y h : tab !! x = Some h → tab !! y = Some h → x = y.
Proof.
  unfold tab. rewrite !lookup_insert_Some, !lookup_singleton_Some. naive_solver.
Qed.

Lemma late_runs : acts Ok late (new_group tab {[n0; n1]}) = Some run1.
Proof.
  assert (is_Some (acts (Client := string) Ok late (new_group tab {[n0; n1]}))) as [x Hx].
  { apply (bool_decide_unpack _). vm_compute. exact I. }
  unfold run1. by rewrite Hx.
Qed.

Lemma late_events : run1.1 =
  let call id s ans out res := ESend id (mkCall n0 n1 (m s) ans (Some (out, mkHandleMessageRequest (m s) n0 n1)) res) in
  let err e : result unit := wrap_err "gRPC client fail to send message, type: %s, err" (Err e) in
  [call 0%nat "1" (Ok true) "b:1" (Ok tt); EHandle 0 n1 (Ok true); EReturn 0;
   call 1%nat "2" (Err "deadline exceeded") "b:1" (err "deadline exceeded"); EReturn 1;
   call 2%nat "3" (Ok true) "b:1" (Ok tt); ESend 3 (mkCall n0 n0 (m "4") (Err "") None (Ok tt));
   EHandle 2 n1 (Ok true); EDrain n1 [m "1"; m "3"]; EHandle 1 n1 (Ok true); EReturn 2; EDrain n0 [m "4"];
   ESend 4 (mkCall n1 n0 (m "5") (Err "unavailable") (Some ("a:1", mkHandleMessageRequest (m "5") n1 n0)) (err "unavailable"));
   EReturn 4].
Proof. vm_compute. reflexivity. Qed.

Lemma late_laws : grpc_laws tab id run1.1.
Proof.
  rewrite late_events. split.
  - apply (bool_decide_unpack _). vm_compute. exact I.
  - intros i n res c cl req H1 H2 Ho. cbv zeta in H1, H2. rewrite !elem_of_cons in H1, H2.
    destruct_or! H1; destruct_or! H2; simplify_eq/=; try reflexivity; (by apply not_elem_of_nil in H1) || (by apply not_elem_of_nil in H2).
  - intros k i c b Hk Hc Hb. cbv zeta in Hk, Hc |- *. rewrite !elem_of_cons in Hc.
    do 14 (destruct k as [|k];
      [cbn in Hk; first [discriminate Hk|injection Hk as <-; destruct_or! Hc; simplify_eq/=;
        try (by apply not_elem_of_nil in Hc); exists n1; rewrite !elem_of_cons; tauto]|]). done.
  - intros i c Hc. cbv zeta in Hc. rewrite !elem_of_cons in Hc. destruct_or! Hc; simplify_eq; try done. by apply not_elem_of_nil in Hc.
Qed.

Lemma rpc_group_fifo_witness :
  NoDup (landed run1.1) ∧
  (∀ n, drained_at n run1.1 ++ buffer_of run1.2 n = addressed (calls run1.2) n (landed run1.1)) ∧
  [0; 2]%nat `sublist_of` landed run1.1.
Proof.
  pose proof (rpc_group_fifo Ok id tab {[n0; n1]} late run1.1 run1.2) as H.
  destruct H as (_ & H1 & H2 & _ & H3 & _).
  - by intros h cl [= ->].
  - done.
  - exact tab_inj.
  - rewrite late_runs. by destruct run1.
  - exact late_laws.
  - split; [exact H1|]. split; [exact H2|].
    destruct (calls run1.2 !! 0%nat) as [c0|] eqn:E0; [|by vm_compute in E0].
    destruct (calls run1.2 !! 2%nat) as [c2|] eqn:E2; [|by vm_compute in E2].
    apply (H3 0%nat 2%nat c0 c2); [lia|done|done|..]; vm_compute in E0, E2; injection E0 as <-; injection E2 as <-; try reflexivity.
    apply (bool_decide_unpack _). vm_compute. exact I.
Defined.
End TransportDemo.
