(* ===== verification/P2P.v ===== *)
(** * The libp2p transport and its directory

    Models pkg/network/connlibp2p: the connection of a node over libp2p
    ([LibP2PConn] of libp2pconn.go), and the directory of peers the supervisor
    keeps (bootstrap.go): nodes register with it, and it broadcasts the map from
    node positions to peer IDs, from which everybody sets its topology.

    libp2p's host and streams, protobuf, JSON and the key functions are
    arguments of the model.  A handler is given what reading its stream returned
    and the peer at its other end (which libp2p authenticates).  The order in
    which a map of nodes is ranged over is an argument. *)

From S2P Require Import Prelude GoHash Account Bloom Block Config Network Transport.
From Stdlib Require Import Lia.

Local Open Scope Z_scope.

(** ** Data *)

(** [map[int64]map[int64]string] *)
Abbreviation PeerMap := (gmap Z (gmap Z string)).

Record NodeRegisterMsg := mkNodeRegisterMsg { rg_ShardID : Z; rg_NodeID : Z; rg_PeerID : string }.
(** [NodePeerBroadcastMsg] has the map as its only field. *)
Record NodePeerBroadcastMsg := mkNodePeerBroadcastMsg { NodePeerMap : PeerMap }.

Definition consensusMsgProtocol : string := "/blockemulator/consensus/0.0.1".
Definition registerProtocol : string := "/blockemulator/register/0.0.1".
Definition broadcastIdMapProtocol : string := "/blockemulator/peer-id-map/0.0.1".

Definition registerOKACK : bytes := String.list_byte_of_string "registered succeed".
Definition registerErrACK : bytes := String.list_byte_of_string "registered failed".

(** The order of a [range] over a map of nodes. *)
Class RangeOrder := range_order : PeerMap → list (Z * list Z).
Class RangeOrderLaws {RO : RangeOrder} : Prop := {
  range_shards : ∀ m, NoDup (range_order m).*1;
  range_nodes : ∀ m s nodes, (s, nodes) ∈ range_order m →
    ∃ inner, m !! s = Some inner ∧ nodes ≡ₚ (map_to_list inner).*1;
  range_all : ∀ m s inner, m !! s = Some inner → ∃ nodes, (s, nodes) ∈ range_order m;
}.

(** What [io.ReadAll] returned: the bytes read, and the error that ended it. *)
Record Received := mkReceived { rc_data : bytes; rc_err : result unit }.

Class P2PLib := {
  PeerID : Type;
  PeerID_eq_dec :: EqDecision PeerID;
  peer_Decode : string → result PeerID;
  Stream : Type;
  World : Type;
  host_NewStream : PeerID → string → M World Stream;
  host_Conns : World → list PeerID;
  host_ID : PeerID;
  host_ID_String : string;
  stream_Write : Stream → bytes → M World unit;
  stream_CloseWrite : Stream → M World unit;
  stream_ReadAll : Stream → M World bytes;
  stream_Reset : Stream → World → World;
  stream_Close : Stream → World → World;
  proto_Marshal : WrappedMsg → result bytes;
  proto_Unmarshal : bytes → result WrappedMsg;
  json_Marshal_reg : NodeRegisterMsg → result bytes;
  json_Unmarshal_reg : bytes → result NodeRegisterMsg;
  json_Marshal_map : NodePeerBroadcastMsg → result bytes;
  json_Unmarshal_map : bytes → result NodePeerBroadcastMsg;
}.

(** Decoding inverts encoding. *)
Class P2PLaws {PL : P2PLib} : Prop := {
  proto_roundtrip : ∀ m b, proto_Marshal m = Ok b → proto_Unmarshal b = Ok m;
  json_map_roundtrip : ∀ m b, json_Marshal_map m = Ok b → json_Unmarshal_map b = Ok m;
}.

(** [config.LibP2PConnCfg], what is used of it *)
Record LibP2PCfg := mkLibP2PCfg { BootstrapKeyFp : string; BootstrapPeer : string }.

Record LibP2PConn := mkLibP2PConn {
  nodeM : TopoGetter;
  lp_me : NodeInfo;
  info2PeerID : PeerMap;
  lp_msgBuffer : list WrappedMsg;
  started : bool;
  lp_cfg : LibP2PCfg;
}.
#[export] Instance LibP2PConn_eta : Eta LibP2PConn := λ l,
  mkLibP2PConn (nodeM l) (lp_me l) (info2PeerID l) (lp_msgBuffer l) (started l) (lp_cfg l).

(** [started]: whether hostInst and kadInst are set. *)
Definition NewLibP2PConn (cfg : LibP2PCfg) (me : NodeInfo) (m : TopoGetter) : LibP2PConn :=
  mkLibP2PConn m me {[SupervisorShardID := {[0 := BootstrapPeer cfg]}]} [] false cfg.

(** [m[shard][node]], with the zero value where there is none. *)
Definition peer_at (m : PeerMap) (shard node : Z) : string :=
  default "" (default ∅ (m !! shard) !! node).

Section p2p.
  Context {PL : P2PLib} {RO : RangeOrder}.

(** ** libp2pconn.go *)

Definition lp_add2LocalBuffer (msg : WrappedMsg) : M LibP2PConn unit :=
  st_zoom lp_msgBuffer (λ b l, l <| lp_msgBuffer := b |>) (buffer_add msg).

Definition lp_DrainMsgBuffer : M LibP2PConn (list WrappedMsg) := λ l,
  let '(ret, b) := buffer_drain [] (lp_msgBuffer l) in (Ok ret, l <| lp_msgBuffer := b |>).

Definition writeStream (s : Stream) (msg : bytes) : M World unit :=
  st_wrap "p2pDial write failed" (stream_Write s msg) ;;!
  λ w, match stream_CloseWrite s w with
       | (Err e, w') => (wrap_err "failed to close write failed" (Err e), stream_Reset s w')
       | x => x
       end.

(** [defer s.Close()] *)
Definition with_stream {A} (s : Stream) (m : M World A) : M World A := λ w,
  let '(r, w') := m w in (r, stream_Close s w').

(** What [sendMessage] does on the network for a destination that is not the node itself. *)
Definition send_to_peer (peerID : string) (msg : WrappedMsg) : M World unit :=
  let! targetID := st_wrap "invalid peer ID" (st_lift (peer_Decode peerID)) in
  let! s := st_wrap "p2pDial failed to open stream to %s" (host_NewStream targetID consensusMsgProtocol) in
  with_stream s (
    let! data := st_wrap "failed to marshal message" (st_lift (proto_Marshal msg)) in
    st_wrap "write message to stream failed" (writeStream s data)).

Definition lp_sendMessage (dest : NodeInfo) (msg : WrappedMsg) : M (LibP2PConn * World) unit :=
  let! s := st_get in
  if decide (lp_me s.1 = dest) then st_zoom fst (λ l s, (l, s.2)) (lp_add2LocalBuffer msg)
  else st_zoom snd (λ w s, (s.1, w))
         (send_to_peer (peer_at (info2PeerID s.1) (ni_ShardID dest) (ni_NodeID dest)) msg).

Definition lp_SendMsg2Dest (dest : NodeInfo) (msg : WrappedMsg) : M (LibP2PConn * World) unit :=
  log_error (lp_sendMessage dest msg).

(** A reading error is logged and the handler goes on with what was read. *)
Definition handleMessage (rc : Received) : M LibP2PConn unit :=
  match proto_Unmarshal (rc_data rc) with
  | Ok msg => log_error (lp_add2LocalBuffer msg)
  | Err _ => st_ret tt
  | Panic => st_lift Panic
  end.

Definition handleIdMapMessage (rc : Received) : M LibP2PConn unit :=
  match rc_err rc with
  | Ok _ =>
    match json_Unmarshal_map (rc_data rc) with
    | Ok npb => st_modify (λ l,
        l <| info2PeerID := NodePeerMap npb |>
          <| nodeM ::= SetTopoGetter (range_order (NodePeerMap npb)) |>)
    | Err _ => st_ret tt
    | Panic => st_lift Panic
    end
  | _ => st_ret tt
  end.

(** The acknowledgement is read, and not looked at. *)
Definition registerNodeInfo (me : NodeInfo) (l : LibP2PConn) : M World unit :=
  if negb (started l) then st_fail "libp2p not initialized"
  else
    let! relayPeerID := st_wrap "invalid relay peer ID" (st_lift (peer_Decode (BootstrapPeer (lp_cfg l)))) in
    let! data := st_wrap "marshal node info failed"
      (st_lift (json_Marshal_reg (mkNodeRegisterMsg (ni_ShardID me) (ni_NodeID me) host_ID_String))) in
    let! s := st_wrap "failed to open register stream" (host_NewStream relayPeerID registerProtocol) in
    with_stream s (
      st_wrap "failed to write stream" (writeStream s data) ;;!
      st_wrap "failed to read ACK" (stream_ReadAll s) ;;!
      st_ret tt).

(** ** bootstrap.go *)

(** What a registration leads to: the acknowledgement that is written to the
    stream, if any (that writing it fails is only logged), and whether the
    sender of the map is told that it changed. *)
Record Registered := mkRegistered { ack : option bytes; map_updated : bool }.

Definition set_peer (info : NodeRegisterMsg) (m : PeerMap) : PeerMap :=
  <[rg_ShardID info := <[rg_NodeID info := rg_PeerID info]> (default ∅ (m !! rg_ShardID info))]> m.

Definition handleRegisterStream (rc : Received) (remotePeer : string) : M LibP2PConn Registered :=
  match rc_err rc with
  | Ok _ =>
    match json_Unmarshal_reg (rc_data rc) with
    | Ok info =>
      if decide (rg_PeerID info ≠ remotePeer) then st_ret (mkRegistered (Some registerErrACK) false)
      else
        st_modify (λ l, l <| info2PeerID ::= set_peer info |>) ;;!
        st_modify (λ l, l <| nodeM ::= SetTopoGetter (range_order (info2PeerID l)) |>) ;;!
        st_ret (mkRegistered (Some registerOKACK) true)
    | Err _ => st_ret (mkRegistered None false)
    | Panic => st_lift Panic
    end
  | _ => st_ret (mkRegistered None false)
  end.

(** The map is sent to every connected peer but the node itself; a peer that
    cannot be reached is only logged. *)
Definition broadcastNode2PeerIdMap (l : LibP2PConn) : M World unit :=
  let! data := st_wrap "failed to marshal node-to-Peer Msg" (st_lift (json_Marshal_map (mkNodePeerBroadcastMsg (info2PeerID l)))) in
  let! w := st_get in
  st_for (λ pid,
    if decide (pid = host_ID) then st_ret tt
    else log_error (
      let! s := host_NewStream pid broadcastIdMapProtocol in
      with_stream s (log_error (writeStream s data)))) (host_Conns w).

(** An iteration of [throttledSender]: an update, or a tick of its clock. *)
Inductive Throttle := Updated | Tick.
Definition throttledSender (l : LibP2PConn) (e : Throttle) : M (bool * World) unit :=
  match e with
  | Updated => st_modify (λ s, (true, s.2))
  | Tick =>
    let! s := st_get in
    if s.1 : bool then
      st_modify (λ s, (false, s.2)) ;;!
      log_error (st_zoom snd (λ w s, (s.1, w)) (broadcastNode2PeerIdMap l))
    else st_ret tt
  end.
End p2p.

(** *** The key of the supervisor *)

Section key.
  Context {PrivKey Fs : Type}.
  Context (os_ReadFile : string → Fs → result bytes) (filepath_Dir : string → string).
  Context (os_MkdirAll : string → M Fs unit) (os_WriteFile : string → bytes → M Fs unit).
  Context (UnmarshalPrivateKey : bytes → result PrivKey) (MarshalPrivateKey : PrivKey → result bytes).
  (** [crypto.GenerateKeyPair]: what is generated this time. *)
  Context (GenerateKeyPair : result PrivKey).

Definition loadBootstrapKey (fp : string) : M Fs PrivKey := λ fs,
  (let* data := wrap_err "failed to read file for getting the private key" (os_ReadFile fp fs) in
   wrap_err "failed to unmarshal private key" (UnmarshalPrivateKey data), fs).

Definition generateBootstrapKey (fp : string) : M Fs PrivKey :=
  let! sk := st_wrap "failed to generate key" (st_lift GenerateKeyPair) in
  let! data := st_wrap "failed to marshal key" (st_lift (MarshalPrivateKey sk)) in
  st_wrap "failed to create key dir" (os_MkdirAll (filepath_Dir fp)) ;;!
  st_wrap "failed to save private key to %s" (os_WriteFile fp data) ;;!
  st_ret sk.

Definition loadOrInitBootstrapKey (fp : string) : M Fs PrivKey := λ fs,
  match loadBootstrapKey fp fs with
  | (Err _, fs') => st_wrap "failed to generate key" (generateBootstrapKey fp) fs'
  | x => x
  end.

(** A key that was returned is returned again by the next start, whatever would
    be generated then. *)
Lemma bootstrap_key_stable fp fs sk fs' :
  (∀ p b fs fs', os_WriteFile p b fs = (Ok tt, fs') → os_ReadFile p fs' = Ok b) →
  (∀ k b, MarshalPrivateKey k = Ok b → UnmarshalPrivateKey b = Ok k) →
  loadOrInitBootstrapKey fp fs = (Ok sk, fs') → loadBootstrapKey fp fs' = (Ok sk, fs').
Proof.
  intros Hw Hm. unfold loadOrInitBootstrapKey. destruct (loadBootstrapKey fp fs) as [[sk0|e|] fs1] eqn:El; [|..|done].
  - unfold loadBootstrapKey in El |- *. injection El as E <-. intros [= -> <-]. by rewrite E.
  - unfold loadBootstrapKey in El. injection El as _ <-. intros H%st_wrap_ok. unfold generateBootstrapKey in H.
    apply st_bind_ok in H as (k & s1 & H1%st_wrap_ok & H). apply st_lift_ok in H1 as [_ ->].
    apply st_bind_ok in H as (b & s2 & H2%st_wrap_ok & H). apply st_lift_ok in H2 as [Hb ->].
    apply st_bind_ok in H as ([] & s3 & _ & H). apply st_bind_ok in H as ([] & s4 & H4%st_wrap_ok & H).
    injection H as -> ->. unfold loadBootstrapKey. rewrite (Hw _ _ _ _ H4). cbn. by rewrite (Hm _ _ Hb).
Qed.
End key.

(** ** The topology of a map of peers *)

(** The nodes of a shard in the map. *)
Definition peers_of (m : PeerMap) (s : Z) : gmap Z string := default ∅ (m !! s).

(** What a topology set from the map [m] holds: every registered node, node 0
    as the leader, and the supervisor, which is added to whatever the map has. *)
Record topology_of (m : PeerMap) (t : TopoGetter) : Prop := {
  topo_leaders : ∀ s, leaders t !! s =
    if decide (s = SupervisorShardID ∨ is_Some (peers_of m s !! 0)) then Some (mkNodeInfo 0 s) else None;
  topo_nodes : ∀ s, default [] (shard2nodes t !! s) ≡ₚ
    map (λ n, mkNodeInfo n s) (map_to_list (peers_of m s)).*1 ++
    (if decide (s = SupervisorShardID) then [mkNodeInfo 0 SupervisorShardID] else []);
  topo_nonempty : ∀ s, shard2nodes t !! s ≠ Some [];
}.

Definition same_topology (t t' : TopoGetter) : Prop :=
  ∀ s, GetLeader s t = GetLeader s t' ∧
    match GetNodesInShard s t, GetNodesInShard s t' with
    | Ok l, Ok l' => l ≡ₚ l'
    | Err _, Err _ => True
    | _, _ => False
    end.

Definition no_empty_shard (t : TopoGetter) : Prop := ∀ s, shard2nodes t !! s ≠ Some [].

Lemma append_node_nonempty s i t : no_empty_shard t → no_empty_shard (append_node s i t).
Proof.
  intros H s'. cbn. destruct (decide (s = s')) as [<-|Hne]; [rewrite lookup_insert_eq|by rewrite lookup_insert_ne].
  intros [= E]. by apply app_eq_nil in E as [_ ?].
Qed.

Lemma add_nodes_nonempty s nodes t : no_empty_shard t → no_empty_shard (fold_left (add_node s) nodes t).
Proof.
  revert t; induction nodes as [|n nodes IH]; intros t H; [done|]. cbn. apply IH. unfold add_node.
  apply (append_node_nonempty s (mkNodeInfo n s)) in H. by case_decide.
Qed.

Lemma SetTopoGetter_nonempty infoSet t : no_empty_shard (SetTopoGetter infoSet t).
Proof.
  unfold SetTopoGetter. apply append_node_nonempty.
  assert (∀ l t0, no_empty_shard t0 → no_empty_shard (fold_left (λ t p, fold_left (add_node p.1) p.2 t) l t0)) as H.
  { intros l; induction l as [|p l IH]; intros t0 Ht; [done|]. cbn. by apply IH, add_nodes_nonempty. }
  apply (H infoSet (mkTopoGetter ∅ ∅)). intros s. cbn. by rewrite lookup_empty.
Qed.

Lemma SetTopoGetter_topology {RO : RangeOrder} {RL : RangeOrderLaws} m t :
  topology_of m (SetTopoGetter (range_order m) t).
Proof.
  pose proof (set_topo_fold (range_order m) (mkTopoGetter ∅ ∅) (range_shards m)) as [F1 F2]. cbn zeta in F1, F2.
  assert (∀ s, let t1 := fold_left (λ t p, fold_left (add_node p.1) p.2 t) (range_order m) (mkTopoGetter ∅ ∅) in
    leaders t1 !! s = (if decide (is_Some (peers_of m s !! 0)) then Some (mkNodeInfo 0 s) else None) ∧
    default [] (shard2nodes t1 !! s) ≡ₚ map (λ n, mkNodeInfo n s) (map_to_list (peers_of m s)).*1) as Hs.
  { intros s. cbn zeta. unfold peers_of. destruct (m !! s) as [inner|] eqn:Em; cbn [default from_option id].
    - destruct (range_all m s inner Em) as [nodes Hin]. destruct (range_nodes m s nodes Hin) as (inner' & E & Hp).
      simplify_eq. destruct (F1 s nodes Hin) as [-> ->]. cbn. rewrite lookup_empty. split; [|by rewrite Hp].
      apply decide_ext. rewrite Hp, list_elem_of_fmap. split.
      + intros ([n pid] & -> & Hn%elem_of_map_to_list). cbn. eauto.
      + intros [pid Hn]. exists (0, pid). by split; [|apply elem_of_map_to_list].
    - assert (s ∉ (range_order m).*1) as Hs.
      { intros ([s' nodes] & -> & Hin)%list_elem_of_fmap. apply range_nodes in Hin as (inner & ? & _). by simplify_eq/=. }
      destruct (F2 s Hs) as [-> ->]. cbn. rewrite !lookup_empty. split; [|done]. rewrite decide_False; [done|]. by intros [? ?]. }
  split.
  - intros s. unfold SetTopoGetter. cbn. destruct (decide (SupervisorShardID = s)) as [<-|Hne].
    + rewrite lookup_insert_eq, decide_True by auto. done.
    + rewrite lookup_insert_ne by done. rewrite (proj1 (Hs s)). apply decide_ext. naive_solver.
  - intros s. unfold SetTopoGetter. cbn. destruct (decide (SupervisorShardID = s)) as [<-|Hne].
    + rewrite lookup_insert_eq, decide_True by done. cbn [default from_option id].
      by rewrite (proj2 (Hs SupervisorShardID)).
    + rewrite lookup_insert_ne, decide_False, app_nil_r by done. apply (proj2 (Hs s)).
  - apply SetTopoGetter_nonempty.
Qed.

Lemma topology_same m t t' : topology_of m t → topology_of m t' → same_topology t t'.
Proof.
  intros [A1 A2 A3] [B1 B2 B3] s. unfold GetLeader, GetNodesInShard. rewrite A1, B1. split; [done|].
  specialize (A2 s). specialize (B2 s). rewrite <- B2 in A2. specialize (A3 s). specialize (B3 s).
  destruct (shard2nodes t !! s), (shard2nodes t' !! s); cbn in A2; try done.
  - destruct A3. f_equal. by apply Permutation_nil_r.
  - destruct B3. f_equal. symmetry in A2. by apply Permutation_nil_r.
Qed.

(** ** The directory *)

Section directory.
  Context {PL : P2PLib} {LAWS : P2PLaws}.

(** The claim of a registration stream that is accepted: it was read and
    decoded, and the peer ID in it is the one of the peer at the other end. *)
Definition accepted (st : Received * string) : option NodeRegisterMsg :=
  match rc_err st.1, json_Unmarshal_reg (rc_data st.1) with
  | Ok _, Ok info => if decide (rg_PeerID info = st.2) then Some info else None
  | _, _ => None
  end.

(** The peer of the last accepted claim to a position. *)
Definition last_claim (claims : list NodeRegisterMsg) (s n : Z) : option string :=
  last (omap (λ i, if decide (rg_ShardID i = s ∧ rg_NodeID i = n) then Some (rg_PeerID i) else None) claims).

Fixpoint registrations {RO : RangeOrder} (streams : list (Received * string)) : M LibP2PConn (list Registered) :=
  match streams with
  | [] => st_ret []
  | st :: streams' =>
    let! r := handleRegisterStream st.1 st.2 in
    let! rs := registrations streams' in
    st_ret (r :: rs)
  end.

Lemma set_peer_lookup info m s n :
  peers_of (set_peer info m) s !! n =
  if decide (rg_ShardID info = s ∧ rg_NodeID info = n) then Some (rg_PeerID info) else peers_of m s !! n.
Proof.
  unfold peers_of, set_peer. destruct (decide (rg_ShardID info = s)) as [<-|Hs].
  - rewrite lookup_insert_eq. cbn [default from_option id]. destruct (decide (rg_NodeID info = n)) as [<-|Hn].
    + by rewrite lookup_insert_eq, decide_True.
    + rewrite lookup_insert_ne by done. by rewrite decide_False by tauto.
  - rewrite lookup_insert_ne by done. by rewrite decide_False by tauto.
Qed.

(** What a registration answers. *)
Definition answered (st : Received * string) (r : Registered) : Prop :=
  (map_updated r = true ↔ is_Some (accepted st)) ∧ (ack r = Some registerOKACK ↔ is_Some (accepted st)).

Lemma register_step {RO : RangeOrder} {RL : RangeOrderLaws} st l r l' :
  handleRegisterStream st.1 st.2 l = (Ok r, l') →
  answered st r ∧ match accepted st with
    | Some info => info2PeerID l' = set_peer info (info2PeerID l) ∧ topology_of (info2PeerID l') (nodeM l')
    | None => l' = l
    end.
Proof.
  unfold handleRegisterStream, answered, accepted. destruct (rc_err st.1) as [[]|e|].
  2,3: intros [= <- <-]; cbn; split_and!; try done; split; try done; by intros [].
  destruct (json_Unmarshal_reg (rc_data st.1)) as [info|e|]; [|intros [= <- <-]; cbn; split_and!; try done; split; try done; by intros []|done].
  destruct (decide (rg_PeerID info = st.2)) as [Heq|Hne].
  - rewrite decide_False by (by intros ?). intros [= <- <-]. split; [split; split; eauto|].
    split; [done|]. apply (SetTopoGetter_topology (set_peer info (info2PeerID l)) (nodeM l)).
  - rewrite decide_True by done. intros [= <- <-]. cbn. split_and!; try done; split; try done; by intros [].
Qed.

Lemma last_claim_cons info claims s n : last_claim (info :: claims) s n =
  match last_claim claims s n with
  | Some p => Some p
  | None => if decide (rg_ShardID info = s ∧ rg_NodeID info = n) then Some (rg_PeerID info) else None
  end.
Proof.
  unfold last_claim. cbn. case_decide; [|by destruct (last _)].
  destruct (omap _ claims) as [|p ps] eqn:E; [done|]. cbn [last]. by destruct (last (p :: ps)) eqn:E2; [|apply last_None in E2].
Qed.

Lemma registrations_spec {RO : RangeOrder} {RL : RangeOrderLaws} streams l rs l' :
  registrations streams l = (Ok rs, l') →
  Forall2 answered streams rs ∧
  (∀ s n, peers_of (info2PeerID l') s !! n = match last_claim (omap accepted streams) s n with
     | Some p => Some p | None => peers_of (info2PeerID l) s !! n end) ∧
  (omap accepted streams ≠ [] ∨ topology_of (info2PeerID l) (nodeM l) → topology_of (info2PeerID l') (nodeM l')).
Proof.
  revert l rs; induction streams as [|st streams IH]; intros l rs; cbn [registrations].
  { intros [= <- <-]. split_and!; [constructor|done|]. by intros [?|?]. }
  intros (r & l1 & [Ha Hst]%register_step & H)%st_bind_ok. apply st_bind_ok in H as (rs1 & l2 & H & [= <- <-]).
  apply IH in H as (H1 & H2 & H3). split_and!; [by constructor| |].
  - intros s n. rewrite H2. cbn [omap list_omap]. destruct (accepted st) as [info|]; [|by subst].
    rewrite last_claim_cons. destruct (last_claim _ s n); [done|]. destruct Hst as [-> _].
    rewrite set_peer_lookup. by case_decide.
  - intros Ht. apply H3. cbn [omap list_omap] in Ht. destruct (accepted st) as [info|]; [right; by apply Hst|].
    by subst.
Qed.

Definition first_peer (cfg : LibP2PCfg) (s n : Z) : option string :=
  if decide (s = SupervisorShardID ∧ n = 0) then Some (BootstrapPeer cfg) else None.

Lemma NewLibP2PConn_peers cfg me t s n :
  peers_of (info2PeerID (NewLibP2PConn cfg me t)) s !! n = first_peer cfg s n.
Proof.
  unfold peers_of, first_peer, NewLibP2PConn. cbn [info2PeerID].
  destruct (decide (s = SupervisorShardID)) as [->|Hs].
  - rewrite lookup_singleton_eq. cbn [default from_option id]. destruct (decide (n = 0)) as [->|Hn].
    + by rewrite lookup_singleton_eq.
    + rewrite lookup_singleton_ne by done. by rewrite decide_False by tauto.
  - rewrite lookup_singleton_ne by done. by rewrite decide_False by tauto.
Qed.

(** C27: the directory is authentic and everybody who receives it has the same
    topology.  Whatever registration streams reach the supervisor (malformed,
    refused, repeated or competing), a registration is acknowledged and
    announced exactly when its peer ID is the one libp2p authenticated at the
    other end, a position belongs to the last peer that claimed it that way
    (the supervisor's own to the configured one if nobody did), and after one
    accepted claim the supervisor's topology is that of the map.  A node that
    handles the broadcast of the map then has the same map and, whatever the
    order in which either ranges over it, the same leaders and the same nodes
    in every shard; its message buffer is untouched.  In that topology the
    supervisor is listed twice in its shard: by the map, and by SetTopoGetter. *)
Theorem directory_agreement {RO : RangeOrder} {RL : RangeOrderLaws} {RO' : RangeOrder} {RL' : @RangeOrderLaws RO'}
    cfg me t streams rs l :
  registrations (RO := RO) streams (NewLibP2PConn cfg me t) = (Ok rs, l) →
  let claims := omap accepted streams in
  Forall2 answered streams rs ∧
  (∀ s n, peers_of (info2PeerID l) s !! n =
    match last_claim claims s n with Some p => Some p | None => first_peer cfg s n end) ∧
  (claims ≠ [] → topology_of (info2PeerID l) (nodeM l) ∧
    (∃ nodes, GetNodesInShard SupervisorShardID (nodeM l) = Ok nodes ∧
      [mkNodeInfo 0 SupervisorShardID; mkNodeInfo 0 SupervisorShardID] ⊆+ nodes) ∧
    ∀ data c, json_Marshal_map (mkNodePeerBroadcastMsg (info2PeerID l)) = Ok data →
      ∃ c', handleIdMapMessage (RO := RO') (mkReceived data (Ok tt)) c = (Ok tt, c') ∧
        info2PeerID c' = info2PeerID l ∧ same_topology (nodeM c') (nodeM l) ∧ lp_msgBuffer c' = lp_msgBuffer c).
Proof using LAWS.
  intros (H1 & H2 & H3)%registrations_spec claims.
  assert (∀ s n, peers_of (info2PeerID l) s !! n =
    match last_claim claims s n with Some p => Some p | None => first_peer cfg s n end) as Hp.
  { intros s n. rewrite H2, NewLibP2PConn_peers. done. }
  split_and!; [done..|]. intros Hne. specialize (H3 (or_introl Hne)). split_and!; [done| |].
  - assert (is_Some (peers_of (info2PeerID l) SupervisorShardID !! 0)) as [p Hsup].
    { rewrite Hp. destruct (last_claim _ _ _); [done|]. unfold first_peer. by rewrite decide_True. }
    pose proof (topo_nodes _ _ H3 SupervisorShardID) as Hn. rewrite decide_True in Hn by done.
    unfold GetNodesInShard. destruct (shard2nodes (nodeM l) !! SupervisorShardID) as [nodes|].
    + exists nodes. split; [done|]. cbn [default from_option id] in Hn. rewrite Hn.
      change [mkNodeInfo 0 SupervisorShardID; mkNodeInfo 0 SupervisorShardID]
        with ([mkNodeInfo 0 SupervisorShardID] ++ [mkNodeInfo 0 SupervisorShardID]).
      apply submseteq_app; [|done]. apply singleton_submseteq_l.
      apply list_elem_of_fmap. exists 0. split; [done|]. apply list_elem_of_fmap. exists (0, p).
      by split; [|apply elem_of_map_to_list].
    + cbn in Hn. by apply Permutation_nil_cons in Hn || (symmetry in Hn; apply Permutation_nil_r in Hn; by destruct (map _ _)).
  - intros data c Hd. unfold handleIdMapMessage. cbn [rc_err rc_data]. rewrite (json_map_roundtrip _ _ Hd).
    eexists. split; [reflexivity|]. cbn. split_and!; [done| |done].
    apply (topology_same (info2PeerID l)); [|done]. apply (SetTopoGetter_topology (RO := RO')).
Qed.
End directory.

(** ** A concrete library *)

Module P2PDemo.
(** Encoding by the numbering of a countable type, a byte for each bit. *)
Fixpoint bits (p : positive) : bytes :=
  match p with
  | xH => []
  | xO p => Byte.x00 :: bits p
  | xI p => Byte.x01 :: bits p
  end.
Fixpoint of_bits (l : bytes) : positive :=
  match l with
  | [] => xH
  | Byte.x00 :: l => xO (of_bits l)
  | _ :: l => xI (of_bits l)
  end.
Lemma of_bits_bits p : of_bits (bits p) = p.
Proof. induction p as [p IH|p IH|]; cbn; by rewrite ?IH. Qed.

Section encoding.
  Context {A B : Type} `{Countable B} (f : A → B) (g : B → A).
Definition to_bytes (a : A) : result bytes := Ok (bits (encode (f a))).
Definition from_bytes (b : bytes) : result A :=
  match decode (of_bits b) with Some x => Ok (g x) | None => Err "malformed" end.
Lemma bytes_roundtrip a b : (∀ a, g (f a) = a) → to_bytes a = Ok b → from_bytes b = Ok a.
Proof. intros Hg [= <-]. unfold from_bytes. by rewrite of_bits_bits, decode_encode, Hg. Qed.
End encoding.

Definition msg_pair (m : WrappedMsg) : string * bytes := (MsgType m, Payload m).
Definition pair_msg (p : string * bytes) : WrappedMsg := mkWrappedMsg p.1 p.2.
Definition reg_triple (r : NodeRegisterMsg) : Z * Z * string := (rg_ShardID r, rg_NodeID r, rg_PeerID r).
Definition triple_reg (p : Z * Z * string) : NodeRegisterMsg := mkNodeRegisterMsg p.1.1 p.1.2 p.2.

(** A network without connections. *)
#[export] Instance lib : P2PLib := {|
  PeerID := string;
  peer_Decode s := if decide (s = "") then Err "empty" else Ok s;
  Stream := unit;
  World := unit;
  host_NewStream _ _ := st_fail "unreachable";
  host_Conns _ := [];
  host_ID := "me";
  host_ID_String := "me";
  stream_Write _ _ := st_ret tt;
  stream_CloseWrite _ := st_ret tt;
  stream_ReadAll _ := st_ret [];
  stream_Reset _ w := w;
  stream_Close _ w := w;
  proto_Marshal := to_bytes msg_pair;
  proto_Unmarshal := from_bytes pair_msg;
  json_Marshal_reg := to_bytes reg_triple;
  json_Unmarshal_reg := from_bytes triple_reg;
  json_Marshal_map := to_bytes NodePeerMap;
  json_Unmarshal_map := from_bytes mkNodePeerBroadcastMsg;
|}.

#[export] Instance laws : P2PLaws.
Proof. split; intros m b; apply bytes_roundtrip; by intros []. Qed.

(** Two orders of a range. *)
Definition in_order (m : PeerMap) : list (Z * list Z) := prod_map id (λ i, (map_to_list i).*1) <$> map_to_list m.
Definition fwd : RangeOrder := in_order.
Definition bwd : RangeOrder := λ m, reverse (in_order m).

Lemma fwd_laws : @RangeOrderLaws fwd.
Proof.
  unfold fwd, range_order, in_order. split.
  - intros m. change (NoDup (prod_map id (λ i : gmap Z string, (map_to_list i).*1) <$> map_to_list m).*1).
    rewrite <- list_fmap_compose. apply NoDup_fst_map_to_list.
  - intros m s nodes ([s' inner] & [= -> ->] & Hin%elem_of_map_to_list)%list_elem_of_fmap. by exists inner.
  - intros m s inner Hm. exists (map_to_list inner).*1. apply list_elem_of_fmap. exists (s, inner).
    by split; [|apply elem_of_map_to_list].
Qed.

Lemma bwd_laws : @RangeOrderLaws bwd.
Proof.
  destruct fwd_laws as [H1 H2 H3]. unfold bwd, range_order. unfold fwd, range_order in H1, H2, H3. split.
  - intros m. change (NoDup (reverse (in_order m)).*1). rewrite fmap_reverse, reverse_Permutation. apply H1.
  - intros m s nodes Hin. apply H2. change ((s, nodes) ∈ reverse (in_order m)) in Hin.
    rewrite elem_of_reverse in Hin. exact Hin.
  - intros m s inner (nodes & Hin)%H3. exists nodes. change ((s, nodes) ∈ reverse (in_order m)). rewrite elem_of_reverse. exact Hin.
Qed.

Definition reg (s n : Z) (claim actual : string) : Received * string :=
  (mkReceived (force [] (json_Marshal_reg (mkNodeRegisterMsg s n claim))) (Ok tt), actual).
(** Two nodes, an impostor, a stream that broke, and a node that came back under another peer ID. *)
Definition streams : list (Received * string) :=
  [reg 0 0 "p" "p"; reg 0 1 "q" "q"; reg 0 0 "p" "evil"; (mkReceived [] (Err "reset"), "x"); reg 0 1 "r" "r"].
Definition cfg : LibP2PCfg := mkLibP2PCfg "key" "boot".
Definition sup : LibP2PConn := NewLibP2PConn cfg (mkNodeInfo 0 SupervisorShardID) (NewTopoGetter ∅ ∅).
Definition client : LibP2PConn := NewLibP2PConn cfg (mkNodeInfo 1 0) (NewTopoGetter ∅ ∅).
Definition after : LibP2PConn := (registrations (RO := fwd) streams sup).2.

Example after_ex : map (λ r, (map_updated r)) (force [] (registrations (RO := fwd) streams sup).1) = [true; true; false; false; true] ∧
  (peer_at (info2PeerID after) 0 0, peer_at (info2PeerID after) 0 1) = ("p", "r").
Proof. vm_compute. split; reflexivity. Qed.

Lemma directory_agreement_witness :
  last_claim (omap accepted streams) 0 1 = Some "r" ∧
  ∃ c', handleIdMapMessage (RO := bwd) (mkReceived (force [] (json_Marshal_map (mkNodePeerBroadcastMsg (info2PeerID after)))) (Ok tt)) client
      = (Ok tt, c') ∧
    info2PeerID c' = info2PeerID after ∧ same_topology (nodeM c') (nodeM after) ∧ lp_msgBuffer c' = lp_msgBuffer client.
Proof.
  split; [vm_compute; reflexivity|].
  destruct (directory_agreement (RO := fwd) (RL := fwd_laws) (RO' := bwd) (RL' := bwd_laws)
    cfg (mkNodeInfo 0 SupervisorShardID) (NewTopoGetter ∅ ∅) streams
    (force [] (registrations (RO := fwd) streams sup).1) after) as (_ & _ & H).
  - apply run_fst. apply force_ok. vm_compute. reflexivity.
  - destruct H as (_ & _ & H); [vm_compute; discriminate|]. apply H. reflexivity.
Defined.
End P2PDemo.
