(* ===== verification/Startup.v ===== *)
(** * Starting a node

    Models config/config.go (loading the configuration and the flags) and
    cmd/loadnetwork/loadnetwork.go (the connection and the topology a node
    starts with, and waiting until the topology is complete).

    JSON and YAML decoding and reading files are arguments of the model. *)

From S2P Require Import Prelude GoHash Account Bloom Block Utils Config Network Transport P2P.
From Stdlib Require Import Lia Ascii.

Local Open Scope Z_scope.

(** ** config.go *)

Record NetworkCfg := mkNetworkCfg { CommunicationMode : string; LibP2PConnCfg : LibP2PCfg }.

(** [Config]; its embedded structs are fields. *)
Record NodeConfig := mkNodeConfig {
  GlobalSys : SystemCfg;
  cfg_ConsensusNode : ConsensusNodeCfg;
  cfg_Supervisor : SupervisorCfg;
  cfg_Network : NetworkCfg;
}.
#[export] Instance NodeConfig_eta : Eta NodeConfig := λ c,
  mkNodeConfig (GlobalSys c) (cfg_ConsensusNode c) (cfg_Supervisor c) (cfg_Network c).
#[export] Instance ConsensusNodeCfg_eta : Eta ConsensusNodeCfg := λ c,
  mkConsensusNodeCfg (cn_Sys c) (cn_Bloom c) (cn_TxPoolType c) (cn_BlockInterval c).
#[export] Instance SupervisorCfg_eta : Eta SupervisorCfg := λ c,
  mkSupervisorCfg (sv_Sys c) (sv_TxNumber c) (sv_TxInjectionSpeed c) (sv_EpochDuration c) (sv_TxSource c) (sv_BrokerModule c).

(** [filepath.Ext] with / as the separator: from the last dot of the last
    element on.  [l] is the reversed path, [ext] what was passed. *)
Fixpoint ext_loop (l ext : list ascii) : list ascii :=
  match l with
  | [] => []
  | c :: l' =>
    if decide (c = "/"%char) then []
    else if decide (c = "."%char) then c :: ext
    else ext_loop l' (c :: ext)
  end.
Definition filepath_Ext (path : string) : string :=
  String.string_of_list_ascii (ext_loop (reverse (String.list_ascii_of_string path)) []).

Section config.
  Context (os_ReadFile : string → result bytes).
  Context (json_Unmarshal yaml_Unmarshal : bytes → result NodeConfig).

Definition LoadConfig (path : string) : result NodeConfig :=
  let* data := wrap_err "read file %s" (os_ReadFile path) in
  let* cfg :=
    if decide (filepath_Ext path = ".json") then wrap_err "json unmarshal %s" (json_Unmarshal data)
    else if decide (filepath_Ext path = ".yaml" ∨ filepath_Ext path = ".yml") then
      wrap_err "yaml unmarshal %s" (yaml_Unmarshal data)
    else Err "unsupported cfg type" in
  let cfg := cfg <| cfg_Supervisor ::= λ c, c <| sv_Sys := GlobalSys cfg |> |> in
  Ok (cfg <| cfg_ConsensusNode ::= λ c, c <| cn_Sys := GlobalSys cfg |> |>).

(** A configuration that was loaded has one system configuration. *)
Lemma LoadConfig_system path cfg : LoadConfig path = Ok cfg →
  sv_Sys (cfg_Supervisor cfg) = GlobalSys cfg ∧ cn_Sys (cfg_ConsensusNode cfg) = GlobalSys cfg.
Proof. unfold LoadConfig. intros (data & _ & H)%rbind_ok. by apply rbind_ok in H as (c & _ & [= <-]). Qed.
End config.

(** The flags are arguments. *)
Definition LoadLocalParams (localNodeID localShardID : Z) (accountAddr : string) : result LocalParams :=
  let* walletAddr := wrap_err "load wallet address" (Hex2Addr accountAddr) in
  if decide (localNodeID < 0 ∨ localShardID < 0) then Err "invalid local params, node id: %d, shard id: %d"
  else Ok (mkLocalParams localNodeID localShardID walletAddr).

(** ** loadnetwork.go *)

Definition errNodeMapNotReady : error := "node mapper is not ready".

(** [ipMap]: the decoded file, or the error of reading or decoding it. *)
Definition in_range (cfg : SystemCfg) (shardID nodeID : Z) : bool :=
  (bool_decide (shardID = SupervisorShardID) || (bool_decide (shardID < ShardNum cfg) && bool_decide (0 ≤ shardID))) &&
  (bool_decide (nodeID < NodeNum cfg) && bool_decide (0 ≤ nodeID)).

Definition readIpTableFromFile (cfg : SystemCfg) (ipMap : result PeerMap) : result (gmap NodeInfo string) :=
  let* ipMap := wrap_err "readIpTableFromFile" ipMap in
  Ok (fold_left (λ ret p,
        fold_left (λ ret q,
          if in_range cfg p.1 q.1 then <[mkNodeInfo q.1 p.1 := q.2]> ret else ret) (map_to_list p.2) ret)
      (map_to_list ipMap) ∅).

(** The loop over the nodes of the table, in the order it is ranged over. *)
Definition topo_node (t : TopoGetter) (node : NodeInfo) : TopoGetter :=
  let t := append_node (ni_ShardID node) node t in
  if decide (ni_NodeID node = 0) then t <| leaders ::= <[ni_ShardID node := node]> |> else t.

Definition loadDirectNetwork {Client : Type} (cfg : SystemCfg) (lp : LocalParams) (ipMap : result PeerMap)
    (order : gmap NodeInfo string → list NodeInfo) : result (RPCConn Client * TopoGetter) :=
  let* info2Host := wrap_err "read ip table from the file failed" (readIpTableFromFile cfg ipMap) in
  let meNode := mkNodeInfo (NodeID lp) (ShardID lp) in
  Ok (NewRPCConn meNode info2Host, fold_left topo_node (order info2Host) (NewTopoGetter ∅ ∅)).

Definition initLibP2PNetwork (cfg : NetworkCfg) (lp : LocalParams) : LibP2PConn :=
  NewLibP2PConn (LibP2PConnCfg cfg) (mkNodeInfo (NodeID lp) (ShardID lp)) (NewTopoGetter ∅ ∅).

(** [for shardID := range cfg.ShardNum] *)
Definition check_shard (cfg : SystemCfg) (nodeM : TopoGetter) (shardID : Z) : result unit :=
  let* _ := wrap_err "failed to get leader of shard %d" (GetLeader shardID nodeM) in
  let* nodeInfos := wrap_err "failed to get nodes in shard %d" (GetNodesInShard shardID nodeM) in
  if decide (Z.of_nat (length nodeInfos) ≠ NodeNum cfg) then
    wrap_err "actual node number %d in shard %d" (Err errNodeMapNotReady)
  else Ok tt.

Definition checkNodeMapperReady (nodeM : TopoGetter) (cfg : SystemCfg) : result unit :=
  let* allLeaders := wrap_err "failed to get all leaders in nodetopo" (GetAllLeaders nodeM) in
  if decide (Z.of_nat (length allLeaders) ≠ ShardNum cfg) then wrap_err "actual leader number %d" (Err errNodeMapNotReady)
  else rfold (λ _ shardID, check_shard cfg nodeM shardID) tt (seqZ 0 (ShardNum cfg)).

(** *** PrepareNetworkByCfg *)

Definition DirectConnMode : string := "direct".
Definition LibP2PConnMode : string := "libp2p".
(** Durations in nanoseconds. *)
Definition second : Z := 1000000000.
Definition bootstrapAheadTime : Z := 8 * second.
Definition nodeMapperCheckTimes : nat := 30.

(** [retry.Do]: its function is given by the outcome of each of its calls. *)
Class RetryLib := { retry_Do : nat → (nat → result unit) → result unit }.

(** What is relied on: success is the success of one of the attempts, and the
    first attempt that succeeds is not lost. *)
Class RetryLaws {RT : RetryLib} : Prop := {
  retry_ok : ∀ n f, retry_Do n f = Ok tt → ∃ i, (i < n)%nat ∧ f i = Ok tt;
  retry_first : ∀ n f i, (i < n)%nat → f i = Ok tt → (∀ j, (j < i)%nat → ∃ e, f j = Err e) → retry_Do n f = Ok tt;
}.

(** What reaches the stream handlers of a connection that listens. *)
Inductive Arrival := ConsensusMsg (rc : Received) | IdMap (rc : Received) | Register (rc : Received) (remotePeer : string).

Section prepare.
  Context {PL : P2PLib} {RO : RangeOrder} {RT : RetryLib} {Client : Type}.

Definition arrive (a : Arrival) (c : LibP2PConn) : LibP2PConn :=
  match a with
  | ConsensusMsg rc => (P2P.handleMessage rc c).2
  | IdMap rc => (handleIdMapMessage rc c).2
  | Register rc remotePeer => (handleRegisterStream rc remotePeer c).2
  end.
Definition handled (l : list Arrival) (c : LibP2PConn) : LibP2PConn := fold_left (λ c a, arrive a c) l c.

(** [nodeM i] is the topology at attempt [i].  The ticker is made and never
    read: the pauses are [retry.Do]'s. *)
Definition waitForNodeMapperReady (nodeM : nat → TopoGetter) (cfg : SystemCfg) : result unit :=
  retry_Do nodeMapperCheckTimes (λ i, checkNodeMapperReady (nodeM i) cfg).

Inductive P2PConn := DirectConn (c : RPCConn Client) | LibP2P (c : LibP2PConn).

(** What starting a program does to the outside, in order. *)
Inductive StartStep := Sleep (d : Z) | GoListenStart.
Definition start_step (x : StartStep) : M (list StartStep) unit := st_modify (λ l, l ++ [x]).

(** The getter returned in mode libp2p is the one the handlers go on writing;
    what is given is its value on return.  [arrived] is what arrives until then and
    [seen i] how much of it came before attempt [i]. *)
Definition PrepareNetworkByCfg (cfg : NodeConfig) (lp : LocalParams) (ipMap : result PeerMap)
    (order : gmap NodeInfo string → list NodeInfo) (arrived : list Arrival) (seen : nat → nat)
    : M (list StartStep) (P2PConn * TopoGetter) :=
  if decide (CommunicationMode (cfg_Network cfg) = DirectConnMode) then
    let! p := st_wrap "load direct network" (st_lift (loadDirectNetwork (GlobalSys cfg) lp ipMap order)) in
    start_step GoListenStart ;;!
    st_ret (DirectConn p.1, p.2)
  else if decide (CommunicationMode (cfg_Network cfg) = LibP2PConnMode) then
    let p2p := initLibP2PNetwork (cfg_Network cfg) lp in
    (if decide (ShardID lp ≠ SupervisorShardID) then start_step (Sleep bootstrapAheadTime) else st_ret tt) ;;!
    start_step GoListenStart ;;!
    st_wrap "wait for node mapper ready failed"
      (st_lift (waitForNodeMapperReady (λ i, nodeM (handled (take (seen i) arrived) p2p)) (GlobalSys cfg))) ;;!
    st_ret (LibP2P (handled arrived p2p), nodeM (handled arrived p2p))
  else st_fail "unknown communication Mode: %s".
End prepare.

Example ext_ex : map filepath_Ext ["cfg/a.b.yaml"; "cfg.d/x"; "x.json"] = [".yaml"; ""; ".json"].
Proof. vm_compute. reflexivity. Qed.

(** ** Facts *)

Lemma rfold_each {A} (f : A → result unit) l : rfold (λ _ x, f x) tt l = Ok tt → ∀ x, x ∈ l → f x = Ok tt.
Proof.
  induction l as [|y l IH]; cbn; [by intros _ x ?%not_elem_of_nil|]. intros ([] & Hy & H)%rbind_ok x [->|Hx]%elem_of_cons; [done|].
  by apply IH.
Qed.

Lemma topology_leader_keys m t : topology_of m t → ∃ keys, NoDup keys ∧
  (∀ s, s ∈ keys ↔ s = SupervisorShardID ∨ is_Some (peers_of m s !! 0)) ∧
  GetAllLeaders t = Ok (map (mkNodeInfo 0) (filter (λ s, s ≠ SupervisorShardID) keys)).
Proof.
  intros [H1 _ _]. exists (map_to_list (leaders t)).*1. split_and!; [apply NoDup_fst_map_to_list| |].
  - intros s. rewrite list_elem_of_fmap. specialize (H1 s). split.
    + intros ([s' v] & -> & Hv%elem_of_map_to_list). cbn in *. case_decide; [done|]. by rewrite H1 in Hv.
    + intros Hs. rewrite decide_True in H1 by done. exists (s, mkNodeInfo 0 s). by split; [|apply elem_of_map_to_list].
  - unfold GetAllLeaders. f_equal.
    assert (∀ s v, (s, v) ∈ map_to_list (leaders t) → v = mkNodeInfo 0 s) as Hv.
    { intros s v Hv%elem_of_map_to_list. rewrite H1 in Hv. case_decide; by simplify_eq. }
    revert Hv. generalize (map_to_list (leaders t)). clear. intros l Hv. induction l as [|[s v] l IH]; [done|].
    rewrite !fmap_cons, !filter_cons. cbn [fst snd]. rewrite (Hv s v) by (by left). cbn [ni_ShardID].
    specialize (IH (λ s v H, Hv s v (list_elem_of_further _ _ _ H))). case_decide; cbn; by rewrite IH.
Qed.

(** A topology that passes the check: exactly the shards of the configuration,
    each with its number of nodes and node 0. *)
Lemma ready_shards m t cfg : topology_of m t → ShardNum cfg ≤ SupervisorShardID →
  checkNodeMapperReady t cfg = Ok tt →
  (∀ s, 0 ≤ s < ShardNum cfg → is_Some (peers_of m s !! 0) ∧ Z.of_nat (size (peers_of m s)) = NodeNum cfg) ∧
  (∀ s, s ≠ SupervisorShardID → is_Some (peers_of m s !! 0) → 0 ≤ s < ShardNum cfg).
Proof.
  intros Ht Hn. unfold checkNodeMapperReady. destruct (topology_leader_keys m t Ht) as (keys & Hnd & Hkeys & ->).
  cbn [wrap_err rbind]. rewrite length_map. case_decide as Hlen; [done|]. intros Hall.
  assert (∀ s, 0 ≤ s < ShardNum cfg → is_Some (peers_of m s !! 0) ∧ Z.of_nat (size (peers_of m s)) = NodeNum cfg) as Hs.
  { intros s Hs. pose proof (rfold_each _ _ Hall s ltac:(apply elem_of_seqZ; lia)) as Hc. unfold check_shard in Hc.
    apply rbind_ok in Hc as (v & Hv%wrap_err_ok & Hc). apply rbind_ok in Hc as (nodes & Hnodes%wrap_err_ok & Hc).
    case_decide as Hlen2; [done|]. unfold GetLeader in Hv. rewrite (topo_leaders _ _ Ht) in Hv.
    case_decide as Hl; [|done]. split; [destruct Hl; [lia|done]|]. unfold GetNodesInShard in Hnodes.
    pose proof (topo_nodes _ _ Ht s) as Hp. destruct (shard2nodes t !! s); [|done]. simplify_eq. cbn [default from_option id] in Hp.
    rewrite decide_False in Hp by lia. apply Permutation_length in Hp.
    rewrite app_nil_r, length_map, length_fmap, length_map_to_list in Hp. lia. }
  split; [exact Hs|]. intros s Hsup H0.
  assert (seqZ 0 (ShardNum cfg) ≡ₚ filter (λ s, s ≠ SupervisorShardID) keys) as Hp.
  { apply submseteq_length_Permutation.
    - apply NoDup_submseteq; [apply NoDup_seqZ|]. intros x Hx%elem_of_seqZ. apply list_elem_of_filter.
      split; [lia|]. apply Hkeys. right. apply Hs. lia.
    - rewrite length_seqZ. lia. }
  assert (s ∈ seqZ 0 (ShardNum cfg)) as Hin%elem_of_seqZ; [|lia].
  rewrite Hp. apply list_elem_of_filter. split; [done|]. apply Hkeys. by right.
Qed.

Lemma last_claim_in {PL : P2PLib} streams s n p :
  last_claim (omap accepted streams) s n = Some p →
  ∃ st, st ∈ streams ∧ accepted st = Some (mkNodeRegisterMsg s n p) ∧ st.2 = p.
Proof.
  unfold last_claim. intros H%last_Some_elem_of. apply list_elem_of_omap in H as (info & Hinfo & Hi).
  case_decide as Hc; [|done]. destruct Hc as [<- <-]. injection Hi as <-.
  apply list_elem_of_omap in Hinfo as (st & Hst & Ha). exists st. split; [done|]. destruct info as [s n p]. cbn.
  split; [done|]. unfold accepted in Ha. repeat case_match; by simplify_eq.
Qed.

(** C28: when a node's topology passes the check, every address it may use is
    authentic and complete.  For any registrations at the supervisor and a node
    that handled the broadcast of the resulting map, if [checkNodeMapperReady]
    accepts the node's topology then each of the configured shards has a node 0
    and exactly NodeNum registered nodes, no other shard has a leader, and the
    peer the node would open a stream to for any of these positions had claimed
    that position in a registration stream that libp2p authenticated as its. *)
Theorem ready_directory {PL : P2PLib} {LAWS : P2PLaws} {RO : RangeOrder} {RL : RangeOrderLaws}
    {RO' : RangeOrder} {RL' : @RangeOrderLaws RO'} cfg me t streams rs l data c c' sys :
  registrations (RO := RO) streams (NewLibP2PConn cfg me t) = (Ok rs, l) →
  json_Marshal_map (mkNodePeerBroadcastMsg (info2PeerID l)) = Ok data →
  handleIdMapMessage (RO := RO') (mkReceived data (Ok tt)) c = (Ok tt, c') →
  checkNodeMapperReady (nodeM c') sys = Ok tt → ShardNum sys ≤ SupervisorShardID →
  (∀ s, 0 ≤ s < ShardNum sys →
    GetLeader s (nodeM c') = Ok (mkNodeInfo 0 s) ∧
    Z.of_nat (size (peers_of (info2PeerID c') s)) = NodeNum sys ∧
    ∀ n p, peers_of (info2PeerID c') s !! n = Some p →
      peer_at (info2PeerID c') s n = p ∧
      ∃ st, st ∈ streams ∧ accepted st = Some (mkNodeRegisterMsg s n p) ∧ st.2 = p) ∧
  (∀ s, s ≠ SupervisorShardID → is_ok (GetLeader s (nodeM c')) = true → 0 ≤ s < ShardNum sys).
Proof.
  intros (_ & Hp & _)%registrations_spec Hd Hm Hready Hn. unfold handleIdMapMessage in Hm. cbn [rc_err rc_data] in Hm.
  rewrite (json_map_roundtrip _ _ Hd) in Hm. injection Hm as <-. cbn [nodeM info2PeerID NodePeerMap] in *.
  set (m := info2PeerID l) in *.
  pose proof (SetTopoGetter_topology (RO := RO') m (nodeM c)) as Ht.
  destruct (ready_shards m _ sys Ht Hn Hready) as [H1 H2].
  assert (∀ s, GetLeader s (SetTopoGetter (range_order m) (nodeM c)) =
    if decide (s = SupervisorShardID ∨ is_Some (peers_of m s !! 0)) then Ok (mkNodeInfo 0 s) else Err "shard %d not found") as Hl.
  { intros s. unfold GetLeader. rewrite (topo_leaders _ _ Ht). by case_decide. }
  split.
  - intros s Hs. destruct (H1 s Hs) as [H0 Hsize]. split_and!.
    + etransitivity; [apply Hl|]. by rewrite decide_True by auto.
    + exact Hsize.
    + intros n p Hpeer. split; [unfold peer_at; fold (peers_of m s); change (default "" (peers_of m s !! n) = p); by rewrite (Hpeer : peers_of m s !! n = Some p)|].
      change (peers_of m s !! n = Some p) in Hpeer. rewrite Hp, NewLibP2PConn_peers in Hpeer.
      destruct (last_claim _ s n) eqn:El; [simplify_eq; by apply last_claim_in in El|].
      unfold first_peer in Hpeer. rewrite decide_False in Hpeer by lia. done.
  - intros s Hs Hok. apply H2; [done|]. change (is_ok (GetLeader s (SetTopoGetter (range_order m) (nodeM c))) = true) in Hok.
    rewrite Hl in Hok. case_decide as Hd2; [|done]. by destruct Hd2.
Qed.

(** *** The direct network *)

Definition ip_inner (cfg : SystemCfg) (s : Z) (l : list (Z * string)) (ret : gmap NodeInfo string) : gmap NodeInfo string :=
  fold_left (λ ret q, if in_range cfg s q.1 then <[mkNodeInfo q.1 s := q.2]> ret else ret) l ret.

Lemma ip_inner_lookup cfg s l ret n s' : NoDup l.*1 →
  ip_inner cfg s l ret !! mkNodeInfo n s' =
  match (if decide (s' = s ∧ in_range cfg s n = true) then list_to_map (M := gmap Z string) l !! n else None) with
  | Some h => Some h | None => ret !! mkNodeInfo n s' end.
Proof.
  revert ret; induction l as [|[n0 h0] l IH]; intros ret; [by case_decide|].
  rewrite fmap_cons, list_to_map_cons. intros [Hn0 Hnd]%NoDup_cons.
  change (ip_inner cfg s ((n0, h0) :: l) ret)
    with (ip_inner cfg s l (if in_range cfg s n0 then <[mkNodeInfo n0 s := h0]> ret else ret)).
  rewrite IH by done. case_decide as Hc.
  - destruct Hc as [-> Hr]. destruct (decide (n0 = n)) as [->|Hne].
    + rewrite lookup_insert_eq, Hr, lookup_insert_eq, not_elem_of_list_to_map_1 by done. done.
    + rewrite (lookup_insert_ne (list_to_map l)) by done. destruct (list_to_map l !! n); [done|].
      destruct (in_range cfg s n0); [|done]. rewrite lookup_insert_ne; [done|]. by intros [= ->].
  - destruct (in_range cfg s n0) eqn:Hr; [|done]. rewrite lookup_insert_ne; [done|]. intros [= -> ->]. by destruct Hc.
Qed.

Lemma ip_outer_lookup cfg (l : list (Z * gmap Z string)) ret n s : NoDup l.*1 →
  fold_left (λ ret p, ip_inner cfg p.1 (map_to_list p.2) ret) l ret !! mkNodeInfo n s =
  match (if in_range cfg s n then default ∅ (list_to_map (M := PeerMap) l !! s) !! n else None) with
  | Some h => Some h | None => ret !! mkNodeInfo n s end.
Proof.
  revert ret; induction l as [|[s0 inner] l IH]; intros ret; [by destruct (in_range cfg s n)|].
  rewrite fmap_cons, list_to_map_cons. intros [Hs0 Hnd]%NoDup_cons. cbn [fold_left fst snd].
  rewrite IH by done. rewrite ip_inner_lookup by apply NoDup_fst_map_to_list.
  rewrite list_to_map_to_list. destruct (decide (s0 = s)) as [->|Hne].
  - rewrite lookup_insert_eq, not_elem_of_list_to_map_1 by done. cbn. rewrite lookup_empty.
    destruct (in_range cfg s n); case_decide as Hc; [by destruct (inner !! n)|by destruct Hc|by destruct Hc|done].
  - rewrite lookup_insert_ne by done. rewrite (decide_False (P := s = s0 ∧ _)) by naive_solver. done.
Qed.

Lemma readIpTable_lookup cfg ipMap tab : readIpTableFromFile cfg (Ok ipMap) = Ok tab →
  ∀ n s, tab !! mkNodeInfo n s = if in_range cfg s n then peers_of ipMap s !! n else None.
Proof.
  intros [= <-] n s. etransitivity; [apply (ip_outer_lookup cfg (map_to_list ipMap) ∅ n s), NoDup_fst_map_to_list|].
  rewrite list_to_map_to_list, lookup_empty. unfold peers_of. by destruct (in_range cfg s n); [case_match|].
Qed.

Lemma in_range_spec cfg s n :
  in_range cfg s n = true ↔ (s = SupervisorShardID ∨ 0 ≤ s < ShardNum cfg) ∧ 0 ≤ n < NodeNum cfg.
Proof. unfold in_range. rewrite !andb_true_iff, orb_true_iff, andb_true_iff, !bool_decide_eq_true. lia. Qed.

(** The topology of a list of nodes. *)
Lemma topo_nodes_spec l t : NoDup l →
  let t' := fold_left topo_node l t in
  (∀ s, leaders t' !! s = if decide (mkNodeInfo 0 s ∈ l) then Some (mkNodeInfo 0 s) else leaders t !! s) ∧
  (∀ s, default [] (shard2nodes t' !! s) =
    default [] (shard2nodes t !! s) ++ filter (λ v, ni_ShardID v = s) l).
Proof.
  revert t; induction l as [|[n0 s0] l IH]; intros t; cbn zeta.
  { intros _. split; intros s; [rewrite decide_False by apply not_elem_of_nil|rewrite app_nil_r]; done. }
  intros [Hnot Hnd]%NoDup_cons. destruct (IH (topo_node t (mkNodeInfo n0 s0)) Hnd) as [H1 H2]. cbn [fold_left].
  split; intros s.
  - rewrite H1. unfold topo_node. cbn [ni_NodeID ni_ShardID].
    destruct (decide (n0 = 0)) as [->|Hn0]; cbn.
    + destruct (decide (s0 = s)) as [->|Hs].
      * rewrite lookup_insert_eq, (decide_True (P := mkNodeInfo 0 s ∈ _ :: _)) by (by left). by case_decide.
      * rewrite lookup_insert_ne by done. apply decide_ext. rewrite elem_of_cons. naive_solver.
    + apply decide_ext. rewrite elem_of_cons. naive_solver.
  - rewrite H2. rewrite filter_cons. cbn [ni_ShardID].
    assert (∀ t0 : TopoGetter, shard2nodes (if decide (n0 = 0)
        then t0 <| leaders ::= <[s0 := mkNodeInfo n0 s0]> |> else t0) = shard2nodes t0) as E
      by (intros; destruct (decide (n0 = 0)); reflexivity).
    unfold topo_node. cbn [ni_NodeID ni_ShardID]. cbn zeta. rewrite E. cbn.
    destruct (decide (s0 = s)) as [->|Hs]; [rewrite lookup_insert_eq; cbn; by rewrite <- app_assoc|by rewrite lookup_insert_ne].
Qed.

(** C33: in direct mode the topology and the connection of a node agree, and both
    stay within the configuration.  For any table of hosts, in whatever order
    its nodes are visited, the connection has exactly the hosts of the table
    whose node is below NodeNum and whose shard is below ShardNum or the
    supervisor's (negative numbers left out); every shard of the topology lists
    each of its nodes that has a host once and nothing else, so that no send to
    a node of the topology fails for lack of a host; and its leader is node 0
    when that node has a host. *)
Theorem direct_network_in_range {Client : Type} cfg lp ipMap order (conn : RPCConn Client) t :
  (∀ m, order m ≡ₚ (map_to_list m).*1) →
  loadDirectNetwork cfg lp (Ok ipMap) order = Ok (conn, t) →
  Transport.me conn = mkNodeInfo (NodeID lp) (ShardID lp) ∧
  (∀ n s, info2Host conn !! mkNodeInfo n s =
    if decide ((s = SupervisorShardID ∨ 0 ≤ s < ShardNum cfg) ∧ 0 ≤ n < NodeNum cfg)
    then peers_of ipMap s !! n else None) ∧
  (∀ s, match GetNodesInShard s t with
        | Ok nodes => NoDup nodes ∧ ∀ v, v ∈ nodes ↔ ni_ShardID v = s ∧ is_Some (info2Host conn !! v)
        | _ => ∀ n, info2Host conn !! mkNodeInfo n s = None
        end) ∧
  (∀ s, GetLeader s t = if decide (is_Some (info2Host conn !! mkNodeInfo 0 s)) then Ok (mkNodeInfo 0 s)
                        else Err "shard %d not found").
Proof.
  intros Ho. unfold loadDirectNetwork. intros (tab & Htab%wrap_err_ok & H)%rbind_ok.
  pose proof (readIpTable_lookup cfg ipMap tab Htab) as Hl. clear Htab. injection H as <- <-. cbn [NewRPCConn Transport.me info2Host].
  assert (NoDup (order tab)) as Hnd by (rewrite Ho; apply NoDup_fst_map_to_list).
  assert (∀ v, v ∈ order tab ↔ is_Some (tab !! v)) as Hin.
  { intros v. rewrite Ho, list_elem_of_fmap. split.
    - intros ([v' h] & -> & Hv%elem_of_map_to_list). cbn. eauto.
    - intros [h Hv]. exists (v, h). by split; [|apply elem_of_map_to_list]. }
  destruct (topo_nodes_spec (order tab) (NewTopoGetter ∅ ∅) Hnd) as [H1 H2]. split_and!; [done| | |].
  - intros n s. rewrite Hl. pose proof (in_range_spec cfg s n) as Hr. destruct (in_range cfg s n).
    + by rewrite decide_True by (by apply Hr).
    + rewrite decide_False; [done|]. by intros H%Hr.
  - intros s. specialize (H2 s). unfold GetNodesInShard. destruct (shard2nodes _ !! s) as [nodes|]; cbn in H2; rewrite lookup_empty in H2; cbn in H2.
    + subst nodes. split; [by apply NoDup_filter|]. intros v. rewrite list_elem_of_filter, Hin. done.
    + intros n. apply eq_None_not_Some. rewrite <- Hin. intros Hv.
      assert (mkNodeInfo n s ∈ filter (λ v, ni_ShardID v = s) (order tab)) as Hf by (by apply list_elem_of_filter).
      rewrite <- H2 in Hf. by apply not_elem_of_nil in Hf.
  - intros s. unfold GetLeader. rewrite H1. cbn. rewrite lookup_empty.
    destruct (decide (mkNodeInfo 0 s ∈ order tab)) as [Hv|Hv]; rewrite Hin in Hv;
      [by rewrite decide_True|by rewrite decide_False].
Qed.

(** *** The network of a program *)

Section prepare_facts.
  Context {PL : P2PLib} {RO : RangeOrder} {RL : RangeOrderLaws} {RT : RetryLib} {RTL : RetryLaws}.

(** The topology is that of the directory, once anything reached it. *)
Definition directory_inv (c : LibP2PConn) : Prop :=
  topology_of (info2PeerID c) (nodeM c) ∨ nodeM c = NewTopoGetter ∅ ∅.

Lemma register_failed rc peer c r c' :
  handleRegisterStream rc peer c = (r, c') → is_ok r = false → c' = c.
Proof.
  unfold handleRegisterStream. destruct (rc_err rc); [destruct (json_Unmarshal_reg _); [case_decide|..]|..];
    intros [= <- <-]; done.
Qed.

Lemma arrive_inv a c : directory_inv c → directory_inv (arrive a c).
Proof using RL.
  intros Hc. destruct a as [rc|rc|rc peer]; cbn [arrive].
  - unfold P2P.handleMessage. destruct (proto_Unmarshal _); try exact Hc. unfold log_error, lp_add2LocalBuffer, st_zoom.
    by destruct (buffer_add _ _) as [[] ?].
  - unfold handleIdMapMessage. destruct (rc_err rc); try exact Hc. destruct (json_Unmarshal_map _); try exact Hc.
    left. apply SetTopoGetter_topology.
  - destruct (handleRegisterStream rc peer c) as [[r|e|] c'] eqn:E; cbn [snd].
    + apply (register_step (rc, peer)) in E as [_ E]. destruct (accepted _); [left; apply E|by subst].
    + by rewrite (register_failed rc peer c _ c' E).
    + by rewrite (register_failed rc peer c _ c' E).
Qed.

Lemma handled_inv l c : directory_inv c → directory_inv (handled l c).
Proof using RL. revert c; induction l as [|a l IH]; intros c Hc; [done|]. cbn. by apply IH, arrive_inv. Qed.

(** A node of mode libp2p sleeps before it connects, the supervisor does not;
    when the network is ready, each configured shard had its node 0 and exactly
    NodeNum nodes in the directory the node had got at one of 30 checks. *)
Theorem libp2p_network_ready {Client : Type} cfg lp ipMap order arrived seen steps steps' (p : P2PConn (Client := Client)) t :
  CommunicationMode (cfg_Network cfg) = LibP2PConnMode →
  0 < ShardNum (GlobalSys cfg) ≤ SupervisorShardID →
  PrepareNetworkByCfg cfg lp ipMap order arrived seen steps = (Ok (p, t), steps') →
  steps' = steps ++ (if decide (ShardID lp = SupervisorShardID) then [] else [Sleep bootstrapAheadTime]) ++ [GoListenStart] ∧
  ∃ i, (i < nodeMapperCheckTimes)%nat ∧
    let c := handled (take (seen i) arrived) (initLibP2PNetwork (cfg_Network cfg) lp) in
    ∀ s, 0 ≤ s < ShardNum (GlobalSys cfg) →
      GetLeader s (nodeM c) = Ok (mkNodeInfo 0 s) ∧ Z.of_nat (size (peers_of (info2PeerID c) s)) = NodeNum (GlobalSys cfg).
Proof using RL RTL.
  intros Hm Hn. unfold PrepareNetworkByCfg. rewrite decide_False by (by rewrite Hm). rewrite decide_True by done. cbn zeta.
  intros ([] & s1 & Hsleep & H)%st_bind_ok. apply st_bind_ok in H as ([] & s2 & [= <-] & H).
  apply st_bind_ok in H as ([] & s3 & [Hw ->]%st_wrap_ok%st_lift_ok & [= _ _ <-]). split.
  { destruct (decide (ShardID lp = SupervisorShardID)); [rewrite decide_False in Hsleep by auto|rewrite decide_True in Hsleep by done];
      injection Hsleep as <-; [done|by rewrite <- app_assoc]. }
  apply retry_ok in Hw as (i & Hi & Hc). exists i. split; [done|]. cbn zeta.
  set (c := handled _ _) in *. destruct (handled_inv (take (seen i) arrived) (initLibP2PNetwork (cfg_Network cfg) lp)) as [Ht|Ht];
    [by right|fold c in Ht..].
  - destruct (ready_shards _ _ _ Ht (proj2 Hn) Hc) as [Hs _]. intros s Hsr. destruct (Hs s Hsr) as [H0 Hsize].
    split; [|done]. unfold GetLeader. rewrite (topo_leaders _ _ Ht). by rewrite decide_True by auto.
  - unfold checkNodeMapperReady in Hc. rewrite Ht in Hc. change (GetAllLeaders _) with (Ok (A := list NodeInfo) []) in Hc.
    cbn [wrap_err rbind length] in Hc. case_decide as Hd; [done|]. destruct Hd. lia.
Qed.

(** A directory that passes a check is waited for: the network becomes ready. *)
Lemma wait_ready (nodeM : nat → TopoGetter) cfg i :
  (i < nodeMapperCheckTimes)%nat → checkNodeMapperReady (nodeM i) cfg = Ok tt →
  (∀ j, (j < i)%nat → ∃ e, checkNodeMapperReady (nodeM j) cfg = Err e) →
  waitForNodeMapperReady nodeM cfg = Ok tt.
Proof using RTL. intros Hi Hc He. by apply (retry_first _ _ i). Qed.
End prepare_facts.

Section direct_facts.
  Context {PL : P2PLib} {RO : RangeOrder} {RT : RetryLib} {Client : Type}.

(** In direct mode the nodes of a shard are those with a host in the table. *)
Lemma direct_nodes cfg lp ipMap order (conn : RPCConn Client) t s nodes :
  (∀ m, order m ≡ₚ (map_to_list m).*1) →
  loadDirectNetwork cfg lp (Ok ipMap) order = Ok (conn, t) →
  GetNodesInShard s t = Ok nodes →
  ∀ v, v ∈ nodes ↔ ni_ShardID v = s ∧ in_range cfg s (ni_NodeID v) = true ∧ is_Some (peers_of ipMap s !! ni_NodeID v).
Proof.
  intros Ho. unfold loadDirectNetwork. intros (tab & Htab%wrap_err_ok & [= <- <-])%rbind_ok Hnodes [n s'].
  pose proof (readIpTable_lookup cfg ipMap tab Htab n s) as Hl.
  assert (NoDup (order tab)) as Hnd by (rewrite Ho; apply NoDup_fst_map_to_list).
  destruct (topo_nodes_spec (order tab) (NewTopoGetter ∅ ∅) Hnd) as [_ H2]. specialize (H2 s).
  unfold GetNodesInShard in Hnodes. destruct (shard2nodes _ !! s) as [l|]; [|done]. simplify_eq.
  cbn in H2. rewrite lookup_empty in H2. cbn in H2. subst. rewrite list_elem_of_filter, Ho, list_elem_of_fmap. cbn.
  split.
  - intros (-> & [v h] & Hv & Hin%elem_of_map_to_list). cbn in Hv. subst v. rewrite Hl in Hin.
    destruct (in_range cfg s n); [|done]. by rewrite Hin.
  - intros (-> & Hr & [h Hh]). split; [done|]. exists (mkNodeInfo n s, h). split; [done|].
    apply elem_of_map_to_list. by rewrite Hl, Hr.
Qed.

(** The two modes, and nothing else. *)
Lemma PrepareNetwork_unknown cfg lp ipMap order arrived seen steps :
  CommunicationMode (cfg_Network cfg) ≠ DirectConnMode → CommunicationMode (cfg_Network cfg) ≠ LibP2PConnMode →
  PrepareNetworkByCfg (Client := Client) cfg lp ipMap order arrived seen steps = (Err "unknown communication Mode: %s", steps).
Proof. intros H1 H2. unfold PrepareNetworkByCfg. by rewrite !decide_False by done. Qed.

Lemma PrepareNetwork_direct cfg lp ipMap order arrived seen steps p t steps' :
  CommunicationMode (cfg_Network cfg) = DirectConnMode →
  PrepareNetworkByCfg cfg lp ipMap order arrived seen steps = (Ok (p, t), steps') →
  ∃ conn : RPCConn Client, p = DirectConn conn ∧ loadDirectNetwork (GlobalSys cfg) lp ipMap order = Ok (conn, t) ∧
    steps' = steps ++ [GoListenStart].
Proof.
  intros Hm. unfold PrepareNetworkByCfg. rewrite decide_True by done.
  intros ([conn t'] & s1 & [Hl ->]%st_wrap_ok%st_lift_ok & H)%st_bind_ok. cbn in H. injection H as <- <- <-. eauto.
Qed.
End direct_facts.

(** *** Retrying a number of times *)

Module RetryDemo.
Fixpoint attempts (n i : nat) (f : nat → result unit) : result unit :=
  match n with
  | O => Err "All attempts fail"
  | S n' => match f i with Err _ => attempts n' (S i) f | r => r end
  end.

Lemma attempts_ok n i f : attempts n i f = Ok tt → ∃ j, (i ≤ j < i + n)%nat ∧ f j = Ok tt.
Proof.
  revert i; induction n as [|n IH]; intros i; cbn; [done|]. destruct (f i) as [[]|e|] eqn:E; [|intros H|done].
  - exists i. split; [lia|done].
  - apply IH in H as (j & Hj & Hf). exists j. split; [lia|done].
Qed.

Lemma attempts_first n i k f : (i ≤ k < i + n)%nat → f k = Ok tt →
  (∀ j, (i ≤ j < k)%nat → ∃ e, f j = Err e) → attempts n i f = Ok tt.
Proof.
  revert i; induction n as [|n IH]; intros i Hk Hf He; [lia|]. cbn. destruct (decide (i = k)) as [->|Hne]; [by rewrite Hf|].
  destruct (He i) as [e ->]; [lia|]. apply IH; [lia|done|]. intros j Hj. apply He. lia.
Qed.

#[export] Instance retry : RetryLib := {| retry_Do n f := attempts n 0 f |}.
#[export] Instance retry_laws : RetryLaws.
Proof.
  split.
  - intros n f (i & Hi & H)%attempts_ok. exists i. split; [lia|done].
  - intros n f i Hi Hf He. apply (attempts_first n 0 i); [lia|done|]. intros j Hj. apply He. lia.
Qed.
End RetryDemo.

Module StartupDemo.
Import P2PDemo RetryDemo.

Definition sys : SystemCfg := mkSystemCfg 1 2 StaticRelayConsensus 10.
Definition data : bytes := force [] (json_Marshal_map (mkNodePeerBroadcastMsg (info2PeerID after))).
Definition client' : LibP2PConn := (handleIdMapMessage (RO := bwd) (mkReceived data (Ok tt)) client).2.

Lemma ready_directory_witness :
  checkNodeMapperReady (nodeM client) sys = Err "actual leader number %d: node mapper is not ready" ∧
  ∃ st, st ∈ streams ∧ accepted st = Some (mkNodeRegisterMsg 0 1 "r") ∧ st.2 = "r".
Proof.
  split; [vm_compute; reflexivity|].
  destruct (ready_directory (RO := fwd) (RL := fwd_laws) (RO' := bwd) (RL' := bwd_laws)
    cfg (mkNodeInfo 0 SupervisorShardID) (NewTopoGetter ∅ ∅) streams
    (force [] (registrations (RO := fwd) streams sup).1) after data client client' sys) as [H _].
  - apply run_fst. apply force_ok. vm_compute. reflexivity.
  - reflexivity.
  - apply run_fst. vm_compute. reflexivity.
  - vm_compute. reflexivity.
  - vm_compute. discriminate.
  - destruct (H 0) as (_ & _ & Hp); [split; reflexivity || discriminate|].
    apply (Hp 1 "r"). vm_compute. reflexivity.
Defined.

Definition hosts : PeerMap := {[0 := {[0 := "a"; 1 := "b"; 5 := "x"]}; 7 := {[0 := "y"]}; SupervisorShardID := {[0 := "s"]}]}.
Definition lp : LocalParams := mkLocalParams 1 0 EmptyAccountAddr.
Definition order (m : gmap NodeInfo string) : list NodeInfo := (map_to_list m).*1.
Definition loaded : RPCConn string * TopoGetter :=
  force (NewRPCConn (mkNodeInfo 0 0) ∅, NewTopoGetter ∅ ∅) (loadDirectNetwork sys lp (Ok hosts) order).

Lemma direct_network_in_range_witness :
  size (info2Host loaded.1) = 3%nat ∧ GetLeader 7 loaded.2 = Err "shard %d not found" ∧
  GetLeader 0 loaded.2 = Ok (mkNodeInfo 0 0).
Proof.
  split; [vm_compute; reflexivity|].
  destruct (direct_network_in_range sys lp hosts order loaded.1 loaded.2) as (_ & _ & _ & H).
  - intros m. reflexivity.
  - vm_compute. reflexivity.
  - split; rewrite H; vm_compute; reflexivity.
Defined.

(** A node of mode libp2p whose directory arrives before the second check. *)
Definition libp2p_cfg : NodeConfig :=
  mkNodeConfig sys (mkConsensusNodeCfg sys {| BitsetLen := 64; FilterHashFunc_cfg := ["sha256"] |} TxPoolNumType 0)
    (mkSupervisorCfg sys 3 2 30 (mkTxSourceCfg "csv_source" true) (mkBrokerModuleCfg 1)) (mkNetworkCfg LibP2PConnMode cfg).
Definition prepared (seen : nat → nat) :=
  PrepareNetworkByCfg (RO := bwd) (Client := string) libp2p_cfg lp (Err "unused") order [IdMap (mkReceived data (Ok tt))] seen [].

Example prepare_ex : (prepared id).2 = [Sleep bootstrapAheadTime; GoListenStart] ∧
  is_ok (prepared id).1 = true ∧ is_ok (prepared (λ _, 0%nat)).1 = false.
Proof. vm_compute. split_and!; reflexivity. Qed.
End StartupDemo.
