(* ===== verification/Migration.v ===== *)
(** * Account-migration metadata

    Models consensus/pbft/migration/migration.go: the epoch a node is in, the
    accounts it must migrate, the account states collected from the shards, and
    the states that arrived before the epoch started.

    The node's goroutine owns the metadata.  The account states are reached
    through pointers of the message they came with; [GetMigratedAddrStates]
    writes through them, so it leaves the metadata changed. *)

From S2P Require Import Prelude GoHash Account Bloom Block Config Chain.
From Stdlib Require Import Lia.

Local Open Scope Z_scope.

(** The order in which a map of collected states is ranged over. *)
Class RangeShards := range_shards : gmap Z (gmap Address State) → list Z.
Class RangeShardsLaws (RS : RangeShards) : Prop :=
  range_shards_perm : ∀ m, range_shards m ≡ₚ (map_to_list m).*1.

Section migration.
  Context {MK : MapKeys} {RS : RangeShards}.

Record AccMigrateMetadata := mkAMM {
  Epoch : Z;
  CurModifiedMap : gmap Address Z;
  MigratedAccountStates : gmap Z (gmap Address State);
  MigrationReady : bool;
  unhandledStateMsg : gmap Z (list AccountMigrationMsg);
  amm_ShardNum : Z;
  amm_ShardID : Z;
}.
#[export] Instance AMM_eta : Eta AccMigrateMetadata := λ a,
  mkAMM (Epoch a) (CurModifiedMap a) (MigratedAccountStates a) (MigrationReady a)
    (unhandledStateMsg a) (amm_ShardNum a) (amm_ShardID a).

Definition NewAccMigrateMetadata (cfg : SystemCfg) (lp : LocalParams) : AccMigrateMetadata :=
  mkAMM 0 ∅ ∅ false ∅ (ShardNum cfg) (ShardID lp).

(** [am.unhandledStateMsg[epoch]], nil when missing. *)
Definition unhandled (am : AccMigrateMetadata) (epoch : Z) : list AccountMigrationMsg :=
  default [] (unhandledStateMsg am !! epoch).

Definition MigrationStatusReset (am : AccMigrateMetadata) : AccMigrateMetadata :=
  am <| MigratedAccountStates := ∅ |>
     <| CurModifiedMap := ∅ |>
     <| MigrationReady := false |>
     <| unhandledStateMsg ::= λ u, <[Epoch am := []]> u |>.

Definition CollectStatesByMsg (atMsg : AccountMigrationMsg) : M AccMigrateMetadata unit := λ am,
  if decide (am_DestShard atMsg ≠ amm_ShardID am) then (Err "wrong dest shard ID=%d, current shard=%d", am)
  else if decide (amm_ShardNum am ≤ am_SrcShard atMsg ∨ am_SrcShard atMsg < 0) then
    (Err "invalid src shard ID=%d", am)
  else if decide (am_Epoch atMsg < Epoch am) then
    (Err "out-of-date epoch ID in AccountMigrationMsg, expect=%d, got=%d", am)
  else if decide (Epoch am < am_Epoch atMsg) then
    (Ok tt, am <| unhandledStateMsg ::= λ u,
       <[am_Epoch atMsg := unhandled am (am_Epoch atMsg) ++ [atMsg]]> u |>)
  else
    (Ok tt, am <| MigratedAccountStates ::= λ m, <[am_SrcShard atMsg := am_AccountStates atMsg]> m |>).

(** The errors of the buffered messages are logged. *)
Definition UpdateByRepartitionStartMsg (cr : CLPARepartitionStartMsg) : M AccMigrateMetadata unit := λ am,
  if decide (rs_Epoch cr ≠ wrap_i64 (Epoch am + 1)) then
    (Err "wrong epoch ID in CLPARepartitionStartMsg, expect=%d, got=%d", am)
  else
    let am := am <| Epoch := rs_Epoch cr |> <| CurModifiedMap := rs_ModifiedMap cr |>
                 <| MigrationReady := true |> in
    let am := fold_left (λ am atMsg, (CollectStatesByMsg atMsg am).2) (unhandled am (Epoch am)) am in
    (Ok tt, am <| unhandledStateMsg ::= λ u, <[Epoch am := []]> u |>).

(** [accountMigratedIn]: for each account the shard whose map holds the pointer
    that was written last, and the state it points to. *)
Definition merge_migrated (am : AccMigrateMetadata) : gmap Address (Z * State) :=
  fold_left (λ acc src,
      ((λ st, (src, st)) <$> default ∅ (MigratedAccountStates am !! src)) ∪ acc)
    (range_shards (MigratedAccountStates am)) ∅.

(** [state.ShardLocation = dest] through the pointer held by the map of [src]. *)
Definition set_location (src : Z) (acc : Address) (dest : Z) (am : AccMigrateMetadata) : AccMigrateMetadata :=
  am <| MigratedAccountStates ::=
    alter (alter (λ st, st <| S_ShardLocation := wrap_u64 dest |>) acc) src |>.

Definition migrate_one (accountMigratedIn : gmap Address (Z * State))
    (p : list Address * list State * AccMigrateMetadata) (acc : Address)
    : list Address * list State * AccMigrateMetadata :=
  let '(accs, sts, am) := p in
  let destShardID := default 0 (CurModifiedMap am !! acc) in
  match accountMigratedIn !! acc with
  | None => (accs ++ [acc], sts ++ [NewState acc (wrap_u64 destShardID)], am)
  | Some (src, st) =>
    (accs ++ [acc], sts ++ [st <| S_ShardLocation := wrap_u64 destShardID |>],
     set_location src acc destShardID am)
  end.

Definition GetMigratedAddrStates : M AccMigrateMetadata (list Address * list State) := λ am,
  if decide (Z.of_nat (size (MigratedAccountStates am)) ≠ amm_ShardNum am) then
    (Err "not all MigratedAccountStates is collected, expect=%d, got=%d", am)
  else
    let accountMigratedIn := merge_migrated am in
    let '(accs, sts, am) := fold_left (migrate_one accountMigratedIn) (maps_Keys (CurModifiedMap am))
                              ([], [], am) in
    (Ok (accs, sts), am).
End migration.

(** ** Order of arrival

    The messages of one epoch: the start message of the supervisor and the
    account states of the shards. *)

Inductive amm_event :=
| EvStart (cr : CLPARepartitionStartMsg)
| EvStates (m : AccountMigrationMsg).

Definition handle_event (am : AccMigrateMetadata) (e : amm_event) : AccMigrateMetadata :=
  match e with
  | EvStart cr => (UpdateByRepartitionStartMsg cr am).2
  | EvStates m => (CollectStatesByMsg m am).2
  end.

(** A message of epoch [e] this node accepts. *)
Definition valid_msg (am : AccMigrateMetadata) (e : Z) (m : AccountMigrationMsg) : Prop :=
  am_DestShard m = amm_ShardID am ∧ 0 ≤ am_SrcShard m < amm_ShardNum am ∧ am_Epoch m = e.

Definition states_of (ms : list AccountMigrationMsg) : gmap Z (gmap Address State) :=
  list_to_map (map (λ m, (am_SrcShard m, am_AccountStates m)) ms).

(** Between two epochs: nothing collected yet, and only later epochs buffered. *)
Definition between_epochs (am : AccMigrateMetadata) : Prop :=
  MigratedAccountStates am = ∅ ∧ MigrationReady am = false ∧ unhandled am (Epoch am + 1) = [].

(** ** Facts *)

Section facts.
  Context {MK : MapKeys} {RS : RangeShards}.

Lemma collect_future am m : valid_msg am (am_Epoch m) m → Epoch am < am_Epoch m →
  CollectStatesByMsg m am =
    (Ok tt, am <| unhandledStateMsg ::= λ u, <[am_Epoch m := unhandled am (am_Epoch m) ++ [m]]> u |>).
Proof.
  intros (H1 & H2 & _) H3. unfold CollectStatesByMsg. rewrite (decide_False (P := am_DestShard _ ≠ _)) by (intros H; by apply H).
  rewrite decide_False by lia. rewrite decide_False by lia. by rewrite decide_True by lia.
Qed.

Lemma collect_now am m : valid_msg am (Epoch am) m →
  CollectStatesByMsg m am =
    (Ok tt, am <| MigratedAccountStates ::= λ s, <[am_SrcShard m := am_AccountStates m]> s |>).
Proof.
  intros (H1 & H2 & H3). unfold CollectStatesByMsg. rewrite (decide_False (P := am_DestShard _ ≠ _)) by (intros H; by apply H).
  by rewrite !decide_False by lia.
Qed.

Lemma fold_left_fmap {A B C} (g : A → C → A) (h : B → C) l a :
  fold_left g (map h l) a = fold_left (λ a x, g a (h x)) l a.
Proof. revert a; induction l as [|x l IH]; intros a; cbn; [done|]. apply IH. Qed.

Definition insert_states (s : gmap Z (gmap Address State)) (m : AccountMigrationMsg) :=
  <[am_SrcShard m := am_AccountStates m]> s.

(** Buffered before the epoch starts ... *)
Lemma collect_future_all e ms am : Epoch am < e → Forall (valid_msg am e) ms →
  fold_left handle_event (map EvStates ms) am =
    am <| unhandledStateMsg ::= λ u,
      (if decide (ms = []) then u else <[e := unhandled am e ++ ms]> u) |>.
Proof.
  intros He. revert am He; induction ms as [|m ms IH]; intros am He Hv; cbn.
  { by destruct am. }
  inversion Hv as [|? ? Hm Hms]; subst. pose proof Hm as (_ & _ & Em). subst e.
  rewrite collect_future by done. cbn [snd]. rewrite IH.
  - destruct am; cbn. f_equal. unfold unhandled; cbn. rewrite lookup_insert_eq. cbn.
    destruct (decide (ms = [])) as [->|]; [done|]. rewrite insert_insert_eq. by rewrite <- app_assoc.
  - done.
  - eapply Forall_impl; [exact Hms|]. done.
Qed.

(** ... and collected after it. *)
Lemma collect_now_all ms am : Forall (valid_msg am (Epoch am)) ms →
  fold_left handle_event (map EvStates ms) am =
    am <| MigratedAccountStates ::= λ s, fold_left insert_states ms s |>.
Proof.
  revert am; induction ms as [|m ms IH]; intros am Hv; cbn; [by destruct am|].
  inversion Hv as [|? ? Hm Hms]; subst. rewrite collect_now by done. cbn [snd]. rewrite IH.
  - by destruct am.
  - eapply Forall_impl; [exact Hms|]. done.
Qed.

Lemma fold_insert_states ms s : NoDup (map am_SrcShard ms) →
  fold_left insert_states ms s = states_of ms ∪ s.
Proof.
  revert s; induction ms as [|m ms IH]; intros s Hnd; cbn; [by rewrite map_empty_union|].
  cbn in Hnd. apply NoDup_cons in Hnd as [Hm Hnd]. rewrite IH by done.
  unfold insert_states at 1. rewrite <- insert_union_r.
  - by rewrite insert_union_l.
  - apply not_elem_of_list_to_map_1. intros H. apply Hm.
    apply list_elem_of_fmap in H as (p & -> & H). apply list_elem_of_fmap in H as (x & -> & H).
    cbn. apply list_elem_of_fmap. by exists x.
Qed.

Lemma states_of_perm ms ms' : NoDup (map am_SrcShard ms) → ms ≡ₚ ms' → states_of ms = states_of ms'.
Proof.
  intros Hnd Hp. unfold states_of. apply list_to_map_proper; [|by apply fmap_Permutation].
  rewrite <- list_fmap_compose. exact Hnd.
Qed.

Lemma start_epoch cr am buf : rs_Epoch cr = wrap_i64 (Epoch am + 1) →
  unhandled am (rs_Epoch cr) = buf → Forall (valid_msg am (rs_Epoch cr)) buf →
  UpdateByRepartitionStartMsg cr am = (Ok tt,
    am <| Epoch := rs_Epoch cr |> <| CurModifiedMap := rs_ModifiedMap cr |> <| MigrationReady := true |>
       <| MigratedAccountStates ::= λ s, fold_left insert_states buf s |>
       <| unhandledStateMsg ::= λ u, <[rs_Epoch cr := []]> u |>).
Proof.
  intros He Hb Hv. unfold UpdateByRepartitionStartMsg. rewrite decide_False by (intros H; by apply H).
  cbn zeta. set (am1 := am <| Epoch := rs_Epoch cr |> <| CurModifiedMap := rs_ModifiedMap cr |>
    <| MigrationReady := true |>).
  change (unhandled am1 (Epoch am1)) with (unhandled am (rs_Epoch cr)). rewrite Hb.
  pose proof (collect_now_all buf am1) as H. rewrite fold_left_fmap in H. cbn in H. rewrite H.
  - done.
  - eapply Forall_impl; [exact Hv|]. done.
Qed.

Lemma perm_start_split cr ms l : l ≡ₚ EvStart cr :: map EvStates ms →
  ∃ ms1 ms2, l = map EvStates ms1 ++ EvStart cr :: map EvStates ms2 ∧ ms1 ++ ms2 ≡ₚ ms.
Proof.
  intros Hp. assert (EvStart cr ∈ l) as Hin by (rewrite Hp; by left).
  apply list_elem_of_split in Hin as (l1 & l2 & ->).
  assert (l1 ++ l2 ≡ₚ map EvStates ms) as Hp'.
  { apply (Permutation_cons_inv (a := EvStart cr)). rewrite <- Hp. apply Permutation_middle. }
  apply Permutation_map_inv in Hp' as (ms' & Hms' & Hperm).
  symmetry in Hms'. apply map_eq_app in Hms' as (ms1 & ms2 & -> & <- & <-).
  exists ms1, ms2. split; [done|]. by symmetry.
Qed.
End facts.

(** C21: The order in which the messages of an epoch arrive does not matter:
    whatever the interleaving of the start message with the account states of
    the shards (any number of which may arrive before it), the node ends in the
    epoch, ready, with the modified map of the start message and with exactly
    the states each shard sent, and its buffer for the epoch is empty.  With a
    message from every shard it can build the migration block. *)
Theorem migration_order_independent {MK : MapKeys} {RS : RangeShards} am cr ms l :
  between_epochs am → Epoch am + 1 ≤ int64_max → - 1 ≤ Epoch am →
  rs_Epoch cr = Epoch am + 1 → NoDup (map am_SrcShard ms) → Forall (valid_msg am (rs_Epoch cr)) ms →
  l ≡ₚ EvStart cr :: map EvStates ms →
  let am' := fold_left handle_event l am in
  Epoch am' = rs_Epoch cr ∧ MigrationReady am' = true ∧ CurModifiedMap am' = rs_ModifiedMap cr ∧
  MigratedAccountStates am' = states_of ms ∧ unhandled am' (rs_Epoch cr) = [] ∧
  (Z.of_nat (length ms) = amm_ShardNum am → is_ok (GetMigratedAddrStates am').1 = true).
Proof.
  intros (Hm & Hr & Hu) Hmax Hmin He Hnd Hv Hp. apply perm_start_split in Hp as (ms1 & ms2 & -> & Hp).
  assert (Forall (valid_msg am (rs_Epoch cr)) (ms1 ++ ms2)) as Hv' by (by rewrite Hp).
  apply Forall_app in Hv' as [Hv1 Hv2]. cbn zeta. rewrite fold_left_app. cbn [fold_left handle_event].
  rewrite (collect_future_all (rs_Epoch cr) ms1) by (lia || done).
  set (am1 := am <| unhandledStateMsg ::= _ |>).
  rewrite (start_epoch cr am1 ms1).
  2: { cbn. rewrite wrap_s_id; [done|lia|]. unfold int64_max in *. split; cbn; lia. }
  2: { unfold unhandled, am1. cbn. rewrite <- He in Hu. case_decide as Hms; [by rewrite Hms|].
       rewrite lookup_insert_eq. cbn. by rewrite Hu. }
  2: { eapply Forall_impl; [exact Hv1|done]. }
  cbn [snd]. rewrite collect_now_all.
  2: { eapply Forall_impl; [exact Hv2|done]. }
  cbn. rewrite Hm, <- fold_left_app. rewrite fold_insert_states by (by rewrite Hp).
  rewrite map_union_empty. rewrite (states_of_perm (ms1 ++ ms2) ms) by (by rewrite ?Hp).
  split_and!; try done.
  - unfold unhandled. cbn. by rewrite lookup_insert_eq.
  - intros Hlen. unfold GetMigratedAddrStates. cbn. rewrite decide_False; [by destruct (fold_left _ _ _) as [[] ?]|].
    unfold states_of. rewrite map_size_list_to_map; [|by rewrite <- list_fmap_compose].
    rewrite length_map. lia.
Qed.

(** ** The migrated accounts *)

Section migrated.
  Context {MK : MapKeys} {MKL : MapKeysLaws MK} {RS : RangeShards} {RSL : RangeShardsLaws RS}.

Lemma merge_migrated_spec (m : gmap Z (gmap Address State)) srcs (acc0 : gmap Address (Z * State)) a :
  (fold_left (λ acc src, ((λ st, (src, st)) <$> default ∅ (m !! src)) ∪ acc) srcs acc0) !! a = None ↔
    acc0 !! a = None ∧ ∀ src sts, src ∈ srcs → m !! src = Some sts → sts !! a = None.
Proof.
  revert acc0; induction srcs as [|s srcs IH]; intros acc0; cbn.
  { split; [|naive_solver]. intros H. split; [done|]. intros src sts Hin. by apply not_elem_of_nil in Hin. }
  rewrite IH, lookup_union_None, lookup_fmap, fmap_None. setoid_rewrite elem_of_cons. split.
  - intros [[H1 H2] H3]. split; [done|]. intros src sts [->|Hin] Hs; [by rewrite Hs in H1 | by eapply H3].
  - intros [H1 H2]. split; [split; [|done]|]; [|naive_solver].
    destruct (m !! s) as [sts|] eqn:E; cbn; [|apply lookup_empty]. eapply H2; eauto.
Qed.

Lemma merge_migrated_some (m : gmap Z (gmap Address State)) srcs (acc0 : gmap Address (Z * State)) a src st :
  (fold_left (λ acc src, ((λ st, (src, st)) <$> default ∅ (m !! src)) ∪ acc) srcs acc0) !! a = Some (src, st) →
    acc0 !! a = Some (src, st) ∨ ∃ sts, m !! src = Some sts ∧ sts !! a = Some st.
Proof.
  revert acc0; induction srcs as [|s srcs IH]; intros acc0; cbn; [by left|].
  intros [H|H]%IH; [|by right]. apply lookup_union_Some_raw in H as [H|[_ H]]; [|by left].
  right. rewrite lookup_fmap in H. destruct (m !! s) as [sts|] eqn:E; cbn in H.
  - destruct (sts !! a) as [st'|] eqn:Ea; cbn in H; [|done]. simplify_eq. eauto.
  - by rewrite lookup_empty in H.
Qed.

(** What the block says of one account. *)
Definition migrated_as (am : AccMigrateMetadata) (acc : Address) (st : State) : Prop :=
  ∃ dest, CurModifiedMap am !! acc = Some dest ∧
  ((st = NewState acc (wrap_u64 dest) ∧
    ∀ src sts, MigratedAccountStates am !! src = Some sts → sts !! acc = None) ∨
   (∃ src sts st0, MigratedAccountStates am !! src = Some sts ∧ sts !! acc = Some st0 ∧
      st = st0 <| S_ShardLocation := wrap_u64 dest |>)).

Lemma migrate_fold_spec am mi : mi = merge_migrated am → ∀ l accs sts am0,
  (∀ a, a ∈ l → is_Some (CurModifiedMap am !! a)) → CurModifiedMap am0 = CurModifiedMap am →
  Forall2 (migrated_as am) accs sts →
  ∃ sts' am', fold_left (migrate_one mi) l (accs, sts, am0) = (accs ++ l, sts', am') ∧
    Forall2 (migrated_as am) (accs ++ l) sts' ∧ CurModifiedMap am' = CurModifiedMap am ∧
    Epoch am' = Epoch am0 ∧ MigrationReady am' = MigrationReady am0 ∧
    unhandledStateMsg am' = unhandledStateMsg am0.
Proof using RSL.
  intros Hmi. induction l as [|a l IH]; intros accs sts am0 Hl Hc HF; cbn.
  { rewrite app_nil_r. by exists sts, am0. }
  destruct (Hl a) as [dest Hd]; [by left|]. rewrite Hc, Hd. cbn.
  assert (∀ st am1, migrated_as am a st → CurModifiedMap am1 = CurModifiedMap am →
    Epoch am1 = Epoch am0 → MigrationReady am1 = MigrationReady am0 →
    unhandledStateMsg am1 = unhandledStateMsg am0 →
    ∃ sts' am', fold_left (migrate_one mi) l (accs ++ [a], sts ++ [st], am1) = (accs ++ a :: l, sts', am') ∧
    Forall2 (migrated_as am) (accs ++ a :: l) sts' ∧ CurModifiedMap am' = CurModifiedMap am ∧
    Epoch am' = Epoch am0 ∧ MigrationReady am' = MigrationReady am0 ∧
    unhandledStateMsg am' = unhandledStateMsg am0) as Hgo.
  { intros st am1 Hst H1 H2 H3 H4.
    destruct (IH (accs ++ [a]) (sts ++ [st]) am1) as (sts' & am' & E & HF' & R1 & R2 & R3 & R4); [|done| |].
    - intros b Hb. apply Hl. by right.
    - apply Forall2_app; [done|]. by repeat constructor.
    - rewrite <- app_assoc in E, HF'. cbn in E, HF'. exists sts', am'.
      split_and!; [done | done | done | congruence..]. }
  destruct (mi !! a) as [[src st]|] eqn:Ea; apply Hgo; try done.
  - exists dest. split; [done|]. right. rewrite Hmi in Ea.
    apply merge_migrated_some in Ea as [Ea|(m & Hm & Hst)]; [by rewrite lookup_empty in Ea|].
    by exists src, m, st.
  - exists dest. split; [done|]. left. split; [done|]. rewrite Hmi in Ea.
    apply merge_migrated_spec in Ea as [_ Ea]. intros src m Hm. apply (Ea src m); [|done].
    rewrite range_shards_perm. apply list_elem_of_fmap. exists (src, m). split; [done|].
    by apply elem_of_map_to_list.
Qed.

(** When the states of all the shards are collected, the accounts packed in
    the migration block are exactly the accounts of the epoch's modified map,
    once each, every one with its new shard as its location; its state is one a
    shard sent for it, with nothing but the location changed, or a fresh initial
    account when no shard sent one.  With states missing it fails and changes
    nothing. *)
Theorem GetMigratedAddrStates_spec am r am' : GetMigratedAddrStates am = (r, am') →
  (is_ok r = true ↔ Z.of_nat (size (MigratedAccountStates am)) = amm_ShardNum am) ∧
  (is_ok r = false → am' = am) ∧
  ∀ accs sts, r = Ok (accs, sts) →
    accs ≡ₚ (map_to_list (CurModifiedMap am)).*1 ∧ NoDup accs ∧ Forall2 (migrated_as am) accs sts ∧
    Forall2 (λ a st, CurModifiedMap am !! a ≫= (λ d, Some (wrap_u64 d)) = Some (S_ShardLocation st)) accs sts.
Proof using All.
  unfold GetMigratedAddrStates. case_decide as Hsz.
  { intros [= <- <-]. split; [split; [done|]; intros H; by rewrite H in Hsz|]. split; [done|]. by intros ??. }
  destruct (migrate_fold_spec am (merge_migrated am) eq_refl (maps_Keys (CurModifiedMap am)) [] [] am)
    as (sts' & am1 & E & HF & _); [|done|constructor|].
  { intros a Ha. rewrite maps_Keys_perm in Ha. apply list_elem_of_fmap in Ha as ([b d] & -> & Ha).
    apply elem_of_map_to_list in Ha. by eexists. }
  rewrite E. intros [= <- <-]. cbn in *. split; [split; [|done]; intros _; lia|]. split; [done|].
  intros accs sts [= <- <-]. split_and!.
  - apply maps_Keys_perm.
  - rewrite maps_Keys_perm. apply NoDup_fst_map_to_list.
  - done.
  - eapply Forall2_impl; [exact HF|]. intros a st (dest & Hd & Hcase). rewrite Hd. cbn.
    by destruct Hcase as [[-> _]|(src & m & st0 & _ & _ & ->)].
Qed.
End migrated.

(** ** Concrete runs *)

Module MigrationDemo.
Definition addr (n : Z) : Address := copy_to_array 20 (Z_to_be 20 n).
#[export] Instance keys : MapKeys := λ m, (map_to_list m).*1.
#[export] Instance keys_laws : MapKeysLaws keys.
Proof. intros m. reflexivity. Qed.
#[export] Instance shards : RangeShards := λ m, (map_to_list m).*1.
#[export] Instance shards_laws : RangeShardsLaws shards.
Proof. intros m. reflexivity. Qed.

(** Shard 1 of two, in epoch 0; account 2 is to move to shard 1, account 3 to shard 0. *)
Definition fresh : AccMigrateMetadata :=
  NewAccMigrateMetadata (mkSystemCfg 2 4 CLPARelayConsensus 100) (mkLocalParams 0 1 EmptyAccountAddr).
Definition start : CLPARepartitionStartMsg := mkCLPARepartitionStartMsg 1 {[addr 2 := 1; addr 3 := 0]}.
Definition from0 : AccountMigrationMsg :=
  mkAccountMigrationMsg 0 1 1 {[addr 2 := mkState (addr 2) 0 70 [] [] 0]}.
Definition from1 : AccountMigrationMsg := mkAccountMigrationMsg 1 1 1 ∅.
(** One message overtakes the start of the epoch. *)
Definition arrivals : list amm_event := [EvStates from0; EvStart start; EvStates from1].
Definition ready : AccMigrateMetadata := fold_left handle_event arrivals fresh.
End MigrationDemo.

Module MigrationWitness.
Import MigrationDemo.

Lemma migration_order_independent_witness :
  MigratedAccountStates (fold_left handle_event arrivals fresh) = states_of [from0; from1].
Proof.
  apply (migration_order_independent fresh start [from0; from1] arrivals).
  - split; [reflexivity|]. split; reflexivity.
  - apply (bool_decide_unpack _). vm_compute. exact I.
  - apply (bool_decide_unpack _). vm_compute. exact I.
  - reflexivity.
  - apply (bool_decide_unpack _). vm_compute. exact I.
  - repeat constructor; apply (bool_decide_unpack _); vm_compute; exact I.
  - apply Permutation_swap.
Defined.

Lemma GetMigratedAddrStates_spec_witness :
  ∃ accs sts, (GetMigratedAddrStates ready).1 = Ok (accs, sts) ∧
    accs ≡ₚ (map_to_list (CurModifiedMap ready)).*1.
Proof.
  destruct (GetMigratedAddrStates ready) as [r am'] eqn:E.
  destruct (GetMigratedAddrStates_spec ready r am' E) as (Hok & _ & H).
  assert (is_ok r = true) as Hr by (apply Hok; vm_compute; reflexivity).
  destruct r as [[accs sts]|e|]; [|discriminate Hr|discriminate Hr].
  exists accs, sts. split; [reflexivity|]. apply (H accs sts eq_refl).
Defined.
End MigrationWitness.
