(* ===== verification/TxBlockOp.v ===== *)
(** * Building and committing transaction blocks

    Models consensus/pbft/insideop/txblockop: what the leader of a shard puts in
    a block, and what it sends when the block is committed, in the relay and in
    the broker mode.

    [ShardState] is the part of a node's state these operations (and those of
    ShardOp.v) share: the chain, the transaction pool, the migration metadata
    and the connection, all reached through pointers in the code.  The readings
    of the clock within one call are one instant [now]. *)

From S2P Require Import Prelude GoHash Account Bloom Block Config StateDB TxExecute Storage Chain.
From S2P Require Import TxPool Network Migration.
From Stdlib Require Import Lia.

Local Open Scope Z_scope.

Section txblockop.
  Context {BL : BitSetLib} {RT : RlpTx} {RH : RlpHeader} {GB : GobBlock}.
  Context {GU : GobU64} {GS : GobState} {MK : MapKeys} {GM : GobMsg}.
  Context {SL : StateDBLib} {EV : EVMLib} {BO : BoltLib} {TL : TrieLib}.

Record ShardState := mkShardState {
  chain : Chain;
  txPool : TxPool;
  amm : AccMigrateMetadata;
  conn : Conn;
}.
#[export] Instance ShardState_eta : Eta ShardState := λ s,
  mkShardState (chain s) (txPool s) (amm s) (conn s).

Definition on_chain {A} (m : M Chain A) : M ShardState A := st_zoom chain (λ c s, s <| chain := c |>) m.
Definition on_pool {A} (m : M TxPool A) : M ShardState A := st_zoom txPool (λ t s, s <| txPool := t |>) m.
Definition on_amm {A} (m : M AccMigrateMetadata A) : M ShardState A :=
  st_zoom amm (λ a s, s <| amm := a |>) m.
Definition on_conn {A} (m : M Conn A) : M ShardState A := st_zoom conn (λ c s, s <| conn := c |>) m.
(** A call on the state that only reads it. *)
Definition reads {A} (g : ShardState → result A) : M ShardState A := λ s, (g s, s).
Definition send (dest : NodeInfo) (w : WrappedMsg) : M ShardState unit :=
  on_conn (st_modify (SendMsg2Dest dest w)).

Context (cfg : ConsensusNodeCfg) (lp : LocalParams) (resolver : TopoGetter).

(** ** The relay mode *)

(** What [modifyTxRelayOpt] appends for one transaction. *)
Definition modify_one (accountLocations : gmap Address Z) (shardID : Z)
    (modifiedTxs : list Transaction) (tx : Transaction) : result (list Transaction) :=
  if decide (tx_RelayStage tx ≠ UndeterminedRelayTx) then Ok (modifiedTxs ++ [tx])
  else
    let senderID := default 0 (accountLocations !! Sender tx) in
    let recipientID := default 0 (accountLocations !! Recipient tx) in
    if decide (senderID < 0 ∨ recipientID < 0) then
      Err "tx sender or recipient does not exist in the accountLocation map"
    else if decide (senderID ≠ shardID) then Ok modifiedTxs
    else if decide (senderID = recipientID) then Ok (modifiedTxs ++ [tx])
    else
      let* thash := wrap_err "CalcHash failed" (tx_Hash tx) in
      Ok (modifiedTxs ++ [tx <| RelayOpt := mkRelayTxOpt Relay1Tx thash |>]).

Definition modifyTxRelayOpt (txs : list Transaction) (c : Chain) : result (list Transaction) :=
  let* accountLocations := wrap_err "getAccountLocationsInTxs failed" (GetAccountLocationsInTxs txs c) in
  rfold (modify_one accountLocations (GetShardID c)) [] txs.

Definition Relay_BuildTxBlockProposal (now : Time) (txs : list Transaction) (s : ShardState) : result Proposal :=
  let* mTxs := wrap_err "modifyTxRelayOpt failed" (modifyTxRelayOpt txs (chain s)) in
  let* b := wrap_err "chain.GenerateBlock failed"
    (GenerateBlock now (WalletAddr lp) TxBlockType (mkBody mTxs) emptyMigrationOpt (chain s)) in
  Ok (WrapProposal b).

Definition Relay_splitTxs (txs : list Transaction) : list Transaction * list Transaction * list Transaction :=
  fold_left (λ acc tx,
    let '(innerTxs, r1txs, r2txs) := acc in
    if decide (tx_RelayStage tx = UndeterminedRelayTx) then (innerTxs ++ [tx], r1txs, r2txs)
    else if decide (tx_RelayStage tx = Relay1Tx) then (innerTxs, r1txs ++ [tx], r2txs)
    else if decide (tx_RelayStage tx = Relay2Tx) then (innerTxs, r1txs, r2txs ++ [tx])
    else acc) txs ([], [], []).

(** Wrap a message and send it to the supervisor. *)
Definition send_supervisor (wrap_failed : string) (k : MsgKind) (m : msg_of k) : M ShardState unit :=
  let! w := st_wrap wrap_failed (st_lift (WrapMsg k m)) in
  let! spv := st_wrap "GetSupervisor failed" (st_lift (GetSupervisor resolver)) in
  send spv w.

Definition Relay_deliverBlockInfo2Supervisor (now : Time) (innerTxs r1Txs r2Txs : list Transaction)
    (b : Block) : M ShardState unit :=
  let! s := st_get in
  send_supervisor "WrapMsg failed" KRelayBlockInfo (mkRelayBlockInfoMsg innerTxs r1Txs r2Txs (GetEpochID (chain s))
    (BCreateTime (b_Header b)) now (GetShardID (chain s))).

(** The second stage of a relay-1 transaction. *)
Definition relay2_of (tx : Transaction) : Transaction :=
  tx <| RelayOpt ::= λ o, o <| RelayStage := Relay2Tx |> |>.

Definition relay_one (accountLocations : gmap Address Z) (relayedTxs : list (list Transaction))
    (tx : Transaction) : result (list (list Transaction)) :=
  match accountLocations !! Recipient tx with
  | None => Ok relayedTxs
  | Some shardID => push_at (relay2_of tx) relayedTxs shardID
  end.

Definition sendRelayedTxs (b : Block) (r1Txs : list Transaction) : M ShardState unit :=
  let! accountLocations := st_wrap "getAccountLocationsInTxs failed"
    (reads (λ s, GetAccountLocationsInTxs (TxList (b_Body b)) (chain s))) in
  let! relayedTxs := st_lift (make [] (ShardNum (cn_Sys cfg))) in
  let! relayedTxs := st_lift (rfold (relay_one accountLocations) relayedTxs r1Txs) in
  st_wrap "SendWrappedTxs2Shards failed" (on_conn (SendWrappedTxs2Shards relayedTxs resolver)).

Definition Relay_BlockCommitAndDeliver (now : Time) (isLeader : bool) (b : Block) : M ShardState unit :=
  st_wrap "chain.AddBlock failed" (on_chain (AddBlock b)) ;;!
  if negb isLeader then st_ret tt
  else
    let '(innerTxs, r1Txs, r2Txs) := Relay_splitTxs (TxList (b_Body b)) in
    st_wrap "deliverBlockInfo2Supervisor failed"
      (Relay_deliverBlockInfo2Supervisor now innerTxs r1Txs r2Txs b) ;;!
    st_wrap "sendRelayedTxs failed" (sendRelayedTxs b r1Txs).

(** ** The broker mode *)

Definition Broker_BuildTxBlockProposal (now : Time) (txs : list Transaction) (s : ShardState) : result Proposal :=
  let* b := wrap_err "chain.GenerateBlock failed"
    (GenerateBlock now (WalletAddr lp) TxBlockType (mkBody txs) emptyMigrationOpt (chain s)) in
  Ok (WrapProposal b).

(** (inner, broker-1, broker-2, relay-1, relay-2) *)
Definition Broker_splitTxs (txs : list Transaction)
    : list Transaction * list Transaction * list Transaction * list Transaction * list Transaction :=
  fold_left (λ acc tx,
    let '(innerTxs, b1Txs, b2Txs, r1Txs, r2Txs) := acc in
    if decide (TxType tx = RelayTxType) then
      if decide (tx_RelayStage tx = Relay1Tx) then (innerTxs, b1Txs, b2Txs, r1Txs ++ [tx], r2Txs)
      else (innerTxs, b1Txs, b2Txs, r1Txs, r2Txs ++ [tx])
    else if decide (tx_BrokerStage tx = RawTxBrokerStage) then (innerTxs ++ [tx], b1Txs, b2Txs, r1Txs, r2Txs)
    else if decide (tx_BrokerStage tx = Sigma1BrokerStage) then (innerTxs, b1Txs ++ [tx], b2Txs, r1Txs, r2Txs)
    else if decide (tx_BrokerStage tx = Sigma2BrokerStage) then (innerTxs, b1Txs, b2Txs ++ [tx], r1Txs, r2Txs)
    else acc) txs ([], [], [], [], []).

Definition Broker_deliverBlockInfo2Supervisor (now : Time)
    (innerTxs b1Txs b2Txs r1Txs r2Txs : list Transaction) (b : Block) : M ShardState unit :=
  let! s := st_get in
  send_supervisor "WrapMsg failed" KBrokerBlockInfo (mkBrokerBlockInfoMsg innerTxs b1Txs b2Txs r1Txs r2Txs
    (GetEpochID (chain s)) (BCreateTime (b_Header b)) now (GetShardID (chain s))).

Definition Broker_BlockCommitAndDeliver (now : Time) (isLeader : bool) (b : Block) : M ShardState unit :=
  st_wrap "chain.AddBlock failed" (on_chain (AddBlock b)) ;;!
  if negb isLeader then st_ret tt
  else
    let '(innerTxs, b1Txs, b2Txs, r1Txs, r2Txs) := Broker_splitTxs (TxList (b_Body b)) in
    st_wrap "deliverBlockInfo2Supervisor failed"
      (Broker_deliverBlockInfo2Supervisor now innerTxs b1Txs b2Txs r1Txs r2Txs b) ;;!
    if decide (0 < length r1Txs)%nat then st_wrap "sendRelayedTxs failed" (sendRelayedTxs b r1Txs)
    else st_ret tt.

(** ** The interface *)

Inductive TxBlockOp := RelayTxBlockOp | BrokerTxBlockOp.

Definition NewTxBlockOp : result TxBlockOp :=
  let t := ConsensusType (cn_Sys cfg) in
  if decide (t = StaticRelayConsensus ∨ t = CLPARelayConsensus) then Ok RelayTxBlockOp
  else if decide (t = StaticBrokerConsensus ∨ t = CLPABrokerConsensus) then Ok BrokerTxBlockOp
  else Err "unknown consensus type: %s".

Definition BuildTxBlockProposal (tbo : TxBlockOp) : Time → list Transaction → ShardState → result Proposal :=
  match tbo with
  | RelayTxBlockOp => Relay_BuildTxBlockProposal
  | BrokerTxBlockOp => Broker_BuildTxBlockProposal
  end.

Definition BlockCommitAndDeliver (tbo : TxBlockOp) : Time → bool → Block → M ShardState unit :=
  match tbo with
  | RelayTxBlockOp => Relay_BlockCommitAndDeliver
  | BrokerTxBlockOp => Broker_BlockCommitAndDeliver
  end.
End txblockop.

(** ** Facts *)

Section facts.
  Context {BL : BitSetLib} {RT : RlpTx} {RH : RlpHeader} {GB : GobBlock}.
  Context {GU : GobU64} {GS : GobState} {MK : MapKeys} {GM : GobMsg}.
  Context {SL : StateDBLib} {EV : EVMLib} {BO : BoltLib} {TL : TrieLib}.
  Context {MKL : MapKeysLaws MK}.

Abbreviation has_stage st := (λ tx, tx_RelayStage tx = st).

Lemma Relay_splitTxs_filter txs : Relay_splitTxs txs =
  (filter (has_stage UndeterminedRelayTx) txs, filter (has_stage Relay1Tx) txs, filter (has_stage Relay2Tx) txs).
Proof.
  unfold Relay_splitTxs.
  enough (∀ a b c, fold_left (λ acc tx,
    let '(innerTxs, r1txs, r2txs) := acc in
    if decide (tx_RelayStage tx = UndeterminedRelayTx) then (innerTxs ++ [tx], r1txs, r2txs)
    else if decide (tx_RelayStage tx = Relay1Tx) then (innerTxs, r1txs ++ [tx], r2txs)
    else if decide (tx_RelayStage tx = Relay2Tx) then (innerTxs, r1txs, r2txs ++ [tx])
    else acc) txs (a, b, c) =
    (a ++ filter (has_stage UndeterminedRelayTx) txs, b ++ filter (has_stage Relay1Tx) txs,
     c ++ filter (has_stage Relay2Tx) txs)) as H by (by rewrite H).
  induction txs as [|tx txs IH]; intros a b c; cbn [fold_left].
  { cbn. by rewrite !app_nil_r. }
  rewrite !filter_cons. repeat case_decide;
    rewrite IH, <- ?app_assoc; cbn [app]; try done;
    unfold UndeterminedRelayTx, Relay1Tx, Relay2Tx in *; congruence.
Qed.

(** The fate of a transaction a relay leader packs. *)
Inductive relay_fate (locs : gmap Address Z) (sid : Z) (tx : Transaction) : option Transaction → Prop :=
| fate_determined : tx_RelayStage tx ≠ UndeterminedRelayTx → relay_fate locs sid tx (Some tx)
| fate_inner : tx_RelayStage tx = UndeterminedRelayTx →
    locs !! Sender tx = Some sid → locs !! Recipient tx = Some sid → relay_fate locs sid tx (Some tx)
| fate_cross h l : tx_RelayStage tx = UndeterminedRelayTx →
    locs !! Sender tx = Some sid → locs !! Recipient tx = Some l → l ≠ sid → tx_Hash tx = Ok h →
    relay_fate locs sid tx (Some (tx <| RelayOpt := mkRelayTxOpt Relay1Tx h |>))
| fate_foreign l : tx_RelayStage tx = UndeterminedRelayTx →
    locs !! Sender tx = Some l → l ≠ sid → relay_fate locs sid tx None.

(** Every account of the transactions is located. *)
Lemma fold_insert_fst_is_Some {A B} `{Countable A} (l : list (A * B)) (m : gmap A B) a :
  is_Some (m !! a) ∨ a ∈ l.*1 ↔ is_Some (fold_left (λ m p, <[p.1 := p.2]> m) l m !! a).
Proof.
  revert m; induction l as [|[k v] l IH]; intros m; cbn.
  - rewrite elem_of_nil. naive_solver.
  - rewrite <- IH, elem_of_cons, lookup_insert_is_Some. cbn. destruct (decide (k = a)); naive_solver.
Qed.

Lemma fold_neg_accounts txs (m : gmap Address Z) a :
  is_Some (fold_left (λ m tx, <[Recipient tx := -1]> (<[Sender tx := -1]> m)) txs m !! a) ↔
  is_Some (m !! a) ∨ ∃ tx, tx ∈ txs ∧ (a = Sender tx ∨ a = Recipient tx).
Proof.
  revert m; induction txs as [|tx txs IH]; intros m; cbn.
  - setoid_rewrite elem_of_nil. naive_solver.
  - rewrite IH, !lookup_insert_is_Some. setoid_rewrite elem_of_cons.
    destruct (decide (Recipient tx = a)), (decide (Sender tx = a)); naive_solver.
Qed.

Lemma located txs (c : Chain) locs tx : GetAccountLocationsInTxs txs c = Ok locs → tx ∈ txs →
  is_Some (locs !! Sender tx) ∧ is_Some (locs !! Recipient tx).
Proof.
  unfold GetAccountLocationsInTxs, getAccountLocationsInTxs. cbn zeta.
  intros (ls & _ & [= <-])%rbind_ok Hin.
  rewrite <- !fold_insert_fst_is_Some. split; left; apply fold_neg_accounts; right; exists tx; naive_solver.
Qed.

Lemma modify_one_fate locs sid acc tx acc' : is_Some (locs !! Sender tx) → is_Some (locs !! Recipient tx) →
  modify_one locs sid acc tx = Ok acc' → ∃ o, relay_fate locs sid tx o ∧ acc' = acc ++ option_list o.
Proof.
  intros [l1 H1] [l2 H2]. unfold modify_one. rewrite H1, H2. cbn.
  destruct (decide (tx_RelayStage tx ≠ _)) as [Hs|Hs].
  { intros [= <-]. exists (Some tx). split; [by constructor|done]. }
  apply dec_stable in Hs. destruct (decide (l1 < 0 ∨ l2 < 0)); [done|].
  destruct (decide (l1 ≠ sid)) as [Hl|Hl].
  { intros [= <-]. exists None. split; [by eapply fate_foreign | by rewrite app_nil_r]. }
  apply dec_stable in Hl as ->. destruct (decide (sid = l2)) as [<-|Hne].
  { intros [= <-]. exists (Some tx). split; [by apply fate_inner|done]. }
  intros (h & Hh & [= <-])%rbind_ok. apply wrap_err_ok in Hh.
  eexists. split; [by eapply (fate_cross _ _ _ h l2)|done].
Qed.

Lemma modify_fold_fate locs sid txs acc out :
  (∀ tx, tx ∈ txs → is_Some (locs !! Sender tx) ∧ is_Some (locs !! Recipient tx)) →
  rfold (modify_one locs sid) acc txs = Ok out →
  ∃ os, Forall2 (relay_fate locs sid) txs os ∧ out = acc ++ omap id os.
Proof.
  revert acc; induction txs as [|tx txs IH]; intros acc Hl; cbn.
  - intros [= <-]. exists []. split; [constructor | by rewrite app_nil_r].
  - intros (a1 & E & H)%rbind_ok. destruct (Hl tx) as [H1 H2]; [by left|].
    destruct (modify_one_fate locs sid acc tx a1 H1 H2 E) as (o & Ho & ->).
    destruct (IH (acc ++ option_list o)) as (os & Hos & ->); [intros; apply Hl; by right|done|].
    exists (o :: os). split; [by constructor|]. rewrite <- app_assoc. f_equal. by destruct o.
Qed.

(** What a relay leader puts in its block, transaction by transaction and
    in their order: one with a determined stage is kept, one whose accounts are
    both in this shard is kept, one whose recipient lives elsewhere becomes a
    relay-1 transaction carrying its own hash and is otherwise unchanged, and
    one whose sender lives elsewhere is dropped. *)
Theorem modifyTxRelayOpt_spec txs (c : Chain) out : modifyTxRelayOpt txs c = Ok out →
  ∃ locs os, GetAccountLocationsInTxs txs c = Ok locs ∧
    Forall2 (relay_fate locs (GetShardID c)) txs os ∧ out = omap id os.
Proof.
  unfold modifyTxRelayOpt. intros (locs & El & E)%rbind_ok. apply wrap_err_ok in El.
  destruct (modify_fold_fate locs (GetShardID c) txs [] out) as (os & Hos & ->); [|done|].
  - intros tx Htx. by eapply located.
  - exists locs, os. by split_and!.
Qed.

Context (cfg : ConsensusNodeCfg) (resolver : TopoGetter).
Abbreviation shards := (ShardNum (cn_Sys cfg)).

(** The relay-2 transactions of a block for shard [k]. *)
Definition relayed_to (locs : gmap Address Z) (k : nat) (txs : list Transaction) : list Transaction :=
  bucket (λ tx, locs !! Recipient tx) relay2_of k (filter (has_stage Relay1Tx) txs).

Lemma sendRelayedTxs_ok b r1Txs (s s' : ShardState) : own_leaders resolver →
  r1Txs = filter (has_stage Relay1Tx) (TxList (b_Body b)) →
  sendRelayedTxs cfg resolver b r1Txs s = (Ok tt, s') →
  ∃ locs sent, GetAccountLocationsInTxs (TxList (b_Body b)) (chain s) = Ok locs ∧
    s' = s <| conn ::= λ c, c <| outbox ::= λ o, o ++ sent |> |> ∧ NoDup sent ∧
    (∀ p, p ∈ sent → ∃ k, (k < Z.to_nat shards)%nat ∧
       shard_msg resolver (Z.of_nat k) (relayed_to locs k (TxList (b_Body b))) p) ∧
    (∀ tx, tx ∈ TxList (b_Body b) → tx_RelayStage tx = Relay1Tx →
       ∃ k p, locs !! Recipient tx = Some (Z.of_nat k) ∧
         relay2_of tx ∈ relayed_to locs k (TxList (b_Body b)) ∧ p ∈ sent ∧
         shard_msg resolver (Z.of_nat k) (relayed_to locs k (TxList (b_Body b))) p).
Proof.
  intros Hown Hr1. unfold sendRelayedTxs. intros (locs & s1 & E1%st_wrap_ok & E)%st_bind_ok.
  injection E1 as El <-. apply st_bind_ok in E as (init & s1 & [E2 ->]%st_lift_ok & E).
  apply st_bind_ok in E as (rtx & s1 & [E3 ->]%st_lift_ok & E). apply st_wrap_ok in E.
  apply st_zoom_ok in E as (c' & Es & ->).
  unfold make in E2. case_decide; [done|]. injection E2 as <-.
  destruct (rfold_buckets (λ tx, locs !! Recipient tx) relay2_of _ _ _ _ (λ acc tx _, eq_refl) E3)
    as (Hlen & Hb & Hr). rewrite length_replicate in *.
  destruct (SendWrappedTxs2Shards_ok rtx resolver (conn s) c' Hown Es) as (sent & -> & Hnd & Hsent & Hall).
  assert (∀ k, (k < Z.to_nat shards)%nat → rtx !! k = Some (relayed_to locs k (TxList (b_Body b)))) as Hk.
  { intros k Hk. rewrite (Hb k []); [by rewrite Hr1|]. by apply lookup_replicate. }
  exists locs, sent. split_and!; [done | by destruct s | done | |].
  - intros p Hp. apply Hsent in Hp as (k & l & Hl & Hs).
    assert (k < Z.to_nat shards)%nat as Hlt by (apply lookup_lt_Some in Hl; lia).
    exists k. split; [done|]. rewrite Hk in Hl by done. by simplify_eq.
  - intros tx Hin Hst. destruct (located _ _ _ tx El Hin) as [_ [i Hi]].
    assert (tx ∈ r1Txs) as Htx by (rewrite Hr1; by apply list_elem_of_filter).
    specialize (Hr tx i Htx Hi). exists (Z.to_nat i).
    assert (relay2_of tx ∈ relayed_to locs (Z.to_nat i) (TxList (b_Body b))) as Hin2.
    { unfold relayed_to, bucket. rewrite <- Hr1. apply list_elem_of_omap. exists tx. split; [done|].
      rewrite decide_True; [done|]. rewrite Hi. f_equal. lia. }
    destruct (Hall (Z.to_nat i) _ (Hk (Z.to_nat i) ltac:(lia))) as (p & Hp1 & Hp2).
    { intros Hnil. rewrite Hnil in Hin2. by apply not_elem_of_nil in Hin2. }
    exists p. split_and!; try done. rewrite Hi. f_equal. lia.
Qed.
End facts.

Section commit_facts.
  Context {BL : BitSetLib} {RT : RlpTx} {RH : RlpHeader} {GB : GobBlock}.
  Context {GU : GobU64} {GS : GobState} {MK : MapKeys} {GM : GobMsg}.
  Context {SL : StateDBLib} {EV : EVMLib} {BO : BoltLib} {TL : TrieLib}.
  Context (cfg : ConsensusNodeCfg) (resolver : TopoGetter).
  Abbreviation has_stage st := (λ tx, tx_RelayStage tx = st).

Lemma send_supervisor_ok msg k (m : msg_of k) (s s' : ShardState) :
  send_supervisor resolver msg k m s = (Ok tt, s') →
  ∃ w spv, WrapMsg k m = Ok w ∧ GetSupervisor resolver = Ok spv ∧
    s' = s <| conn ::= λ c, c <| outbox ::= λ o, o ++ [(spv, w)] |> |>.
Proof.
  unfold send_supervisor. intros (w & s1 & E1%st_wrap_ok & E)%st_bind_ok. injection E1 as Ew <-.
  apply st_bind_ok in E as (spv & s1 & E2%st_wrap_ok & E). injection E2 as Es <-.
  exists w, spv. split_and!; [done..|]. unfold send, on_conn in E.
  apply st_zoom_ok in E as (c & [= <-] & ->). by destruct s.
Qed.

(** Committing a transaction block in the relay mode.  A follower adds it
    to its chain and sends nothing.  The leader adds it too, reports to the
    supervisor the block's transactions split by their relay stage, and sends
    to the leaders of the shards exactly one message per shard that is the
    recipient's shard of some relay-1 transaction of the block, holding those
    transactions as relay-2 ones; no relay-1 transaction is left out. *)
Theorem relay_commit_delivers now isLeader b (s s' : ShardState) : own_leaders resolver →
  Relay_BlockCommitAndDeliver cfg resolver now isLeader b s = (Ok tt, s') →
  AddBlock b (chain s) = (Ok tt, chain s') ∧ txPool s' = txPool s ∧ amm s' = amm s ∧
  (isLeader = false → conn s' = conn s) ∧
  (isLeader = true → ∃ w spv locs sent,
    outbox (conn s') = outbox (conn s) ++ (spv, w) :: sent ∧ NoDup sent ∧
    GetSupervisor resolver = Ok spv ∧
    WrapMsg KRelayBlockInfo (mkRelayBlockInfoMsg
      (filter (has_stage UndeterminedRelayTx) (TxList (b_Body b)))
      (filter (has_stage Relay1Tx) (TxList (b_Body b))) (filter (has_stage Relay2Tx) (TxList (b_Body b)))
      (epochID (chain s')) (BCreateTime (b_Header b)) now (shardID (chain s'))) = Ok w ∧
    GetAccountLocationsInTxs (TxList (b_Body b)) (chain s') = Ok locs ∧
    (∀ p, p ∈ sent → ∃ k, (k < Z.to_nat (ShardNum (cn_Sys cfg)))%nat ∧
      shard_msg resolver (Z.of_nat k) (relayed_to locs k (TxList (b_Body b))) p) ∧
    (∀ tx, tx ∈ TxList (b_Body b) → tx_RelayStage tx = Relay1Tx →
      ∃ k p, locs !! Recipient tx = Some (Z.of_nat k) ∧
        relay2_of tx ∈ relayed_to locs k (TxList (b_Body b)) ∧ p ∈ sent ∧
        shard_msg resolver (Z.of_nat k) (relayed_to locs k (TxList (b_Body b))) p)).
Proof.
  intros Hown. unfold Relay_BlockCommitAndDeliver. intros ([] & s1 & E1%st_wrap_ok & E)%st_bind_ok.
  apply st_zoom_ok in E1 as (c1 & Ea & ->). destruct isLeader; cbn [negb] in E.
  - rewrite Relay_splitTxs_filter in E. apply st_bind_ok in E as ([] & s2 & E2%st_wrap_ok & E3%st_wrap_ok).
    apply st_bind_ok in E2 as (s0 & s1 & [= <- <-] & E2).
    apply send_supervisor_ok in E2 as (w & spv & Hw & Hspv & ->).
    apply sendRelayedTxs_ok in E3 as (locs & sent & Hl & -> & Hnd & Hs1 & Hs2); [|done..].
    cbn in Hl. split_and!; [done..|]. intros _. exists w, spv, locs, sent.
    split_and!; try done. cbn. by rewrite <- app_assoc.
  - injection E as <-. by split_and!.
Qed.

(** The same for the broker mode: the five classes of its transactions. *)
Definition is_relay (tx : Transaction) : Prop := TxType tx = RelayTxType.
#[export] Instance is_relay_dec tx : Decision (is_relay tx).
Proof. unfold is_relay. apply _. Defined.

Lemma Broker_splitTxs_filter txs : Broker_splitTxs txs =
  (filter (λ tx, ¬ is_relay tx ∧ tx_BrokerStage tx = RawTxBrokerStage) txs,
   filter (λ tx, ¬ is_relay tx ∧ tx_BrokerStage tx = Sigma1BrokerStage) txs,
   filter (λ tx, ¬ is_relay tx ∧ tx_BrokerStage tx = Sigma2BrokerStage) txs,
   filter (λ tx, is_relay tx ∧ tx_RelayStage tx = Relay1Tx) txs,
   filter (λ tx, is_relay tx ∧ tx_RelayStage tx ≠ Relay1Tx) txs).
Proof.
  unfold Broker_splitTxs.
  enough (∀ i a b c d, fold_left (λ acc tx,
    let '(innerTxs, b1Txs, b2Txs, r1Txs, r2Txs) := acc in
    if decide (TxType tx = RelayTxType) then
      if decide (tx_RelayStage tx = Relay1Tx) then (innerTxs, b1Txs, b2Txs, r1Txs ++ [tx], r2Txs)
      else (innerTxs, b1Txs, b2Txs, r1Txs, r2Txs ++ [tx])
    else if decide (tx_BrokerStage tx = RawTxBrokerStage) then (innerTxs ++ [tx], b1Txs, b2Txs, r1Txs, r2Txs)
    else if decide (tx_BrokerStage tx = Sigma1BrokerStage) then (innerTxs, b1Txs ++ [tx], b2Txs, r1Txs, r2Txs)
    else if decide (tx_BrokerStage tx = Sigma2BrokerStage) then (innerTxs, b1Txs, b2Txs ++ [tx], r1Txs, r2Txs)
    else acc) txs (i, a, b, c, d) =
    (i ++ filter (λ tx, ¬ is_relay tx ∧ tx_BrokerStage tx = RawTxBrokerStage) txs,
     a ++ filter (λ tx, ¬ is_relay tx ∧ tx_BrokerStage tx = Sigma1BrokerStage) txs,
     b ++ filter (λ tx, ¬ is_relay tx ∧ tx_BrokerStage tx = Sigma2BrokerStage) txs,
     c ++ filter (λ tx, is_relay tx ∧ tx_RelayStage tx = Relay1Tx) txs,
     d ++ filter (λ tx, is_relay tx ∧ tx_RelayStage tx ≠ Relay1Tx) txs)) as H by (by rewrite H).
  induction txs as [|tx txs IH]; intros i a b c d; cbn [fold_left].
  { cbn. by rewrite !app_nil_r. }
  rewrite !filter_cons. unfold is_relay in *.
  destruct (decide (TxType tx = RelayTxType)) as [Ht|Ht].
  - rewrite !(decide_False (P := ¬ _ ∧ _)) by tauto.
    destruct (decide (tx_RelayStage tx = Relay1Tx)) as [Hr|Hr].
    + rewrite decide_True, decide_False by tauto. by rewrite IH, <- !app_assoc.
    + rewrite decide_False, decide_True by tauto. by rewrite IH, <- !app_assoc.
  - rewrite !(decide_False (P := TxType tx = RelayTxType ∧ _)) by tauto.
    assert (∀ st (x y : list Transaction),
      (if decide (¬ TxType tx = RelayTxType ∧ tx_BrokerStage tx = st) then x else y) =
      if decide (tx_BrokerStage tx = st) then x else y) as E by (intros; apply decide_ext; tauto).
    rewrite !E. clear E. unfold RawTxBrokerStage, Sigma1BrokerStage, Sigma2BrokerStage in *.
    repeat case_decide; try lia; rewrite IH, <- ?app_assoc; done.
Qed.
End commit_facts.

(** ** Concrete runs: shard 0 of two, on the chain of [ChainDemo] *)

Module TxBlockDemo.
Export ChainDemo.
(** A message encoder that keeps only the kind. *)
#[export] Instance gob_m : GobMsg := {|
  gob_encode k m := Ok (str match getMsgType k with Ok t => t | _ => "" end);
  gob_decode k p := Err "unsupported";
|}.
#[export] Instance demo_gob_block : GobBlock := gob_any.

Definition cfg : ConsensusNodeCfg :=
  mkConsensusNodeCfg (mkSystemCfg 2 4 StaticRelayConsensus 100) bloom_cfg TxPoolNumType 0.
Definition topo : TopoGetter := SetTopoGetter [(0, [0; 1]); (1, [0; 1])] (NewTopoGetter ∅ ∅).
Definition shard0 : ShardState := mkShardState genesis (mkTxPool [] packTxsByGivenNum TxPoolNumType)
  (NewAccMigrateMetadata (cn_Sys cfg) lp) (mkConn [] []).
(** Accounts are in the shard of their parity. *)
Definition transfer (a b : Z) : Transaction := NewTransaction (addr a) (addr b) 30 0 0 0.
Definition txs : list Transaction := [transfer 2 4; transfer 2 3; transfer 3 2].
Definition relay1 : Transaction := (transfer 2 3) <| RelayOpt := mkRelayTxOpt Relay1Tx (str "h") |>.
Definition block1 : Block := next (mkBody [transfer 2 4; relay1]) emptyMigrationOpt genesis.
Definition commit1 := Relay_BlockCommitAndDeliver cfg topo 9 true block1 shard0.

Lemma topo_own : own_leaders topo.
Proof.
  apply SetTopoGetter_own.
  - apply (bool_decide_unpack _). vm_compute. exact I.
  - apply (bool_decide_unpack _). vm_compute. exact I.
Qed.
End TxBlockDemo.

Module TxBlockWitness.
Import TxBlockDemo.

Lemma modifyTxRelayOpt_spec_witness : ∃ locs os,
  Forall2 (relay_fate locs (GetShardID genesis)) txs os ∧
  omap id os = force [] (modifyTxRelayOpt txs genesis).
Proof.
  destruct (modifyTxRelayOpt_spec txs genesis (force [] (modifyTxRelayOpt txs genesis))) as (locs & os & _ & H & E).
  - apply force_ok. vm_compute. reflexivity.
  - exists locs, os. split; [exact H | symmetry; exact E].
Defined.

Lemma relay_commit_delivers_witness : ∃ w spv sent,
  outbox (conn commit1.2) = (spv, w) :: sent ∧ length sent = 1%nat.
Proof.
  assert (commit1.1 = Ok tt) as H by (vm_compute; reflexivity).
  destruct (relay_commit_delivers cfg topo 9 true block1 shard0 commit1.2 topo_own)
    as (_ & _ & _ & _ & Hl); [apply run_fst; exact H|].
  destruct (Hl eq_refl) as (w & spv & locs & sent & E & _). exists w, spv, sent. split; [exact E|].
  assert (length (outbox (conn commit1.2)) = 2%nat) as Hn by (vm_compute; reflexivity).
  rewrite E in Hn. cbn in Hn. lia.
Defined.
End TxBlockWitness.
