(* ===== verification/ShardOp.v ===== *)
(** * The operations of a consensus node in its shard

    Models consensus/pbft/insideop (what a leader proposes, how a proposal is
    validated and committed, with static and with dynamic sharding),
    insideop/migrationblockop (account-migration blocks) and
    consensus/pbft/outsideop (messages from outside the shard).

    The two packing loops of dynamic sharding run with a fuel of one more than
    the length of the pool's queue; [pack_loop_total] shows that this is always
    enough. *)

From S2P Require Import Prelude GoHash Account Bloom Block Config StateDB TxExecute Storage Chain.
From S2P Require Import TxPool Network Migration TxBlockOp.
From Stdlib Require Import Lia.

Local Open Scope Z_scope.

Definition migratedTxNum : Z := 2 ^ 28.
Definition supervisorShardID : Z := 0x7fffffff.

Section shardop.
  Context {BL : BitSetLib} {RT : RlpTx} {RH : RlpHeader} {GB : GobBlock}.
  Context {GU : GobU64} {GS : GobState} {MK : MapKeys} {RS : RangeShards} {GM : GobMsg}.
  Context {SL : StateDBLib} {EV : EVMLib} {BO : BoltLib} {TL : TrieLib}.
  Context (cfg : ConsensusNodeCfg) (lp : LocalParams) (resolver : TopoGetter).

(** ** migrationblockop.MigrationBlockOp *)

(** None: not all the states are collected, do not propose. *)
Definition BuildMigrationProposal (now : Time) : M ShardState (option Proposal) := λ s,
  if decide (Z.of_nat (size (MigratedAccountStates (amm s))) ≠ ShardNum (cn_Sys cfg)) then (Ok None, s)
  else (let! p := st_wrap "GetMigratedAddrStates failed" (on_amm GetMigratedAddrStates) in
        let! b := st_wrap "GenerateMigrationBlock failed" (reads (λ s,
          GenerateBlock now (WalletAddr lp) MigrationBlockType emptyBody (mkMigrationOpt p.1 p.2) (chain s))) in
        st_ret (Some (WrapProposal b))) s.

(** One account leaving the shard. *)
Definition migrate_out (am : AccMigrateMetadata) (atMsgList : list AccountMigrationMsg)
    (p : Address * State) : result (list AccountMigrationMsg) :=
  let '(acc, st) := p in
  if decide (S_ShardLocation st ≠ wrap_u64 (ShardID lp)) then Ok atMsgList
  else idx_upd (λ m, mkAccountMigrationMsg (am_SrcShard m) (am_DestShard m) (am_Epoch m)
                       (<[acc := st]> (am_AccountStates m)))
         atMsgList (default 0 (CurModifiedMap am !! acc)).

Definition init_msgs (am : AccMigrateMetadata) : result (list AccountMigrationMsg) :=
  let* l := make 0 (ShardNum (cn_Sys cfg)) in
  Ok (imap (λ i _, mkAccountMigrationMsg (ShardID lp) (Z.of_nat i) (Epoch am) ∅) l).

Fixpoint wrap_migrations (i : Z) (l : list AccountMigrationMsg) (m : gmap NodeInfo WrappedMsg)
    : result (gmap NodeInfo WrappedMsg) :=
  match l with
  | [] => Ok m
  | atMsg :: l' =>
    let* ld := wrap_err "GetLeader failed" (GetLeader i resolver) in
    let* w := wrap_err "WrapMsg failed" (WrapMsg KAccountMigration atMsg) in
    wrap_migrations (i + 1) l' (<[ld := w]> m)
  end.

Definition MigrateAccounts : M ShardState unit := λ s,
  (let accountsMigratedOut := maps_Keys (CurModifiedMap (amm s)) in
   let! states := st_wrap "GetAccountStates failed" (st_lift (GetAccountStates accountsMigratedOut (chain s))) in
   let! atMsgList := st_lift (init_msgs (amm s)) in
   let! atMsgList := st_lift (rfold (migrate_out (amm s)) atMsgList (zip accountsMigratedOut states)) in
   let! sendMsgMap := st_lift (wrap_migrations 0 atMsgList ∅) in
   on_conn (st_modify (MSendDifferentMessages sendMsgMap))) s.

Definition MigrationBlockCommit (b : Block) : M ShardState unit :=
  st_wrap "chain.AddBlock failed" (on_chain (AddBlock b)) ;;!
  st_modify (λ s, s <| chain ::= UpdateEpoch (Epoch (amm s)) |> <| amm ::= MigrationStatusReset |>).

(** ** insideop.StaticShardOp *)

(** A proposal and its block, dereferenced. *)
Definition deref_block (p : option Proposal) : result Block :=
  let* p := or_panic p in or_panic (P_Block p).

Context (tbo : TxBlockOp).

Definition Static_BuildProposal (now : Time) : M ShardState (option Proposal) :=
  let! txs := st_wrap "txPool.PackTxs failed" (on_pool (PackTxs (wrap_i64 (BlockSizeLimit (cn_Sys cfg))))) in
  let! p := st_wrap "build block proposal in relay mode failed" (reads (BuildTxBlockProposal lp tbo now txs)) in
  st_ret (Some p).

Definition Static_ValidateProposal (p : Proposal) (s : ShardState) : result unit :=
  let* b := deref_block (Some p) in
  wrap_err "validate block failed" (ValidateBlock b (chain s)).

Definition Static_ProposalCommitAndDeliver (now : Time) (isLeader : bool) (p : option Proposal)
    : M ShardState unit :=
  let! b := st_lift (deref_block p) in
  st_wrap "block commit failed" (BlockCommitAndDeliver cfg resolver tbo now isLeader b).

(** ** insideop.DynamicShardOp *)

Definition fetchTxsAndAccountStates (size : Z) : M ShardState (list Transaction * gmap Address Z) :=
  let! txs := st_wrap "PackTxs failed" (on_pool (PackTxs size)) in
  if decide (length txs = 0%nat) then st_ret ([], ∅)
  else
    let! accountLoc := st_wrap "GetAccountLocationsInTxs failed"
      (reads (λ s, GetAccountLocationsInTxs txs (chain s))) in
    st_ret (txs, accountLoc).

Definition brokerCLPATxSendAgain (txSentAgain : list Transaction) : M ShardState unit :=
  if decide (length txSentAgain = 0%nat) then st_ret tt
  else send_supervisor resolver "wrap BrokerCLPATxSendAgainMsg failed" KBrokerCLPATxSendAgain
         (mkBrokerCLPATxSendAgainMsg txSentAgain).

(** Where a packing or a migration sends a transaction. *)
Inductive route := Skip | Here | ToShard (i : Z) | ToSupervisor.

Definition relay_route (accountLoc : gmap Address Z) (tx : Transaction) : route :=
  let keyAcc := if decide (tx_RelayStage tx = Relay2Tx) then Recipient tx else Sender tx in
  match accountLoc !! keyAcc with
  | None => Skip
  | Some destShard => if decide (destShard ≠ ShardID lp) then ToShard destShard else Here
  end.

Definition getTxDestLocByAccountState (tx : Transaction) (accountLoc : gmap Address Z) : Z :=
  match accountLoc !! Sender tx, accountLoc !! Recipient tx with
  | Some sDestShard, Some rDestShard =>
    if decide (TxType tx = NormalTxType) then
      if decide (sDestShard = rDestShard) then sDestShard else supervisorShardID
    else if decide (tx_BrokerStage tx = Sigma1BrokerStage) then sDestShard
    else if decide (tx_BrokerStage tx = Sigma2BrokerStage) then rDestShard
    else supervisorShardID
  | _, _ => supervisorShardID
  end.

(** [if dest == supervisorShardID { .. } else if dest == c.lp.ShardID { .. } else { .. }] *)
Definition dest_route (dest : Z) : route :=
  if decide (dest = supervisorShardID) then ToSupervisor
  else if decide (dest = ShardID lp) then Here else ToShard dest.

Definition broker_route (accountLoc : gmap Address Z) (tx : Transaction) : route :=
  dest_route (getTxDestLocByAccountState tx accountLoc).

(** What a loop over transactions has sorted: kept here, for the supervisor, per shard. *)
Record Sorted := mkSorted {
  so_here : list Transaction; so_sup : list Transaction; so_shards : list (list Transaction);
}.

Definition sort_one (rt : Transaction → route) (acc : Sorted) (tx : Transaction) : result Sorted :=
  match rt tx with
  | Skip => Ok acc
  | Here => Ok (mkSorted (so_here acc ++ [tx]) (so_sup acc) (so_shards acc))
  | ToSupervisor => Ok (mkSorted (so_here acc) (so_sup acc ++ [tx]) (so_shards acc))
  | ToShard i => let* l := push_at tx (so_shards acc) i in Ok (mkSorted (so_here acc) (so_sup acc) l)
  end.

(** One pass of [for curCnt := 0; curCnt < size; { .. }] *)
Definition pack_pass (rt : gmap Address Z → Transaction → route) (size : Z) (p : Z * Sorted)
    : M ShardState (Z * Sorted + Sorted) :=
  let '(curCnt, acc) := p in
  if decide (curCnt < size) then
    let! fetched := st_wrap "fetchTxsAndAccountStates failed"
      (fetchTxsAndAccountStates (wrap_i64 (size - curCnt))) in
    let '(txs, accountLoc) := fetched in
    if decide (length txs = 0%nat) then st_ret (inr acc)
    else
      let! it := st_lift (rfold (sort_one (rt accountLoc)) (mkSorted [] (so_sup acc) (so_shards acc)) txs) in
      let! incSize := st_wrap "GetTxListSize failed" (reads (λ s, GetTxListSize (txPool s) (so_here it))) in
      st_ret (inl (wrap_i64 (curCnt + incSize),
        mkSorted (so_here acc ++ so_here it) (so_sup it) (so_shards it)))
  else st_ret (inr acc).

Definition pack_sorted (rt : gmap Address Z → Transaction → route) (size : Z) : M ShardState Sorted := λ s,
  (let! txs2Shard := st_lift (make [] (ShardNum (cn_Sys cfg))) in
   let! o := st_iter (pack_pass rt size) (S (length (queue (txPool s)))) (0, mkSorted [] [] txs2Shard) in
   match o with
   | Some acc => st_ret acc
   | None => st_fail "out of fuel"
   end) s.

Definition packValidTxsInRelay (size : Z) : M ShardState (list Transaction) :=
  let! acc := pack_sorted relay_route size in
  st_wrap "SendWrappedTxs2Shard failed" (on_conn (SendWrappedTxs2Shards (so_shards acc) resolver)) ;;!
  st_ret (so_here acc).

Definition packValidTxsInBroker (size : Z) : M ShardState (list Transaction) :=
  let! acc := pack_sorted broker_route size in
  st_wrap "SendWrappedTxs2Shard failed" (on_conn (SendWrappedTxs2Shards (so_shards acc) resolver)) ;;!
  st_wrap "brokerCLPATxSendAgain failed" (brokerCLPATxSendAgain (so_sup acc)) ;;!
  st_ret (so_here acc).

Definition packValidTxs (size : Z) : M ShardState (list Transaction) :=
  if decide (ConsensusType (cn_Sys cfg) = CLPARelayConsensus) then packValidTxsInRelay size
  else packValidTxsInBroker size.

Definition buildBlockProposal (now : Time) : M ShardState (option Proposal) :=
  let! txs := st_wrap "txPool.PackTxs failed" (packValidTxs (wrap_i64 (BlockSizeLimit (cn_Sys cfg)))) in
  let! p := st_wrap "build block proposal in relay mode failed" (reads (BuildTxBlockProposal lp tbo now txs)) in
  st_ret (Some p).

(** The shard of the modified map for a transaction of the relay mode. *)
Definition migrate_relay_route (modified : gmap Address Z) (tx : Transaction) : route :=
  match modified !! (if decide (tx_RelayStage tx = Relay2Tx) then Recipient tx else Sender tx) with
  | Some destShard => ToShard destShard
  | None => Here
  end.

Definition getMigratedTxDestLocInBroker (modified : gmap Address Z) (tx : Transaction) : Z :=
  let sDestShard := default (ShardID lp) (modified !! Sender tx) in
  let rDestShard := default (ShardID lp) (modified !! Recipient tx) in
  if decide (TxType tx = NormalTxType) then
    if decide (sDestShard = rDestShard) then sDestShard else supervisorShardID
  else if decide (tx_BrokerStage tx = Sigma1BrokerStage) then sDestShard
  else if decide (tx_BrokerStage tx = Sigma2BrokerStage) then rDestShard
  else supervisorShardID.

Definition migrate_broker_route (modified : gmap Address Z) (tx : Transaction) : route :=
  dest_route (getMigratedTxDestLocInBroker modified tx).

(** Take the transactions out of the pool, sort them, and put the ones that stay back. *)
Definition migrate_sorted (rt : gmap Address Z → Transaction → route) : M ShardState Sorted :=
  let! allTxs := st_wrap "PackTxs failed" (on_pool (PackTxs migratedTxNum)) in
  let! tx2Shards := st_lift (make [] (ShardNum (cn_Sys cfg))) in
  let! s := st_get in
  let! acc := st_lift (rfold (sort_one (rt (CurModifiedMap (amm s)))) (mkSorted [] [] tx2Shards) allTxs) in
  st_wrap "AddTxs failed" (on_pool (AddTxs (so_here acc))) ;;!
  st_ret acc.

Definition migrateTxsInRelay : M ShardState unit :=
  let! acc := migrate_sorted migrate_relay_route in
  st_wrap "SendWrappedTxs2Shards failed" (on_conn (SendWrappedTxs2Shards (so_shards acc) resolver)).

Definition migrateTxsInBroker : M ShardState unit :=
  let! acc := migrate_sorted migrate_broker_route in
  st_wrap "SendWrappedTxs2Shards failed" (on_conn (SendWrappedTxs2Shards (so_shards acc) resolver)) ;;!
  st_wrap "brokerCLPATxSendAgain failed" (brokerCLPATxSendAgain (so_sup acc)).

Definition migrateTxs : M ShardState unit :=
  if decide (ConsensusType (cn_Sys cfg) = CLPARelayConsensus) then migrateTxsInRelay else migrateTxsInBroker.

Definition buildPartitionProposal (now : Time) : M ShardState (option Proposal) :=
  let! s := st_get in
  match MigratedAccountStates (amm s) !! ShardID lp with
  | Some _ => st_ret tt
  | None =>
    st_wrap "migrateAccounts failed" MigrateAccounts ;;!
    st_wrap "migrateTxs failed" migrateTxs
  end ;;!
  st_wrap "build migration proposal failed" (BuildMigrationProposal now).

Definition Dynamic_BuildProposal (now : Time) : M ShardState (option Proposal) :=
  let! s := st_get in
  if MigrationReady (amm s) then buildPartitionProposal now else buildBlockProposal now.

Definition Dynamic_ValidateProposal := Static_ValidateProposal.

Definition Dynamic_ProposalCommitAndDeliver (now : Time) (isLeader : bool) (p : option Proposal)
    : M ShardState unit :=
  let! b := st_lift (deref_block p) in
  if decide (BType (b_Header b) = MigrationBlockType) then
    st_wrap "migration block commit failed" (MigrationBlockCommit b)
  else st_wrap "block commit failed" (BlockCommitAndDeliver cfg resolver tbo now isLeader b).

(** ** outsideop *)

Definition receive_txs (msg : WrappedMsg) : M ShardState unit :=
  let! rt := st_wrap "decode ReceiveTxs msg failed" (st_lift (gob_decode KReceiveTxs (Payload msg))) in
  st_wrap "tx pool add txs" (on_pool (AddTxs (rt_Txs rt))).

Definition Static_HandleMsgOutsideShard (msg : WrappedMsg) : M ShardState unit :=
  if decide (MsgType msg = ReceiveTxsMessageType) then receive_txs msg
  else st_fail "unknown msg type: %s".

Definition CLPA_HandleMsgOutsideShard (msg : WrappedMsg) : M ShardState unit :=
  if decide (MsgType msg = ReceiveTxsMessageType) then receive_txs msg
  else if decide (MsgType msg = CLPARepartitionStartMessageType) then
    let! cr := st_wrap "decode CLPARepartitionStart msg failed"
      (st_lift (gob_decode KCLPARepartitionStart (Payload msg))) in
    st_wrap "set account migration metadata by RepartitionStartMsg failed"
      (on_amm (UpdateByRepartitionStartMsg cr))
  else if decide (MsgType msg = AccountMigrationMessageType) then
    let! aat := st_wrap "decode AccountMigrationMsg failed"
      (st_lift (gob_decode KAccountMigration (Payload msg))) in
    st_wrap "collect states by AccountMigrationMsg failed" (on_amm (CollectStatesByMsg aat))
  else st_fail "unknown msg type: %s".
End shardop.

#[export] Instance route_eq_dec : EqDecision route.
Proof. solve_decision. Defined.

(** ** Facts: sorting *)

Definition so_all (a : Sorted) : list Transaction := so_here a ++ so_sup a ++ concat (so_shards a).

Lemma sort_one_perm rt acc tx acc' : rt tx ≠ Skip → sort_one rt acc tx = Ok acc' →
  so_all acc' ≡ₚ so_all acc ++ [tx].
Proof.
  unfold sort_one, so_all. destruct (rt tx) as [| |i|]; intros Hs; [done| | |].
  - intros [= <-]. cbn. rewrite <- !app_assoc. f_equiv. cbn. rewrite app_assoc. apply Permutation_cons_append.
  - intros (l & Hl & [= <-])%rbind_ok. cbn. apply concat_push_at in Hl. rewrite Hl.
    rewrite <- !app_assoc. f_equiv. f_equiv. apply Permutation_cons_append.
  - intros [= <-]. cbn. rewrite <- !app_assoc. f_equiv. f_equiv. cbn. apply Permutation_cons_append.
Qed.

Lemma sort_perm rt acc txs acc' : (∀ tx, tx ∈ txs → rt tx ≠ Skip) →
  rfold (sort_one rt) acc txs = Ok acc' → so_all acc' ≡ₚ so_all acc ++ txs.
Proof.
  revert acc; induction txs as [|tx txs IH]; intros acc Hs; cbn.
  - intros [= <-]. by rewrite app_nil_r.
  - intros (a1 & E & H)%rbind_ok. apply IH in H; [|intros; apply Hs; by right]. rewrite H.
    apply sort_one_perm in E; [|apply Hs; by left]. rewrite E, <- app_assoc. done.
Qed.

(** The three destinations, in order. *)
Lemma sort_spec rt acc txs acc' : rfold (sort_one rt) acc txs = Ok acc' →
  so_here acc' = so_here acc ++ filter (λ tx, rt tx = Here) txs ∧
  so_sup acc' = so_sup acc ++ filter (λ tx, rt tx = ToSupervisor) txs ∧
  length (so_shards acc') = length (so_shards acc) ∧
  (∀ k b, so_shards acc !! k = Some b →
    so_shards acc' !! k = Some (b ++ filter (λ tx, rt tx = ToShard (Z.of_nat k)) txs)) ∧
  (∀ tx i, tx ∈ txs → rt tx = ToShard i → 0 ≤ i < Z.of_nat (length (so_shards acc))).
Proof.
  revert acc; induction txs as [|tx txs IH]; intros acc; cbn [rfold].
  { intros [= <-]. cbn. rewrite !app_nil_r. split_and!; try done.
    - intros k b Hb. by rewrite app_nil_r.
    - intros tx i Hin. by apply not_elem_of_nil in Hin. }
  intros (a1 & E & H)%rbind_ok. apply IH in H as (H1 & H2 & H3 & H4 & H5).
  rewrite !filter_cons. unfold sort_one in E. destruct (rt tx) as [| |i|] eqn:Er.
  - injection E as <-. rewrite !decide_False by done. split_and!; try done.
    + intros k b Hb. rewrite filter_cons_False by (by rewrite Er). by apply H4.
    + intros y j [->|Hy]%elem_of_cons Hj; [congruence | by eapply H5].
  - injection E as <-. cbn [so_here so_sup so_shards] in *. rewrite decide_True, decide_False by done. rewrite <- app_assoc in H1.
    split_and!; try done.
    + intros k b Hb. rewrite filter_cons_False by (by rewrite Er). by apply H4.
    + intros y j [->|Hy]%elem_of_cons Hj; [congruence | by eapply H5].
  - apply rbind_ok in E as (l & El & [= <-]). apply idx_upd_inv in El as (Hi & b & Hb & ->). cbn [so_here so_sup so_shards] in *.
    rewrite !(decide_False (P := ToShard i = _)) by done. rewrite length_insert in *.
    split_and!; try done.
    + intros k b0 Hb0. destruct (decide (ToShard i = ToShard (Z.of_nat k))) as [[= ->]|Hne].
      * rewrite filter_cons_True by (by rewrite Er). rewrite Nat2Z.id in Hb. simplify_eq.
        rewrite (H4 k (b ++ [tx])); [by rewrite <- app_assoc|].
        rewrite Nat2Z.id, list_lookup_insert_eq; [done|]. by apply lookup_lt_Some in Hb.
      * rewrite filter_cons_False by (by rewrite Er). apply H4. rewrite list_lookup_insert_ne; [done|].
        intros <-. apply Hne. f_equal. lia.
    + intros y j [->|Hy]%elem_of_cons Hj; [|by eapply H5].
      apply lookup_lt_Some in Hb. rewrite Er in Hj. injection Hj as <-. lia.
  - injection E as <-. cbn [so_here so_sup so_shards] in *. rewrite decide_False, decide_True by done. rewrite <- app_assoc in H2.
    split_and!; try done.
    + intros k b Hb. rewrite filter_cons_False by (by rewrite Er). by apply H4.
    + intros y j [->|Hy]%elem_of_cons Hj; [congruence | by eapply H5].
Qed.

Section loop_facts.
  Context {BL : BitSetLib} {RT : RlpTx} {RH : RlpHeader} {GB : GobBlock}.
  Context {GU : GobU64} {GS : GobState} {MK : MapKeys} {RS : RangeShards} {GM : GobMsg}.
  Context {SL : StateDBLib} {EV : EVMLib} {BO : BoltLib} {TL : TrieLib}.
  Context (cfg : ConsensusNodeCfg) (lp : LocalParams) (resolver : TopoGetter).

(** ** The packing loop *)

(** One fetch takes a prefix off the pool's queue and changes nothing else. *)
Lemma fetch_cases size (s s' : ShardState) r : splits (pf (txPool s)) →
  fetchTxsAndAccountStates size s = (r, s') →
  ∃ q, s' = s <| txPool ::= λ t, t <| queue := q |> |> ∧
    ((is_ok r = false ∧ ∃ taken, queue (txPool s) = taken ++ q) ∨
     ∃ txs loc, r = Ok (txs, loc) ∧ queue (txPool s) = txs ++ q ∧
       (txs = [] ∨ GetAccountLocationsInTxs txs (chain s) = Ok loc)).
Proof.
  intros Hs. unfold fetchTxsAndAccountStates, st_bind, st_wrap, on_pool, st_zoom.
  destruct (PackTxs_cases size (txPool s) Hs) as [(packed & q & -> & Hq)|(x & -> & Hx)].
  - cbn. destruct (decide (length packed = 0%nat)) as [Hl|Hl].
    + intros [= <- <-]. exists q. split; [by destruct s|]. right. apply nil_length_inv in Hl as ->.
      exists [], ∅. split_and!; [done | by rewrite <- Hq | by left].
    + cbn. destruct (GetAccountLocationsInTxs packed (chain s)) as [loc|e|] eqn:E;
        cbn; intros [= <- <-]; exists q; (split; [by destruct s|]).
      * right. exists packed, loc. split_and!; [done | by rewrite <- Hq | by right].
      * left. split; [done|]. by exists packed.
      * left. split; [done|]. by exists packed.
  - destruct x as [a|e|]; [done|..]; cbn; intros [= <- <-]; exists (queue (txPool s));
      (split; [by destruct s as [? [] ? ?]|]); left; (split; [done|]); by exists [].
Qed.

(** A pass that continues: what it fetched, and how it sorted it. *)
Lemma pack_pass_continues rt size p p' (s s' : ShardState) : splits (pf (txPool s)) →
  pack_pass rt size p s = (Ok (inl p'), s') →
  ∃ q txs loc it, s' = s <| txPool ::= λ t, t <| queue := q |> |> ∧ txs ≠ [] ∧
    queue (txPool s) = txs ++ q ∧ GetAccountLocationsInTxs txs (chain s) = Ok loc ∧
    rfold (sort_one (rt loc)) (mkSorted [] (so_sup p.2) (so_shards p.2)) txs = Ok it ∧
    p'.2 = mkSorted (so_here p.2 ++ so_here it) (so_sup it) (so_shards it).
Proof.
  intros Hs. destruct p as [cur acc]. unfold pack_pass. case_decide; [|done].
  intros ([txs loc] & s1 & Ef%st_wrap_ok & E)%st_bind_ok.
  destruct (fetch_cases _ _ _ _ Hs Ef) as (q & -> & [[? _]|(txs' & loc' & [= <- <-] & Hq & Hloc)]); [done|].
  destruct (decide (length txs = 0%nat)) as [Hl|Hl]; [done|].
  apply st_bind_ok in E as (it & s1 & [Eit ->]%st_lift_ok & E).
  apply st_bind_ok in E as (inc & s1 & Ei%st_wrap_ok & E). injection Ei as Ei <-. injection E as <- <-.
  exists q, txs, loc, it. split_and!; try done; [by intros ->|].
  destruct Hloc as [->|?]; done.
Qed.

Lemma pack_pass_stops rt size p a (s s' : ShardState) : splits (pf (txPool s)) →
  pack_pass rt size p s = (Ok (inr a), s') → s' = s ∧ a = p.2.
Proof.
  intros Hs. destruct p as [cur acc]. unfold pack_pass. case_decide; [|by intros [= <- <-]].
  intros ([txs loc] & s1 & Ef%st_wrap_ok & E)%st_bind_ok.
  destruct (fetch_cases _ _ _ _ Hs Ef) as (q & -> & [[? _]|(txs' & loc' & [= <- <-] & Hq & Hloc)]); [done|].
  destruct (decide (length txs = 0%nat)) as [Hl|Hl].
  - injection E as <- <-. apply nil_length_inv in Hl as ->. cbn in Hq. rewrite <- Hq.
    split; [by destruct s as [? [] ? ?]|done].
  - apply st_bind_ok in E as (it & s1 & [Eit ->]%st_lift_ok & E).
    by apply st_bind_ok in E as (inc & s1 & _ & E).
Qed.

(** The packing loops of dynamic sharding terminate: for every pool (by
    number or by bytes), every limit and every way of routing, a fuel above the
    number of queued transactions is never used up, and more fuel gives the
    same result. *)
Theorem pack_loop_total rt size p (s : ShardState) fuel : splits (pf (txPool s)) →
  (length (queue (txPool s)) < fuel)%nat →
  (st_iter (pack_pass rt size) fuel p s).1 ≠ Ok None ∧
  ∀ fuel', (length (queue (txPool s)) < fuel')%nat →
    st_iter (pack_pass rt size) fuel' p s = st_iter (pack_pass rt size) fuel p s.
Proof.
  intros Hs. apply (st_iter_total (pack_pass rt size) (λ s, length (queue (txPool s)))
    (λ s, splits (pf (txPool s)))); [|done].
  intros p0 s0 p1 s1 H0 E. destruct (pack_pass_continues _ _ _ _ _ _ H0 E) as (q & txs & loc & it & -> & Hne & Hq & _).
  split; [done|]. cbn. rewrite Hq, length_app. destruct txs; [done|]. cbn. lia.
Qed.

(** A transaction routed to [ro] by the locations of a fetch. *)
Definition routed (rt : gmap Address Z → Transaction → route) (c : Chain) (ro : route) (tx : Transaction) : Prop :=
  ∃ txs loc, GetAccountLocationsInTxs txs c = Ok loc ∧ tx ∈ txs ∧ rt loc tx = ro.

(** Everything sorted is where its route says. *)
Definition well_sorted (P : route → Transaction → Prop) (a : Sorted) : Prop :=
  Forall (P Here) (so_here a) ∧ Forall (P ToSupervisor) (so_sup a) ∧
  ∀ k b, so_shards a !! k = Some b → Forall (P (ToShard (Z.of_nat k))) b.

Lemma sort_well_sorted (P : route → Transaction → Prop) rt acc txs acc' : well_sorted P acc →
  rfold (sort_one rt) acc txs = Ok acc' → (∀ tx, tx ∈ txs → P (rt tx) tx) → well_sorted P acc'.
Proof.
  intros (H1 & H2 & H3) (S1 & S2 & S3 & S4 & _)%sort_spec HP.
  assert (∀ ro, Forall (P ro) (filter (λ tx, rt tx = ro) txs)) as HF.
  { intros ro. apply Forall_forall. intros tx [<- Hin]%list_elem_of_filter. by apply HP. }
  split_and!.
  - rewrite S1. by apply Forall_app.
  - rewrite S2. by apply Forall_app.
  - intros k b Hb. destruct (lookup_lt_is_Some_2 (so_shards acc) k) as [b0 Hb0].
    { rewrite <- S3. by apply lookup_lt_Some in Hb. }
    rewrite (S4 k b0 Hb0) in Hb. simplify_eq. apply Forall_app. split; [by apply (H3 k)|done].
Qed.

Lemma empty_well_sorted P n : well_sorted P (mkSorted [] [] (replicate n [])).
Proof. split_and!; [constructor..|]. by intros k b [-> _]%lookup_replicate. Qed.

Lemma so_all_empty n : so_all (mkSorted [] [] (replicate n [])) = [].
Proof. unfold so_all. cbn. induction n; [done|]. exact IHn. Qed.

(** What a packing did. *)
Definition packed_inv (rt : gmap Address Z → Transaction → route) (s0 : ShardState) (p : Z * Sorted)
    (s : ShardState) : Prop :=
  splits (pf (txPool s)) ∧ ∃ q fetched, s = s0 <| txPool ::= λ t, t <| queue := q |> |> ∧
    queue (txPool s0) = fetched ++ q ∧ so_all p.2 ≡ₚ fetched ∧ well_sorted (routed rt (chain s0)) p.2.

Lemma packed_inv_step rt size s0 p p' (s s' : ShardState) :
  (∀ txs loc tx, GetAccountLocationsInTxs txs (chain s0) = Ok loc → tx ∈ txs → rt loc tx ≠ Skip) →
  packed_inv rt s0 p s → pack_pass rt size p s = (Ok (inl p'), s') → packed_inv rt s0 p' s'.
Proof.
  intros Hrt (Hs & q & fetched & -> & Hq & Hall & Hb1 & Hb2 & Hb3) E.
  destruct (pack_pass_continues _ _ _ _ _ _ Hs E) as (q' & txs & loc & it & -> & _ & Hq' & Hloc & Hit & Hp').
  cbn in Hq', Hloc. split; [done|]. exists q', (fetched ++ txs). rewrite Hp'. split_and!.
  - by destruct s0.
  - by rewrite Hq, Hq', app_assoc.
  - apply sort_perm in Hit; [|intros tx; by eapply Hrt]. unfold so_all in *. cbn in *.
    rewrite <- app_assoc, Hit, <- Hall. by rewrite !app_assoc.
  - apply (sort_well_sorted (routed rt (chain s0))) in Hit as (W1 & W2 & W3).
    + split_and!; cbn; [by apply Forall_app | done..].
    + by split_and!.
    + intros tx Hin. by exists txs, loc.
Qed.

Lemma pack_sorted_ok rt size acc (s s' : ShardState) : splits (pf (txPool s)) →
  (∀ txs loc tx, GetAccountLocationsInTxs txs (chain s) = Ok loc → tx ∈ txs → rt loc tx ≠ Skip) →
  pack_sorted cfg rt size s = (Ok acc, s') →
  ∃ q fetched, s' = s <| txPool ::= λ t, t <| queue := q |> |> ∧ queue (txPool s) = fetched ++ q ∧
    so_all acc ≡ₚ fetched ∧ well_sorted (routed rt (chain s)) acc.
Proof.
  intros Hs Hrt. unfold pack_sorted. intros (init & s1 & [Em ->]%st_lift_ok & E)%st_bind_ok.
  apply st_bind_ok in E as ([acc'|] & s1 & E & H); [|done]. injection H as -> ->.
  unfold make in Em. case_decide; [done|]. injection Em as <-.
  eapply (st_iter_inv _ (packed_inv rt s)) in E as (p & s1 & Hp & E).
  - destruct Hp as (Hs1 & q & fetched & -> & Hq & Hall & Hb).
    apply pack_pass_stops in E as [-> ->]; [|done]. by exists q, fetched.
  - intros. by eapply packed_inv_step.
  - split; [done|]. exists (queue (txPool s)), []. split_and!; [by destruct s as [? [] ? ?] | done | |].
    + cbn [snd]. by rewrite so_all_empty.
    + apply empty_well_sorted.
Qed.

(** What is sent for a sorting: the transactions of each shard to its leader,
    and those of the supervisor, if any, to it. *)
Definition delivered (a : Sorted) (o o' : list (NodeInfo * WrappedMsg)) : Prop :=
  ∃ sent tail, o' = o ++ sent ++ tail ∧ NoDup sent ∧
    (∀ p, p ∈ sent ↔ ∃ k l, so_shards a !! k = Some l ∧ shard_msg resolver (Z.of_nat k) l p) ∧
    (∀ k l, so_shards a !! k = Some l → l ≠ [] → ∃ p, p ∈ sent ∧ shard_msg resolver (Z.of_nat k) l p) ∧
    ((so_sup a = [] ∧ tail = []) ∨
     ∃ spv w, so_sup a ≠ [] ∧ tail = [(spv, w)] ∧ GetSupervisor resolver = Ok spv ∧
       WrapMsg KBrokerCLPATxSendAgain (mkBrokerCLPATxSendAgainMsg (so_sup a)) = Ok w).

Lemma send_shards_ok (l : list (list Transaction)) (s s' : ShardState) : own_leaders resolver →
  on_conn (SendWrappedTxs2Shards l resolver) s = (Ok tt, s') →
  ∃ sent, s' = s <| conn ::= λ c, c <| outbox ::= λ o, o ++ sent |> |> ∧ NoDup sent ∧
    (∀ p, p ∈ sent ↔ ∃ k t, l !! k = Some t ∧ shard_msg resolver (Z.of_nat k) t p) ∧
    (∀ k t, l !! k = Some t → t ≠ [] → ∃ p, p ∈ sent ∧ shard_msg resolver (Z.of_nat k) t p).
Proof.
  intros Hown (c & E & ->)%st_zoom_ok.
  destruct (SendWrappedTxs2Shards_ok _ _ _ _ Hown E) as (sent & -> & H). exists sent.
  split; [by destruct s | done].
Qed.

Lemma send_again_ok txs (s s' : ShardState) : brokerCLPATxSendAgain resolver txs s = (Ok tt, s') →
  ∃ tail, s' = s <| conn ::= λ c, c <| outbox ::= λ o, o ++ tail |> |> ∧
    ((txs = [] ∧ tail = []) ∨
     ∃ spv w, txs ≠ [] ∧ tail = [(spv, w)] ∧ GetSupervisor resolver = Ok spv ∧
       WrapMsg KBrokerCLPATxSendAgain (mkBrokerCLPATxSendAgainMsg txs) = Ok w).
Proof.
  unfold brokerCLPATxSendAgain. case_decide as Hl.
  - intros [= <-]. exists []. split; [destruct s as [? ? ? []]; cbn; by rewrite app_nil_r|].
    left. split; [by apply nil_length_inv|done].
  - intros (w & spv & Hw & Hs & ->)%send_supervisor_ok. exists [(spv, w)]. split; [done|].
    right. exists spv, w. split_and!; try done. by intros ->.
Qed.

Lemma relay_route_no_skip (c : Chain) txs loc tx : MapKeysLaws MK →
  GetAccountLocationsInTxs txs c = Ok loc → tx ∈ txs → relay_route lp loc tx ≠ Skip.
Proof.
  intros _ Hl Hin. destruct (located _ _ _ _ Hl Hin) as [[l1 H1] [l2 H2]].
  unfold relay_route. repeat case_decide; rewrite ?H1, ?H2; by case_decide.
Qed.

Lemma broker_route_no_skip loc tx : broker_route lp loc tx ≠ Skip.
Proof. unfold broker_route, dest_route. by repeat case_decide. Qed.

(** C17: Packing under dynamic sharding loses and duplicates nothing: when it
    succeeds, the transactions taken off the front of the pool's queue are, as a
    multiset, the ones packed, the ones sent to the supervisor and the ones sent
    to other shards; each went where the locations of its accounts say (a packed
    one belongs to this shard), exactly one message per shard with something to
    receive was sent to that shard's leader with all of it, and chain and
    migration metadata are untouched. *)
Theorem packValidTxs_conserves size packed (s s' : ShardState) : MapKeysLaws MK →
  own_leaders resolver → splits (pf (txPool s)) →
  packValidTxs cfg lp resolver size s = (Ok packed, s') →
  let rt := if decide (ConsensusType (cn_Sys cfg) = CLPARelayConsensus) then relay_route lp
            else broker_route lp in
  ∃ acc fetched, so_here acc = packed ∧ chain s' = chain s ∧ amm s' = amm s ∧
    queue (txPool s) = fetched ++ queue (txPool s') ∧ so_all acc ≡ₚ fetched ∧
    well_sorted (routed rt (chain s)) acc ∧ delivered acc (outbox (conn s)) (outbox (conn s')).
Proof.
  intros MKL Hown Hs. unfold packValidTxs. cbn zeta. case_decide as Hc.
  - unfold packValidTxsInRelay. intros (acc & s1 & E & H)%st_bind_ok.
    apply pack_sorted_ok in E as (q & fetched & -> & Hq & Hall & Hw); [|done|].
    2: { intros. by eapply relay_route_no_skip. }
    apply st_bind_ok in H as ([] & s2 & E2%st_wrap_ok & H).
    apply send_shards_ok in E2 as (sent & -> & Hnd & H1 & H2); [|done]. injection H as <- <-.
    exists acc, fetched. split_and!; try done. exists sent, []. split_and!; try done.
    + cbn. by rewrite app_nil_r.
    + left. split; [|done]. destruct Hw as (_ & Hsup & _). destruct (so_sup acc) as [|tx l]; [done|].
      apply Forall_cons in Hsup as [(txs & loc & _ & _ & Hr) _]. exfalso. revert Hr.
      unfold relay_route. clear. repeat case_match; done.
  - unfold packValidTxsInBroker. intros (acc & s1 & E & H)%st_bind_ok.
    apply pack_sorted_ok in E as (q & fetched & -> & Hq & Hall & Hw); [|done|].
    2: { intros. apply broker_route_no_skip. }
    apply st_bind_ok in H as ([] & s2 & E2%st_wrap_ok & H).
    apply send_shards_ok in E2 as (sent & -> & Hnd & H1 & H2); [|done].
    apply st_bind_ok in H as ([] & s3 & E3%st_wrap_ok & H).
    apply send_again_ok in E3 as (tail & -> & Ht). injection H as <- <-.
    exists acc, fetched. split_and!; try done. exists sent, tail. split_and!; try done.
    cbn. by rewrite app_assoc.
Qed.

Lemma migrate_sorted_ok rt acc (s s' : ShardState) : splits (pf (txPool s)) →
  (∀ tx, rt (CurModifiedMap (amm s)) tx ≠ Skip) →
  migrate_sorted cfg rt s = (Ok acc, s') →
  ∃ taken rest, queue (txPool s) = taken ++ rest ∧
    s' = s <| txPool ::= λ t, t <| queue := rest ++ so_here acc |> |> ∧
    PackTxs migratedTxNum (txPool s) = (Ok taken, (txPool s) <| queue := rest |>) ∧
    so_all acc ≡ₚ taken ∧ well_sorted (λ ro tx, rt (CurModifiedMap (amm s)) tx = ro) acc.
Proof.
  intros Hs Hrt. unfold migrate_sorted. intros (taken & s1 & E1%st_wrap_ok & E)%st_bind_ok.
  apply st_zoom_ok in E1 as (t & Ep & ->).
  destruct (PackTxs_cases migratedTxNum (txPool s) Hs) as [(packed & q & Ep' & Hq)|(x & Ep' & Hx)].
  2: { rewrite Ep' in Ep. injection Ep as Ex _. by rewrite Ex in Hx. }
  pose proof Ep as Ep0. rewrite Ep' in Ep. injection Ep as <- <-.
  apply st_bind_ok in E as (init & s1 & [Em ->]%st_lift_ok & E).
  unfold make in Em. case_decide; [done|]. injection Em as <-.
  apply st_bind_ok in E as (s1 & s2 & [= <- <-] & E).
  apply st_bind_ok in E as (acc' & s2 & [Ea ->]%st_lift_ok & E). cbn in Ea.
  apply st_bind_ok in E as ([] & s2 & Et%st_wrap_ok & E).
  apply st_zoom_ok in Et as (t & [= <-] & ->). injection E as -> <-.
  exists packed, q. split_and!; [done | by destruct s as [? [] ? ?] | done | |].
  - apply sort_perm in Ea; [|done]. by rewrite so_all_empty in Ea.
  - eapply sort_well_sorted; [apply empty_well_sorted | exact Ea | done].
Qed.

(** C18: Moving the queued transactions at the start of an epoch loses and
    duplicates nothing: what it takes out of the pool (for a pool limited by
    number, everything up to 2^28 transactions) is, as a multiset, what it puts
    back at the end of the queue, what it sends to the other shards' leaders, one
    message each, and what it sends to the supervisor; each transaction goes
    where the epoch's modified map says. *)
Theorem migrateTxs_conserves (s s' : ShardState) :
  own_leaders resolver → splits (pf (txPool s)) →
  migrateTxs cfg lp resolver s = (Ok tt, s') →
  let rt := if decide (ConsensusType (cn_Sys cfg) = CLPARelayConsensus) then migrate_relay_route
            else migrate_broker_route lp in
  ∃ acc taken rest, PackTxs migratedTxNum (txPool s) = (Ok taken, (txPool s) <| queue := rest |>) ∧
    queue (txPool s) = taken ++ rest ∧ queue (txPool s') = rest ++ so_here acc ∧
    chain s' = chain s ∧ amm s' = amm s ∧ so_all acc ≡ₚ taken ∧
    well_sorted (λ ro tx, rt (CurModifiedMap (amm s)) tx = ro) acc ∧
    delivered acc (outbox (conn s)) (outbox (conn s')).
Proof.
  intros Hown Hs. unfold migrateTxs. cbn zeta. case_decide as Hc.
  - unfold migrateTxsInRelay. intros (acc & s1 & E & E2%st_wrap_ok)%st_bind_ok.
    apply migrate_sorted_ok in E as (taken & rest & Hq & -> & Hp & Hall & Hw); [|done|].
    2: { intros tx. unfold migrate_relay_route. by repeat case_match. }
    apply send_shards_ok in E2 as (sent & -> & Hnd & H1 & H2); [|done].
    exists acc, taken, rest. split_and!; try done. exists sent, []. split_and!; try done.
    + cbn. by rewrite app_nil_r.
    + left. split; [|done]. destruct Hw as (_ & Hsup & _). destruct (so_sup acc) as [|tx l]; [done|].
      apply Forall_cons in Hsup as [Hr _]. exfalso. revert Hr. unfold migrate_relay_route. by repeat case_match.
  - unfold migrateTxsInBroker. intros (acc & s1 & E & H)%st_bind_ok.
    apply migrate_sorted_ok in E as (taken & rest & Hq & -> & Hp & Hall & Hw); [|done|].
    2: { intros tx. unfold migrate_broker_route, dest_route. by repeat case_decide. }
    apply st_bind_ok in H as ([] & s2 & E2%st_wrap_ok & E3%st_wrap_ok).
    apply send_shards_ok in E2 as (sent & -> & Hnd & H1 & H2); [|done].
    apply send_again_ok in E3 as (tail & -> & Ht).
    exists acc, taken, rest. split_and!; try done. exists sent, tail. split_and!; try done.
    cbn. by rewrite app_assoc.
Qed.

(** ** The account states that leave a shard *)

(** Account [p.1], in state [p.2], moves from this shard to shard [k]. *)
Definition leaving (am : AccMigrateMetadata) (k : nat) (p : Address * State) : Prop :=
  S_ShardLocation p.2 = wrap_u64 (ShardID lp) ∧ default 0 (CurModifiedMap am !! p.1) = Z.of_nat k.
#[local] Instance leaving_dec am k p : Decision (leaving am k p).
Proof. unfold leaving. apply _. Defined.

Definition leave_one am k (m : gmap Address State) (p : Address * State) : gmap Address State :=
  if decide (leaving am k p) then <[p.1 := p.2]> m else m.

Lemma leave_one_no am k m p : ¬ leaving am k p → leave_one am k m p = m.
Proof. intros H. unfold leave_one. by rewrite decide_False. Qed.
Lemma leave_one_yes am k m p : leaving am k p → leave_one am k m p = <[p.1 := p.2]> m.
Proof. intros H. unfold leave_one. by rewrite decide_True. Qed.

Lemma migrate_out_fold am l msgs out : rfold (migrate_out lp am) msgs l = Ok out →
  length out = length msgs ∧
  ∀ k m, msgs !! k = Some m → out !! k = Some (mkAccountMigrationMsg (am_SrcShard m) (am_DestShard m)
    (am_Epoch m) (fold_left (leave_one am k) l (am_AccountStates m))).
Proof.
  revert msgs; induction l as [|[a st] l IH]; intros msgs; cbn [rfold].
  { intros [= <-]. split; [done|]. by intros k [] Hm. }
  intros (m1 & E & H)%rbind_ok. apply IH in H as [Hl Hk]. unfold migrate_out in E.
  destruct (decide (S_ShardLocation st ≠ wrap_u64 (ShardID lp))) as [Hs|Hs].
  - injection E as <-. split; [done|]. intros k m Hm. rewrite (Hk k m Hm). cbn [fold_left].
    by rewrite leave_one_no by (unfold leaving; cbn; tauto).
  - apply dec_stable in Hs. apply idx_upd_inv in E as (Hi & m0 & Hm0 & ->). rewrite length_insert in Hl.
    split; [done|]. intros k m Hm. cbn [fold_left].
    destruct (decide (default 0 (CurModifiedMap am !! a) = Z.of_nat k)) as [Hd|Hd].
    + rewrite leave_one_yes by done. rewrite Hd, Nat2Z.id in Hm0, Hk. simplify_eq.
      erewrite Hk; [|apply list_lookup_insert_eq; by apply lookup_lt_Some in Hm0]. done.
    + rewrite leave_one_no by (unfold leaving; cbn; tauto). apply Hk. rewrite list_lookup_insert_ne; [done|]. lia.
Qed.

Lemma leave_fold_lookup am k l m0 a st : NoDup l.*1 → (∀ b, b ∈ l.*1 → m0 !! b = None) →
  fold_left (leave_one am k) l m0 !! a = Some st ↔
    m0 !! a = Some st ∨ ((a, st) ∈ l ∧ leaving am k (a, st)).
Proof.
  revert m0; induction l as [|[b sb] l IH]; intros m0; cbn [fold_left fmap list_fmap].
  { intros _ _. split; [by left|]. intros [?|[H _]]; [done|]. by apply not_elem_of_nil in H. }
  intros [Hb Hnd]%NoDup_cons Hm. cbn in Hb, Hm. rewrite IH; [|done|].
  - rewrite elem_of_cons. unfold leave_one. case_decide as Hl.
    + rewrite lookup_insert_Some. cbn. split.
      * intros [[[<- <-]|[Hne H]]|[H1 H2]]; [by right; split; [left|]|by left|]. right. split; [by right|done].
      * intros [H|[[[= <- <-]|H1] H2]]; [|by left; left|by right].
        left. right. split; [|done]. intros <-. rewrite Hm in H; [done|by left].
    + split; [intros [H|[H1 H2]]; [by left|by right; split; [right|]]|].
      intros [H|[[[= <- <-]|H1] H2]]; [by left|done|by right].
  - intros c Hc. unfold leave_one. case_decide; [|apply Hm; by right].
    cbn. rewrite lookup_insert_ne; [apply Hm; by right|]. by intros ->.
Qed.

Lemma wrap_migrations_spec i l m m' : own_leaders resolver → (∀ s, i ≤ s → m !! mkNodeInfo 0 s = None) →
  wrap_migrations resolver i l m = Ok m' →
  ∀ n w, m' !! n = Some w ↔ m !! n = Some w ∨ ∃ k atMsg, l !! k = Some atMsg ∧
    GetLeader (i + Z.of_nat k) resolver = Ok n ∧ WrapMsg KAccountMigration atMsg = Ok w.
Proof.
  intros Hown. revert i m; induction l as [|a l IH]; intros i m Hm; cbn [wrap_migrations].
  { intros [= <-] n w. split; [by left|]. intros [?|(k & ? & ? & _)]; done. }
  intros (ld & El%wrap_err_ok & H)%rbind_ok n w. apply rbind_ok in H as (w0 & Ew%wrap_err_ok & H).
  assert (ld = mkNodeInfo 0 i) as ->.
  { apply Hown. unfold GetLeader in El. by case_match; simplify_eq. }
  rewrite (IH (i + 1) (<[mkNodeInfo 0 i := w0]> m)); [|intros s Hs|done].
  2: { rewrite lookup_insert_ne; [apply Hm; lia|]. intros [= ->]. lia. }
  rewrite lookup_insert_Some. split.
  - intros [[[<- <-]|[_ ?]]|(k & b & Hk & Hs)]; [right|by left|right].
    + exists 0%nat, a. by rewrite Z.add_0_r.
    + exists (S k), b. by replace (i + Z.of_nat (S k)) with (i + 1 + Z.of_nat k) by lia.
  - intros [Hn|([|k] & b & Hk & Hs1 & Hs2)].
    + left. right. split; [|done]. intros <-. by rewrite Hm in Hn by lia.
    + cbn in Hk. rewrite Z.add_0_r in Hs1. left. left. injection Hk as <-. rewrite Hs1 in El. rewrite Hs2 in Ew. injection El as <-. by injection Ew as <-.
    + right. exists k, b. by replace (i + 1 + Z.of_nat k) with (i + Z.of_nat (S k)) by lia.
Qed.

Lemma NoDup_zip_fst {A B} (l : list A) (k : list B) : NoDup l → NoDup (zip l k).*1.
Proof.
  revert k; induction l as [|x l IH]; intros [|y k] Hnd; cbn; try constructor; apply NoDup_cons in Hnd as [Hx Hnd].
  - intros Hin. apply Hx. apply list_elem_of_fmap in Hin as ([a b] & -> & Hin). by apply elem_of_zip_l in Hin.
  - by apply IH.
Qed.

(** C19: The account states a shard hands over when an epoch starts: the leader
    of every shard k gets one message, for this epoch and from this shard, that
    holds exactly the accounts of the modified map that are located in this
    shard and move to k, each with the state this shard's chain has for it.
    Chain, pool and metadata are untouched. *)
Theorem MigrateAccounts_spec (s s' : ShardState) : MapKeysLaws MK → own_leaders resolver →
  MigrateAccounts cfg lp resolver s = (Ok tt, s') →
  ∃ states msgs sent, GetAccountStates (maps_Keys (CurModifiedMap (amm s))) (chain s) = Ok states ∧
    length msgs = Z.to_nat (ShardNum (cn_Sys cfg)) ∧
    (∀ k m, msgs !! k = Some m → am_SrcShard m = ShardID lp ∧ am_DestShard m = Z.of_nat k ∧
      am_Epoch m = Epoch (amm s) ∧
      ∀ a st, am_AccountStates m !! a = Some st ↔
        (a, st) ∈ zip (maps_Keys (CurModifiedMap (amm s))) states ∧ leaving (amm s) k (a, st)) ∧
    s' = s <| conn ::= λ c, c <| outbox ::= λ o, o ++ sent |> |> ∧ NoDup sent ∧
    (∀ p, p ∈ sent ↔ ∃ k m, msgs !! k = Some m ∧
       GetLeader (Z.of_nat k) resolver = Ok p.1 ∧ WrapMsg KAccountMigration m = Ok p.2).
Proof.
  intros MKL Hown. unfold MigrateAccounts. intros (states & s1 & Es%st_wrap_ok & E)%st_bind_ok.
  injection Es as Es <-. apply st_bind_ok in E as (init & s1 & [Ei ->]%st_lift_ok & E).
  apply st_bind_ok in E as (msgs & s1 & [Em ->]%st_lift_ok & E).
  apply st_bind_ok in E as (m & s1 & [Ew ->]%st_lift_ok & E).
  apply st_zoom_ok in E as (c & [= <-] & ->).
  unfold init_msgs, make in Ei. case_decide; [done|]. injection Ei as <-.
  apply migrate_out_fold in Em as [Hlen Hk]. rewrite length_imap, length_replicate in Hlen.
  exists states, msgs, (map_to_list m). split_and!; [done | done | | | apply NoDup_map_to_list |].
  - intros k mk Hmk. assert (k < Z.to_nat (ShardNum (cn_Sys cfg)))%nat as Hlt.
    { rewrite <- Hlen. by apply lookup_lt_Some in Hmk. }
    erewrite Hk in Hmk; [|rewrite list_lookup_imap, lookup_replicate_2 by done; done].
    injection Hmk as <-. cbn. split_and!; [done..|]. intros a st. rewrite leave_fold_lookup.
    + rewrite lookup_empty. naive_solver.
    + apply NoDup_zip_fst. rewrite maps_Keys_perm. apply NoDup_fst_map_to_list.
    + intros b _. apply lookup_empty.
  - rewrite MSend_outbox. by destruct s.
  - intros [n w]. rewrite elem_of_map_to_list. rewrite (wrap_migrations_spec 0 msgs ∅ m); [|done| |done].
    + rewrite lookup_empty. setoid_rewrite Z.add_0_l. naive_solver.
    + intros. apply lookup_empty.
Qed.
End loop_facts.

(** ** What the operations leave alone

    Every operation but the committing of a block keeps the chain, and none
    touches the buffer of received messages. *)

Section frame.
  Context {BL : BitSetLib} {RT : RlpTx} {RH : RlpHeader} {GB : GobBlock}.
  Context {GU : GobU64} {GS : GobState} {MK : MapKeys} {RS : RangeShards} {GM : GobMsg}.
  Context {SL : StateDBLib} {EV : EVMLib} {BO : BoltLib} {TL : TrieLib}.
  Context (Q : Chain → list WrappedMsg → Prop).

Definition framed (s : ShardState) : Prop := Q (chain s) (buffer (conn s)).

Lemma pres_on_pool {A} (m : M TxPool A) : preserves framed (on_pool m).
Proof. by apply pres_zoom. Qed.
Lemma pres_on_amm {A} (m : M AccMigrateMetadata A) : preserves framed (on_amm m).
Proof. by apply pres_zoom. Qed.
Lemma pres_reads {A} (h : ShardState → result A) : preserves framed (reads h).
Proof. by intros s r s' Hs [= _ <-]. Qed.
Lemma pres_on_conn {A} (m : M Conn A) :
  (∀ c r c', m c = (r, c') → buffer c' = buffer c) → preserves framed (on_conn m).
Proof. intros Hm. apply pres_zoom. intros s r c Hs E. unfold framed. cbn. by rewrite (Hm _ _ _ E). Qed.

Lemma pres_send dest w : preserves framed (send dest w).
Proof. by apply pres_on_conn; intros c r c' [= _ <-]. Qed.
Lemma pres_msend m : preserves framed (on_conn (st_modify (MSendDifferentMessages m))).
Proof. apply pres_on_conn; intros c r c' [= _ <-]. by rewrite MSend_outbox. Qed.
Lemma pres_group l w : preserves framed (on_conn (st_modify (GroupBroadcastMessage l w))).
Proof. apply pres_on_conn; intros c r c' [= _ <-]. by rewrite GroupBroadcast_outbox. Qed.
Lemma pres_send_shards txs r : preserves framed (on_conn (SendWrappedTxs2Shards txs r)).
Proof.
  apply pres_on_conn. intros c x c'. unfold SendWrappedTxs2Shards.
  case_match; intros [= _ <-]; try done. by rewrite MSend_outbox.
Qed.
End frame.

#[export] Hint Resolve pres_on_pool pres_on_amm pres_reads pres_send pres_msend pres_group pres_send_shards : pres.

Section frame_ops.
  Context {BL : BitSetLib} {RT : RlpTx} {RH : RlpHeader} {GB : GobBlock}.
  Context {GU : GobU64} {GS : GobState} {MK : MapKeys} {RS : RangeShards} {GM : GobMsg}.
  Context {SL : StateDBLib} {EV : EVMLib} {BO : BoltLib} {TL : TrieLib}.
  Context (Q : Chain → list WrappedMsg → Prop).
  Context (cfg : ConsensusNodeCfg) (lp : LocalParams) (resolver : TopoGetter) (tbo : TxBlockOp).
  Abbreviation framed := (framed Q).

Lemma pres_send_supervisor msg k (m : msg_of k) : preserves framed (send_supervisor resolver msg k m).
Proof. unfold send_supervisor. solve_pres. Qed.
#[local] Hint Resolve pres_send_supervisor : pres.

Lemma pres_send_again txs : preserves framed (brokerCLPATxSendAgain resolver txs).
Proof. unfold brokerCLPATxSendAgain. solve_pres. Qed.
#[local] Hint Resolve pres_send_again : pres.

Lemma pres_fetch size : preserves framed (fetchTxsAndAccountStates size).
Proof. unfold fetchTxsAndAccountStates. solve_pres. Qed.
#[local] Hint Resolve pres_fetch : pres.

Lemma pres_pack_sorted rt size : preserves framed (pack_sorted cfg rt size).
Proof.
  unfold pack_sorted. apply (pres_at framed (λ s, _)). intros s. solve_pres.
  unfold pack_pass. solve_pres.
Qed.
#[local] Hint Resolve pres_pack_sorted : pres.

Lemma pres_migrate_sorted rt : preserves framed (migrate_sorted cfg rt).
Proof. unfold migrate_sorted. solve_pres. Qed.
#[local] Hint Resolve pres_migrate_sorted : pres.

Lemma pres_MigrateAccounts : preserves framed (MigrateAccounts cfg lp resolver).
Proof. unfold MigrateAccounts. apply (pres_at framed (λ s, _)). intros s. solve_pres. Qed.
#[local] Hint Resolve pres_MigrateAccounts : pres.

Lemma pres_BuildMigrationProposal now : preserves framed (BuildMigrationProposal cfg lp now).
Proof.
  unfold BuildMigrationProposal. intros s r s' Hs. destruct (decide _) as [|_]; [by intros [= _ <-]|].
  revert s r s' Hs. change (preserves framed
    (let! p := st_wrap "GetMigratedAddrStates failed" (on_amm GetMigratedAddrStates) in
     let! b := st_wrap "GenerateMigrationBlock failed" (reads (λ s,
          GenerateBlock now (WalletAddr lp) MigrationBlockType emptyBody (mkMigrationOpt p.1 p.2) (chain s))) in
     st_ret (Some (WrapProposal b)))). solve_pres.
Qed.
#[local] Hint Resolve pres_BuildMigrationProposal : pres.

Lemma pres_Static_BuildProposal now : preserves framed (Static_BuildProposal cfg lp tbo now).
Proof. unfold Static_BuildProposal. solve_pres. Qed.

Lemma pres_Dynamic_BuildProposal now : preserves framed (Dynamic_BuildProposal cfg lp resolver tbo now).
Proof.
  unfold Dynamic_BuildProposal, buildPartitionProposal, buildBlockProposal, packValidTxs, packValidTxsInRelay,
    packValidTxsInBroker, migrateTxs, migrateTxsInRelay, migrateTxsInBroker. solve_pres.
Qed.

Lemma pres_Static_Handle msg : preserves framed (Static_HandleMsgOutsideShard msg).
Proof. unfold Static_HandleMsgOutsideShard, receive_txs. solve_pres. Qed.

Lemma pres_CLPA_Handle msg : preserves framed (CLPA_HandleMsgOutsideShard msg).
Proof. unfold CLPA_HandleMsgOutsideShard, receive_txs. solve_pres. Qed.

Lemma pres_sendRelayedTxs b r1 : preserves framed (sendRelayedTxs cfg resolver b r1).
Proof. unfold sendRelayedTxs. solve_pres. Qed.
#[local] Hint Resolve pres_sendRelayedTxs : pres.

(** A committed block is added to the chain, and then the chain is left alone. *)
Lemma pres_deliver_relay now b : preserves framed
  (let '(innerTxs, r1Txs, r2Txs) := Relay_splitTxs (TxList (b_Body b)) in
    st_wrap "deliverBlockInfo2Supervisor failed"
      (Relay_deliverBlockInfo2Supervisor resolver now innerTxs r1Txs r2Txs b) ;;!
    st_wrap "sendRelayedTxs failed" (sendRelayedTxs cfg resolver b r1Txs)).
Proof. destruct (Relay_splitTxs _) as [[? ?] ?]. unfold Relay_deliverBlockInfo2Supervisor. solve_pres. Qed.

Lemma pres_deliver_broker now b : preserves framed
  (let '(innerTxs, b1Txs, b2Txs, r1Txs, r2Txs) := Broker_splitTxs (TxList (b_Body b)) in
    st_wrap "deliverBlockInfo2Supervisor failed"
      (Broker_deliverBlockInfo2Supervisor resolver now innerTxs b1Txs b2Txs r1Txs r2Txs b) ;;!
    if decide (0 < length r1Txs)%nat then st_wrap "sendRelayedTxs failed" (sendRelayedTxs cfg resolver b r1Txs)
    else st_ret tt).
Proof.
  destruct (Broker_splitTxs _) as [[[[? ?] ?] ?] ?]. unfold Broker_deliverBlockInfo2Supervisor. solve_pres.
Qed.
End frame_ops.

(** Block [b] was added, and perhaps the epoch moved with it. *)
Definition block_added {BL : BitSetLib} {RT : RlpTx} {RH : RlpHeader} {GB : GobBlock} {GU : GobU64}
    {MK : MapKeys} {SL : StateDBLib} {EV : EVMLib} {BO : BoltLib} {TL : TrieLib}
    (b : Block) (c c' : Chain) : Prop :=
  c' = (AddBlock b c).2 ∨ ∃ e, c' = UpdateEpoch e (AddBlock b c).2.

Section commit_frame.
  Context {BL : BitSetLib} {RT : RlpTx} {RH : RlpHeader} {GB : GobBlock}.
  Context {GU : GobU64} {GS : GobState} {MK : MapKeys} {RS : RangeShards} {GM : GobMsg}.
  Context {SL : StateDBLib} {EV : EVMLib} {BO : BoltLib} {TL : TrieLib}.
  Context (cfg : ConsensusNodeCfg) (lp : LocalParams) (resolver : TopoGetter) (tbo : TxBlockOp).

Lemma after_add msg b (k : M ShardState unit) s r s' :
  (∀ Q, preserves (framed Q) k) →
  (st_wrap msg (on_chain (AddBlock b)) ;;! k) s = (r, s') →
  chain s' = (AddBlock b (chain s)).2 ∧ buffer (conn s') = buffer (conn s).
Proof.
  intros Hk. unfold st_bind, st_wrap, on_chain, st_zoom.
  destruct (AddBlock b (chain s)) as [[[]|e|] c] eqn:E; cbn [wrap_err].
  - intros H. refine (Hk (λ c1 buf, c1 = c ∧ buf = buffer (conn s)) _ _ _ _ H). by split.
  - intros [= _ <-]. done.
  - intros [= _ <-]. done.
Qed.

Lemma BlockCommit_chain now l b s r s' : BlockCommitAndDeliver cfg resolver tbo now l b s = (r, s') →
  chain s' = (AddBlock b (chain s)).2 ∧ buffer (conn s') = buffer (conn s).
Proof.
  unfold BlockCommitAndDeliver. destruct tbo; apply after_add; intros Q; destruct l; cbn [negb];
    auto using pres_ret, pres_deliver_relay, pres_deliver_broker.
Qed.

Lemma MigrationCommit_chain b s r s' : MigrationBlockCommit b s = (r, s') →
  block_added b (chain s) (chain s') ∧ buffer (conn s') = buffer (conn s).
Proof.
  unfold MigrationBlockCommit, st_bind, st_wrap, on_chain, st_zoom, block_added.
  destruct (AddBlock b (chain s)) as [[[]|e|] c] eqn:E; cbn [wrap_err]; intros [= _ <-]; cbn [chain conn];
    (split; [|done]).
  - right. by exists (Epoch (amm s)).
  - by left.
  - by left.
Qed.

(** Committing a proposal adds its block to the chain, or changes nothing. *)
Lemma ProposalCommit_chain (dynamic : bool) now l p s r s' :
  (if dynamic then Dynamic_ProposalCommitAndDeliver cfg resolver tbo now l p
   else Static_ProposalCommitAndDeliver cfg resolver tbo now l p) s = (r, s') →
  buffer (conn s') = buffer (conn s) ∧
  (chain s' = chain s ∨ ∃ b, p ≫= P_Block = Some b ∧ block_added b (chain s) (chain s')).
Proof.
  intros H. assert (∃ r0, deref_block p = r0 ∧ (r0 = Panic ∧ s' = s ∨
    ∃ b, r0 = Ok b ∧ p ≫= P_Block = Some b)) as (r0 & Hd & Hc).
  { eexists; split; [done|]. unfold deref_block. destruct p as [[[b|]]|]; cbn.
    - right. by exists b.
    - left. split; [done|]. destruct dynamic; cbn in H; by simplify_eq.
    - left. split; [done|]. destruct dynamic; cbn in H; by simplify_eq. }
  destruct Hc as [(_ & ->)|(b & -> & Hb)]; [by split; [|left]|].
  assert (∀ x, x = (r, s') → (st_wrap "block commit failed" (BlockCommitAndDeliver cfg resolver tbo now l b) s = x ∨
     st_wrap "migration block commit failed" (MigrationBlockCommit b) s = x)
     → buffer (conn s') = buffer (conn s) ∧ block_added b (chain s) (chain s')) as Hgo.
  { intros x -> [E|E]; unfold st_wrap in E.
    - destruct (BlockCommitAndDeliver _ _ _ _ _ _ _) as [x s1] eqn:E1. injection E as _ <-.
      apply BlockCommit_chain in E1 as [-> ->]. split; [done|]. by left.
    - destruct (MigrationBlockCommit b s) as [x s1] eqn:E1. injection E as _ <-.
      apply MigrationCommit_chain in E1 as [? ->]. by split. }
  destruct (Hgo _ eq_refl) as [H1 H2].
  - destruct dynamic; unfold Dynamic_ProposalCommitAndDeliver, Static_ProposalCommitAndDeliver in H;
      rewrite Hd in H; cbn in H; [case_decide|]; auto.
  - split; [done|]. right. by exists b.
Qed.
End commit_frame.

(** ** Concrete runs: shard 0 of two with dynamic sharding *)

Module ShardOpDemo.
Export TxBlockDemo.
Definition clpa_cfg : ConsensusNodeCfg :=
  mkConsensusNodeCfg (mkSystemCfg 2 4 CLPARelayConsensus 100) bloom_cfg TxPoolNumType 0.
Definition pool (q : list Transaction) : TxPool := mkTxPool q packTxsByGivenNum TxPoolNumType.
#[export] Instance shards : RangeShards := λ m, (map_to_list m).*1.
#[export] Instance keys_laws : MapKeysLaws keys.
Proof. intros m. reflexivity. Qed.
(** Account 2, of this shard, is to move to shard 1. *)
Definition moving : AccMigrateMetadata :=
  (UpdateByRepartitionStartMsg (mkCLPARepartitionStartMsg 1 {[addr 2 := 1]})
    (NewAccMigrateMetadata (cn_Sys clpa_cfg) lp)).2.
Definition clpa0 : ShardState :=
  mkShardState genesis (pool [transfer 2 4; transfer 3 5; transfer 4 2]) moving (mkConn [] []).
Definition packing := packValidTxs clpa_cfg lp topo 10 clpa0.
Definition migration := migrateTxs clpa_cfg lp topo clpa0.
Definition handover := MigrateAccounts clpa_cfg lp topo clpa0.
End ShardOpDemo.

Module ShardOpWitness.
Import ShardOpDemo.

Lemma pack_loop_total_witness :
  (st_iter (pack_pass (relay_route lp) 10) 7 (0, mkSorted [] [] [[]; []]) clpa0).1 ≠ Ok None.
Proof.
  destruct (pack_loop_total (relay_route lp) 10 (0, mkSorted [] [] [[]; []]) clpa0 7) as [H _].
  - apply packTxsByGivenNum_splits.
  - apply (bool_decide_unpack _). vm_compute. exact I.
  - exact H.
Defined.

Lemma packValidTxs_conserves_witness : ∃ acc, so_here acc = [transfer 2 4; transfer 4 2] ∧
  so_all acc ≡ₚ [transfer 2 4; transfer 3 5; transfer 4 2] ∧
  delivered topo acc [] (outbox (conn packing.2)).
Proof.
  assert (packing.1 = Ok [transfer 2 4; transfer 4 2]) as H by (vm_compute; reflexivity).
  destruct (packValidTxs_conserves clpa_cfg lp topo 10 [transfer 2 4; transfer 4 2] clpa0 packing.2)
    as (acc & fetched & Hh & _ & _ & Hq & Hp & _ & Hd).
  - apply keys_laws.
  - apply topo_own.
  - apply packTxsByGivenNum_splits.
  - apply run_fst. exact H.
  - exists acc. split; [exact Hh|]. split; [|exact Hd].
    assert (queue (txPool packing.2) = []) as Hn by (vm_compute; reflexivity).
    rewrite Hn, app_nil_r in Hq. change (so_all acc ≡ₚ queue (txPool clpa0)). rewrite Hq. exact Hp.
Defined.

Lemma migrateTxs_conserves_witness : ∃ acc,
  queue (txPool migration.2) = [transfer 3 5; transfer 4 2] ∧ delivered topo acc [] (outbox (conn migration.2)).
Proof.
  assert (migration.1 = Ok tt) as H by (vm_compute; reflexivity).
  destruct (migrateTxs_conserves clpa_cfg lp topo clpa0 migration.2)
    as (acc & taken & rest & _ & _ & _ & _ & _ & _ & _ & Hd).
  - apply topo_own.
  - apply packTxsByGivenNum_splits.
  - apply run_fst. exact H.
  - exists acc. split; [vm_compute; reflexivity | exact Hd].
Defined.

Lemma MigrateAccounts_spec_witness : ∃ sent,
  outbox (conn handover.2) = sent ∧ NoDup sent ∧ length sent = 2%nat.
Proof.
  assert (handover.1 = Ok tt) as H by (vm_compute; reflexivity).
  destruct (MigrateAccounts_spec clpa_cfg lp topo clpa0 handover.2)
    as (states & msgs & sent & _ & _ & _ & Hc & Hnd & _).
  - apply keys_laws.
  - apply topo_own.
  - apply run_fst. exact H.
  - exists sent. assert (outbox (conn handover.2) = sent) as Ho by (rewrite Hc; reflexivity).
    split; [exact Ho|]. split; [exact Hnd|]. rewrite <- Ho. vm_compute. reflexivity.
Defined.
End ShardOpWitness.
