(* ===== verification/RelayFlow.v ===== *)
(** * Money across shards

    The composition of a static relay system: leaders of all the shards, each
    with its chain and its pool (ShardOp.v, TxBlockOp.v, Chain.v), and the
    messages between them (Network.v).  A step is a client's message, the
    arrival of a packet ([StaticOutsideOp.HandleMsgOutsideShard]), a leader packing a
    proposal ([StaticShardOp.BuildProposal]) or committing it
    ([ProposalCommitAndDeliver]); steps come in any order, packets arrive in any
    order or never, and proposals may fail or be given up.  Transactions are
    plain transfers: contract calls run in go-ethereum.  The followers of a
    shard replay its leader's blocks and are left out. *)

From S2P Require Import Prelude GoHash Account Bloom Block Config StateDB TxExecute Storage Chain.
From S2P Require Import TxPool Network Migration TxBlockOp ShardOp.
From Stdlib Require Import Lia.

Local Open Scope Z_scope.

(** ** Transactions on their way *)

(** What a transaction takes from its shard or brings to it. *)
Definition leaving_value (tx : Transaction) : Z :=
  if decide (is_relay tx ∧ tx_RelayStage tx = Relay1Tx) then Value tx else 0.
Definition coming_value (tx : Transaction) : Z :=
  if decide (is_relay tx ∧ tx_RelayStage tx = Relay2Tx) then Value tx else 0.
Definition leaving (txs : list Transaction) : Z := sumZ leaving_value txs.
Definition coming (txs : list Transaction) : Z := sumZ coming_value txs.

Section txs.
  Context (n : Z) (accs : list Address).

(** A transfer as a client sends it, between two of the accounts [accs]. *)
Definition client_tx (tx : Transaction) : Prop :=
  TxType tx = NormalTxType ∧ tx_RelayStage tx = UndeterminedRelayTx ∧ Sender tx ∈ accs ∧ Recipient tx ∈ accs.
(** The first half of a cross-shard transfer, in a block of the sender's shard. *)
Definition leaving_tx (k : Z) (tx : Transaction) : Prop :=
  TxType tx = RelayTxType ∧ tx_RelayStage tx = Relay1Tx ∧ DefaultAccountLoc (Sender tx) n = Ok k ∧
  Sender tx ∈ accs ∧ Recipient tx ∈ accs.
(** The second half, on its way to shard [k] or in it. *)
Definition coming_tx (k : Z) (tx : Transaction) : Prop :=
  TxType tx = RelayTxType ∧ tx_RelayStage tx = Relay2Tx ∧ DefaultAccountLoc (Recipient tx) n = Ok k ∧
  Recipient tx ∈ accs ∧ in_u 256 (Value tx).
(** What a leader's pool holds and what its blocks hold. *)
Definition pool_tx (k : Z) (tx : Transaction) : Prop := client_tx tx ∨ coming_tx k tx.
Definition block_tx (k : Z) (tx : Transaction) : Prop := client_tx tx ∨ leaving_tx k tx ∨ coming_tx k tx.

Lemma no_relay_values tx : ¬ is_relay tx → leaving_value tx = 0 ∧ coming_value tx = 0.
Proof using Type. intros H. unfold leaving_value, coming_value. by rewrite !decide_False by tauto. Qed.
Lemma client_values tx : client_tx tx → leaving_value tx = 0 ∧ coming_value tx = 0.
Proof using Type. intros (E & _). apply no_relay_values. unfold is_relay. by rewrite E. Qed.
Lemma leaving_values k tx : leaving_tx k tx → leaving_value tx = Value tx ∧ coming_value tx = 0.
Proof using Type.
  intros (Ht & E & _). unfold leaving_value, coming_value. rewrite decide_True by by split.
  rewrite decide_False; [done|]. intros [_ E2]. by rewrite E in E2.
Qed.
Lemma coming_values k tx : coming_tx k tx → leaving_value tx = 0 ∧ coming_value tx = Value tx.
Proof using Type.
  intros (Ht & E & _). unfold leaving_value, coming_value. rewrite (decide_True (P := _ ∧ _ = Relay2Tx)) by by split.
  rewrite decide_False; [done|]. intros [_ E2]. by rewrite E in E2.
Qed.

Lemma block_tx_native k tx : block_tx k tx → native tx.
Proof using Type. unfold native. intros [(H & _)|[(H & _)|(H & _)]]; auto. Qed.

Lemma block_nonneg k txs : Forall (block_tx k) txs → 0 ≤ coming txs.
Proof.
  intros H. apply sumZ_nonneg. eapply Forall_impl; [exact H|]. intros tx [Hc|[Hc|Hc]].
  - by destruct (client_values tx Hc) as [_ ->].
  - by destruct (leaving_values k tx Hc) as [_ ->].
  - destruct (coming_values k tx Hc) as [_ ->]. apply Hc.
Qed.
Lemma pool_nonneg k txs : Forall (pool_tx k) txs → 0 ≤ coming txs.
Proof. intros H. apply (block_nonneg k). eapply Forall_impl; [exact H|]. unfold pool_tx, block_tx. tauto. Qed.

(** ** The balances after a block *)

Section exec.
  Context {SL : StateDBLib} {SLaws : StateDBLaws SL} {EV : EVMLib}.
  Context (Hnd : NoDup accs) (k : Z) (ctx : BlockContext) (locs : gmap Address Z).
  Context (Hlocs : ∀ a l, locs !! a = Some l → DefaultAccountLoc a n = Ok l).

Abbreviation total s := (sumZ (eff s) accs).

Lemma eff_total s a : a ∈ accs → eff s a ≤ total s.
Proof using SLaws. apply sumZ_elem, Forall_forall. intros b _. apply eff_range. Qed.

Lemma default_loc_of a : is_Some (locs !! a) → DefaultAccountLoc a n = Ok k → loc_of locs a = k.
Proof using Hlocs. intros [l Hl] Hk. unfold loc_of. rewrite Hl. cbn. apply Hlocs in Hl. congruence. Qed.

(** After a covered debit the rest is still within the total. *)
Lemma debit_room s a b v : a ∈ accs → b ∈ accs → v ≤ eff s a → debit (eff s) a v b ≤ total s - v.
Proof using SLaws Hnd.
  intros Ha Hb Hv. rewrite <- (sumZ_debit (eff s) a v) by done. apply sumZ_elem; [|done].
  apply Forall_forall. intros c _. unfold debit. pose proof (eff_range s c) as Hc. unfold in_u in Hc.
  case_decide; [subst; lia|lia].
Qed.

Lemma exec_transfer tx s s1 : Sender tx ∈ accs → Recipient tx ∈ accs → total s < 2 ^ 256 →
  normalTxExecute tx s = (Ok tt, s1) →
  in_u 256 (Value tx) ∧ ∀ a, eff s1 a = transfer (eff s) (Sender tx) (Recipient tx) (Value tx) a.
Proof using SLaws Hnd.
  intros Hs Hr Hb E. destruct (normal_refused tx s) as [Hout Hfew].
  destruct (decide (in_u 256 (Value tx))) as [Hv|Hv]; [|destruct (Hout Hv) as [e He]; congruence].
  destruct (decide (eff s (Sender tx) < Value tx)) as [Hlt|Hle].
  { destruct (Hfew Hv Hlt) as (s' & He & _). congruence. }
  split; [done|]. destruct (normal_covered tx s Hv) as (s' & E' & He); [lia| |].
  - destruct (decide (Sender tx = Recipient tx)) as [|Hne]; [by left|right].
    pose proof (debit_room s (Sender tx) (Recipient tx) (Value tx) Hs Hr ltac:(lia)) as H. unfold debit in H.
    rewrite decide_False in H by done. lia.
  - rewrite E in E'. by injection E' as <-.
Qed.

Lemma exec_leaving tx s s1 : leaving_tx k tx → is_Some (locs !! Sender tx) →
  relayTxExecute locs k tx s = (Ok tt, s1) →
  in_u 256 (Value tx) ∧ ∀ a, eff s1 a = debit (eff s) (Sender tx) (Value tx) a.
Proof using SLaws Hlocs.
  intros (_ & Hst & Hk & _) Hl E.
  assert (in_u 256 (Value tx)) as Hv.
  { destruct (decide (in_u 256 (Value tx))) as [|[e He]%BigToUInt256_out]; [done|].
    unfold relayTxExecute, st_bind, st_wrap, st_lift in E. by rewrite He in E. }
  split; [done|].
  destruct (relay1_spec locs k tx s Hst Hv (default_loc_of _ Hl Hk)) as [Hfew Henough].
  destruct (decide (Value tx ≤ eff s (Sender tx))) as [Hle|Hgt].
  - destruct (Henough Hle) as (s' & E' & He). rewrite E in E'. by injection E' as <-.
  - destruct Hfew as (s' & E' & _); [lia|]. by rewrite E in E'.
Qed.

Lemma exec_coming tx s s1 : coming_tx k tx → is_Some (locs !! Recipient tx) → total s + Value tx < 2 ^ 256 →
  relayTxExecute locs k tx s = (Ok tt, s1) → ∀ a, eff s1 a = credit (eff s) (Recipient tx) (Value tx) a.
Proof using SLaws Hlocs.
  intros (_ & Hst & Hk & Hr & Hv) Hl Hb E. pose proof (eff_total s _ Hr).
  destruct (relay2_spec locs k tx s Hst Hv (default_loc_of _ Hl Hk)) as (s' & E' & He); [lia|].
  rewrite E in E'. by injection E' as <-.
Qed.

Lemma exec_one tx s s1 : block_tx k tx → is_Some (locs !! Sender tx) → is_Some (locs !! Recipient tx) →
  total s + coming_value tx < 2 ^ 256 → txExecute k ctx locs tx s = (Ok tt, s1) →
  in_u 256 (Value tx) ∧ total s1 = total s + coming_value tx - leaving_value tx.
Proof using All.
  intros Hb Hs Hr Hlt. unfold txExecute. destruct Hb as [Hb|[Hb|Hb]].
  - destruct (client_values tx Hb) as [-> Hc]. rewrite Hc in *. pose proof Hb as (-> & _). rewrite decide_True by done.
    intros E%st_wrap_ok. destruct Hb as (_ & _ & Hs1 & Hr1).
    destruct (exec_transfer tx s s1 Hs1 Hr1) as [? He]; [lia|done|]. split; [done|].
    rewrite (sumZ_ext _ _ _ (λ a _, He a)), sumZ_transfer by done. lia.
  - destruct (leaving_values k tx Hb) as [-> ->]. pose proof Hb as (-> & _). rewrite decide_False, decide_True by done.
    intros E%st_wrap_ok. destruct (exec_leaving tx s s1) as [? He]; [done..|]. split; [done|].
    destruct Hb as (_ & _ & _ & Hs1 & _). rewrite (sumZ_ext _ _ _ (λ a _, He a)), sumZ_debit by done. lia.
  - destruct (coming_values k tx Hb) as [-> Hc]. rewrite Hc in *. pose proof Hb as (-> & _).
    rewrite decide_False, decide_True by done.
    intros E%st_wrap_ok. pose proof (exec_coming tx s s1 Hb Hr Hlt E) as He. destruct Hb as (_ & _ & _ & Hr1 & Hv).
    split; [done|]. rewrite (sumZ_ext _ _ _ (λ a _, He a)), sumZ_credit by done. lia.
Qed.

Lemma exec_all txs s s1 : Forall (block_tx k) txs →
  (∀ tx, tx ∈ txs → is_Some (locs !! Sender tx) ∧ is_Some (locs !! Recipient tx)) →
  total s + coming txs < 2 ^ 256 →
  st_for (λ tx, st_wrap "execute tx err" (txExecute k ctx locs tx)) txs s = (Ok tt, s1) →
  Forall (λ tx, in_u 256 (Value tx)) txs ∧ total s1 = total s + coming txs - leaving txs.
Proof using All.
  intros Hf. revert s; induction Hf as [|tx txs Htx Hf IH]; intros s Hl Hb; cbn [st_for].
  - intros [= <-]. split; [constructor|]. cbn. lia.
  - intros ([] & s2 & E%st_wrap_ok & E2)%st_bind_ok.
    change (coming (tx :: txs)) with (coming_value tx + coming txs) in *.
    change (leaving (tx :: txs)) with (leaving_value tx + leaving txs).
    pose proof (block_nonneg k txs Hf) as Hpos.
    destruct (Hl tx) as [Hs Hr]; [by left|].
    destruct (exec_one tx s s2) as [Hv Ht]; [done..|lia|done|].
    assert (0 ≤ leaving_value tx) by (unfold leaving_value; case_decide; [apply Hv|lia]).
    destruct (IH s2) as [Hvs Ht2]; [intros; apply Hl; by right|lia|done|].
    split; [by constructor|]. lia.
Qed.
End exec.
End txs.

Section flow.
  Context {BL : BitSetLib} {RT : RlpTx} {RH : RlpHeader} {GB : GobBlock}.
  Context {GU : GobU64} {GS : GobState} {MK : MapKeys} {GM : GobMsg}.
  Context {SL : StateDBLib} {EV : EVMLib} {BO : BoltLib} {TL : TrieLib}.
  Context {SLaws : StateDBLaws SL} {TLaws : TrieLaws TL} {MKL : MapKeysLaws MK}.
  Context (accs : list Address).

(** The transactions a message brings to a shard. *)
Definition txs_of (w : WrappedMsg) : list Transaction :=
  if decide (MsgType w = ReceiveTxsMessageType) then
    match gob_decode KReceiveTxs (Payload w) with Ok rt => rt_Txs rt | _ => [] end
  else [].

(** The balance an account has in a shard, as the next block will find it. *)
Definition ledger (c : Chain) (a : Address) : Z :=
  match getVMExecutor c with Ok s => eff s a | _ => 0 end.

(** The accounts that a block leaves existing and empty. *)
Definition emptied (b : Block) (c : Chain) : list Address :=
  match getVMExecutor c with
  | Ok s => let s' := (calcStateModification c b s).2 in filter (λ a, db_Exist s' a && db_Empty s' a) accs
  | _ => []
  end.

Lemma coming_app l1 l2 : coming (l1 ++ l2) = coming l1 + coming l2.
Proof using Type. apply sumZ_app. Qed.

(** ** Building a block *)

Lemma fate_block (c : Chain) locs tx o : default_locations c →
  (∀ a l, locs !! a = Some l → DefaultAccountLoc a (c_ShardNum c) = Ok l) →
  pool_tx (c_ShardNum c) accs (shardID c) tx → relay_fate locs (shardID c) tx o →
  Forall (block_tx (c_ShardNum c) accs (shardID c)) (option_list o) ∧ coming (option_list o) = coming_value tx.
Proof using Type.
  intros Hd Hl Hp Hf. destruct Hf as [Hs|Hs H1 H2|h l Hs H1 H2 Hne Hh|l Hs H1 Hne].
  - destruct Hp as [(_ & ? & _)|Hc]; [done|]. split; [|cbn; lia]. constructor; [by right; right|constructor].
  - destruct Hp as [Hc|(_ & Hs' & _)]; [|by rewrite Hs in Hs']. split; [|cbn; lia]. constructor; [by left|constructor].
  - destruct Hp as [Hc|(_ & Hs' & _)]; [|by rewrite Hs in Hs']. destruct (client_values accs tx Hc) as [_ ->].
    assert (leaving_tx (c_ShardNum c) accs (shardID c) (tx <| RelayOpt := mkRelayTxOpt Relay1Tx h |>)) as Htx.
    { destruct Hc as (Ht & _ & Ha & Hb). split_and!; [|done|by apply Hl|done..].
      rewrite TxType_relayed by done. rewrite decide_False; [done|]. by apply tx_Hash_nonempty in Hh. }
    split; [constructor; [by right; left|constructor]|].
    change (coming_value (tx <| RelayOpt := mkRelayTxOpt Relay1Tx h |>) + 0 = 0).
    by destruct (leaving_values _ _ _ _ Htx) as [_ ->].
  - destruct Hp as [Hc|(_ & Hs' & _)]; [|by rewrite Hs in Hs']. destruct (client_values accs tx Hc) as [_ ->].
    by split; [constructor|].
Qed.

Lemma modify_block txs (c : Chain) out : default_locations c →
  Forall (pool_tx (c_ShardNum c) accs (shardID c)) txs → modifyTxRelayOpt txs c = Ok out →
  Forall (block_tx (c_ShardNum c) accs (shardID c)) out ∧ coming out = coming txs.
Proof using MKL.
  intros Hd Hp (locs & os & El & Hf & ->)%modifyTxRelayOpt_spec.
  assert (∀ a l, locs !! a = Some l → DefaultAccountLoc a (c_ShardNum c) = Ok l) as Hl.
  { intros a l. by apply default_GetAccountLocationsInTxs with txs. }
  clear El. induction Hf as [|tx o txs os Ho Hf IH]; [by split|]. inversion Hp as [|? ? Htx Htxs]; subst.
  destruct (IH Htxs) as [H1 H2]. destruct (fate_block c locs tx o Hd Hl Htx Ho) as [H3 H4].
  assert (omap id (o :: os) = option_list o ++ omap id os) as -> by (by destruct o). split.
  - by apply Forall_app.
  - rewrite coming_app, H2, H4. done.
Qed.

(** ** Adding it *)

Lemma ledger_open (c : Chain) s a : getVMExecutor c = Ok s → ledger c a = eff s a.
Proof using Type. intros E. unfold ledger. by rewrite E. Qed.

Lemma opened_none_destroyed (c : Chain) s : getVMExecutor c = Ok s → none_destroyed s.
Proof using SLaws.
  unfold getVMExecutor, NewExecutor. intros (r & _ & H%wrap_err_ok)%rbind_ok a. by eapply destructed_New.
Qed.

Lemma block_destroys_none (c : Chain) b s x s' : b_MigrationOpt b = emptyMigrationOpt →
  Forall native (TxList (b_Body b)) → none_destroyed s → calcStateModification c b s = (x, s') → none_destroyed s'.
Proof using SLaws.
  intros Hm Hnat Hs Hc. rewrite Forall_forall in Hnat.
  assert (preserves none_destroyed (calcStateModification c b)) as Hp; [|by eapply Hp].
  unfold calcStateModification. rewrite Hm. apply pres_bind; [apply pres_wrap, pres_lift|]. intros locs.
  apply pres_bind; [|intros _; apply pres_bind; [apply pres_ret|intros kvs; apply pres_ret]].
  apply pres_for. intros tx Htx. apply pres_wrap, native_destroys_none. by apply Hnat.
Qed.

(** Adding a generated block without migrations runs all its transactions; the
    balances found afterwards are those they left, but an account they emptied
    starts again. *)
Lemma AddBlock_runs now miner (c c' : Chain) b : default_locations c → b_MigrationOpt b = emptyMigrationOpt →
  Forall native (TxList (b_Body b)) →
  GenerateBlock now miner TxBlockType (b_Body b) emptyMigrationOpt c = Ok b → AddBlock b c = (Ok tt, c') →
  ∃ s s1 locs, (∀ a, ledger c a = eff s a) ∧
    (∀ a l, locs !! a = Some l → DefaultAccountLoc a (c_ShardNum c) = Ok l) ∧
    (∀ tx, tx ∈ TxList (b_Body b) → is_Some (locs !! Sender tx) ∧ is_Some (locs !! Recipient tx)) ∧
    st_for (λ tx, st_wrap "execute tx err" (txExecute (shardID c) (getBlockCtxByBlock b) locs tx))
      (TxList (b_Body b)) s = (Ok tt, s1) ∧
    (∀ a, eff s1 a ≤ ledger c' a) ∧
    sumZ (ledger c') accs = sumZ (eff s1) accs + initBalance * Z.of_nat (length (emptied b c)).
Proof using SLaws MKL.
  intros Hd Hm Hnat Eg Ea.
  destruct (AddBlock_reopens _ _ _ _ _ _ _ _ Eg Ea) as (s & ks & vs & s' & s'' & [Hs Hc] & Hs'' & Hopen).
  pose proof (block_destroys_none c b s _ s' Hm Hnat (opened_none_destroyed c s Hs) Hc) as Hnone.
  assert (∀ a, if db_Exist s' a && db_Empty s' a then eff s' a = 0 ∧ ledger c' a = initBalance
               else ledger c' a = eff s' a) as Ha.
  { intros a. rewrite (ledger_open c' s'' a Hs''). specialize (Hopen a). rewrite Hnone in Hopen. cbn [orb] in Hopen.
    pose proof (empty_spec s' a) as He. destruct (db_Empty s' a); [|rewrite andb_false_r; apply Hopen].
    destruct Hopen as [_ ->]. unfold eff. destruct (db_Exist s' a); cbn; [|done]. split; [by apply He|done]. }
  unfold emptied. rewrite Hs, Hc. cbn [snd].
  unfold calcStateModification in Hc. apply st_bind_ok in Hc as (locs & s1 & E1%st_wrap_ok & Hc).
  injection E1 as El <-. apply st_bind_ok in Hc as ([] & s1 & Ef & Hc). rewrite Hm in Hc. cbn in Hc.
  injection Hc as <- <- <-. exists s, s1, locs. split_and!.
  - intros a. by apply ledger_open.
  - intros a l. by apply default_GetAccountLocationsInTxs with (TxList (b_Body b)).
  - intros tx Htx. by apply located with (TxList (b_Body b)) c.
  - exact Ef.
  - intros a. specialize (Ha a). destruct (_ && _); [|lia]. destruct Ha as [-> ->]. done.
  - apply sumZ_reset; intros a E; specialize (Ha a); by rewrite E in Ha.
Qed.

Lemma commit_ledger now miner (c c' : Chain) b : NoDup accs → default_locations c →
  b_MigrationOpt b = emptyMigrationOpt →
  Forall (block_tx (c_ShardNum c) accs (shardID c)) (TxList (b_Body b)) →
  GenerateBlock now miner TxBlockType (b_Body b) emptyMigrationOpt c = Ok b → AddBlock b c = (Ok tt, c') →
  sumZ (ledger c) accs + coming (TxList (b_Body b)) < 2 ^ 256 →
  Forall (λ tx, in_u 256 (Value tx)) (TxList (b_Body b)) ∧
  sumZ (ledger c') accs = sumZ (ledger c) accs + coming (TxList (b_Body b)) - leaving (TxList (b_Body b)) +
    initBalance * Z.of_nat (length (emptied b c)).
Proof using All.
  intros Hnd Hd Hm Hf Eg Ea Hlt.
  destruct (AddBlock_runs now miner c c' b Hd Hm ltac:(eapply Forall_impl; [exact Hf|apply block_tx_native]) Eg Ea) as (s & s1 & locs & Hs & Hl & Hin & Ef & _ & ->).
  rewrite (sumZ_ext (eff s) (ledger c) accs) in Hlt |- * by (intros; apply Hs).
  destruct (exec_all (c_ShardNum c) accs Hnd (shardID c) (getBlockCtxByBlock b) locs Hl
    (TxList (b_Body b)) s s1 Hf Hin Hlt Ef) as [Hv ->]. done.
Qed.

(** ** What a commit sends *)

Context (cfg : ConsensusNodeCfg) (resolver : TopoGetter) (Hown : own_leaders resolver).
(** A message of transactions is decoded as it was encoded. *)
Context (Hgob : ∀ m p, gob_encode KReceiveTxs m = Ok p → gob_decode KReceiveTxs p = Ok m).

Lemma txs_of_wrapped txs w : WrapMsg KReceiveTxs (mkReceiveTxsMsg txs) = Ok w → txs_of w = txs.
Proof using Hgob.
  unfold WrapMsg, txs_of. intros (t & [= <-]%wrap_err_ok & (p & Hp%wrap_err_ok & [= <-])%rbind_ok)%rbind_ok.
  cbn. rewrite decide_True by done. by rewrite (Hgob _ _ Hp).
Qed.

Lemma wrapped_type k m w : WrapMsg k m = Ok w → getMsgType k = Ok (MsgType w).
Proof using Type.
  unfold WrapMsg. intros (t & Ht%wrap_err_ok & (p & _ & [= <-])%rbind_ok)%rbind_ok. exact Ht.
Qed.

Lemma txs_of_other k m w : WrapMsg k m = Ok w → k ≠ KReceiveTxs → txs_of w = [].
Proof using Type.
  unfold WrapMsg, txs_of. intros (t & Ht%wrap_err_ok & (p & _ & [= <-])%rbind_ok)%rbind_ok Hk.
  cbn. rewrite decide_False; [done|]. intros ->. apply Hk. by eapply getMsgType_inj.
Qed.

(** A packet on the wire: its transactions are for the shard it goes to. *)
Definition packet_ok (n : Z) (p : NodeInfo * WrappedMsg) : Prop :=
  Forall (pool_tx n accs (ni_ShardID p.1)) (txs_of p.2).
Definition wire_value (wire : list (NodeInfo * WrappedMsg)) : Z := sumZ (λ p, coming (txs_of p.2)) wire.

Lemma relay_fold_perm (locs : gmap Address Z) txs acc out :
  (∀ tx, tx ∈ txs → is_Some (locs !! Recipient tx)) →
  rfold (relay_one locs) acc txs = Ok out → concat out ≡ₚ concat acc ++ map relay2_of txs.
Proof using Type.
  revert acc; induction txs as [|tx txs IH]; intros acc Hl; cbn.
  { intros [= <-]. by rewrite app_nil_r. }
  intros (a1 & E & H)%rbind_ok. apply IH in H; [|intros; apply Hl; by right]. rewrite H.
  unfold relay_one in E. destruct (Hl tx) as [i Hi]; [by left|]. rewrite Hi in E.
  apply concat_push_at in E. rewrite E. cbn. by rewrite Permutation_middle.
Qed.

Lemma coming_relay2 n k txs : Forall (leaving_tx n accs k) txs → coming (map relay2_of txs) = leaving txs.
Proof using Type.
  induction 1 as [|tx txs Ht _ IH]; [done|]. cbn [map].
  change (coming_value (relay2_of tx) + coming (map relay2_of txs) = leaving_value tx + leaving txs).
  rewrite IH. destruct (leaving_values _ _ _ _ Ht) as [-> _]. f_equal. unfold coming_value.
  rewrite decide_True; [done|]. split; [apply Ht|done].
Qed.

(** The transactions that leave, when a filter keeps all of them. *)
Lemma leaving_filter (P : Transaction → Prop) `{∀ tx, Decision (P tx)} txs :
  Forall (λ tx, ¬ P tx → leaving_value tx = 0) txs → leaving (filter P txs) = leaving txs.
Proof using Type.
  induction 1 as [|tx txs Htx _ IH]; [done|]. rewrite filter_cons.
  change (leaving (tx :: txs)) with (leaving_value tx + leaving txs). case_decide as E.
  - change (leaving_value tx + leaving (filter P txs) = leaving_value tx + leaving txs). lia.
  - rewrite IH, Htx by done. lia.
Qed.

Lemma coming_concat ls : coming (concat ls) = sumZ coming ls.
Proof using Type. induction ls as [|l ls IH]; [done|]. cbn [concat]. rewrite coming_app, IH. done. Qed.

Lemma packets_value (rtx : list (list Transaction)) l : shard_packets resolver 0 rtx l →
  wire_value l.*2 = coming (concat rtx) ∧
  Forall (λ p, ∃ k : nat, p.1 = mkNodeInfo 0 (Z.of_nat k) ∧ MsgType p.2 = ReceiveTxsMessageType ∧
    rtx !! k = Some (txs_of p.2)) l.*2.
Proof using Hown Hgob.
  intros [Hc Hl]. rewrite <- Hc, coming_concat. clear Hc.
  induction Hl as [|[t p] l (k & Hk & Hne & Hld & Hw) _ [IH1 IH2]]; [by split|]. cbn [fst snd] in *.
  pose proof (wrapped_type _ _ _ Hw) as Hty. apply txs_of_wrapped in Hw. split.
  - rewrite !fmap_cons. change (coming (txs_of p.2) + wire_value l.*2 = coming t + sumZ coming l.*1).
    by rewrite IH1, Hw.
  - rewrite fmap_cons. constructor; [|done]. exists k. cbn [snd]. rewrite Hw. split; [|split; [by injection Hty|done]].
    unfold GetLeader in Hld. case_match eqn:E; [|done]. injection Hld as Hp. apply Hown in E. by rewrite <- Hp, E.
Qed.

(** What goes to another shard is for that shard. *)
Definition relayed_ok (n : Z) (p : NodeInfo * WrappedMsg) : Prop := MsgType p.2 = ReceiveTxsMessageType ∧
  ∃ k : nat, Z.of_nat k < ShardNum (cn_Sys cfg) ∧ p.1 = mkNodeInfo 0 (Z.of_nat k) ∧
    Forall (coming_tx n accs (Z.of_nat k)) (txs_of p.2).

Lemma sendRelayedTxs_value b r1 (s s' : ShardState) : default_locations (chain s) →
  (∀ tx, tx ∈ r1 → leaving_tx (c_ShardNum (chain s)) accs (shardID (chain s)) tx ∧
    in_u 256 (Value tx) ∧ tx ∈ TxList (b_Body b)) →
  sendRelayedTxs cfg resolver b r1 s = (Ok tt, s') →
  ∃ sent, s' = s <| conn ::= λ c, c <| outbox ::= λ o, o ++ sent |> |> ∧
    Forall (relayed_ok (c_ShardNum (chain s))) sent ∧ wire_value sent = leaving r1.
Proof using Hown Hgob MKL.
  intros Hd Hr1. unfold sendRelayedTxs. intros (locs & s1 & E1%st_wrap_ok & E)%st_bind_ok.
  injection E1 as El <-. apply st_bind_ok in E as (init & s1 & [E2 ->]%st_lift_ok & E).
  apply st_bind_ok in E as (rtx & s1 & [E3 ->]%st_lift_ok & E). apply st_wrap_ok in E.
  apply st_zoom_ok in E as (c' & Es & ->). unfold make in E2. case_decide; [done|]. injection E2 as <-.
  destruct (SendWrappedTxs2Shards_packets rtx resolver (conn s) c' Hown Es) as (l & sent & Hp & -> & Hl).
  destruct (packets_value rtx l Hl) as [Hval Hpk].
  exists sent. split_and!; [by destruct s | |].
  - rewrite Hp. destruct (rfold_buckets (λ tx, locs !! Recipient tx) relay2_of _ _ _ _ (λ acc tx _, eq_refl) E3)
      as (Hlen & Hbk & _). rewrite length_replicate in *.
    eapply Forall_impl; [exact Hpk|]. intros p (k & Hk & Hty & Hrk). split; [done|]. exists k.
    assert (k < Z.to_nat (ShardNum (cn_Sys cfg)))%nat as Hlt by (apply lookup_lt_Some in Hrk; lia).
    rewrite (Hbk k []) in Hrk by by apply lookup_replicate. injection Hrk as <-. cbn [app].
    split_and!; [lia|done|]. apply Forall_forall. intros tx2 (tx & Hin & Htx)%list_elem_of_omap. case_decide as Hlk; [|done].
    injection Htx as <-. destruct (Hr1 tx Hin) as ((Ht & _ & _ & _ & Ha) & Hv & Hin').
    unfold coming_tx. split_and!; try done.
    by apply default_GetAccountLocationsInTxs with (txs := TxList (b_Body b)) (locs := locs).
  - unfold wire_value in *. rewrite (sumZ_permutation _ _ _ Hp), Hval.
    assert (concat rtx ≡ₚ map relay2_of r1) as Hperm.
    { rewrite (relay_fold_perm locs r1 (replicate (Z.to_nat (ShardNum (cn_Sys cfg))) []) rtx); [| |done].
      - by rewrite (proj2 (concat_nil_Forall _)) by by apply Forall_replicate.
      - intros tx Hin. by eapply located, Hr1. }
    unfold coming. rewrite (sumZ_permutation _ _ _ Hperm). fold (coming (map relay2_of r1)).
    apply (coming_relay2 (c_ShardNum (chain s)) (shardID (chain s))), Forall_forall. intros tx Hin. by apply Hr1.
Qed.

(** What committing a block does to the shard and puts on the wire. *)
Lemma relay_commit_chain now b (s s' : ShardState) :
  Relay_BlockCommitAndDeliver cfg resolver now true b s = (Ok tt, s') →
  AddBlock b (chain s) = (Ok tt, chain s') ∧ txPool s' = txPool s.
Proof using Type.
  unfold Relay_BlockCommitAndDeliver. intros ([] & s1 & E1%st_wrap_ok & E)%st_bind_ok.
  apply st_zoom_ok in E1 as (c1 & Ea & ->). cbn [negb] in E. rewrite Relay_splitTxs_filter in E.
  apply st_bind_ok in E as ([] & s2 & E2%st_wrap_ok & E3%st_wrap_ok).
  apply st_bind_ok in E2 as (s0 & s1 & [= <- <-] & (w & spv & _ & _ & ->)%send_supervisor_ok).
  unfold sendRelayedTxs in E3. apply st_bind_ok in E3 as (locs & s1 & E3%st_wrap_ok & E). injection E3 as _ <-.
  apply st_bind_ok in E as (init & s1 & [_ ->]%st_lift_ok & E).
  apply st_bind_ok in E as (rtx & s1 & [_ ->]%st_lift_ok & E%st_wrap_ok).
  by apply st_zoom_ok in E as (c' & _ & ->).
Qed.

Lemma relay_commit_sends now b (s s' : ShardState) : default_locations (chain s) →
  b_MigrationOpt b = emptyMigrationOpt →
  Forall (block_tx (c_ShardNum (chain s)) accs (shardID (chain s))) (TxList (b_Body b)) →
  Forall (λ tx, in_u 256 (Value tx)) (TxList (b_Body b)) →
  Relay_BlockCommitAndDeliver cfg resolver now true b s = (Ok tt, s') →
  ∃ sent, outbox (conn s') = outbox (conn s) ++ sent ∧
    Forall (packet_ok (c_ShardNum (chain s))) sent ∧ wire_value sent = leaving (TxList (b_Body b)).
Proof using All.
  intros Hd Hm Hb Hv. unfold Relay_BlockCommitAndDeliver. intros ([] & s1 & E1%st_wrap_ok & E)%st_bind_ok.
  apply st_zoom_ok in E1 as (c1 & Ea & ->). cbn [negb] in E. rewrite Relay_splitTxs_filter in E.
  apply st_bind_ok in E as ([] & s2 & E2%st_wrap_ok & E3%st_wrap_ok).
  apply st_bind_ok in E2 as (s0 & s1 & [= <- <-] & E2).
  apply send_supervisor_ok in E2 as (w & spv & Hw & Hspv & ->).
  destruct (AddBlock_head _ _ _ Ea) as (_ & Hsid & _ & Hn).
  apply sendRelayedTxs_value in E3 as (sent & -> & Hp & Hval); cbn [chain upd] in *.
  2: by eapply AddBlock_default.
  2:{ rewrite Hn, Hsid. intros tx [Hst Hin]%list_elem_of_filter. rewrite Forall_forall in Hb, Hv. split_and!; [|by apply Hv|done].
    destruct (Hb tx Hin) as [(_ & Hx & _)|[Htx|(_ & Hx & _)]]; [by rewrite Hst in Hx|done|by rewrite Hst in Hx]. }
  exists ((spv, w) :: sent). split_and!.
  - cbn. by rewrite <- app_assoc.
  - rewrite Hn in Hp. constructor; [unfold packet_ok; cbn [snd]; by rewrite (txs_of_other _ _ _ Hw)|].
    eapply Forall_impl; [exact Hp|]. intros p (_ & k & _ & Hk & H). unfold packet_ok. rewrite Hk.
    eapply Forall_impl; [exact H|]. by right.
  - change (coming (txs_of w) + wire_value sent = leaving (TxList (b_Body b))).
    rewrite (txs_of_other _ _ _ Hw), Hval by done. apply leaving_filter. eapply Forall_impl; [exact Hb|].
    intros tx [Hc|[(_ & E & _)|Hc]] Hst; [by apply (client_values accs)|by destruct Hst|by apply (coming_values _ _ _ _ Hc)].
Qed.

(** ** The system *)

Context (lps : nat → LocalParams).

Record Leader := mkLeader { l_shard : ShardState; l_proposal : option Proposal }.
Record System := mkSystem { sys_leaders : list Leader; sys_wire : list (NodeInfo * WrappedMsg) }.

Definition proposed (r : result (option Proposal)) : option Proposal := match r with Ok p => p | _ => None end.
Definition proposal_txs (p : option Proposal) : list Transaction :=
  match deref_block p with Ok b => TxList (b_Body b) | _ => [] end.
(** What was taken out of a pool. *)
Definition taken (t t' : TxPool) : list Transaction := take (length (queue t) - length (queue t')) (queue t).

(** A step, the transactions it abandons and the accounts it empties. *)
Inductive step : System → System → list Transaction → list Address → Prop :=
| step_send S n txs w : Forall (client_tx accs) txs → WrapMsg KReceiveTxs (mkReceiveTxsMsg txs) = Ok w →
    step S (mkSystem (sys_leaders S) (sys_wire S ++ [(n, w)])) [] []
| step_deliver S w1 p w2 k L r s' : sys_wire S = w1 ++ p :: w2 → p.1 = mkNodeInfo 0 (Z.of_nat k) →
    sys_leaders S !! k = Some L → Static_HandleMsgOutsideShard p.2 (l_shard L) = (r, s') →
    step S (mkSystem (<[k := mkLeader s' (l_proposal L)]> (sys_leaders S)) (w1 ++ w2)) [] []
| step_propose S k L now r s' : sys_leaders S !! k = Some L →
    Static_BuildProposal cfg (lps k) RelayTxBlockOp now (l_shard L) = (r, s') →
    step S (mkSystem (<[k := mkLeader s' (proposed r)]> (sys_leaders S)) (sys_wire S))
      (proposal_txs (l_proposal L) ++ if is_ok r then [] else taken (txPool (l_shard L)) (txPool s')) []
| step_commit S k L b now s' sent : sys_leaders S !! k = Some L → deref_block (l_proposal L) = Ok b →
    Static_ProposalCommitAndDeliver cfg resolver RelayTxBlockOp now true (l_proposal L) (l_shard L) = (Ok tt, s') →
    outbox (conn s') = outbox (conn (l_shard L)) ++ sent →
    step S (mkSystem (<[k := mkLeader s' None]> (sys_leaders S)) (sys_wire S ++ sent))
      [] (emptied b (chain (l_shard L))).

(** Leader [k] when it starts, on an empty location store. *)
Definition starts (k : nat) (L : Leader) : Prop := l_proposal L = None ∧
  NewTxPool (cn_TxPoolType cfg) = Ok (txPool (l_shard L)) ∧
  ∃ bs ls ss bloom lp now, ShardID lp = Z.of_nat k ∧
    (∀ ks, MGetValsByKeys ks ls = Ok (replicate (length ks) None)) ∧
    NewChain bs ls ss (ShardNum (cn_Sys cfg)) bloom lp now = Ok (chain (l_shard L)).

(** A run, what it abandoned and what it emptied. *)
Inductive run : System → list Transaction → list Address → System → Prop :=
| run_start S : sys_wire S = [] → (∀ k L, sys_leaders S !! k = Some L → starts k L) → run S [] [] S
| run_step S0 S S' lost lost' emp emp' : run S0 lost emp S → step S S' lost' emp' →
    run S0 (lost ++ lost') (emp ++ emp') S'.

(** The money: what the accounts hold in all the shards, and what is between two shards. *)
Definition held (S : System) : Z := sumZ (λ L, sumZ (ledger (chain (l_shard L))) accs) (sys_leaders S).
Definition leader_value (L : Leader) : Z := coming (queue (txPool (l_shard L)) ++ proposal_txs (l_proposal L)).
Definition travelling (S : System) : Z := wire_value (sys_wire S) + sumZ leader_value (sys_leaders S).

(** ** The invariant *)

Abbreviation n := (ShardNum (cn_Sys cfg)).

Definition proposal_ok (Q : Transaction → Prop) (p : option Proposal) (c : Chain) : Prop := ∀ b, deref_block p = Ok b →
  Forall Q (TxList (b_Body b)) ∧
  ∃ now miner, GenerateBlock now miner TxBlockType (b_Body b) emptyMigrationOpt c = Ok b.
Definition leader_ok (k : Z) (L : Leader) : Prop :=
  default_locations (chain (l_shard L)) ∧ c_ShardNum (chain (l_shard L)) = n ∧
  shardID (chain (l_shard L)) = k ∧ splits (pf (txPool (l_shard L))) ∧
  Forall (pool_tx n accs k) (queue (txPool (l_shard L))) ∧
  proposal_ok (block_tx n accs k) (l_proposal L) (chain (l_shard L)).
Definition system_ok (S : System) : Prop :=
  (∀ k L, sys_leaders S !! k = Some L → leader_ok (Z.of_nat k) L) ∧ Forall (packet_ok n) (sys_wire S).

Lemma proposal_nonneg k p c : proposal_ok (block_tx n accs k) p c → 0 ≤ coming (proposal_txs p).
Proof using Type.
  unfold proposal_ok, proposal_txs. destruct (deref_block p) as [b|e|]; [|done..].
  intros H. destruct (H b eq_refl) as [Hf _]. by apply block_nonneg in Hf.
Qed.
(** *** Proposing *)

(** What an operation [tbo] makes of transactions [P]: a generated block of
    transactions [Q], related by [E] to those it was given. *)
Definition builds (tbo : TxBlockOp) (P Q : Transaction → Prop) (E : list Transaction → list Transaction → Prop)
    (lp : LocalParams) (s : ShardState) : Prop := ∀ now txs p, Forall P txs →
  BuildTxBlockProposal lp tbo now txs s = Ok p →
  ∃ b, p = WrapProposal b ∧ E txs (TxList (b_Body b)) ∧ proposal_ok Q (Some (WrapProposal b)) (chain s).

Lemma build_relay lp (s : ShardState) k : default_locations (chain s) → c_ShardNum (chain s) = n →
  shardID (chain s) = k →
  builds RelayTxBlockOp (pool_tx n accs k) (block_tx n accs k) (λ l l', coming l' = coming l) lp s.
Proof using MKL.
  intros Hd Hn Hk now txs p Ht. cbn [BuildTxBlockProposal]. unfold Relay_BuildTxBlockProposal.
  intros (out & Eo%wrap_err_ok & (b & Eb%wrap_err_ok & [= <-])%rbind_ok)%rbind_ok. exists b. split; [done|].
  rewrite <- Hn, <- Hk in Ht. destruct (modify_block txs (chain s) out Hd Ht Eo) as [Hb Hc].
  assert (b_Body b = mkBody out) as Hbody
    by by destruct (GenerateBlock_ok _ _ _ _ _ _ _ Eb) as (? & ? & ? & ? & ? & _ & _ & _ & _ & ->).
  split; [by rewrite Hbody|]. intros b' [= <-]. rewrite Hbody. rewrite Hn, Hk in Hb.
  split; [exact Hb|]. by eexists now, _.
Qed.

Lemma build_cases tbo P Q E lp now (s : ShardState) r s' : splits (pf (txPool s)) → Forall P (queue (txPool s)) →
  builds tbo P Q E lp s → Static_BuildProposal cfg lp tbo now s = (r, s') →
  chain s' = chain s ∧ conn s' = conn s ∧ pf (txPool s') = pf (txPool s) ∧
  queue (txPool s) = taken (txPool s) (txPool s') ++ queue (txPool s') ∧
  (if is_ok r then E (taken (txPool s) (txPool s')) (proposal_txs (proposed r)) else proposed r = None) ∧
  proposal_ok Q (proposed r) (chain s').
Proof using Type.
  intros Hs Hq Hbuild. unfold Static_BuildProposal. unfold st_bind at 1, st_wrap, on_pool, st_zoom.
  destruct (PackTxs_cases (wrap_i64 (BlockSizeLimit (cn_Sys cfg))) (txPool s) Hs)
    as [(txs & q & -> & Hp)|(x & -> & Hx)].
  - cbn [wrap_err]. remember ((txPool s) <| queue := q |>) as t' eqn:Et.
    assert (taken (txPool s) t' = txs) as Ht.
    { subst t'. unfold taken. cbn. rewrite <- Hp, length_app. rewrite take_app_le by lia. apply take_ge. lia. }
    assert (pf t' = pf (txPool s) ∧ queue t' = q) as [Hpf Hqt] by by subst t'. clear Et.
    assert (Forall P txs) as Htx by (rewrite <- Hp in Hq; apply Forall_app in Hq; tauto).
    unfold st_bind, reads, st_ret.
    assert (∀ p, BuildTxBlockProposal lp tbo now txs (s <| txPool := t' |>) = Ok p → ∃ b, p = WrapProposal b ∧
      E txs (TxList (b_Body b)) ∧ proposal_ok Q (Some (WrapProposal b)) (chain s)) as Hb.
    { intros p Hb. apply (Hbuild now txs p Htx). by destruct tbo. }
    destruct (BuildTxBlockProposal _ _ _ _ _) as [p|e|]; cbn [wrap_err]; intros [= <- <-];
      (split_and!; [done|done|exact Hpf|cbn [txPool upd]; congruence| |]); cbn; rewrite ?Ht; try done.
    + by destruct (Hb p eq_refl) as (b & -> & HE & _).
    + by destruct (Hb p eq_refl) as (b & -> & _ & HQ).
  - destruct x as [x|e|]; [done|..]; cbn; intros [= <- <-]; unfold taken; cbn; rewrite Nat.sub_diag; done.
Qed.

(** *** One leader changes *)

Lemma leaders_insert S k L L' wire : sys_leaders S !! k = Some L → system_ok S → leader_ok (Z.of_nat k) L' →
  Forall (packet_ok n) wire → system_ok (mkSystem (<[k := L']> (sys_leaders S)) wire).
Proof using Type.
  intros Hk [Hl _] HL' Hw. split; [|done]. cbn. intros j M [(<- & <- & _)|[_ Hj]]%list_lookup_insert_Some; [done|by apply Hl].
Qed.

Lemma leaders_values S k L L' wire : sys_leaders S !! k = Some L →
  let S' := mkSystem (<[k := L']> (sys_leaders S)) wire in
  held S' = held S - sumZ (ledger (chain (l_shard L))) accs + sumZ (ledger (chain (l_shard L'))) accs ∧
  travelling S' = travelling S - wire_value (sys_wire S) + wire_value wire - leader_value L + leader_value L'.
Proof using Type.
  intros Hk S'. unfold held, travelling, S'. cbn [sys_leaders sys_wire].
  rewrite !(sumZ_insert _ _ _ _ _ Hk). lia.
Qed.

Lemma wire_value_app w1 w2 : wire_value (w1 ++ w2) = wire_value w1 + wire_value w2.
Proof using Type. apply sumZ_app. Qed.

Lemma deliver_cases w (s s' : ShardState) r : Static_HandleMsgOutsideShard w s = (r, s') →
  chain s' = chain s ∧ conn s' = conn s ∧ pf (txPool s') = pf (txPool s) ∧
  queue (txPool s') = queue (txPool s) ++ txs_of w.
Proof using Type.
  unfold Static_HandleMsgOutsideShard, receive_txs, txs_of.
  case_decide; [|intros [= _ <-]; by rewrite app_nil_r].
  unfold st_bind, st_wrap, st_lift. destruct (gob_decode _ _) as [rt|e|]; cbn; intros [= _ <-];
    cbn; rewrite ?app_nil_r; done.
Qed.

Lemma leader_default k L : leader_ok k L → default_locations (chain (l_shard L)).
Proof using Type. by intros (? & _). Qed.

Lemma ledger_nonneg (c : Chain) : 0 ≤ sumZ (ledger c) accs.
Proof using SLaws.
  apply sumZ_nonneg, Forall_forall. intros a _. unfold ledger. destruct (getVMExecutor c); [apply eff_range|done..].
Qed.

(** Nothing negative is on its way. *)
Definition no_debts (S : System) : Prop := 0 ≤ wire_value (sys_wire S) ∧
  ∀ L, L ∈ sys_leaders S → 0 ≤ coming (queue (txPool (l_shard L))) ∧ 0 ≤ coming (proposal_txs (l_proposal L)).

Lemma no_debts_values S : no_debts S → 0 ≤ travelling S ∧
  ∀ L, L ∈ sys_leaders S → sumZ (ledger (chain (l_shard L))) accs + coming (proposal_txs (l_proposal L)) ≤ held S + travelling S.
Proof using SLaws.
  intros [Hw Hl]. assert (Forall (λ L, 0 ≤ leader_value L) (sys_leaders S)) as Hn.
  { apply Forall_forall. intros L [H1 H2]%Hl. unfold leader_value. rewrite coming_app. lia. }
  apply sumZ_nonneg in Hn as Hs. unfold travelling. split; [lia|]. intros L HL.
  assert (sumZ (ledger (chain (l_shard L))) accs ≤ held S).
  { apply (sumZ_elem (λ L, sumZ (ledger (chain (l_shard L))) accs)); [|done].
    apply Forall_forall. intros M _. apply ledger_nonneg. }
  pose proof (sumZ_elem leader_value (sys_leaders S) L Hn HL) as He. destruct (Hl L HL) as [H1 _].
  unfold leader_value at 1 in He. rewrite coming_app in He. lia.
Qed.

Lemma system_no_debts S : system_ok S → no_debts S.
Proof using Type.
  intros [Hl Hw]. split.
  - apply sumZ_nonneg. eapply Forall_impl; [exact Hw|]. intros p Hp. by eapply pool_nonneg.
  - intros L [k Hk]%list_elem_of_lookup. destruct (Hl k L Hk) as (_ & _ & _ & _ & Hq & Hp).
    split; [by eapply pool_nonneg|by eapply proposal_nonneg].
Qed.

(** *** Every step *)

Context (Hnd : NoDup accs).

Definition balanced (S S' : System) (lost : list Transaction) (emp : list Address) : Prop :=
  0 ≤ coming lost ∧
  held S' + travelling S' + coming lost = held S + travelling S + initBalance * Z.of_nat (length emp).

(** The money through each kind of step of a leader. *)
Lemma deliver_balanced S w1 p w2 k L r s' : sys_wire S = w1 ++ p :: w2 → sys_leaders S !! k = Some L →
  Static_HandleMsgOutsideShard p.2 (l_shard L) = (r, s') →
  balanced S (mkSystem (<[k := mkLeader s' (l_proposal L)]> (sys_leaders S)) (w1 ++ w2)) [] [].
Proof using Type.
  intros Hw Hk (Hc & _ & Hpf & Hq)%deliver_cases.
  destruct (leaders_values S k L (mkLeader s' (l_proposal L)) (w1 ++ w2) Hk) as [E1 E2].
  split; [done|]. rewrite E1, E2. unfold leader_value. cbn [l_shard l_proposal].
  rewrite Hc, Hq, Hw, !wire_value_app, !coming_app.
  change (wire_value (p :: w2)) with (coming (txs_of p.2) + wire_value w2). cbn. lia.
Qed.

Lemma propose_balanced S k L r s' : sys_leaders S !! k = Some L → chain s' = chain (l_shard L) →
  queue (txPool (l_shard L)) = taken (txPool (l_shard L)) (txPool s') ++ queue (txPool s') →
  coming (proposal_txs (proposed r)) = (if is_ok r then coming (taken (txPool (l_shard L)) (txPool s')) else 0) →
  0 ≤ coming (taken (txPool (l_shard L)) (txPool s')) → 0 ≤ coming (proposal_txs (l_proposal L)) →
  balanced S (mkSystem (<[k := mkLeader s' (proposed r)]> (sys_leaders S)) (sys_wire S))
    (proposal_txs (l_proposal L) ++ if is_ok r then [] else taken (txPool (l_shard L)) (txPool s')) [].
Proof using Type.
  intros Hk Hc Hq Hpv Ht Hp. split.
  - rewrite coming_app. destruct (is_ok r); [change (coming []) with 0|]; lia.
  - destruct (leaders_values S k L (mkLeader s' (proposed r)) (sys_wire S) Hk) as [E1 E2].
    rewrite E1, E2. unfold leader_value. cbn [l_shard l_proposal].
    rewrite Hc, Hq, !coming_app, Hpv. destruct (is_ok r); cbn; lia.
Qed.

Lemma commit_balanced S k L b s' sent : sys_leaders S !! k = Some L → deref_block (l_proposal L) = Ok b →
  txPool s' = txPool (l_shard L) → sumZ (ledger (chain s')) accs = sumZ (ledger (chain (l_shard L))) accs +
    coming (TxList (b_Body b)) - leaving (TxList (b_Body b)) +
    initBalance * Z.of_nat (length (emptied b (chain (l_shard L)))) →
  wire_value sent = leaving (TxList (b_Body b)) →
  balanced S (mkSystem (<[k := mkLeader s' None]> (sys_leaders S)) (sys_wire S ++ sent))
    [] (emptied b (chain (l_shard L))).
Proof using Type.
  intros Hk Hb Hpool Hled Hval. split; [done|].
  destruct (leaders_values S k L (mkLeader s' None) (sys_wire S ++ sent) Hk) as [E1 E2].
  rewrite E1, E2. unfold leader_value. cbn [l_shard l_proposal].
  rewrite Hled, Hpool, wire_value_app, !coming_app, Hval. unfold proposal_txs. rewrite Hb. cbn. lia.
Qed.

Lemma deliver_ok S w1 p w2 k L r s' : system_ok S → sys_wire S = w1 ++ p :: w2 →
  p.1 = mkNodeInfo 0 (Z.of_nat k) → sys_leaders S !! k = Some L →
  Static_HandleMsgOutsideShard p.2 (l_shard L) = (r, s') →
  system_ok (mkSystem (<[k := mkLeader s' (l_proposal L)]> (sys_leaders S)) (w1 ++ w2)).
Proof using Type.
  intros HS Hw Hp Hk (Hc & _ & Hpf & Hq)%deliver_cases.
  destruct HS as [Hl Hok]. rewrite Hw in Hok. apply Forall_app in Hok as [H1 [H2 H3]%Forall_cons].
  destruct (Hl k L Hk) as (A1 & A2 & A3 & A4 & A5 & A6).
  apply leaders_insert with L; [done|by split; [|rewrite Hw; apply Forall_app; split; [|constructor]]| |by apply Forall_app].
  unfold leader_ok. cbn [l_shard l_proposal]. rewrite Hc, Hpf, Hq. split_and!; [done..| |done].
  apply Forall_app. split; [done|]. unfold packet_ok in H2. by rewrite Hp in H2.
Qed.

Lemma propose_ok S k L now r s' : system_ok S → sys_leaders S !! k = Some L →
  Static_BuildProposal cfg (lps k) RelayTxBlockOp now (l_shard L) = (r, s') →
  let S' := mkSystem (<[k := mkLeader s' (proposed r)]> (sys_leaders S)) (sys_wire S) in
  system_ok S' ∧ balanced S S' (proposal_txs (l_proposal L) ++
    if is_ok r then [] else taken (txPool (l_shard L)) (txPool s')) [].
Proof using MKL.
  intros HS Hk Hb S'. destruct (proj1 HS k L Hk) as (A1 & A2 & A3 & A4 & A5 & A6).
  destruct (build_cases _ _ _ _ (lps k) now (l_shard L) r s' A4 A5 (build_relay _ _ _ A1 A2 A3) Hb)
    as (Hc & _ & Hpf & Hq & Hv & Hp).
  pose proof A5 as A5'. rewrite Hq in A5'. apply Forall_app in A5' as [B1 B2]. split.
  - apply leaders_insert with L; [done..| |apply HS].
    unfold leader_ok. cbn [l_shard l_proposal]. rewrite Hc in *. rewrite Hpf. by split_and!.
  - apply pool_nonneg in B1. apply proposal_nonneg in A6. apply propose_balanced; try done.
    destruct (is_ok r); [done|by rewrite Hv].
Qed.

Lemma commit_ok S k L b now s' sent : system_ok S → held S + travelling S < 2 ^ 256 →
  sys_leaders S !! k = Some L → deref_block (l_proposal L) = Ok b →
  Static_ProposalCommitAndDeliver cfg resolver RelayTxBlockOp now true (l_proposal L) (l_shard L) = (Ok tt, s') →
  outbox (conn s') = outbox (conn (l_shard L)) ++ sent →
  let S' := mkSystem (<[k := mkLeader s' None]> (sys_leaders S)) (sys_wire S ++ sent) in
  system_ok S' ∧ balanced S S' [] (emptied b (chain (l_shard L))).
Proof using All.
  intros HS Hlt Hk Hb Hc Ho S'. apply list_elem_of_lookup_2 in Hk as Hin.
  pose proof (proj2 (no_debts_values S (system_no_debts S HS)) L Hin) as Hbound.
  destruct (proj1 HS k L Hk) as (A1 & A2 & A3 & A4 & A5 & A6).
  destruct (A6 b Hb) as [Hbt (now' & miner & Hgen)].
  unfold proposal_txs in Hbound. rewrite Hb in Hbound.
  assert (b_MigrationOpt b = emptyMigrationOpt) as Hm
    by by destruct (GenerateBlock_ok _ _ _ _ _ _ _ Hgen) as (? & ? & ? & ? & ? & _ & _ & _ & _ & ->).
  unfold Static_ProposalCommitAndDeliver in Hc. apply st_bind_ok in Hc as (b0 & s0 & [E ->]%st_lift_ok & Hc).
  rewrite Hb in E. injection E as <-. apply st_wrap_ok in Hc. cbn [BlockCommitAndDeliver] in Hc.
  rewrite <- A2, <- A3 in Hbt.
  destruct (relay_commit_chain now b _ s' Hc) as [Ha Hpool].
  destruct (commit_ledger now' miner _ _ b Hnd A1 Hm Hbt Hgen Ha) as (Hv & Hled); [lia|].
  destruct (relay_commit_sends now b _ s' A1 Hm Hbt Hv Hc) as (sent' & Ho' & Hpk & Hval).
  rewrite Ho in Ho'. apply app_inv_head in Ho' as <-.
  destruct (AddBlock_head _ _ _ Ha) as (_ & Hsid & _ & Hn). split; [|by apply commit_balanced].
  apply leaders_insert with L; [done..| |].
  - unfold leader_ok. cbn [l_shard l_proposal]. rewrite Hn, Hsid, Hpool. split_and!; try done.
    by eapply AddBlock_default.
  - apply Forall_app. split; [apply HS|by rewrite <- A2].
Qed.

Lemma step_ok S S' lost emp : step S S' lost emp → system_ok S → held S + travelling S < 2 ^ 256 →
  system_ok S' ∧ balanced S S' lost emp.
Proof using All.
  intros Hs HS Hlt. destruct Hs as [S m txs w Htx Hw|S w1 p w2 k L r s' Hw Hp Hk E|S k L now r s' Hk E
    |S k L b now s' sent Hk Hb E Ho].
  - apply txs_of_wrapped in Hw. assert (Forall (pool_tx n accs (ni_ShardID m)) txs) as Hpool
      by (eapply Forall_impl; [exact Htx|]; by left).
    split; [split; [apply HS|apply Forall_app; split; [apply HS|]]|split; [done|]].
    + constructor; [|done]. unfold packet_ok. cbn [fst snd]. by rewrite Hw.
    + assert (coming txs = 0) as Hz.
      { clear -Htx. induction Htx as [|tx txs Ht _ IH]; [done|].
        change (coming_value tx + coming txs = 0). destruct (client_values accs tx Ht) as [_ ->]. lia. }
      unfold travelling, held. cbn [sys_leaders sys_wire]. rewrite wire_value_app.
      unfold wire_value at 2. cbn. rewrite Hw, Hz. lia.
  - split; [by apply (deliver_ok S w1 p w2 k L r s')|by apply (deliver_balanced S w1 p w2 k L r s')].
  - by apply (propose_ok S k L now r s').
  - by apply (commit_ok S k L b now s' sent).
Qed.

Lemma start_ok S : sys_wire S = [] → 0 < n → (∀ k L, sys_leaders S !! k = Some L → starts k L) →
  system_ok S ∧ travelling S = 0.
Proof using SLaws TLaws.
  intros Hw Hn Hs. split; [split|].
  - intros k L Hk. destruct (Hs k L Hk) as (Hp & (Hsp & Hq & _)%NewTxPool_splits & Hc).
    destruct Hc as (bs & ls & ss & bloom & lp & now & Hid & Hls & Hc).
    apply NewChain_default in Hc as (Hd & Hnum & Hsid & _); [|done..].
    split_and!; [done|done|congruence|done|rewrite Hq; constructor|]. rewrite Hp. by intros b.
  - rewrite Hw. constructor.
  - unfold travelling. rewrite Hw. change (wire_value []) with 0.
    enough (sumZ leader_value (sys_leaders S) = 0) by lia. clear Hw. generalize dependent (sys_leaders S). intros ls Hs.
    assert (∀ L, L ∈ ls → leader_value L = 0) as H.
    { intros L [k Hk]%list_elem_of_lookup. destruct (Hs k L Hk) as (Hp & (_ & Hq & _)%NewTxPool_splits & _).
      unfold leader_value. by rewrite Hq, Hp. }
    clear Hs. induction ls as [|L ls IH]; [done|]. change (leader_value L + sumZ leader_value ls = 0).
    rewrite H by (by left). rewrite IH; [done|]. intros M HM. apply H. by right.
Qed.

Lemma run_balanced S0 lost emp S : 0 < n → run S0 lost emp S →
  held S0 + initBalance * Z.of_nat (length emp) < 2 ^ 256 →
  system_ok S ∧ 0 ≤ coming lost ∧
  held S + travelling S + coming lost = held S0 + initBalance * Z.of_nat (length emp).
Proof using All.
  intros Hn Hr. induction Hr as [S Hw Hs|S0 S S' lost lost' emp emp' Hr IH Hst]; intros Hlt.
  - destruct (start_ok S Hw Hn Hs) as [HS Ht]. split; [done|]. cbn. lia.
  - rewrite length_app in *. rewrite Nat2Z.inj_add in *.
    assert (0 < initBalance) by done.
    destruct IH as (HS & Hc & Hb); [lia|].
    destruct (step_ok S S' lost' emp' Hst HS) as (HS' & Hc' & Hb'); [lia|].
    rewrite coming_app. split; [done|]. lia.
Qed.

(** C4: Money is conserved across shards.  Leaders start on empty chains and
    pools; then, in any order and any number of times, clients send transfers,
    packets arrive late or never, leaders pack blocks, drop them or commit them.
    At every moment the balances of the accounts over all the shards, with the
    transfers that have left one shard and not reached the other (on the wire, in
    a pool, in a proposal, or in one that was abandoned), add up to what there
    was, plus an initial balance for each account that a block emptied. *)
Theorem relay_system_conserves S0 lost emp S : 0 < n → run S0 lost emp S →
  held S0 + initBalance * Z.of_nat (length emp) < 2 ^ 256 →
  held S + travelling S + coming lost = held S0 + initBalance * Z.of_nat (length emp) ∧
  0 ≤ travelling S ∧ 0 ≤ coming lost.
Proof using All.
  intros Hn Hr Hlt. destruct (run_balanced S0 lost emp S Hn Hr Hlt) as (HS & Hc & Hb).
  split_and!; [done|by apply no_debts_values, system_no_debts|done].
Qed.
End flow.

(** ** Two shards, and a transfer from one to the other *)

Module FlowDemo.
Export ShardOpDemo.

(** Messages of one transaction, field by field; the other kinds are not decoded here. *)
Definition enc_tx (tx : Transaction) : bytes :=
  addr_bytes (Sender tx) ++ addr_bytes (Recipient tx) ++ Z_to_be 32 (Value tx) ++
  Z_to_be 1 (tx_RelayStage tx) ++ tx_ROriginalHash tx.
Definition dec_tx (b : bytes) : Transaction :=
  let '(s, b) := cut 20 b in let '(r, b) := cut 20 b in let '(v, b) := cut 32 b in let '(st, b) := cut 1 b in
  (NewTransaction (copy_to_array 20 s) (copy_to_array 20 r) (be_to_Z v) 0 0 0)
    <| RelayOpt := mkRelayTxOpt (be_to_Z st) b |>.
Definition enc_txs (m : ReceiveTxsMsg) : result bytes :=
  match rt_Txs m with
  | [tx] => if decide (dec_tx (enc_tx tx) = tx) then Ok (enc_tx tx) else Err "unsupported"
  | _ => Err "unsupported"
  end.
#[export] Instance flow_gob : GobMsg := {|
  gob_encode k := match k return msg_of k → result bytes with
    | KReceiveTxs => enc_txs
    | _ => λ _, Ok []
    end;
  gob_decode k p := match k return result (msg_of k) with
    | KReceiveTxs => Ok (mkReceiveTxsMsg [dec_tx p])
    | _ => Err "unsupported"
    end;
|}.
Lemma flow_gob_txs m p : gob_encode KReceiveTxs m = Ok p → gob_decode KReceiveTxs p = Ok m.
Proof.
  destruct m as [txs]. change (enc_txs (mkReceiveTxsMsg txs) = Ok p → Ok (mkReceiveTxsMsg [dec_tx p]) = Ok (mkReceiveTxsMsg txs)).
  unfold enc_txs. destruct txs as [|tx [|? ?]]; [done| |done]. cbn [rt_Txs]. case_decide as E; [|done].
  intros [= <-]. by rewrite E.
Qed.

Definition lps (k : nat) : LocalParams := mkLocalParams 0 (Z.of_nat k) EmptyAccountAddr.
Definition no_locs : EthTrieDB := mkEthTrieDB ∅ emptyRoot.
Lemma no_locs_empty ks : MGetValsByKeys ks no_locs = Ok (replicate (length ks) None).
Proof.
  change (rmap (λ k, wrap_err "get trie failed, err" (trie_Get k ∅)) ks = Ok (replicate (length ks) None)).
  induction ks as [|k ks IH]; [done|]. cbn [rmap length replicate]. by rewrite IH.
Qed.
Definition new_chain (k : nat) : result Chain :=
  NewChain bolt0 no_locs {[EmptyRootHash := ∅]} 2 bloom_cfg (lps k) 7.
Definition leader0 (k : nat) : Leader :=
  mkLeader (mkShardState (force dummyChain (new_chain k)) (pool []) (NewAccMigrateMetadata (cn_Sys cfg) (lps k))
    (mkConn [] [])) None.
Definition accounts : list Address := [addr 2; addr 3; addr 4].

Definition leader (k : nat) (S : System) : Leader := default (leader0 0) (sys_leaders S !! k).
Definition node (k : nat) : NodeInfo := mkNodeInfo 0 (Z.of_nat k).
Definition noMsg : WrappedMsg := mkWrappedMsg "" [].
Definition send (k : nat) (tx : Transaction) (S : System) : System :=
  mkSystem (sys_leaders S) (sys_wire S ++ [(node k, force noMsg (WrapMsg KReceiveTxs (mkReceiveTxsMsg [tx])))]).
(** Deliver the last packet of the wire. *)
Definition arriving (S : System) : NodeInfo * WrappedMsg := default (node 0, noMsg) (last (sys_wire S)).
Definition receiving (k : nat) (S : System) := Static_HandleMsgOutsideShard (arriving S).2 (l_shard (leader k S)).
Definition deliver (k : nat) (S : System) : System :=
  mkSystem (<[k := mkLeader (receiving k S).2 (l_proposal (leader k S))]> (sys_leaders S)) (removelast (sys_wire S) ++ []).
Definition building (k : nat) (S : System) := Static_BuildProposal cfg (lps k) RelayTxBlockOp 8 (l_shard (leader k S)).
Definition offer (k : nat) (S : System) : System :=
  mkSystem (<[k := mkLeader (building k S).2 (proposed (building k S).1)]> (sys_leaders S)) (sys_wire S).
Definition block_of (k : nat) (S : System) : Block := force dummyBlock (deref_block (l_proposal (leader k S))).
Definition committing (k : nat) (S : System) :=
  Static_ProposalCommitAndDeliver cfg topo RelayTxBlockOp 9 true (l_proposal (leader k S)) (l_shard (leader k S)).
Definition sending (k : nat) (S : System) : list (NodeInfo * WrappedMsg) :=
  drop (length (outbox (conn (l_shard (leader k S))))) (outbox (conn (committing k S).2)).
Definition commit (k : nat) (S : System) : System :=
  mkSystem (<[k := mkLeader (committing k S).2 None]> (sys_leaders S)) (sys_wire S ++ sending k S).

(** Account 2 of shard 0 pays 30 to account 3 of shard 1. *)
Definition S0 : System := mkSystem [leader0 0; leader0 1] [].
Definition S1 := send 0 (transfer 2 3) S0.
Definition S2 := deliver 0 S1.
Definition S3 := offer 0 S2.
Definition S4 := commit 0 S3.
Definition S5 := deliver 1 S4.
Definition S6 := offer 1 S5.
Definition S7 := commit 1 S6.

Example paid : (λ S, (map (λ k, ledger (chain (l_shard (leader k S))) (addr (2 + Z.of_nat k)) - initBalance) [0; 1]%nat,
    travelling S)) <$> [S0; S4; S5; S7] =
  [([0; 0], 0); ([-30; 0], 30); ([-30; 0], 30); ([-30; 30], 0)].
Proof. vm_compute. reflexivity. Qed.

(** With a transfer in the same batch that its sender cannot pay, no block is
    built: the whole batch is gone, and with it the 30 on their way. *)
Definition overdraft : Transaction := NewTransaction (addr 3) (addr 2) (2 * initBalance) 0 0 0.
Definition S5' := deliver 1 (send 1 overdraft S5).
Example batch_lost : is_ok (building 1 S5').1 = false ∧
  queue (txPool (l_shard (leader 1 (offer 1 S5')))) = [] ∧ travelling S5' = 30 ∧ travelling (offer 1 S5') = 0.
Proof. vm_compute. split_and!; reflexivity. Qed.

(** The runs of the example: nothing given up, nobody emptied. *)
Definition reach (S : System) : Prop :=
  ∃ lost emp, run accounts cfg topo lps S0 lost emp S ∧ coming lost = 0 ∧ emp = [].
Definition has_leader (k : nat) (S : System) : Prop := sys_leaders S !! k = Some (leader k S).

Lemma reach_step S S' lost emp : reach S → step accounts cfg topo lps S S' lost emp → coming lost = 0 → emp = [] →
  reach S'.
Proof.
  intros (lost0 & emp0 & Hr & Hl & ->) Hs Hl' ->. exists (lost0 ++ lost), ([] ++ []).
  split; [by eapply run_step|]. split; [|done]. by rewrite coming_app, Hl, Hl'.
Qed.

Lemma leader_starts k : (k < 2)%nat → starts cfg k (leader0 k).
Proof.
  intros Hk. split; [reflexivity|]. split; [reflexivity|].
  exists bolt0, no_locs, {[EmptyRootHash := ∅]}, bloom_cfg, (lps k), 7.
  split; [reflexivity|]. split; [exact no_locs_empty|]. apply force_ok.
  destruct k as [|[|k]]; [vm_compute; reflexivity..|lia].
Qed.
Lemma leaders_start k L : [leader0 0; leader0 1] !! k = Some L → L = leader0 k ∧ (k < 2)%nat.
Proof.
  intros HL. pose proof (lookup_lt_Some _ _ _ HL) as Hk. cbn in Hk.
  destruct k as [|[|k]]; [by injection HL as <-; (split; [|lia])..|lia].
Qed.

Lemma reach_S0 : reach S0.
Proof.
  exists [], []. split; [|done]. apply run_start; [done|]. intros k L [-> Hk]%leaders_start. by apply leader_starts.
Qed.

Lemma reach_send k tx S : reach S → client_tx accounts tx →
  is_ok (WrapMsg KReceiveTxs (mkReceiveTxsMsg [tx])) = true → reach (send k tx S).
Proof.
  intros HS Ht Hw. apply (reach_step S _ [] []); [exact HS| |done..].
  apply step_send with [tx]; [by constructor|]. by apply force_ok.
Qed.
Lemma reach_deliver k S : reach S → has_leader k S → sys_wire S = removelast (sys_wire S) ++ [arriving S] →
  (arriving S).1 = node k → reach (deliver k S).
Proof.
  intros HS Hk Hw Hp. apply (reach_step S _ [] []); [exact HS| |done..].
  apply (step_deliver accounts cfg topo lps S _ _ [] k (leader k S) _ _ Hw Hp Hk (surjective_pairing _)).
Qed.
Lemma reach_propose k S : reach S → has_leader k S → l_proposal (leader k S) = None →
  is_ok (building k S).1 = true → reach (offer k S).
Proof.
  intros HS Hk Hn Hb. eapply reach_step; [exact HS| | |done].
  - apply (step_propose accounts cfg topo lps S k (leader k S) 8 _ _ Hk (surjective_pairing _)).
  - fold (building k S). by rewrite Hn, Hb.
Qed.
Lemma reach_commit k S : reach S → has_leader k S → is_ok (deref_block (l_proposal (leader k S))) = true →
  (committing k S).1 = Ok tt →
  outbox (conn (committing k S).2) = outbox (conn (l_shard (leader k S))) ++ sending k S →
  emptied accounts (block_of k S) (chain (l_shard (leader k S))) = [] → reach (commit k S).
Proof.
  intros HS Hk Hp Hc Ho He. eapply (reach_step S _ []); [exact HS| |done|exact He].
  apply (step_commit accounts cfg topo lps S k (leader k S) (block_of k S) 9 (committing k S).2 (sending k S) Hk);
    [by apply force_ok|rewrite <- Hc; apply surjective_pairing|done].
Qed.

Lemma reach_S4 : reach S4.
Proof.
  apply reach_commit; [|reflexivity|vm_compute; reflexivity..].
  apply reach_propose; [|reflexivity|vm_compute; reflexivity..].
  apply reach_deliver; [|reflexivity|vm_compute; reflexivity..].
  apply reach_send; [apply reach_S0| |vm_compute; reflexivity].
  split; [reflexivity|]. split; [reflexivity|].
  split; apply (bool_decide_unpack _); vm_compute; exact I.
Qed.
Lemma reach_S7 : reach S7.
Proof.
  apply reach_commit; [|reflexivity|vm_compute; reflexivity..].
  apply reach_propose; [|reflexivity|vm_compute; reflexivity..].
  apply reach_deliver; [apply reach_S4|reflexivity|vm_compute; reflexivity..].
Qed.
End FlowDemo.

Module FlowWitness.
Import FlowDemo.

Lemma relay_system_conserves_witness :
  held accounts S4 + 30 = held accounts S0 ∧ held accounts S7 = held accounts S0.
Proof.
  assert (∀ S, reach S → held accounts S + travelling S = held accounts S0) as H.
  { intros S (lost & emp & Hr & Hl & ->).
    destruct (relay_system_conserves accounts cfg topo topo_own flow_gob_txs lps
      ltac:(apply (bool_decide_unpack _); vm_compute; exact I) S0 lost [] S eq_refl Hr) as [E _].
    - vm_compute. reflexivity.
    - rewrite Hl in E. cbn [length] in E. lia. }
  split.
  - rewrite <- (H S4 reach_S4). f_equal.
  - rewrite <- (H S7 reach_S7). rewrite <- (Z.add_0_r (held accounts S7)) at 1. f_equal.
Defined.
End FlowWitness.
