(* ===== verification/Node.v ===== *)
(** * The consensus node

    Models consensus/pbft/node.go: building a node, its message handlers, the
    walk through the stages, proposing, catching up, and one pass of the run
    loop.  The node's goroutine owns all of its state; the messages it drains
    are the ones that arrived since the last pass.

    The two interfaces a node holds (the operations inside the shard and the
    handler of messages from outside) are chosen together by the consensus type
    and are one tag, [n_dynamic].  All the readings of the clock within one pass
    are one instant [now].  The block record is the file of a class. *)

From S2P Require Import Prelude GoHash Account Bloom Block Utils CsvWrite Config PriorityQueue MsgPool ConsensusMeta.
From S2P Require Import StateDB TxExecute Storage Chain TxPool Network Migration TxBlockOp ShardOp.
From Stdlib Require Import Lia.

Local Open Scope Z_scope.

(** Names of [pbftMsgHandler]'s functions. *)
Inductive handler :=
| handleStopConsensus | handlePreprepare | handlePrepare | handleCommit
| handleCatchupReq | handleCatchupResp.

Section node.
  Context {BL : BitSetLib} {RT : RlpTx} {RH : RlpHeader} {RP : RlpProposal} {GB : GobBlock}.
  Context {GU : GobU64} {GS : GobState} {MK : MapKeys} {RS : RangeShards} {GM : GobMsg}.
  Context {SL : StateDBLib} {EV : EVMLib} {BO : BoltLib} {TL : TrieLib}.
  Context {TF : TimeFormat} {CL : CsvLib}.

Record Node := mkNode {
  n_shard : ShardState;
  pbftMeta : consensusMeta;
  csw : Csw;
  n_dynamic : bool;
  n_tbo : TxBlockOp;
  pbftMsgHandler : gmap string handler;
}.
#[export] Instance Node_eta : Eta Node := λ n,
  mkNode (n_shard n) (pbftMeta n) (csw n) (n_dynamic n) (n_tbo n) (pbftMsgHandler n).

Definition on_shard {A} (m : M ShardState A) : M Node A := st_zoom n_shard (λ s n, n <| n_shard := s |>) m.
Definition on_meta {A} (m : M consensusMeta A) : M Node A := st_zoom pbftMeta (λ c n, n <| pbftMeta := c |>) m.
Definition on_csw {A} (m : M Csw A) : M Node A := st_zoom csw (λ c n, n <| csw := c |>) m.
Definition meta_do (h : consensusMeta → consensusMeta) : M Node unit := on_meta (st_modify h).
Definition meta_try (h : consensusMeta → result consensusMeta) : M Node unit :=
  on_meta (λ c, match h c with Ok c' => (Ok tt, c') | Err e => (Err e, c) | Panic => (Panic, c) end).
Definition meta_get {A} (h : consensusMeta → A) : M Node A := λ n, (Ok (h (pbftMeta n)), n).

Definition registerHandleFunc (n : Node) : Node := n <| pbftMsgHandler ::= λ m,
  <[CatchupRespMessageType := handleCatchupResp]>
  (<[CatchupReqMessageType := handleCatchupReq]>
  (<[CommitMessageType := handleCommit]>
  (<[PrepareMessageType := handlePrepare]>
  (<[PreprepareMessageType := handlePreprepare]>
  (<[StopConsensusMessageType := handleStopConsensus]> m))))) |>.

(** [NewPBFTNode] with the storages and the record file already open. *)
Definition NewPBFTNode (bs : BoltStore) (ls : EthTrieDB) (ss : StateStore) (file : Csw) (cn : Conn)
    (cfg : ConsensusNodeCfg) (lp : LocalParams) (now : Time) : result Node :=
  let sys := cn_Sys cfg in
  if decide (ShardNum sys ≤ 0 ∨ ShardNum sys ≤ ShardID lp) then Err "invalid shardID=%d"
  else if decide (NodeNum sys ≤ 0 ∨ NodeNum sys ≤ NodeID lp) then Err "invalid nodeID=%d"
  else
    let* bc := wrap_err "NewChain err" (NewChain bs ls ss (ShardNum sys) (cn_Bloom cfg) lp now) in
    let* txp := wrap_err "NewTxPool err" (NewTxPool (cn_TxPoolType cfg)) in
    let* tbo := wrap_err "NewTxBlockOp failed" (NewTxBlockOp cfg) in
    let t := ConsensusType sys in
    let* dynamic :=
      if decide (t = StaticRelayConsensus ∨ t = StaticBrokerConsensus) then Ok false
      else if decide (t = CLPARelayConsensus ∨ t = CLPABrokerConsensus) then Ok true
      else Err "invalid consensus type=%s" in
    Ok (mkNode (mkShardState bc txp (NewAccMigrateMetadata sys lp) cn) (newConsensusMeta cfg lp now)
          file dynamic tbo ∅).

(** The configuration and local parameters every part of a node was built with. *)
Context (cfg : ConsensusNodeCfg) (lp : LocalParams) (resolver : TopoGetter).

Definition n_BuildProposal (now : Time) : M Node (option Proposal) := λ n,
  on_shard (if n_dynamic n then Dynamic_BuildProposal cfg lp resolver (n_tbo n) now
            else Static_BuildProposal cfg lp (n_tbo n) now) n.
Definition n_ValidateProposal (p : Proposal) : M Node unit := λ n,
  (if n_dynamic n then Dynamic_ValidateProposal p (n_shard n) else Static_ValidateProposal p (n_shard n), n).
Definition n_ProposalCommitAndDeliver (now : Time) (isLeader : bool) (p : option Proposal) : M Node unit := λ n,
  on_shard (if n_dynamic n then Dynamic_ProposalCommitAndDeliver cfg resolver (n_tbo n) now isLeader p
            else Static_ProposalCommitAndDeliver cfg resolver (n_tbo n) now isLeader p) n.
Definition n_HandleMsgOutsideShard (msg : WrappedMsg) : M Node unit := λ n,
  on_shard (if n_dynamic n then CLPA_HandleMsgOutsideShard msg else Static_HandleMsgOutsideShard msg) n.

(** ** Sending *)

Definition broadcastMsgInnerShard (k : MsgKind) (m : msg_of k) : M Node unit :=
  let! w := st_wrap "message.WrapMsg failed" (st_lift (WrapMsg k m)) in
  let! c := meta_get id in
  let! shardNeighbors := st_wrap "GetNodesInShard failed"
    (st_lift (GetNodesInShard (ShardID (cm_lp c)) resolver)) in
  on_shard (on_conn (st_modify (GroupBroadcastMessage shardNeighbors w))).

Definition prepareBroadcast : M Node unit :=
  let! c := meta_get id in
  let! pp := st_lift (or_panic (curPreprepare c)) in
  broadcastMsgInnerShard KPrepare
    (mkPrepareMsg (pp_Digest pp) (pp_Seq pp) (pp_View pp) (ShardID (cm_lp c)) (NodeID (cm_lp c))).

Definition commitBroadcast : M Node unit :=
  let! c := meta_get id in
  let! pp := st_lift (or_panic (curPreprepare c)) in
  broadcastMsgInnerShard KCommit
    (mkCommitMsg (pp_Digest pp) (pp_Seq pp) (pp_View pp) (ShardID (cm_lp c)) (NodeID (cm_lp c))).

(** ** Handlers *)

Definition do_stop : M Node unit := meta_do (λ c, c <| closed := true |>).

Definition do_preprepare (payload : bytes) : M Node unit :=
  let! ppMsg := st_wrap "decode preprepare msg" (st_lift (gob_decode KPreprepare payload)) in
  let! c := meta_get id in
  if decide (0 < Compare (curViewSeq c) (mkViewSeq (pp_View ppMsg) (pp_Seq ppMsg))) then st_ret tt
  else
    st_wrap "validate preprepare proposal err" (n_ValidateProposal (pp_P ppMsg)) ;;!
    meta_try (λ c, let* mp := PushPreprepareMsg ppMsg (msgPool c) in Ok (c <| msgPool := mp |>)) ;;!
    meta_do (updateLatestViewSeq (pp_View ppMsg) (pp_Seq ppMsg)).

Definition do_prepare (payload : bytes) : M Node unit :=
  let! pMsg := st_wrap "decode prepare msg" (st_lift (gob_decode KPrepare payload)) in
  let! c := meta_get id in
  if decide (0 < Compare (curViewSeq c) (mkViewSeq (p_View pMsg) (p_Seq pMsg))) then st_ret tt
  else meta_try (λ c, let* mp := PushPrepareMsg pMsg (msgPool c) in Ok (c <| msgPool := mp |>)).

Definition do_commit (payload : bytes) : M Node unit :=
  let! cMsg := st_wrap "decode commit msg" (st_lift (gob_decode KCommit payload)) in
  let! c := meta_get id in
  if decide (0 < Compare (curViewSeq c) (mkViewSeq (c_View cMsg) (c_Seq cMsg))) then st_ret tt
  else meta_try (λ c, let* mp := PushCommitMsg cMsg (msgPool c) in Ok (c <| msgPool := mp |>)).

Definition do_catchup_req (payload : bytes) : M Node unit :=
  let! crMsg := st_wrap "decode catchup req msg" (st_lift (gob_decode KCatchupReq payload)) in
  let! n := st_get in
  let! blocks := st_wrap "get blocks failed"
    (st_lift (GetBlocksAfterHeight (cq_StartBlockHeight crMsg) (chain (n_shard n)))) in
  let c := pbftMeta n in
  let! w := st_wrap "wrap message failed" (st_lift (WrapMsg KCatchupResp
    (mkCatchupRespMsg (map WrapProposal blocks) (Seq (curViewSeq c)) (View (curViewSeq c))
       (ShardID (cm_lp c)) (NodeID (cm_lp c))))) in
  on_shard (send (mkNodeInfo (cq_NodeID crMsg) (cq_ShardID crMsg)) w).

(** The blocks before one that fails stay added. *)
Definition add_caught_up (p : Proposal) : M Node unit :=
  let! b := st_lift (or_panic (P_Block p)) in
  st_wrap "add block failed, height=%d" (on_shard (on_chain (AddBlock b))).

Definition do_catchup_resp (payload : bytes) : M Node unit :=
  let! crMsg := st_wrap "decode catchup resp msg" (st_lift (gob_decode KCatchupResp payload)) in
  let! c := meta_get id in
  if decide (leader c ≠ cr_NodeID crMsg) then st_fail "the catchup response message is not from the leader, from nodeID=%d"
  else if negb (catchupStarted c) then st_fail "catchup resp message not started"
  else
    st_for add_caught_up (cr_Proposals crMsg) ;;!
    meta_do (catchupOverAndReset (mkViewSeq (cr_NextView crMsg) (cr_NextSeq crMsg))).

Definition run_handler (h : handler) : bytes → M Node unit :=
  match h with
  | handleStopConsensus => λ _, do_stop
  | handlePreprepare => do_preprepare
  | handlePrepare => do_prepare
  | handleCommit => do_commit
  | handleCatchupReq => do_catchup_req
  | handleCatchupResp => do_catchup_resp
  end.

Definition handleMessage (msg : WrappedMsg) : M Node unit := λ n,
  match pbftMsgHandler n !! MsgType msg with
  | None => st_wrap "handleMsgOutsideShard failed" (n_HandleMsgOutsideShard msg) n
  | Some h => st_wrap "handle %s message failed" (run_handler h (Payload msg)) n
  end.

(** ** Stages *)

Definition recordBlock (p : option Proposal) : M Node unit :=
  let! b := st_lift (deref_block p) in
  let! line := st_wrap "ConvertBlock2Line failed" (st_lift (ConvertBlock2Line b)) in
  st_wrap "WriteLine2CSV failed" (on_csw (WriteLine2CSV line)).

Definition is_leader (c : consensusMeta) : bool := bool_decide (leader c = NodeID (cm_lp c)).

(** One turn of [step2NextStage]'s loop: go on, or return. *)
Definition stage_turn (now : Time) (_ : unit) : M Node (unit + unit) :=
  let! p := st_wrap "step2NextStage" (on_meta step2Next) in
  let '(oldStage, newStage) := p in
  if decide (oldStage = newStage) then st_ret (inr tt)
  else if decide (newStage = stagePreprepare) then
    let! c := meta_get id in
    st_wrap "commit and deliver a proposal failed"
      (n_ProposalCommitAndDeliver now (is_leader c) (lastProposal c)) ;;!
    if is_leader c then
      st_wrap "record block failed" (recordBlock (lastProposal c)) ;;! st_ret (inr tt)
    else st_ret (inr tt)
  else if decide (newStage = stagePrepare) then
    st_wrap "prepareBroadcast failed, err" prepareBroadcast ;;! st_ret (inl tt)
  else if decide (newStage = stageCommit) then
    st_wrap "commitBroadcast failed, err" commitBroadcast ;;! st_ret (inl tt)
  else st_fail "unknown stage: %d".

(** Three turns are enough, see [step2NextStage_total]. *)
Definition step2NextStage (now : Time) : M Node unit :=
  let! o := st_iter (stage_turn now) 3 tt in
  match o with Some _ => st_ret tt | None => st_fail "out of fuel" end.

(** ** Proposing and catching up *)

Definition propose (now : Time) : M Node unit :=
  let! c := meta_get id in
  if decide (now - lastProposeTime c < wrap_i64 (cn_BlockInterval (cm_cfg c) * 1000000)) then st_ret tt
  else
    let! p := st_wrap "chain.GenerateBlock failed" (n_BuildProposal now) in
    match p with
    | None => st_ret tt
    | Some p =>
      let! digest := st_wrap "CalcHash failed" (st_lift (Proposal_Hash p)) in
      let! c := meta_get id in
      st_wrap "broadcastMsgInnerShard failed" (broadcastMsgInnerShard KPreprepare
        (mkPreprepareMsg p digest (Seq (curViewSeq c)) (View (curViewSeq c)) 0 0)) ;;!
      meta_do (λ c, c <| proposed := true |> <| lastProposeTime := now |>)
    end.

Definition catchUpStart : M Node unit :=
  let! n := st_get in
  let c := pbftMeta n in
  let! ld := st_wrap "get leader failed" (st_lift (GetLeader (ShardID (cm_lp c)) resolver)) in
  let! w := st_wrap "wrap message failed" (st_lift (WrapMsg KCatchupReq
    (mkCatchupReqMsg (wrap_i64 (wrap_i64 (Number (GetCurHeader (chain (n_shard n)))) + 1))
       (ShardID (cm_lp c)) (NodeID (cm_lp c))))) in
  on_shard (send ld w) ;;!
  meta_do (λ c, c <| catchupStarted := true |>).

(** ** The run loop *)

(** An error is logged and the loop goes on; a panic ends the process. *)
Definition logged {A} (m : M Node A) : M Node unit := λ n,
  match m n with
  | (Panic, n') => (Panic, n')
  | (_, n') => (Ok tt, n')
  end.

Definition drain : M Node (list WrappedMsg) := λ n,
  let '(msgs, c) := DrainMsgBuffer (conn (n_shard n)) in
  (Ok msgs, n <| n_shard ::= λ s, s <| conn := c |> |>).

(** One pass; true when the loop breaks. *)
Definition run_pass (now : Time) : M Node bool :=
  let! c := meta_get id in
  if closed c then st_ret true
  else
    let! msgList := drain in
    st_for (λ msg, logged (handleMessage msg)) msgList ;;!
    meta_try curateMsg ;;!
    logged (step2NextStage now) ;;!
    let! c := meta_get id in
    (if decide (NodeID (cm_lp c) = leader c) then
       if decide (stage c = stagePreprepare ∧ proposed c = false) then logged (propose now) else st_ret tt
     else if catchupReady c then logged catchUpStart else st_ret tt) ;;!
    st_ret false.

(** The messages [ms] arrive, then the ticker fires at [now]. *)
Definition arrive (ms : list WrappedMsg) : M Node unit :=
  on_shard (on_conn (st_modify (λ c, c <| buffer ::= λ b, b ++ ms |>))).

(** The passes of [run] for the given arrivals; it stops when the loop breaks. *)
Fixpoint run (ticks : list (list WrappedMsg * Time)) : M Node unit :=
  match ticks with
  | [] => st_ret tt
  | (ms, now) :: ticks' =>
    arrive ms ;;!
    let! stop := run_pass now in
    if stop then st_ret tt else run ticks'
  end.

Definition Start (ticks : list (list WrappedMsg * Time)) : M Node unit :=
  st_modify registerHandleFunc ;;! run ticks.
End node.

(** ** What a run of a node does to its chain *)

Section certified.
  Context {BL : BitSetLib} {RT : RlpTx} {RH : RlpHeader} {RP : RlpProposal} {GB : GobBlock}.
  Context {GU : GobU64} {GS : GobState} {MK : MapKeys} {RS : RangeShards} {GM : GobMsg}.
  Context {SL : StateDBLib} {EV : EVMLib} {BO : BoltLib} {TL : TrieLib}.
  Context (cfg : ConsensusNodeCfg) (hist : list WrappedMsg).

(** A message of kind [k] that decodes to [m] is among the arrived ones. *)
Definition received (k : MsgKind) (m : msg_of k) : Prop :=
  ∃ w, w ∈ hist ∧ getMsgType k = Ok (MsgType w) ∧ gob_decode k (Payload w) = Ok m.

(** 2f+1 at Go's int64, for the number of nodes of the configuration. *)
Definition quorum_of : Z :=
  wrap_i64 (wrap_i64 (2 * Z.quot (wrap_i64 (NodeNum (cn_Sys cfg) - 1)) 3) + 1).

(** The leader proposed [b], and a quorum of nodes prepared and committed its
    digest at its view and sequence. *)
Definition certified (b : Block) : Prop :=
  ∃ pp (P C : gset NodeInfo), received KPreprepare pp ∧ pp_NodeID pp = initialLeader ∧ P_Block (pp_P pp) = Some b ∧
    quorum_of ≤ Z.of_nat (size P) ∧ quorum_of ≤ Z.of_nat (size C) ∧
    (∀ i : NodeInfo, i ∈ P → ∃ m, received KPrepare m ∧ p_vs m = pp_vs pp ∧ p_Digest m = pp_Digest pp ∧
       i = mkNodeInfo (p_NodeID m) (p_ShardID m)) ∧
    (∀ i : NodeInfo, i ∈ C → ∃ m, received KCommit m ∧ c_vs m = pp_vs pp ∧ c_Digest m = pp_Digest pp ∧
       i = mkNodeInfo (c_NodeID m) (c_ShardID m)).

(** The leader sent [b] in a catch-up response. *)
Definition caught_up (b : Block) : Prop :=
  ∃ m p, received KCatchupResp m ∧ cr_NodeID m = initialLeader ∧ p ∈ cr_Proposals m ∧ P_Block p = Some b.

Definition chain_step (c c' : Chain) : Prop := ∃ b, (certified b ∨ caught_up b) ∧ block_added b c c'.

Definition log_from (g : msgLog) : Prop :=
  (∀ m, m ∈ log_pp g → received KPreprepare m) ∧ (∀ m, m ∈ log_p g → received KPrepare m) ∧
  (∀ m, m ∈ log_c g → received KCommit m).
End certified.

Section node_facts.
  Context {BL : BitSetLib} {RT : RlpTx} {RH : RlpHeader} {RP : RlpProposal} {GB : GobBlock}.
  Context {GU : GobU64} {GS : GobState} {MK : MapKeys} {RS : RangeShards} {GM : GobMsg}.
  Context {SL : StateDBLib} {EV : EVMLib} {BO : BoltLib} {TL : TrieLib}.
  Context {TF : TimeFormat} {CL : CsvLib}.
  Context (cfg : ConsensusNodeCfg) (lp : LocalParams) (resolver : TopoGetter).
  Context (hist : list WrappedMsg) (c0 : Chain).
  Abbreviation received := (received hist).

Definition handler_type (h : handler) : string :=
  match h with
  | handleStopConsensus => StopConsensusMessageType
  | handlePreprepare => PreprepareMessageType
  | handlePrepare => PrepareMessageType
  | handleCommit => CommitMessageType
  | handleCatchupReq => CatchupReqMessageType
  | handleCatchupResp => CatchupRespMessageType
  end.

Definition meta_ok (c : consensusMeta) : Prop :=
  ∃ g, reachable cfg lp (c, g) ∧ log_from hist g.
Definition chain_ok (c : Chain) (buf : list WrappedMsg) : Prop :=
  rtc (chain_step cfg hist) c0 c ∧ ∀ w, w ∈ buf → w ∈ hist.
Definition node_inv (n : Node) : Prop :=
  (∀ t h, pbftMsgHandler n !! t = Some h → t = handler_type h) ∧
  meta_ok (pbftMeta n) ∧ framed chain_ok (n_shard n).

(** Lifting to the node. *)
Lemma pres_on_shard {A} (m : M ShardState A) :
  preserves (framed chain_ok) m → preserves node_inv (on_shard m).
Proof. intros Hm. apply pres_zoom. intros n r s (H1 & H2 & H3) E. split_and!; [done..|]. by eapply Hm. Qed.
Lemma pres_on_csw {A} (m : M Csw A) : preserves node_inv (on_csw m).
Proof. by apply pres_zoom. Qed.
Lemma pres_meta_get {A} (h : consensusMeta → A) : preserves node_inv (meta_get h).
Proof. by intros n r n' Hn [= _ <-]. Qed.
Lemma pres_meta_get_bind {B} (k : consensusMeta → M Node B) :
  (∀ c, meta_ok c → preserves node_inv (k c)) → preserves node_inv (let! c := meta_get id in k c).
Proof. intros Hk n r n' Hn. cbn. apply Hk; [apply Hn | done]. Qed.
Lemma pres_meta_do h : (∀ c, meta_ok c → meta_ok (h c)) → preserves node_inv (meta_do h).
Proof. intros Hh. apply pres_zoom. intros n r c (H1 & H2 & H3) [= _ <-]. split_and!; [done| |done]. by apply Hh. Qed.
Lemma pres_meta_try h :
  (∀ c c', meta_ok c → h c = Ok c' → meta_ok c') → preserves node_inv (meta_try h).
Proof.
  intros Hh. apply pres_zoom. intros n r c (H1 & H2 & H3) E. split_and!; [done| |done].
  destruct (h (pbftMeta n)) eqn:Eh; injection E as _ <-; [by eapply Hh|done|done].
Qed.
Lemma pres_logged {A} (m : M Node A) : preserves node_inv m → preserves node_inv (logged m).
Proof.
  intros Hm n r n' Hn. unfold logged. destruct (m n) as [x n1] eqn:E.
  destruct x; intros [= _ <-]; by eapply Hm.
Qed.

Lemma meta_ok_step e c g c' g' : reachable cfg lp (c, g) → mstep e (c, g) (c', g') → log_from hist g' → meta_ok c'.
Proof. intros Hr Hs Hl. exists g'. split; [|done]. by econstructor. Qed.

Lemma meta_ok_same c c' : meta_ok c → same_round c c' → meta_ok c'.
Proof. intros (g & Hr & Hl) Hs. by eapply meta_ok_step; [|apply mstep_other|]. Qed.

Lemma meta_ok_leader c : meta_ok c → leader c = initialLeader.
Proof. by intros (g & (_ & _ & _ & _ & Hl)%reachable_inv & _). Qed.

Lemma log_from_pp m g : received KPreprepare m → log_from hist g →
  log_from hist (mkMsgLog (m :: log_pp g) (log_p g) (log_c g)).
Proof. intros Hm (H1 & H2 & H3). split_and!; [|done..]. intros x [->|Hx]%elem_of_cons; auto. Qed.
Lemma log_from_p m g : received KPrepare m → log_from hist g →
  log_from hist (mkMsgLog (log_pp g) (m :: log_p g) (log_c g)).
Proof. intros Hm (H1 & H2 & H3). split_and!; [done| |done]. intros x [->|Hx]%elem_of_cons; auto. Qed.
Lemma log_from_c m g : received KCommit m → log_from hist g →
  log_from hist (mkMsgLog (log_pp g) (log_p g) (m :: log_c g)).
Proof. intros Hm (H1 & H2 & H3). split_and!; [done..|]. intros x [->|Hx]%elem_of_cons; auto. Qed.

(** *** The handlers *)

Abbreviation inv := (preserves node_inv).

Lemma pres_do_stop : inv do_stop.
Proof. apply pres_meta_do. intros c Hc. eapply meta_ok_same; [done|]. by cbv. Qed.

Lemma received_payload k msg m h : msg ∈ hist → getMsgType k = Ok (handler_type h) →
  MsgType msg = handler_type h → gob_decode k (Payload msg) = Ok m → received k m.
Proof. intros Hm Hk Ht Hd. exists msg. by rewrite Ht. Qed.

Lemma pres_push {A} (push : A → MsgPool → result MsgPool) (e : A → event) (grow : A → msgLog → msgLog) m :
  (∀ c g mp, push m (msgPool c) = Ok mp → mstep (e m) (c, g) (c <| msgPool := mp |>, grow m g)) →
  (∀ g, log_from hist g → log_from hist (grow m g)) →
  inv (meta_try (λ c, let* mp := push m (msgPool c) in Ok (c <| msgPool := mp |>))).
Proof.
  intros Hstep Hlog. apply pres_meta_try. intros c c' (g & Hr & Hl) (mp & Hp & [= <-])%rbind_ok.
  eapply meta_ok_step; [exact Hr | by apply Hstep | by apply Hlog].
Qed.

Lemma pres_do_prepare p : (∀ m, gob_decode KPrepare p = Ok m → received KPrepare m) → inv (do_prepare p).
Proof.
  intros Hp. apply pres_lift_bind. intros m Hm%Hp. apply pres_meta_get_bind. intros c _.
  case_decide; [apply pres_ret|].
  apply (pres_push PushPrepareMsg EvPrepare (λ m g, mkMsgLog (log_pp g) (m :: log_p g) (log_c g))).
  - intros. by constructor.
  - intros. by apply log_from_p.
Qed.

Lemma pres_do_commit p : (∀ m, gob_decode KCommit p = Ok m → received KCommit m) → inv (do_commit p).
Proof.
  intros Hp. apply pres_lift_bind. intros m Hm%Hp. apply pres_meta_get_bind. intros c _.
  case_decide; [apply pres_ret|].
  apply (pres_push PushCommitMsg EvCommit (λ m g, mkMsgLog (log_pp g) (log_p g) (m :: log_c g))).
  - intros. by constructor.
  - intros. by apply log_from_c.
Qed.

Lemma pres_do_preprepare p :
  (∀ m, gob_decode KPreprepare p = Ok m → received KPreprepare m) → inv (do_preprepare p).
Proof.
  intros Hp. apply pres_lift_bind. intros m Hm%Hp. apply pres_meta_get_bind. intros c _.
  case_decide; [apply pres_ret|].
  apply pres_bind; [apply pres_wrap; by intros n r n' Hn [= _ <-]|]. intros [].
  intros n r n' (H1 & (g & Hr & Hl) & H3). unfold st_bind, meta_try, meta_do, on_meta, st_zoom.
  destruct (PushPreprepareMsg m (msgPool (pbftMeta n))) as [mp|e|] eqn:E; cbn; intros [= _ <-].
  - split_and!; [done| |done]. eapply meta_ok_step; [exact Hr | by apply mstep_preprepare | by apply log_from_pp].
  - split_and!; [done| by exists g |done].
  - split_and!; [done| by exists g |done].
Qed.

Lemma pres_do_catchup_req p : inv (do_catchup_req p).
Proof.
  unfold do_catchup_req. apply pres_bind; [apply pres_wrap, pres_lift|]. intros m.
  apply pres_get_bind. intros n _. apply pres_bind; [apply pres_wrap, pres_lift|]. intros bs.
  apply pres_bind; [apply pres_wrap, pres_lift|]. intros w. apply pres_on_shard, pres_send.
Qed.

(** Adding a block the leader is known to have sent. *)
Lemma framed_step b s s' : certified cfg hist b ∨ caught_up hist b →
  block_added b (chain s) (chain s') → buffer (conn s') = buffer (conn s) →
  framed chain_ok s → framed chain_ok s'.
Proof.
  intros Hb Ha Hbuf [H1 H2]. split; [|by rewrite Hbuf]. eapply rtc_r; [exact H1|]. by exists b.
Qed.

Lemma pres_do_catchup_resp p :
  (∀ m, gob_decode KCatchupResp p = Ok m → received KCatchupResp m) → inv (do_catchup_resp p).
Proof.
  intros Hp. apply pres_lift_bind. intros m Hm%Hp. apply pres_meta_get_bind. intros c Hc.
  case_decide as Hl; [apply pres_fail|]. destruct (negb _); [apply pres_fail|].
  apply pres_bind.
  - apply pres_for. intros q Hq n r n' Hn. unfold add_caught_up, st_bind, st_lift.
    destruct (P_Block q) as [b|] eqn:Eb; cbn [or_panic]; [|by intros [= _ <-]].
    revert n r n' Hn. apply pres_wrap, pres_on_shard. intros s r s' Hs.
    intros (c' & E & ->)%st_zoom_ok.
    apply (framed_step b s); [right | left | done | exact Hs].
    + exists m, q. split_and!; [done| |done..]. by rewrite <- (meta_ok_leader c Hc).
    + change (c' = (AddBlock b (chain s)).2). by rewrite E.
  - intros _. apply pres_meta_do. intros c1 (g & Hr & Hg). by eapply meta_ok_step; [|apply mstep_catchup|].
Qed.

Lemma pres_outside msg : inv (n_HandleMsgOutsideShard msg).
Proof.
  apply (pres_at node_inv (λ n, on_shard (if n_dynamic n then _ else _))). intros n. apply pres_on_shard.
  destruct (n_dynamic n); [apply pres_CLPA_Handle | apply pres_Static_Handle].
Qed.

Lemma pres_handleMessage msg : msg ∈ hist → inv (handleMessage msg).
Proof.
  intros Hm n r n' Hn. unfold handleMessage. destruct (pbftMsgHandler n !! MsgType msg) as [h|] eqn:Eh.
  - apply Hn in Eh. revert n r n' Hn. apply pres_wrap. destruct h; cbn [run_handler].
    + apply pres_do_stop.
    + apply pres_do_preprepare. intros m. by apply received_payload with handlePreprepare.
    + apply pres_do_prepare. intros m. by apply received_payload with handlePrepare.
    + apply pres_do_commit. intros m. by apply received_payload with handleCommit.
    + apply pres_do_catchup_req.
    + apply pres_do_catchup_resp. intros m. by apply received_payload with handleCatchupResp.
  - clear Eh. revert n r n' Hn. apply pres_wrap, pres_outside.
Qed.

(** *** Stages *)

Lemma certificate_certified c g pp b : reachable cfg lp (c, g) → log_from hist g →
  commit_certificate c g pp → P_Block (pp_P pp) = Some b → certified cfg hist b.
Proof.
  intros (_ & _ & _ & Hf & _)%reachable_inv (L1 & L2 & L3) (C1 & C2 & C3 & P & C & C4 & C5 & C6 & C7) Hb.
  exists pp, P, C. unfold quorum in *. rewrite Hf in *. rewrite C2. split_and!; auto.
  - intros i (m & Hm & ?)%C6. exists m. split; auto.
  - intros i (m & Hm & ?)%C7. exists m. split; auto.
Qed.

Lemma pres_commit now l p : (∀ b, P_Block p = Some b → certified cfg hist b) →
  inv (n_ProposalCommitAndDeliver cfg resolver now l (Some p)).
Proof.
  intros Hp. apply (pres_at node_inv (λ n, on_shard (if n_dynamic n then _ else _))). intros n.
  apply pres_on_shard. intros s r s' Hs H.
  apply (ProposalCommit_chain cfg resolver (n_tbo n) (n_dynamic n) now l (Some p)) in H as [Hb [Hc|(b & E & Hc)]].
  - unfold framed. rewrite Hb, Hc. exact Hs.
  - eapply (framed_step b s); [left; by apply Hp | done..].
Qed.

Lemma pres_broadcast k m : inv (broadcastMsgInnerShard resolver k m).
Proof.
  unfold broadcastMsgInnerShard. apply pres_bind; [apply pres_wrap, pres_lift|]. intros w.
  apply pres_bind; [apply pres_meta_get|]. intros c.
  apply pres_bind; [apply pres_wrap, pres_lift|]. intros l. apply pres_on_shard, pres_group.
Qed.

Lemma pres_prepareBroadcast : inv (prepareBroadcast resolver).
Proof.
  unfold prepareBroadcast. apply pres_bind; [apply pres_meta_get|]. intros c.
  apply pres_bind; [apply pres_lift|]. intros. apply pres_broadcast.
Qed.
Lemma pres_commitBroadcast : inv (commitBroadcast resolver).
Proof.
  unfold commitBroadcast. apply pres_bind; [apply pres_meta_get|]. intros c.
  apply pres_bind; [apply pres_lift|]. intros. apply pres_broadcast.
Qed.

Lemma pres_recordBlock p : inv (recordBlock p).
Proof.
  unfold recordBlock. apply pres_bind; [apply pres_lift|]. intros b.
  apply pres_bind; [apply pres_wrap, pres_lift|]. intros line. apply pres_wrap, pres_on_csw.
Qed.

Lemma pres_stage_turn now u : inv (stage_turn cfg resolver now u).
Proof.
  intros n r n' (H1 & (g & Hr & Hg) & H3). unfold stage_turn, st_bind at 1, st_wrap at 1, on_meta, st_zoom.
  destruct (step2Next (pbftMeta n)) as [x c'] eqn:E.
  assert (node_inv (n <| pbftMeta := c' |>)) as Hn1.
  { split_and!; [done| |done]. eapply meta_ok_step; [exact Hr | by constructor | exact Hg]. }
  destruct x as [[o w]|e|]; cbn [wrap_err]; [|by intros [= _ <-]..].
  case_decide; [by intros [= _ <-]|]. case_decide as Hw.
  - subst w. assert (∃ pp, commit_certificate (pbftMeta n) g pp ∧ lastProposal c' = Some (pp_P pp))
      as (pp & Hpp & Hlast).
    { pose proof (step2Next_cases _ _ _ E) as [(? & _)|[(? & _)|[(pp & [= ->] & _)|[(_ & Hs)|(? & _)]]]];
        try discriminate; [|exfalso; set_solver].
      apply (commit_transition_spec cfg lp) with (g := g) in E as (pp' & ? & _ & ? & _); [|done]. by exists pp'. }
    change (meta_get id ?n) with (Ok (pbftMeta n), n).
    intros Hk. cbn in Hk. rewrite Hlast in Hk.
    refine ((_ : inv _) _ r n' Hn1 Hk). apply pres_bind.
    + apply pres_wrap, pres_commit. intros b. by apply certificate_certified with (pbftMeta n) g.
    + intros _. destruct (is_leader _); [|apply pres_ret].
      apply pres_bind; [apply pres_wrap, pres_recordBlock | intros; apply pres_ret].
  - revert Hn1. generalize (n <| pbftMeta := c' |>). intros n1 Hn1. revert n1 r n' Hn1.
    case_decide; [|case_decide; [|apply pres_fail]].
    + apply pres_bind; [apply pres_wrap, pres_prepareBroadcast | intros; apply pres_ret].
    + apply pres_bind; [apply pres_wrap, pres_commitBroadcast | intros; apply pres_ret].
Qed.

(** *** Proposing, catching up, and the loop *)

Lemma pres_propose now : inv (propose cfg lp resolver now).
Proof.
  unfold propose. apply pres_meta_get_bind. intros c _. case_decide; [apply pres_ret|].
  apply pres_bind.
  - apply pres_wrap. apply (pres_at node_inv (λ n, on_shard (if n_dynamic n then _ else _))). intros n.
    apply pres_on_shard. destruct (n_dynamic n); [apply pres_Dynamic_BuildProposal | apply pres_Static_BuildProposal].
  - intros [p|]; [|apply pres_ret]. apply pres_bind; [apply pres_wrap, pres_lift|]. intros d.
    apply pres_meta_get_bind. intros c1 _. apply pres_bind; [apply pres_wrap, pres_broadcast|]. intros _.
    apply pres_meta_do. intros c2 Hc. eapply meta_ok_same; [done|]. by cbv.
Qed.

Lemma pres_catchUpStart : inv (catchUpStart resolver).
Proof.
  unfold catchUpStart. apply pres_get_bind. intros n _. apply pres_bind; [apply pres_wrap, pres_lift|]. intros ld.
  apply pres_bind; [apply pres_wrap, pres_lift|]. intros w. apply pres_bind; [apply pres_on_shard, pres_send|].
  intros _. apply pres_meta_do. intros c2 Hc. eapply meta_ok_same; [done|]. by cbv.
Qed.

Lemma pres_drain_bind {B} (k : list WrappedMsg → M Node B) :
  (∀ msgs, (∀ w, w ∈ msgs → w ∈ hist) → inv (k msgs)) → inv (let! msgs := drain in k msgs).
Proof.
  intros Hk n r n' (H1 & H2 & H3 & H4). cbn. apply Hk; [done|]. split_and!; [done..|].
  split; [done|]. cbn. set_solver.
Qed.

Lemma pres_run_pass now : inv (run_pass cfg lp resolver now).
Proof.
  unfold run_pass. apply pres_meta_get_bind. intros c _. destruct (closed c); [apply pres_ret|].
  apply pres_drain_bind. intros msgs Hm. apply pres_bind.
  { apply pres_for. intros w Hw. apply pres_logged, pres_handleMessage. by apply Hm. }
  intros _. apply pres_bind.
  { apply pres_meta_try. intros c1 c2 (g & Hr & Hg) Hc. by eapply meta_ok_step; [|apply mstep_curate|]. }
  intros _. apply pres_bind.
  { apply pres_logged. unfold step2NextStage. apply pres_bind.
    - apply pres_iter. intros. apply pres_stage_turn.
    - intros [|]; [apply pres_ret | apply pres_fail]. }
  intros _. apply pres_meta_get_bind. intros c1 _. apply pres_bind; [|intros; apply pres_ret].
  case_decide; [case_decide|case_match];
    first [apply pres_ret | apply pres_logged; apply pres_propose || apply pres_catchUpStart].
Qed.

Lemma pres_run ticks : (∀ w, w ∈ concat ticks.*1 → w ∈ hist) → inv (run cfg lp resolver ticks).
Proof.
  induction ticks as [|[ms now] ticks IH]; intros Ht; [apply pres_ret|]. cbn [run].
  apply pres_bind.
  - apply pres_on_shard. intros s r s' [Hs1 Hs2] [= _ <-]. split; [done|]. cbn.
    intros w [Hw|Hw]%elem_of_app; [by apply Hs2|]. apply Ht. set_solver.
  - intros _. apply pres_bind; [apply pres_run_pass|]. intros []; [apply pres_ret|].
    apply IH. intros w Hw. apply Ht. set_solver.
Qed.
End node_facts.

(** ** Properties *)

Section node_properties.
  Context {BL : BitSetLib} {RT : RlpTx} {RH : RlpHeader} {RP : RlpProposal} {GB : GobBlock}.
  Context {GU : GobU64} {GS : GobState} {MK : MapKeys} {RS : RangeShards} {GM : GobMsg}.
  Context {SL : StateDBLib} {EV : EVMLib} {BO : BoltLib} {TL : TrieLib}.
  Context {TF : TimeFormat} {CL : CsvLib}.

(** C1: whatever messages a node gets and whenever its ticker fires, its chain
    only ever grows by certified blocks or blocks of a catch-up.  For a node
    built by [NewPBFTNode] and any run of its loop, the chain at the end comes
    from the initial one by a sequence of [AddBlock]s (with [UpdateEpoch] after
    a migration block), each of a block that the leader proposed and 2f+1
    nodes prepared and committed with matching digest, view and sequence, or
    that the leader sent in a catch-up response; all of these messages arrived
    at the node.  Nothing else a node does (handlers, proposing, packing,
    migrating, delivering) changes its chain, and an error or a panic on the
    way does not either. *)
Theorem node_chain_certified cfg lp resolver bs ls ss file cn t0 n0 ticks r n' :
  NewPBFTNode bs ls ss file cn cfg lp t0 = Ok n0 →
  Start cfg lp resolver ticks n0 = (r, n') →
  rtc (chain_step cfg (buffer cn ++ concat ticks.*1)) (chain (n_shard n0)) (chain (n_shard n')).
Proof.
  intros Hn Hs. set (hist := buffer cn ++ concat ticks.*1).
  enough (node_inv cfg lp hist (chain (n_shard n0)) n') as (_ & _ & H & _) by exact H.
  unfold Start in Hs. cbn in Hs.
  refine (pres_run cfg lp resolver hist (chain (n_shard n0)) ticks _ _ r n' _ Hs).
  { intros w Hw. apply elem_of_app. by right. }
  unfold NewPBFTNode in Hn. repeat case_decide; try done;
    apply rbind_ok in Hn as (bc & _ & Hn); apply rbind_ok in Hn as (txp & _ & Hn);
    apply rbind_ok in Hn as (tbo & _ & Hn); cbn in Hn; try done; injection Hn as <-.
  all: split_and!; [|exists emptyLog; split; [constructor|by split_and!; intros ? ?%not_elem_of_nil]|].
  1, 3: intros t h; cbn; rewrite !lookup_insert_Some, lookup_empty; destruct h; naive_solver.
  all: split; [constructor|]; intros w Hw; apply elem_of_app; by left.
Qed.

Lemma same_meta_shard {A} c (m : M ShardState A) : preserves (λ n, pbftMeta n = c) (on_shard m).
Proof. by apply pres_zoom. Qed.

Lemma same_meta_broadcast c resolver k m :
  preserves (λ n, pbftMeta n = c) (broadcastMsgInnerShard resolver k m).
Proof.
  unfold broadcastMsgInnerShard. apply pres_bind; [apply pres_wrap, pres_lift|]. intros w.
  apply pres_bind; [by intros n r n' Hn [= _ <-]|]. intros c'.
  apply pres_bind; [apply pres_wrap, pres_lift|]. intros l. apply same_meta_shard.
Qed.

Lemma stage_turn_measure cfg resolver now u n u' n' :
  stage_turn cfg resolver now u n = (Ok (inl u'), n') →
  (stage (pbftMeta n) = stagePreprepare ∧ stage (pbftMeta n') = stagePrepare) ∨
  (stage (pbftMeta n) = stagePrepare ∧ stage (pbftMeta n') = stageCommit).
Proof.
  intros ([o w] & n1 & H1 & H)%st_bind_ok.
  apply st_wrap_ok, st_zoom_ok in H1 as (c' & E & ->).
  case_decide; [done|]. case_decide.
  { apply st_bind_ok in H as (? & ? & _ & H).
    apply st_bind_ok in H as (? & ? & _ & H). case_match; [|done].
    by apply st_bind_ok in H as (? & ? & _ & ?). }
  assert (pbftMeta n' = c') as ->.
  { repeat case_decide; [| |done]; apply st_bind_ok in H as (? & n2 & Hb%st_wrap_ok & [= _ <-]);
      (unfold prepareBroadcast in Hb || unfold commitBroadcast in Hb);
      apply st_bind_ok in Hb as (? & ? & [= _ <-] & Hb);
      apply st_bind_ok in Hb as (? & ? & (_ & ->)%st_lift_ok & Hb);
      (eapply same_meta_broadcast; [|exact Hb]; done). }
  apply step2Next_cases in E as [([= -> ->] & -> & _ & ->)|[([= -> ->] & -> & _ & ->)|[(? & [= -> ->] & _)|[(_ & Hs)|(? & _)]]]];
    [by left | by right | done | exfalso; set_solver | done].
Qed.

(** C16: the [for] loop of [step2NextStage] stops: from any state it makes at
    most two turns that go on (prepare, commit) and the third returns or fails,
    so the model's three turns never run out, and more fuel makes no
    difference. *)
Theorem step2NextStage_total cfg resolver now n fuel : (3 ≤ fuel)%nat →
  (st_iter (stage_turn cfg resolver now) 3 tt n).1 ≠ Ok None ∧
  st_iter (stage_turn cfg resolver now) fuel tt n = st_iter (stage_turn cfg resolver now) 3 tt n.
Proof.
  intros Hf.
  destruct (st_iter_total (stage_turn cfg resolver now)
    (λ n, if decide (stage (pbftMeta n) = stagePreprepare) then 2
          else if decide (stage (pbftMeta n) = stagePrepare) then 1 else 0)%nat (λ _, True)) with (fuel := 3%nat) (a := tt) (s := n)
    as [H1 H2].
  - intros u s u' s' _ [[-> ->]|[-> ->]]%stage_turn_measure; split; try done; vm_compute; lia.
  - done.
  - repeat case_decide; lia.
  - split; [done|]. apply H2. repeat case_decide; lia.
Qed.

(** The kind of messages a handler takes. *)
Definition handler_kind (h : handler) : MsgKind :=
  match h with
  | handleStopConsensus => KStopConsensus
  | handlePreprepare => KPreprepare
  | handlePrepare => KPrepare
  | handleCommit => KCommit
  | handleCatchupReq => KCatchupReq
  | handleCatchupResp => KCatchupResp
  end.

Lemma handler_kind_type h : getMsgType (handler_kind h) = Ok (handler_type h).
Proof. by destruct h. Qed.

(** The table [registerHandleFunc] leaves. *)
Definition registered (n : Node) : Prop := ∀ t h, pbftMsgHandler n !! t = Some h ↔ t = handler_type h.

Lemma registerHandleFunc_registered n : pbftMsgHandler n = ∅ → registered (registerHandleFunc n).
Proof.
  intros E t h. unfold registerHandleFunc. cbn. rewrite E, !lookup_insert_Some, lookup_empty.
  destruct h; cbn; naive_solver.
Qed.

Lemma handle_registered n msg h : registered n → MsgType msg = handler_type h →
  handleMessage msg n = st_wrap "handle %s message failed" (run_handler h (Payload msg)) n.
Proof. intros Hreg E. unfold handleMessage. by rewrite (proj2 (Hreg _ h) E). Qed.

(** A message that none of the handlers takes. *)
Lemma handle_outside n msg : registered n → (∀ h, MsgType msg ≠ handler_type h) →
  handleMessage msg n = st_wrap "handleMsgOutsideShard failed" (n_HandleMsgOutsideShard msg) n.
Proof.
  intros Hreg Hno. unfold handleMessage. destruct (pbftMsgHandler n !! MsgType msg) as [h|] eqn:E; [|done].
  by apply Hreg, Hno in E.
Qed.

Lemma undecodable_handler h payload n e : h ≠ handleStopConsensus → gob_decode (handler_kind h) payload = Err e →
  ∃ e', run_handler h payload n = (Err e', n).
Proof.
  intros Hh He. destruct h; [done|..]; cbn [run_handler handler_kind] in *;
    unfold do_preprepare, do_prepare, do_commit, do_catchup_req, do_catchup_resp, st_bind, st_wrap, st_lift;
    rewrite He; cbn; by eexists.
Qed.

(** The types of messages a node takes from outside its shard. *)
Definition outside_types (n : Node) : list (string * MsgKind) :=
  (ReceiveTxsMessageType, KReceiveTxs) ::
  if n_dynamic n then [(CLPARepartitionStartMessageType, KCLPARepartitionStart); (AccountMigrationMessageType, KAccountMigration)]
  else [].

#[export] Instance MsgKind_eq_dec : EqDecision MsgKind.
Proof. solve_decision. Defined.

Lemma outside_type n t k : (t, k) ∈ outside_types n → getMsgType k = Ok t.
Proof.
  unfold outside_types. destruct (n_dynamic n); intros Hin;
    repeat (apply elem_of_cons in Hin as [[= -> ->]|Hin]; [done|]); by apply not_elem_of_nil in Hin.
Qed.

Lemma on_shard_same {A} (m : M ShardState A) n r : m (n_shard n) = (r, n_shard n) → on_shard m n = (r, n).
Proof. intros E. unfold on_shard, st_zoom. rewrite E. by destruct n. Qed.

(** From outside the shard, an unknown type and a payload that does not decode
    are errors. *)
Lemma refused_outside n msg :
  ((∀ k, (MsgType msg, k) ∉ outside_types n) ∨
   (∃ k e, (MsgType msg, k) ∈ outside_types n ∧ gob_decode k (Payload msg) = Err e)) →
  ∃ e', n_HandleMsgOutsideShard msg n = (Err e', n).
Proof.
  unfold n_HandleMsgOutsideShard, outside_types. intros H.
  enough (∃ e', (if n_dynamic n then CLPA_HandleMsgOutsideShard msg else Static_HandleMsgOutsideShard msg) (n_shard n)
    = (Err e', n_shard n)) as (e' & E) by (exists e'; by apply on_shard_same).
  unfold CLPA_HandleMsgOutsideShard, Static_HandleMsgOutsideShard, receive_txs.
  destruct H as [Hno|(k & e & Hin & He)].
  - assert (MsgType msg ≠ ReceiveTxsMessageType) by (intros E; apply (Hno KReceiveTxs); rewrite E; by left).
    destruct (n_dynamic n); [|rewrite decide_False by done; by eexists].
    assert (MsgType msg ≠ CLPARepartitionStartMessageType)
      by (intros E; apply (Hno KCLPARepartitionStart); rewrite E; right; by left).
    assert (MsgType msg ≠ AccountMigrationMessageType)
      by (intros E; apply (Hno KAccountMigration); rewrite E; do 2 right; by left).
    rewrite !decide_False by done. by eexists.
  - destruct (n_dynamic n); repeat (apply elem_of_cons in Hin as [[= -> ->]|Hin]);
      try (by apply not_elem_of_nil in Hin); repeat (rewrite decide_False by done); rewrite decide_True by done;
      unfold st_bind, st_wrap, st_lift; rewrite He; cbn; by eexists.
Qed.

(** C15: what a node does with a message it cannot use.  Let its handlers be
    registered.  A message of any type but the stop message whose payload does
    not decode, and a message of a type that neither a handler nor, in this
    sharding mode, the handler of messages from outside takes, is an error and
    changes nothing; the stop message is never decoded and always closes the
    node; a preprepare, prepare or commit of an earlier view or sequence is
    ignored; and a proposal without a block panics the node when its preprepare
    is not out of date, in both sharding modes. *)
Theorem handlers_refuse n msg : registered n →
  (∀ k e, MsgType msg ≠ StopConsensusMessageType → getMsgType k = Ok (MsgType msg) →
     gob_decode k (Payload msg) = Err e → ∃ e', handleMessage msg n = (Err e', n)) ∧
  ((∀ h, MsgType msg ≠ handler_type h) → (∀ k, (MsgType msg, k) ∉ outside_types n) →
     ∃ e', handleMessage msg n = (Err e', n)) ∧
  (MsgType msg = StopConsensusMessageType →
     handleMessage msg n = (Ok tt, n <| pbftMeta ::= λ c, c <| closed := true |> |>)) ∧
  (∀ m, MsgType msg = PreprepareMessageType → gob_decode KPreprepare (Payload msg) = Ok m →
     0 < Compare (curViewSeq (pbftMeta n)) (pp_vs m) → handleMessage msg n = (Ok tt, n)) ∧
  (∀ m, MsgType msg = PrepareMessageType → gob_decode KPrepare (Payload msg) = Ok m →
     0 < Compare (curViewSeq (pbftMeta n)) (p_vs m) → handleMessage msg n = (Ok tt, n)) ∧
  (∀ m, MsgType msg = CommitMessageType → gob_decode KCommit (Payload msg) = Ok m →
     0 < Compare (curViewSeq (pbftMeta n)) (c_vs m) → handleMessage msg n = (Ok tt, n)) ∧
  (∀ m, MsgType msg = PreprepareMessageType → gob_decode KPreprepare (Payload msg) = Ok m →
     P_Block (pp_P m) = None → Compare (curViewSeq (pbftMeta n)) (pp_vs m) ≤ 0 →
     (handleMessage msg n).1 = Panic).
Proof.
  intros Hreg. split_and!.
  - intros k e Hns Hk He. destruct (pbftMsgHandler n !! MsgType msg) as [h|] eqn:Eh.
    + apply Hreg in Eh. assert (k = handler_kind h) as ->.
      { eapply getMsgType_inj; [exact Hk|]. by rewrite Eh, handler_kind_type. }
      rewrite (handle_registered n msg h Hreg Eh).
      destruct (undecodable_handler h (Payload msg) n e) as [e' E]; [intros ->; by apply Hns|done|].
      unfold st_wrap. rewrite E. cbn. by eexists.
    + rewrite (handle_outside n msg Hreg) by (intros h Ht%Hreg; congruence).
      destruct (refused_outside n msg) as [e' E]; [|unfold st_wrap; rewrite E; cbn; by eexists].
      destruct (decide ((MsgType msg, k) ∈ outside_types n)) as [Hin|Hno]; [right; by exists k, e|].
      left. intros k' Hin. assert (k' = k) as ->; [|done].
      eapply getMsgType_inj; [|exact Hk]. by eapply outside_type.
  - intros Hno Hout. rewrite (handle_outside n msg Hreg Hno).
    destruct (refused_outside n msg) as [e' E]; [by left|]. unfold st_wrap. rewrite E. cbn. by eexists.
  - intros Ht. by rewrite (handle_registered n msg handleStopConsensus Hreg Ht).
  - intros m Ht Hm Hc. rewrite (handle_registered n msg handlePreprepare Hreg Ht).
    cbn [run_handler]. unfold do_preprepare, st_bind, st_wrap, st_lift. rewrite Hm. cbn. by rewrite decide_True.
  - intros m Ht Hm Hc. rewrite (handle_registered n msg handlePrepare Hreg Ht).
    cbn [run_handler]. unfold do_prepare, st_bind, st_wrap, st_lift. rewrite Hm. cbn. by rewrite decide_True.
  - intros m Ht Hm Hc. rewrite (handle_registered n msg handleCommit Hreg Ht).
    cbn [run_handler]. unfold do_commit, st_bind, st_wrap, st_lift. rewrite Hm. cbn. by rewrite decide_True.
  - intros m Ht Hm Hb Hc. rewrite (handle_registered n msg handlePreprepare Hreg Ht).
    cbn [run_handler]. unfold do_preprepare, st_bind, st_wrap, st_lift. rewrite Hm. cbn.
    rewrite decide_False by (unfold pp_vs in Hc; lia). unfold n_ValidateProposal.
    destruct (n_dynamic n); unfold Dynamic_ValidateProposal, Static_ValidateProposal, deref_block; cbn; by rewrite Hb.
Qed.
End node_properties.

(** ** A concrete round: the leader of a shard of four nodes *)

Module NodeDemo.
Export ChainDemo CsvDemo.
#[export] Instance demo_gob_block : GobBlock := gob_any.
#[export] Instance shards : RangeShards := λ m, (map_to_list m).*1.
#[export] Instance rlp_p : RlpProposal := λ _, Ok (str "p").
#[export] Instance time_f : TimeFormat := λ _, "t".

Definition digest : bytes := str "d".
Definition block1 : Block := next body emptyMigrationOpt genesis.
(** Messages of the first round, a vote by its sender. *)
#[export] Instance gob_m : GobMsg := {|
  gob_encode k m := Ok (str match getMsgType k with Ok t => t | _ => "" end);
  gob_decode k p :=
    match k return result (msg_of k) with
    | KPreprepare => Ok (mkPreprepareMsg (mkProposal (Some block1)) digest 0 0 0 0)
    | KPrepare => Ok (mkPrepareMsg digest 0 0 0 (be_to_Z p))
    | KCommit => Ok (mkCommitMsg digest 0 0 0 (be_to_Z p))
    | _ => Err "unsupported"
    end;
|}.
Definition cfg : ConsensusNodeCfg :=
  mkConsensusNodeCfg (mkSystemCfg 2 4 StaticRelayConsensus 100) bloom_cfg TxPoolNumType 0.
Definition topo : TopoGetter := SetTopoGetter [(0, [0; 1; 2; 3]); (1, [0; 1; 2; 3])] (NewTopoGetter ∅ ∅).
Definition vote (t : string) (i : Z) : WrappedMsg := mkWrappedMsg t (Z_to_be 1 i).
Definition votes (voters : list Z) : list WrappedMsg :=
  vote PreprepareMessageType 0 :: map (vote PrepareMessageType) voters ++ map (vote CommitMessageType) voters.
Definition no_file : Csw := ("blocks.csv", []).
Definition built : result Node :=
  NewPBFTNode bolt0 (mkEthTrieDB ∅ emptyRoot) {[EmptyRootHash := ∅]} no_file (mkConn [] []) cfg lp 7.
Definition node0 : Node :=
  force (mkNode (mkShardState dummyChain (mkTxPool [] packTxsByGivenNum TxPoolNumType)
    (NewAccMigrateMetadata (cn_Sys cfg) lp) (mkConn [] [])) (newConsensusMeta cfg lp 7) no_file false RelayTxBlockOp ∅) built.
(** Two ticks: too few votes, and then a quorum. *)
Definition ticks : list (list WrappedMsg * Time) := [(votes [0; 1], 10); (votes [2], 11)].
Definition after1 := Start cfg lp topo ticks node0.
End NodeDemo.

Module NodeWitness.
Import NodeDemo.

Lemma node_chain_certified_witness :
  Number (GetCurHeader (chain (n_shard node0))) = 1 ∧ Number (GetCurHeader (chain (n_shard after1.2))) = 2 ∧
  rtc (chain_step cfg (votes [0; 1] ++ votes [2])) (chain (n_shard node0)) (chain (n_shard after1.2)).
Proof.
  split; [vm_compute; reflexivity|]. split; [vm_compute; reflexivity|].
  apply (node_chain_certified cfg lp topo bolt0 (mkEthTrieDB ∅ emptyRoot) {[EmptyRootHash := ∅]} no_file
    (mkConn [] []) 7 node0 ticks after1.1 after1.2).
  - apply force_ok. vm_compute. reflexivity.
  - apply surjective_pairing.
Defined.

(** A vote for an earlier round, an unknown type, a payload that does not
    decode, and the stop message. *)
Lemma handlers_refuse_witness :
  let n := registerHandleFunc node0 in let later := after1.2 in
  handleMessage (vote CommitMessageType 1) later = (Ok tt, later) ∧
  (∃ e', handleMessage (mkWrappedMsg "Hello" []) n = (Err e', n)) ∧
  (∃ e', handleMessage (vote CatchupReqMessageType 1) n = (Err e', n)) ∧
  closed (pbftMeta (handleMessage (mkWrappedMsg StopConsensusMessageType []) n).2) = true.
Proof.
  cbn zeta. assert (registered (registerHandleFunc node0)) as Hreg.
  { apply registerHandleFunc_registered. vm_compute. reflexivity. }
  assert (registered after1.2) as Hlater.
  { intros t h. replace (pbftMsgHandler after1.2) with (pbftMsgHandler (registerHandleFunc node0))
      by (vm_compute; reflexivity). apply Hreg. }
  split; [|split; [|split]].
  - destruct (handlers_refuse after1.2 (vote CommitMessageType 1) Hlater) as (_ & _ & _ & _ & _ & H & _).
    apply (H (mkCommitMsg digest 0 0 0 1)); vm_compute; reflexivity.
  - destruct (handlers_refuse _ (mkWrappedMsg "Hello" []) Hreg) as (_ & H & _). apply H.
    + intros []; discriminate.
    + intros k Hk. apply (outside_type _ _ _) in Hk. destruct k; discriminate Hk.
  - destruct (handlers_refuse _ (vote CatchupReqMessageType 1) Hreg) as (H & _).
    apply (H KCatchupReq "unsupported"); [discriminate|reflexivity|reflexivity].
  - destruct (handlers_refuse _ (mkWrappedMsg StopConsensusMessageType []) Hreg) as (_ & _ & H & _).
    rewrite H; reflexivity.
Defined.

Lemma step2NextStage_total_witness :
  (st_iter (stage_turn cfg topo 9) 3 tt node0).1 ≠ Ok None.
Proof. apply (step2NextStage_total cfg topo 9 node0 3). lia. Defined.
End NodeWitness.
