(* ===== verification/Broker.v ===== *)
(** * The broker manager

    Models pkg/broker/broker.go: the brokers read from a file, and the table of
    cross-shard transactions in progress with the two queues of transactions
    that are ready to be sent.

    The table is keyed by the hash of the original transaction; its entries are
    pointers nobody else holds, so they are values here.  A random choice is an
    argument.  The lines of the broker file are what the scanner yields. *)

From S2P Require Import Prelude GoStrings GoHash Account Bloom Block Utils Config StateDB TxExecute Storage Chain.
From Stdlib Require Import Lia Ascii.

Local Open Scope Z_scope.

(** ** The manager *)

Definition stageWaitConfirm1 : Z := 1.
Definition stageWaitConfirm2 : Z := 2.

Record txInfoStage := mkTxInfoStage { rawTx : Transaction; confirmStage : Z }.
#[export] Instance txInfoStage_eta : Eta txInfoStage := λ i, mkTxInfoStage (rawTx i) (confirmStage i).

Record Manager := mkManager {
  broker2Nonce : gmap Address Z;
  unconfirmedTxInfo : gmap bytes txInfoStage;
  readyBroker1TxHashes : list bytes;
  readyBroker2TxHashes : list bytes;
  bm_cfg : BrokerModuleCfg;
  brokers : list Address;
}.
#[export] Instance Manager_eta : Eta Manager := λ m,
  mkManager (broker2Nonce m) (unconfirmedTxInfo m) (readyBroker1TxHashes m) (readyBroker2TxHashes m)
    (bm_cfg m) (brokers m).

(** The loop over the lines: the brokers, and whether it stopped at the limit. *)
Fixpoint read_lines (limit : Z) (lines : list string) (brokerSet : gmap Address Z)
    : result (gmap Address Z * bool) :=
  match lines with
  | [] => Ok (brokerSet, false)
  | line :: lines' =>
    let line := strings_TrimSpace line in
    if decide (line = "") then read_lines limit lines' brokerSet
    else
      let* addr := wrap_err "invalid broker address %q" (Hex2Addr line) in
      let brokerSet := <[addr := 0]> brokerSet in
      if decide (limit ≤ Z.of_nat (size brokerSet)) then Ok (brokerSet, true)
      else read_lines limit lines' brokerSet
  end.

(** [file]: the error of opening it, or its lines and the error that ended the scan. *)
Definition readBrokersFromFile (cfg : BrokerModuleCfg) (file : result (list string * option error))
    : result (gmap Address Z) :=
  let* '(lines, scanErr) := wrap_err "open broker file" file in
  let* '(brokerSet, stopped) := read_lines (BrokerNum cfg) lines ∅ in
  match stopped, scanErr with
  | false, Some e => wrap_err "read broker file" (Err e)
  | _, _ => Ok brokerSet
  end.

Section broker.
  Context {RT : RlpTx} {MK : MapKeys}.

Definition NewBrokerManager (cfg : BrokerModuleCfg) (file : result (list string * option error))
    : result Manager :=
  let* bs := wrap_err "read brokers" (readBrokersFromFile cfg file) in
  Ok (mkManager bs ∅ [] [] cfg (maps_Keys bs)).

Definition IsBroker (m : Manager) (a : Address) : bool := bool_decide (is_Some (broker2Nonce m !! a)).
Definition GetBrokers (m : Manager) : list Address := brokers m.

Definition CreateRawTx (tx : Transaction) (brokerAddr : Address) : M Manager Transaction :=
  let! th := st_wrap "calc hash" (st_lift (tx_Hash tx)) in
  let! m := st_get in
  if negb (IsBroker m brokerAddr) then st_fail "%x is not a broker address"
  else if decide (is_Some (unconfirmedTxInfo m !! th)) then
    st_fail "tx hash %x already exists in the unconfirmed tx set"
  else
    let nonce := wrap_u64 (default 0 (broker2Nonce m !! brokerAddr) + 1) in
    let rawTx := tx <| BrokerOpt :=
      mkBrokerTxOpt RawTxBrokerStage brokerAddr th (CreateTime tx) nonce 0 0 |> in
    st_put (m <| broker2Nonce := <[brokerAddr := nonce]> (broker2Nonce m) |>
              <| unconfirmedTxInfo := <[th := mkTxInfoStage rawTx stageWaitConfirm1]> (unconfirmedTxInfo m) |>
              <| readyBroker1TxHashes := readyBroker1TxHashes m ++ [th] |>) ;;!
    st_ret rawTx.

(** [intn i n]: the value of [rand.Intn(n)] for transaction [i]. *)
Fixpoint create_raw_txs (intn : nat → Z → Z) (i : nat) (txs : list Transaction) : M Manager (list Transaction) :=
  match txs with
  | [] => st_ret []
  | tx :: txs' =>
    let! m := st_get in
    if decide (brokers m = []) then st_lift Panic
    else
      let! b := st_lift (idx (brokers m) (intn i (Z.of_nat (length (brokers m))))) in
      let! raw := st_wrap "CreateRawTx failed" (CreateRawTx tx b) in
      let! raws := create_raw_txs intn (S i) txs' in
      st_ret (raw :: raws)
  end.
Definition CreateRawTxsRandomBroker (intn : nat → Z → Z) (txs : list Transaction)
    : M Manager (list Transaction) := create_raw_txs intn 0 txs.

(** [createBroker1Tx] and [createBroker2Tx] *)
Definition create_broker_tx (waits : Z) (notWaiting : error) (stage : Z) (now : Time) (m : Manager) (txHash : bytes)
    : result Transaction :=
  match unconfirmedTxInfo m !! txHash with
  | None => Err "not a recorded raw tx"
  | Some infoStage =>
    if decide (confirmStage infoStage ≠ waits) then Err notWaiting
    else Ok ((rawTx infoStage) <| BrokerOpt ::= λ o, o <| BrokerStage := stage |> |> <| CreateTime := now |>)
  end.
Definition notWaiting1 : error := "invalid confirm stage = %d, expect wait-confirm-1".
Definition notWaiting2 : error := "invalid confirm stage = %d, expect wait-confirm-2".
Definition createBroker1Tx := create_broker_tx stageWaitConfirm1 notWaiting1 Sigma1BrokerStage.
Definition createBroker2Tx := create_broker_tx stageWaitConfirm2 notWaiting2 Sigma2BrokerStage.

(** An error of one transaction is logged and the loop goes on. *)
Definition created (r : result Transaction) : option Transaction :=
  match r with Ok tx => Some tx | _ => None end.

Definition CreateBrokerTxs (now : Time) (m : Manager) : (list Transaction * list Transaction) * Manager :=
  let b1Txs := omap (λ h, created (createBroker1Tx now m h)) (readyBroker1TxHashes m) in
  let b2Txs := omap (λ h, created (createBroker2Tx now m h)) (readyBroker2TxHashes m) in
  ((b1Txs, b2Txs), m <| readyBroker1TxHashes := [] |> <| readyBroker2TxHashes := [] |>).

Definition ConfirmBrokerTx (tx : Transaction) : M Manager unit :=
  let! m := st_get in
  if negb (IsBroker m (tx_Broker tx)) then st_fail "%x is not a broker address"
  else
    let h := tx_BOriginalHash tx in
    match unconfirmedTxInfo m !! h with
    | None => st_fail "not a recorded tx"
    | Some infoStages =>
      if decide (confirmStage infoStages = stageWaitConfirm1) then
        if decide (tx_BrokerStage tx ≠ Sigma1BrokerStage) then
          st_fail "invalid confirm stage = %d, expect wait-confirm-1"
        else
          st_put (m <| unconfirmedTxInfo :=
                         <[h := infoStages <| confirmStage := stageWaitConfirm2 |>]> (unconfirmedTxInfo m) |>
                    <| readyBroker2TxHashes := readyBroker2TxHashes m ++ [h] |>)
      else if decide (confirmStage infoStages = stageWaitConfirm2) then
        if decide (tx_BrokerStage tx ≠ Sigma2BrokerStage) then
          st_fail "invalid confirm stage = %d, expect wait-confirm-2"
        else st_put (m <| unconfirmedTxInfo := delete h (unconfirmedTxInfo m) |>)
      else st_fail "invalid confirm stage = %d"
    end.

Definition IsFinished (m : Manager) : bool :=
  bool_decide (size (unconfirmedTxInfo m) = 0%nat ∧ readyBroker1TxHashes m = [] ∧ readyBroker2TxHashes m = []).
End broker.

(** ** The life of a cross-shard transaction *)

Inductive status := Ready1 | Wait1 | Ready2 | Wait2.

Inductive event := Created (h : bytes) | Sent1 (h : bytes) | Confirmed1 (h : bytes)
  | Sent2 (h : bytes) | Confirmed2 (h : bytes).
Definition ev_hash (e : event) : bytes :=
  match e with Created h | Sent1 h | Confirmed1 h | Sent2 h | Confirmed2 h => h end.

(** The specification: the one order of events a transaction may go through. *)
Definition next_status (s : option status) (e : event) : option (option status) :=
  match s, e with
  | None, Created _ => Some (Some Ready1)
  | Some Ready1, Sent1 _ => Some (Some Wait1)
  | Some Wait1, Confirmed1 _ => Some (Some Ready2)
  | Some Ready2, Sent2 _ => Some (Some Wait2)
  | Some Wait2, Confirmed2 _ => Some None
  | _, _ => None
  end.

(** The status after the events that are about [h]; None when they are not in order. *)
Fixpoint life (h : bytes) (s : option status) (es : list event) : option (option status) :=
  match es with
  | [] => Some s
  | e :: es' => if decide (ev_hash e = h) then s' ← next_status s e; life h s' es' else life h s es'
  end.

Section lifecycle.
  Context {RT : RlpTx} {MK : MapKeys}.

Inductive op :=
| OpCreate (tx : Transaction) (broker : Address)
| OpSend (now : Time)
| OpConfirm (tx : Transaction).

(** An operation of the manager, with the events its results tell of. *)
Definition exec (o : op) (m : Manager) : list event * Manager :=
  match o with
  | OpCreate tx b =>
    match CreateRawTx tx b m with
    | (Ok raw, m') => ([Created (tx_BOriginalHash raw)], m')
    | (_, m') => ([], m')
    end
  | OpSend now =>
    let '((b1, b2), m') := CreateBrokerTxs now m in
    (map (λ tx, Sent1 (tx_BOriginalHash tx)) b1 ++ map (λ tx, Sent2 (tx_BOriginalHash tx)) b2, m')
  | OpConfirm tx =>
    match ConfirmBrokerTx tx m with
    | (Ok _, m') =>
      ([if decide (tx_BrokerStage tx = Sigma1BrokerStage) then Confirmed1 (tx_BOriginalHash tx)
        else Confirmed2 (tx_BOriginalHash tx)], m')
    | (_, m') => ([], m')
    end
  end.

Fixpoint exec_all (ops : list op) (m : Manager) : list event * Manager :=
  match ops with
  | [] => ([], m)
  | o :: ops' => let '(es, m1) := exec o m in let '(es', m2) := exec_all ops' m1 in (es ++ es', m2)
  end.

(** Nobody confirms a broker transaction that is still waiting to be sent. *)
Definition in_time (o : op) (m : Manager) : Prop :=
  match o with
  | OpConfirm tx => tx_BOriginalHash tx ∉ readyBroker1TxHashes m ++ readyBroker2TxHashes m
  | _ => True
  end.
Fixpoint all_in_time (ops : list op) (m : Manager) : Prop :=
  match ops with [] => True | o :: ops' => in_time o m ∧ all_in_time ops' (exec o m).2 end.

(** Where the manager has a transaction. *)
Definition status_of (m : Manager) (h : bytes) : option status :=
  match unconfirmedTxInfo m !! h with
  | None => None
  | Some i =>
    if decide (confirmStage i = stageWaitConfirm1) then
      if decide (h ∈ readyBroker1TxHashes m) then Some Ready1 else Some Wait1
    else if decide (h ∈ readyBroker2TxHashes m) then Some Ready2 else Some Wait2
  end.

Record manager_inv (m : Manager) : Prop := {
  mi_nodup1 : NoDup (readyBroker1TxHashes m);
  mi_nodup2 : NoDup (readyBroker2TxHashes m);
  mi_ready1 : ∀ h, h ∈ readyBroker1TxHashes m →
    ∃ i, unconfirmedTxInfo m !! h = Some i ∧ confirmStage i = stageWaitConfirm1;
  mi_ready2 : ∀ h, h ∈ readyBroker2TxHashes m →
    ∃ i, unconfirmedTxInfo m !! h = Some i ∧ confirmStage i = stageWaitConfirm2;
  mi_entry : ∀ h i, unconfirmedTxInfo m !! h = Some i →
    tx_BOriginalHash (rawTx i) = h ∧ tx_BrokerStage (rawTx i) = RawTxBrokerStage ∧
    is_Some (broker2Nonce m !! tx_Broker (rawTx i)) ∧
    (confirmStage i = stageWaitConfirm1 ∨ confirmStage i = stageWaitConfirm2);
}.

(** The broker transaction of a hash: the recorded one at its stage. *)
Definition broker_tx_of (m : Manager) (stage : Z) (now : Time) (h : bytes) (tx : Transaction) : Prop :=
  ∃ i, unconfirmedTxInfo m !! h = Some i ∧
    tx = (rawTx i) <| BrokerOpt ::= λ o, o <| BrokerStage := stage |> |> <| CreateTime := now |>.

Lemma create_all waits msg stage now m hs :
  (∀ h, h ∈ hs → ∃ i, unconfirmedTxInfo m !! h = Some i ∧ confirmStage i = waits) →
  Forall2 (broker_tx_of m stage now) hs (omap (λ h, created (create_broker_tx waits msg stage now m h)) hs).
Proof.
  induction hs as [|h hs IH]; intros Hh; cbn; [constructor|].
  destruct (Hh h) as (i & Hi & Hw); [by left|]. unfold create_broker_tx at 1. rewrite Hi. cbn.
  rewrite decide_False by (intros []; done). cbn. constructor; [by exists i|]. apply IH.
  intros h' Hh'. apply Hh. by right.
Qed.

Lemma broker_tx_hash m stage now hs txs : manager_inv m → Forall2 (broker_tx_of m stage now) hs txs →
  map tx_BOriginalHash txs = hs.
Proof.
  intros Hm. induction 1 as [|h tx hs txs (i & Hi & ->) _ IH]; [done|]. cbn. rewrite IH. f_equal.
  apply (mi_entry m Hm h i Hi).
Qed.

Lemma life_app h s es es' : life h s (es ++ es') = s' ← life h s es; life h s' es'.
Proof.
  revert s; induction es as [|e es IH]; intros s; [done|]. cbn. case_decide; [|apply IH].
  destruct (next_status s e); [apply IH|done].
Qed.

(** Events that are not about [h], and one that is among events of distinct hashes. *)
Lemma life_other (ev : bytes → event) hs h s : (∀ x, ev_hash (ev x) = x) → h ∉ hs →
  life h s (map ev hs) = Some s.
Proof.
  intros He. induction hs as [|x hs IH]; intros Hn; [done|]. cbn. rewrite He.
  apply not_elem_of_cons in Hn as [Hx Hn]. rewrite decide_False by done. by apply IH.
Qed.
Lemma life_once (ev : bytes → event) hs h s s' : (∀ x, ev_hash (ev x) = x) → NoDup hs → h ∈ hs →
  next_status s (ev h) = Some s' → life h s (map ev hs) = Some s'.
Proof.
  intros He. induction 1 as [|x hs Hx Hnd IH]; [by intros ?%not_elem_of_nil|].
  intros [->|Hh]%elem_of_cons Hs; cbn; rewrite He.
  - rewrite decide_True by done. rewrite Hs. cbn. by apply life_other.
  - rewrite decide_False by (intros ->; done). by apply IH.
Qed.

(** The outcomes of the two calls that change the table. *)
Definition raw_tx (tx : Transaction) (b : Address) (th : bytes) (nonce : Z) : Transaction :=
  tx <| BrokerOpt := mkBrokerTxOpt RawTxBrokerStage b th (CreateTime tx) nonce 0 0 |>.

Lemma CreateRawTx_cases tx b m r m' : CreateRawTx tx b m = (r, m') →
  (∃ th nonce, r = Ok (raw_tx tx b th nonce) ∧ is_Some (broker2Nonce m !! b) ∧
     unconfirmedTxInfo m !! th = None ∧
     m' = mkManager (<[b := nonce]> (broker2Nonce m))
            (<[th := mkTxInfoStage (raw_tx tx b th nonce) stageWaitConfirm1]> (unconfirmedTxInfo m))
            (readyBroker1TxHashes m ++ [th]) (readyBroker2TxHashes m) (bm_cfg m) (brokers m)) ∨
  ((∀ x, r ≠ Ok x) ∧ m' = m).
Proof.
  unfold CreateRawTx, st_bind, st_wrap, st_lift. destruct (tx_Hash tx) as [th|e|]; cbn; [|intros [= <- <-]; by right..].
  unfold IsBroker. case_bool_decide as Hb; cbn; [|intros [= <- <-]; by right].
  case_decide as Hu; [intros [= <- <-]; by right|]. intros [= <- <-]. left. eexists th, _.
  split; [reflexivity|]. split_and!; [done| |done]. by apply eq_None_not_Some.
Qed.

Lemma ConfirmBrokerTx_cases tx m r m' : ConfirmBrokerTx tx m = (r, m') →
  (∃ i, r = Ok tt ∧ unconfirmedTxInfo m !! tx_BOriginalHash tx = Some i ∧
     confirmStage i = stageWaitConfirm1 ∧ tx_BrokerStage tx = Sigma1BrokerStage ∧
     m' = mkManager (broker2Nonce m)
            (<[tx_BOriginalHash tx := i <| confirmStage := stageWaitConfirm2 |>]> (unconfirmedTxInfo m))
            (readyBroker1TxHashes m) (readyBroker2TxHashes m ++ [tx_BOriginalHash tx]) (bm_cfg m) (brokers m)) ∨
  (∃ i, r = Ok tt ∧ unconfirmedTxInfo m !! tx_BOriginalHash tx = Some i ∧
     confirmStage i = stageWaitConfirm2 ∧ tx_BrokerStage tx = Sigma2BrokerStage ∧
     m' = mkManager (broker2Nonce m) (delete (tx_BOriginalHash tx) (unconfirmedTxInfo m))
            (readyBroker1TxHashes m) (readyBroker2TxHashes m) (bm_cfg m) (brokers m)) ∨
  ((∀ x, r ≠ Ok x) ∧ m' = m).
Proof.
  unfold ConfirmBrokerTx, st_bind, st_get. destruct (negb _); [intros [= <- <-]; by do 2 right|].
  destruct (unconfirmedTxInfo m !! _) as [i|] eqn:Ei; [|intros [= <- <-]; by do 2 right].
  case_decide as H1; case_decide as H2; try (intros [= <- <-]; by do 2 right).
  - intros [= <- <-]. left. by exists i.
  - case_decide as H3; intros [= <- <-]; [by do 2 right|]. right; left. by exists i.
Qed.

Lemma elem_snoc (x : bytes) l : x ∈ l ++ [x].
Proof. apply elem_of_app. right. by left. Qed.
Lemma elem_snoc_ne (x y : bytes) l : y ≠ x → x ∈ l ++ [y] ↔ x ∈ l.
Proof. intros Hne. rewrite elem_of_app, list_elem_of_singleton. naive_solver. Qed.

Lemma status_1 m h i : unconfirmedTxInfo m !! h = Some i → confirmStage i = stageWaitConfirm1 →
  (h ∈ readyBroker1TxHashes m → status_of m h = Some Ready1) ∧
  (h ∉ readyBroker1TxHashes m → status_of m h = Some Wait1).
Proof.
  intros Hi Hc. unfold status_of. rewrite Hi, decide_True by done.
  split; intros Hh; [by rewrite decide_True | by rewrite decide_False].
Qed.
Lemma status_2 m h i : unconfirmedTxInfo m !! h = Some i → confirmStage i = stageWaitConfirm2 →
  (h ∈ readyBroker2TxHashes m → status_of m h = Some Ready2) ∧
  (h ∉ readyBroker2TxHashes m → status_of m h = Some Wait2).
Proof.
  intros Hi Hc. unfold status_of. rewrite Hi, decide_False by (by rewrite Hc).
  split; intros Hh; [by rewrite decide_True | by rewrite decide_False].
Qed.

(** Nothing about [h] changed. *)
Lemma status_same m m' h : unconfirmedTxInfo m' !! h = unconfirmedTxInfo m !! h →
  (h ∈ readyBroker1TxHashes m' ↔ h ∈ readyBroker1TxHashes m) →
  (h ∈ readyBroker2TxHashes m' ↔ h ∈ readyBroker2TxHashes m) → status_of m' h = status_of m h.
Proof.
  intros E H1 H2. unfold status_of. rewrite E. destruct (unconfirmedTxInfo m !! h) as [i|]; [|done].
  by rewrite (decide_ext _ _ _ _ H1), (decide_ext _ _ _ _ H2).
Qed.

Lemma exec_create m tx b es m' : manager_inv m → exec (OpCreate tx b) m = (es, m') →
  manager_inv m' ∧ ∀ h, life h (status_of m h) es = Some (status_of m' h).
Proof.
  intros Hm. cbn [exec]. destruct (CreateRawTx tx b m) as [r m1] eqn:E.
  destruct (CreateRawTx_cases _ _ _ _ _ E) as [(th & nonce & -> & Hb & Hn & ->)|[Hr ->]].
  2:{ destruct r as [x|e|]; [by destruct (Hr x)|intros [= <- <-]; by split..]. }
  intros [= <- <-]. pose proof Hm as [N1 N2 R1 R2 En].
  assert (th ∉ readyBroker1TxHashes m) as Hr1 by (intros (i & ? & _)%R1; simplify_eq).
  assert (th ∉ readyBroker2TxHashes m) as Hr2 by (intros (i & ? & _)%R2; simplify_eq).
  split; [split; cbn|].
  - apply NoDup_app. split_and!; [done| |apply NoDup_singleton]. intros h Hh ->%list_elem_of_singleton. done.
  - done.
  - intros h [Hh | ->%list_elem_of_singleton]%elem_of_app.
    + rewrite lookup_insert_ne by (intros ->; done). by apply R1.
    + rewrite lookup_insert_eq. by eexists.
  - intros h Hh. rewrite lookup_insert_ne by (intros ->; done). by apply R2.
  - intros h i [[<- <-]|[Hne Hi]]%lookup_insert_Some.
    + split_and!; [done|done| |by left]. cbn. rewrite lookup_insert_eq. by eexists.
    + destruct (En h i Hi) as (? & ? & ? & ?). split_and!; try done. by apply lookup_insert_is_Some'; right.
  - intros h. cbn [life ev_hash].
    change (tx_BOriginalHash (raw_tx tx b th nonce)) with th.
    destruct (decide (th = h)) as [<-|Hne].
    + unfold status_of at 1. rewrite Hn. cbn [next_status mbind option_bind life]. f_equal. symmetry.
      eapply status_1; [apply lookup_insert_eq|done|apply elem_snoc].
    + f_equal. symmetry. apply status_same; cbn; [by rewrite lookup_insert_ne | by apply elem_snoc_ne | done].
Qed.

Lemma exec_send m now es m' : manager_inv m → exec (OpSend now) m = (es, m') →
  manager_inv m' ∧ ∀ h, life h (status_of m h) es = Some (status_of m' h).
Proof.
  intros Hm. pose proof Hm as [N1 N2 R1 R2 En]. cbn. intros [= <- <-]. split.
  { split; cbn; try done; try apply NoDup_nil_2; by intros h ?%not_elem_of_nil. }
  intros h.
  pose proof (broker_tx_hash m _ _ _ _ Hm (create_all stageWaitConfirm1 notWaiting1 Sigma1BrokerStage now m _ R1)) as E1.
  pose proof (broker_tx_hash m _ _ _ _ Hm (create_all stageWaitConfirm2 notWaiting2 Sigma2BrokerStage now m _ R2)) as E2.
  rewrite <- (map_map tx_BOriginalHash Sent1), <- (map_map tx_BOriginalHash Sent2).
  unfold createBroker1Tx, createBroker2Tx. rewrite E1, E2, life_app.
  unfold status_of. cbn. destruct (unconfirmedTxInfo m !! h) as [i|] eqn:Ei.
  - destruct (decide (confirmStage i = stageWaitConfirm1)) as [Hi|Hi].
    + assert (h ∉ readyBroker2TxHashes m) as Hn2.
      { intros (i' & Hi' & Hc)%R2. simplify_eq. rewrite Hi in Hc. done. }
      destruct (decide (h ∈ readyBroker1TxHashes m)) as [Hh|Hh].
      * rewrite (life_once Sent1 _ h _ (Some Wait1)) by done. cbn. by rewrite life_other.
      * rewrite life_other by done. cbn. by rewrite life_other.
    + assert (h ∉ readyBroker1TxHashes m) as Hn1.
      { intros (i' & Hi' & Hc)%R1. simplify_eq. }
      rewrite life_other by done. cbn. destruct (decide (h ∈ readyBroker2TxHashes m)) as [Hh|Hh].
      * by rewrite (life_once Sent2 _ h _ (Some Wait2)).
      * by rewrite life_other.
  - rewrite life_other; [|done|by intros (i & ? & _)%R1; simplify_eq]. cbn.
    rewrite life_other; [done|done|by intros (i & ? & _)%R2; simplify_eq].
Qed.

Lemma exec_confirm m tx es m' : manager_inv m → in_time (OpConfirm tx) m → exec (OpConfirm tx) m = (es, m') →
  manager_inv m' ∧ ∀ h, life h (status_of m h) es = Some (status_of m' h).
Proof.
  intros Hm Ht. cbn [exec]. cbn in Ht. apply not_elem_of_app in Ht as [Ht1 Ht2].
  destruct (ConfirmBrokerTx tx m) as [r m1] eqn:E. pose proof Hm as [N1 N2 R1 R2 En].
  destruct (ConfirmBrokerTx_cases _ _ _ _ E) as [(i & -> & Hi & Hc & Hs & ->)|[(i & -> & Hi & Hc & Hs & ->)|[Hr ->]]].
  - rewrite decide_True by done. intros [= <- <-]. set (th := tx_BOriginalHash tx) in *. split; [split; cbn|].
    + done.
    + apply NoDup_app. split_and!; [done| |apply NoDup_singleton]. intros h Hh ->%list_elem_of_singleton. done.
    + intros h Hh. rewrite lookup_insert_ne by (intros ->; done). by apply R1.
    + intros h [Hh | ->%list_elem_of_singleton]%elem_of_app.
      * rewrite lookup_insert_ne by (intros ->; done). by apply R2.
      * rewrite lookup_insert_eq. by eexists.
    + intros h j [[<- <-]|[Hne Hj]]%lookup_insert_Some; [|by apply En].
      destruct (En _ _ Hi) as (? & ? & ? & _). split_and!; try done. by right.
    + intros h. cbn [life ev_hash]. destruct (decide (th = h)) as [<-|Hne].
      * rewrite (proj2 (status_1 m th i Hi Hc) Ht1). cbn [next_status mbind option_bind life]. f_equal. symmetry.
        eapply status_2; [apply lookup_insert_eq|done|apply elem_snoc].
      * f_equal. symmetry. apply status_same; cbn; [by rewrite lookup_insert_ne | done | by apply elem_snoc_ne].
  - rewrite decide_False by (rewrite Hs; done). intros [= <- <-]. set (th := tx_BOriginalHash tx) in *.
    split; [split; cbn|]; try done.
    + intros h Hh. rewrite lookup_delete_ne by (intros ->; done). by apply R1.
    + intros h Hh. rewrite lookup_delete_ne by (intros ->; done). by apply R2.
    + intros h j [_ Hj]%lookup_delete_Some. by apply En.
    + intros h. cbn [life ev_hash]. destruct (decide (th = h)) as [<-|Hne].
      * rewrite (proj2 (status_2 m th i Hi Hc) Ht2). cbn [next_status mbind option_bind life]. f_equal.
        unfold status_of. cbn. by rewrite lookup_delete_eq.
      * f_equal. symmetry. apply status_same; cbn; [by rewrite lookup_delete_ne | done..].
  - destruct r as [[]|e|]; [by destruct (Hr tt)|intros [= <- <-]; by split..].
Qed.

Lemma exec_all_ok ops m es m' : manager_inv m → all_in_time ops m → exec_all ops m = (es, m') →
  manager_inv m' ∧ ∀ h, life h (status_of m h) es = Some (status_of m' h).
Proof.
  revert m es; induction ops as [|o ops IH]; intros m es Hm; cbn [all_in_time exec_all].
  { intros _ [= <- <-]. by split. }
  intros [Ho Hops]. destruct (exec o m) as [es1 m1] eqn:E1. destruct (exec_all ops m1) as [es2 m2] eqn:E2.
  intros [= <- <-]. cbn in Hops.
  assert (manager_inv m1 ∧ ∀ h, life h (status_of m h) es1 = Some (status_of m1 h)) as [Hm1 H1].
  { destruct o; [by eapply exec_create|by eapply exec_send|by eapply exec_confirm]. }
  destruct (IH m1 es2 Hm1 Hops E2) as [Hm2 H2]. split; [done|]. intros h. rewrite life_app, H1. cbn. apply H2.
Qed.

Lemma NewBrokerManager_inv cfg file m : NewBrokerManager cfg file = Ok m →
  manager_inv m ∧ ∀ h, status_of m h = None.
Proof.
  unfold NewBrokerManager. intros (bs & _ & [= <-])%rbind_ok. split; [|done].
  split; cbn; try apply NoDup_nil_2; by intros h ?%not_elem_of_nil || by intros h i.
Qed.

Lemma IsFinished_status m : manager_inv m → IsFinished m = true ↔ ∀ h, status_of m h = None.
Proof.
  intros [_ _ R1 R2 _]. unfold IsFinished. rewrite bool_decide_eq_true. split.
  - intros (Hs & _ & _) h. apply map_size_empty_inv in Hs. unfold status_of. by rewrite Hs, lookup_empty.
  - intros Hs. assert (unconfirmedTxInfo m = ∅) as E.
    { apply map_eq. intros h. rewrite lookup_empty. specialize (Hs h). unfold status_of in Hs.
      destruct (unconfirmedTxInfo m !! h); [|done]. by repeat case_decide. }
    rewrite E in *. split_and!; [done|..].
    + destruct (readyBroker1TxHashes m) as [|h l]; [done|]. destruct (R1 h) as (i & Hi & _); [by left|done].
    + destruct (readyBroker2TxHashes m) as [|h l]; [done|]. destruct (R2 h) as (i & Hi & _); [by left|done].
Qed.

(** C22: the broker manager takes every cross-shard transaction through one
    life.  From a fresh manager, whatever transactions are submitted, sent and
    confirmed in whatever order (a confirmation may repeat, name a wrong stage
    or an unknown transaction, but not one still waiting to be sent), the
    events of each original hash are created, broker-1 sent, broker-1
    confirmed, broker-2 sent, broker-2 confirmed, in this order and each once
    per life, and the manager's table is where the last event left it;
    [IsFinished] says that every life is over.  Sending makes exactly the
    queued broker transactions, each the recorded one at its stage, and logs no
    error. *)
Theorem manager_lifecycle cfg file m0 ops es m : NewBrokerManager cfg file = Ok m0 →
  all_in_time ops m0 → exec_all ops m0 = (es, m) →
  (∀ h, life h None es = Some (status_of m h)) ∧
  (IsFinished m = true ↔ ∀ h, status_of m h = None) ∧
  ∀ now, let '((b1Txs, b2Txs), _) := CreateBrokerTxs now m in
    Forall2 (broker_tx_of m Sigma1BrokerStage now) (readyBroker1TxHashes m) b1Txs ∧
    Forall2 (broker_tx_of m Sigma2BrokerStage now) (readyBroker2TxHashes m) b2Txs.
Proof.
  intros [Hi0 Hs0]%NewBrokerManager_inv Ht E. destruct (exec_all_ok _ _ _ _ Hi0 Ht E) as [Hi Hl].
  split_and!.
  - intros h. rewrite <- (Hs0 h). apply Hl.
  - by apply IsFinished_status.
  - intros now. split; apply create_all; apply Hi.
Qed.
End lifecycle.

(** ** A concrete run: two brokers, one transaction sent, confirmed twice, and finished *)

Module BrokerDemo.
Export ChainDemo.
Definition file : result (list string * option error) := Ok
  (["  0x00000000000000000000000000000000000000b1 "; ""; "00000000000000000000000000000000000000b2"; "bad"], None).
Definition fresh : Manager := force (mkManager ∅ ∅ [] [] (mkBrokerModuleCfg 0) [])
  (NewBrokerManager (mkBrokerModuleCfg 2) file).
Definition b1 : Address := addr 177.
Definition cross : Transaction := NewTransaction (addr 2) (addr 3) 30 0 0 0.
Definition raw : Transaction := force cross (CreateRawTx cross b1 fresh).1.
Definition staged (stage : Z) : Transaction := raw <| BrokerOpt ::= λ o, o <| BrokerStage := stage |> |>.
Definition ops : list op :=
  [OpCreate cross b1; OpCreate cross b1; OpSend 5; OpConfirm (staged 2); OpConfirm (staged 1); OpSend 6;
   OpConfirm (staged 1); OpConfirm (staged 2); OpConfirm (staged 2)].
Definition final : list event * Manager := exec_all ops fresh.
End BrokerDemo.

Module BrokerWitness.
Import BrokerDemo.

Lemma manager_lifecycle_witness : IsFinished final.2 = true ∧ length final.1 = 5%nat ∧
  life (tx_BOriginalHash raw) None final.1 = Some None.
Proof.
  destruct (manager_lifecycle (mkBrokerModuleCfg 2) file fresh ops final.1 final.2) as (H & _).
  - apply force_ok. vm_compute. reflexivity.
  - cbn [all_in_time ops in_time]. split_and!; try exact I;
      apply (bool_decide_unpack _); vm_compute; exact I.
  - apply surjective_pairing.
  - split; [vm_compute; reflexivity|]. split; [vm_compute; reflexivity|].
    rewrite H. vm_compute. reflexivity.
Defined.
End BrokerWitness.
