(* ===== verification/Committee.v ===== *)
(** * Committees

    Models supervisor/committee: the four committees (static or CLPA sharding,
    relay or broker transactions), the stop logic, the partition runner and the
    sorting of transactions to shards.

    The transaction source is the class of TxSource.v, the broker manager that
    of Broker.v, CLPA that of Partition.v.  Random choices and the order of
    Go's map iteration are arguments ([Choices]).  The fields all committees
    share are one record, [Client]. *)

From S2P Require Import Prelude GoHash Account Bloom Block Config StateDB TxExecute Storage Chain.
From S2P Require Import Float64 Partition TxSource Network Broker.
From Stdlib Require Import Floats.SpecFloat Lia.

Local Open Scope Z_scope.

Definition stopThresholdPerShard : Z := 5.
Definition clpaWeightPenalty : float64 := fdiv f1 f2.
Definition clpaMaxIterations : Z := 100.

Record stopLogic := mkStopLogic { stopThreshold : Z; stopCnt : Z }.
#[export] Instance stopLogic_eta : Eta stopLogic := λ s, mkStopLogic (stopThreshold s) (stopCnt s).

(** [stopLogic{stopThreshold: cfg.ShardNum * stopThresholdPerShard, stopCnt: 0}] *)
Definition newStopLogic (shardNum : Z) : stopLogic := mkStopLogic (wrap_i64 (shardNum * stopThresholdPerShard)) 0.

Definition reached (s : stopLogic) : bool := bool_decide (stopThreshold s ≤ stopCnt s).

(** A block was reported with [n] transactions while [unsent] were left to inject. *)
Definition count_block (unsent : Z) (n : nat) (s : stopLogic) : stopLogic :=
  if decide (unsent ≤ 0) then
    if decide (n = 0%nat) then s <| stopCnt ::= λ c, wrap_i64 (c + 1) |> else s <| stopCnt := 0 |>
  else s.

Definition packShardTxs (locFunc : Transaction → result Z) (txs : list Transaction) (shardNumber : Z)
    : result (list (list Transaction)) :=
  let* shardTxs := make [] shardNumber in
  rfold (λ acc tx,
    let* shardID := locFunc tx in
    if decide (shardID < 0 ∨ shardNumber ≤ shardID) then Ok acc else push_at tx acc shardID) shardTxs txs.

Definition brokerBlockTxCount (b : BrokerBlockInfoMsg) : nat :=
  length (bb_InnerShardTxs b) + length (bb_Broker1Txs b) + length (bb_Broker2Txs b)
  + length (bb_Relay1Txs b) + length (bb_Relay2Txs b).
Definition relay_block_txs (b : RelayBlockInfoMsg) : nat :=
  length (rb_InnerShardTxs b) + length (rb_Relay1Txs b) + length (rb_Relay2Txs b).

(** ** partitionRunner *)

Record partitionRunner := mkPartitionRunner {
  pr_state : CLPAState;
  lastRunTime : Time;
  epochSynced : bool;
  supervisorEpoch : Z;
  shardEpoch : list Z;
}.
#[export] Instance partitionRunner_eta : Eta partitionRunner := λ p,
  mkPartitionRunner (pr_state p) (lastRunTime p) (epochSynced p) (supervisorEpoch p) (shardEpoch p).

Definition CheckEpochSyncAndMark (now : Time) (p : partitionRunner) : bool * partitionRunner :=
  if epochSynced p then (true, p)
  else if forallb (λ e, bool_decide (e = supervisorEpoch p)) (shardEpoch p) then
    (true, p <| epochSynced := true |> <| lastRunTime := now |>)
  else (false, p).

Definition newPartitionRunner (shardNum : Z) (now : Time) : result partitionRunner :=
  let* st := NewCLPAState clpaWeightPenalty clpaMaxIterations shardNum in
  let* se := make 0 shardNum in
  Ok (mkPartitionRunner st now false 0 se).

(** [time.Since(lastRunTime).Seconds() > float64(EpochDuration)] *)
Definition epoch_over (now epochDuration : Z) (p : partitionRunner) : bool :=
  fltb (float_of_Z epochDuration) (Seconds (time_Sub now (lastRunTime p))).

(** [shardEpoch[shard] = max(shardEpoch[shard], epoch)] *)
Definition report_epoch (shard epoch : Z) (p : partitionRunner) : result partitionRunner :=
  let* l := idx_upd (λ e, Z.max e epoch) (shardEpoch p) shard in Ok (p <| shardEpoch := l |>).

(** [state.AddEdge] for the sender and recipient of each transaction. *)
Definition add_edges (txs : list Transaction) (p : partitionRunner) : result partitionRunner :=
  let* cs := rfold (λ cs tx, AddEdge (Sender tx) (Recipient tx) cs) (pr_state p) txs in
  Ok (p <| pr_state := cs |>).

(** ** What all committees hold *)

Record Choices := mkChoices {
  ch_intn : nat → Z → Z;
  ch_shuffle : nat → list Address → list Address;
  ch_order : nat → list Vertex;
}.

Section committee.
  Context {BL : BitSetLib} {RT : RlpTx} {MK : MapKeys} {GM : GobMsg}.
  Context {Src : Type} {TS : TxSource Src}.

Record Client := mkClient {
  cl_conn : Conn;
  txSource : Src;
  sl : stopLogic;
  unsentTxNum : Z;
}.
#[export] Instance Client_eta : Eta Client := λ c, mkClient (cl_conn c) (txSource c) (sl c) (unsentTxNum c).

Context (resolver : TopoGetter) (cfg : SupervisorCfg).
Abbreviation shards := (ShardNum (sv_Sys cfg)).

Definition newClient (conn : Conn) (src : Src) : Client :=
  mkClient conn src (newStopLogic shards) (sv_TxNumber cfg).

Definition on_source {A} (m : M Src A) : M Client A := st_zoom txSource (λ s c, c <| txSource := s |>) m.
Definition cl_on_conn {A} (m : M Conn A) : M Client A := st_zoom cl_conn (λ s c, c <| cl_conn := s |>) m.

(** [txSource.ReadTxs(min(cfg.TxInjectionSpeed, unsentTxNum))] *)
Definition read_txs (now : Time) : M Client (list Transaction) := λ c,
  st_wrap "failed to read txs" (on_source (ReadTxs now (Z.min (sv_TxInjectionSpeed cfg) (unsentTxNum c)))) c.

(** Send [sendTxs] to their shards; [n] transactions of the source are done. *)
Definition send_txs (locFunc : Transaction → result Z) (sendTxs : list Transaction) (n : nat) : M Client unit :=
  let! shardTxs := st_lift (packShardTxs locFunc sendTxs shards) in
  st_wrap "failed to send txs to shards" (cl_on_conn (SendWrappedTxs2Shards shardTxs resolver)) ;;!
  st_modify (λ c, c <| unsentTxNum ::= λ u, wrap_i64 (u - Z.of_nat n) |>).

Definition count_reported (n : nat) : M Client unit :=
  st_modify (λ c, c <| sl := count_block (unsentTxNum c) n (sl c) |>).

(** ** StaticRelayCommittee *)

Definition getTxLoc (tx : Transaction) : result Z := DefaultAccountLoc (Sender tx) shards.

Definition StaticRelay_readTxsAndSend (now : Time) : M Client unit :=
  let! txs := read_txs now in
  send_txs getTxLoc txs (length txs).

Definition StaticRelay_SendTxsAndConsensus (now : Time) : M Client unit :=
  st_wrap "readTxsAndSend failed" (StaticRelay_readTxsAndSend now).

Definition StaticRelay_HandleMsg (msg : WrappedMsg) : M Client unit :=
  if decide (MsgType msg ≠ RelayBlockInfoMessageType) then st_ret tt
  else
    let! bInfo := st_wrap "decode relayBlockInfoMsg" (st_lift (gob_decode KRelayBlockInfo (Payload msg))) in
    count_reported (relay_block_txs bInfo).

Definition StaticRelay_ShouldStop (c : Client) : bool := reached (sl c).

(** ** The repartition of the CLPA committees *)

Definition repartition (ch : Choices) : M (Client * partitionRunner) unit := λ '(c, p),
  match CLPAPartition (ch_order ch) (pr_state p) with
  | Panic => (Panic, (c, p))
  | Err e => (Err e, (c, p))
  | Ok (modifiedMap, _, st) =>
    let p := p <| pr_state := st |> <| supervisorEpoch ::= λ e, wrap_i64 (e + 1) |> in
    match wrap_err "wrapMsg failed"
            (WrapMsg KCLPARepartitionStart (mkCLPARepartitionStartMsg (supervisorEpoch p) modifiedMap)),
          wrap_err "GetAllLeaders failed" (GetAllLeaders resolver) with
    | Ok w, Ok allLeaders =>
      (Ok tt, (c <| cl_conn ::= GroupBroadcastMessage allLeaders w |> <| sl ::= λ s, s <| stopCnt := 0 |> |>,
               p <| epochSynced := false |>))
    | Err e, _ | Ok _, Err e => (Err e, (c, p))
    | Panic, _ | Ok _, Panic => (Panic, (c, p))
    end
  end.

(** ** CLPARelayCommittee *)

Record CLPARelayCommittee := mkCLPARelayCommittee { cr_client : Client; cr_runner : partitionRunner }.
#[export] Instance CLPARelay_eta : Eta CLPARelayCommittee := λ c, mkCLPARelayCommittee (cr_client c) (cr_runner c).

Definition cr_on_client {A} (m : M Client A) : M CLPARelayCommittee A :=
  st_zoom cr_client (λ x c, c <| cr_client := x |>) m.
Definition cr_on_runner (h : partitionRunner → result partitionRunner) : M CLPARelayCommittee unit := λ c,
  match h (cr_runner c) with
  | Ok p => (Ok tt, c <| cr_runner := p |>)
  | Err e => (Err e, c)
  | Panic => (Panic, c)
  end.

Definition clpa_loc (p : partitionRunner) (a : Address) : result Z := GetVertexLocation (pr_state p) a.

Definition CLPARelay_getTxLocByCLPAState (p : partitionRunner) (tx : Transaction) : result Z := clpa_loc p (Sender tx).

Definition CLPARelay_readTxsAndSend (now : Time) : M CLPARelayCommittee unit := λ c,
  cr_on_client
    (let! txs := read_txs now in
     send_txs (CLPARelay_getTxLocByCLPAState (cr_runner c)) txs (length txs)) c.

Definition CLPARelay_SendTxsAndConsensus (ch : Choices) (now : Time) : M CLPARelayCommittee unit := λ c,
  let '(synced, p) := CheckEpochSyncAndMark now (cr_runner c) in
  let c := c <| cr_runner := p |> in
  if negb synced then (Ok tt, c)
  else if epoch_over now (sv_EpochDuration cfg) p then
    let '(x, (cl, p)) := st_wrap "repartition failed" (repartition ch) (cr_client c, cr_runner c) in
    (x, mkCLPARelayCommittee cl p)
  else st_wrap "readTxsAndSend failed" (CLPARelay_readTxsAndSend now) c.

Definition CLPARelay_HandleMsg (msg : WrappedMsg) : M CLPARelayCommittee unit :=
  if decide (MsgType msg ≠ RelayBlockInfoMessageType) then st_ret tt
  else
    let! bInfo := st_wrap "decode relayBlockInfoMsg" (st_lift (gob_decode KRelayBlockInfo (Payload msg))) in
    if decide (shards ≤ rb_ShardID bInfo) then st_fail "shard %d out of range"
    else
      cr_on_runner (report_epoch (rb_ShardID bInfo) (rb_Epoch bInfo)) ;;!
      cr_on_client (count_reported (relay_block_txs bInfo)) ;;!
      cr_on_runner (add_edges (rb_InnerShardTxs bInfo)) ;;!
      cr_on_runner (add_edges (rb_Relay2Txs bInfo)).

Definition CLPARelay_ShouldStop (c : CLPARelayCommittee) : bool := reached (sl (cr_client c)).

(** ** Sorting out the cross-shard transactions *)

(** (inner, cross) *)
Definition classifyTxs (loc : Address → result Z) (m : Manager) (txs : list Transaction)
    : result (list Transaction * list Transaction) :=
  rfold (λ '(inner, cross) tx,
    let* senderShard := loc (Sender tx) in
    let* receiverShard := loc (Recipient tx) in
    if decide (senderShard = receiverShard ∨ IsBroker m (Sender tx) = true ∨ IsBroker m (Recipient tx) = true)
    then Ok (inner ++ [tx], cross)
    else Ok (inner, cross ++ [tx])) ([], []) txs.

(** ** StaticBrokerCommittee *)

(** Amounts by broker and shard. *)
Abbreviation Table := (gmap Address (list Z)).
Definition tab_get (t : Table) (b : Address) (shard : Z) : result Z := idx (default [] (t !! b)) shard.
Definition tab_upd (h : Z → Z) (b : Address) (shard : Z) (t : Table) : result Table :=
  let* l := idx_upd h (default [] (t !! b)) shard in Ok (<[b := l]> t).

Record StaticBrokerCommittee := mkStaticBrokerCommittee {
  sb_client : Client;
  sb_bManager : Manager;
  brokerBalances : Table;
  pendingDeductions : Table;
}.
#[export] Instance StaticBroker_eta : Eta StaticBrokerCommittee := λ c,
  mkStaticBrokerCommittee (sb_client c) (sb_bManager c) (brokerBalances c) (pendingDeductions c).

Definition sb_on_client {A} (m : M Client A) : M StaticBrokerCommittee A :=
  st_zoom sb_client (λ x c, c <| sb_client := x |>) m.
Definition sb_on_manager {A} (m : M Manager A) : M StaticBrokerCommittee A :=
  st_zoom sb_bManager (λ x c, c <| sb_bManager := x |>) m.
Definition sb_on_balances (h : Table → result Table) : M StaticBrokerCommittee unit := λ c,
  match h (brokerBalances c) with
  | Ok t => (Ok tt, c <| brokerBalances := t |>) | Err e => (Err e, c) | Panic => (Panic, c)
  end.
Definition sb_on_pending (h : Table → result Table) : M StaticBrokerCommittee unit := λ c,
  match h (pendingDeductions c) with
  | Ok t => (Ok tt, c <| pendingDeductions := t |>) | Err e => (Err e, c) | Panic => (Panic, c)
  end.

Definition brokerInit : Z := default 0 (big_SetString BrokerInitBalanceStr).

Definition NewStaticBrokerCommittee (conn : Conn) (src : result Src) (file : result (list string * option error))
    : result StaticBrokerCommittee :=
  let* ts := wrap_err "NewTxSource failed" src in
  let* bs := wrap_err "NewBrokerManager failed" (NewBrokerManager (sv_BrokerModule cfg) file) in
  let* bal := rfold (λ t b, let* l := make brokerInit shards in Ok (<[b := l]> t)) ∅ (GetBrokers bs) in
  let* pend := rfold (λ t b, let* l := make 0 shards in Ok (<[b := l]> t)) ∅ (GetBrokers bs) in
  Ok (mkStaticBrokerCommittee (newClient conn ts) bs bal pend).

Definition default_loc (a : Address) : result Z := DefaultAccountLoc a shards.

Definition StaticBroker_getTxLoc (tx : Transaction) : result Z :=
  let txType := TxType tx in
  if decide (txType = NormalTxType ∨ (txType = RelayTxType ∧ tx_RelayStage tx = Relay1Tx)) then
    default_loc (Sender tx)
  else if decide (txType = RelayTxType ∧ tx_RelayStage tx = Relay2Tx) then default_loc (Recipient tx)
  else if decide (tx_BrokerStage tx = Sigma1BrokerStage) then default_loc (Sender tx)
  else default_loc (Recipient tx).

(** The brokers in turn: the first with enough available balance takes [tx]. *)
Fixpoint find_broker (bs : list Address) (tx : Transaction) (recipientShard : Z)
    : M StaticBrokerCommittee bool :=
  match bs with
  | [] => st_ret false
  | b :: bs' =>
    let! c := st_get in
    let! balance := st_lift (tab_get (brokerBalances c) b recipientShard) in
    let! pending := st_lift (tab_get (pendingDeductions c) b recipientShard) in
    if decide (Value tx ≤ balance - pending) then
      sb_on_pending (tab_upd (λ p, p + Value tx) b recipientShard) ;;!
      λ c, match sb_on_manager (CreateRawTx tx b) c with
           | (Ok _, c') => (Ok true, c')
           | (Err _, c') => find_broker bs' tx recipientShard c'
           | (Panic, c') => (Panic, c')
           end
    else find_broker bs' tx recipientShard
  end.

(** The transaction falls back to relay; an error of its hash is dropped. *)
Definition as_relay (tx : Transaction) : result Transaction :=
  let* th := match tx_Hash tx with Err _ => Ok [] | x => x end in
  Ok (tx <| RelayOpt := mkRelayTxOpt Relay1Tx th |>).

(** The loop over the cross-shard transactions, the [i]th next; the relay ones. *)
Fixpoint assign_brokers (ch : Choices) (i : nat) (crossTxs relayTxs : list Transaction)
    : M StaticBrokerCommittee (list Transaction) :=
  match crossTxs with
  | [] => st_ret relayTxs
  | tx :: crossTxs' =>
    let! _ := st_lift (default_loc (Sender tx)) in
    let! recipientShard := st_lift (default_loc (Recipient tx)) in
    let! c := st_get in
    let! foundBroker := find_broker (ch_shuffle ch i (GetBrokers (sb_bManager c))) tx recipientShard in
    if foundBroker : bool then assign_brokers ch (S i) crossTxs' relayTxs
    else
      let! rtx := st_lift (as_relay tx) in
      assign_brokers ch (S i) crossTxs' (relayTxs ++ [rtx])
  end.

Definition create_broker_txs (now : Time) : M Manager (list Transaction * list Transaction) := λ m,
  let '(bs, m') := CreateBrokerTxs now m in (Ok bs, m').

Definition StaticBroker_readTxsAndSend (ch : Choices) (now : Time) : M StaticBrokerCommittee unit :=
  let! txs := sb_on_client (read_txs now) in
  let! c := st_get in
  let! '(innerTxs, crossTxs) := st_lift (classifyTxs default_loc (sb_bManager c) txs) in
  let! relayTxs := assign_brokers ch 0 crossTxs [] in
  let! '(b1Txs, b2Txs) := sb_on_manager (create_broker_txs now) in
  sb_on_client (send_txs StaticBroker_getTxLoc (innerTxs ++ relayTxs ++ b1Txs ++ b2Txs) (length txs)).

Definition StaticBroker_SendTxsAndConsensus (ch : Choices) (now : Time) : M StaticBrokerCommittee unit :=
  st_wrap "readTxsAndSend failed" (StaticBroker_readTxsAndSend ch now).

(** A failed confirmation is logged. *)
Definition confirmed {A} (m : M Manager A) (k : M StaticBrokerCommittee unit) : M StaticBrokerCommittee unit := λ c,
  match sb_on_manager m c with
  | (Ok _, c') => k c'
  | (Err _, c') => (Ok tt, c')
  | (Panic, c') => (Panic, c')
  end.

Definition confirm_broker1 (shard : Z) (tx : Transaction) : M StaticBrokerCommittee unit :=
  confirmed (ConfirmBrokerTx tx) (sb_on_balances (tab_upd (λ b, b + Value tx) (tx_Broker tx) shard)).

Definition confirm_broker2 (shard : Z) (tx : Transaction) : M StaticBrokerCommittee unit :=
  confirmed (ConfirmBrokerTx tx)
    (sb_on_balances (tab_upd (λ b, b - Value tx) (tx_Broker tx) shard) ;;!
     sb_on_pending (tab_upd (λ p, if decide (p - Value tx < 0) then 0 else p - Value tx) (tx_Broker tx) shard)).

Definition StaticBroker_HandleMsg (msg : WrappedMsg) : M StaticBrokerCommittee unit :=
  if decide (MsgType msg ≠ BrokerBlockInfoMessageType) then st_ret tt
  else
    let! bInfo := st_wrap "decode relayBlockInfoMsg" (st_lift (gob_decode KBrokerBlockInfo (Payload msg))) in
    sb_on_client (count_reported (brokerBlockTxCount bInfo)) ;;!
    st_for (confirm_broker1 (bb_ShardID bInfo)) (bb_Broker1Txs bInfo) ;;!
    st_for (confirm_broker2 (bb_ShardID bInfo)) (bb_Broker2Txs bInfo).

Definition StaticBroker_ShouldStop (c : StaticBrokerCommittee) : bool :=
  reached (sl (sb_client c)) && IsFinished (sb_bManager c).

(** ** CLPABrokerCommittee *)

Record CLPABrokerCommittee := mkCLPABrokerCommittee {
  cb_client : Client; cb_runner : partitionRunner; cb_bManager : Manager;
}.
#[export] Instance CLPABroker_eta : Eta CLPABrokerCommittee := λ c,
  mkCLPABrokerCommittee (cb_client c) (cb_runner c) (cb_bManager c).

Definition cb_on_client {A} (m : M Client A) : M CLPABrokerCommittee A :=
  st_zoom cb_client (λ x c, c <| cb_client := x |>) m.
Definition cb_on_manager {A} (m : M Manager A) : M CLPABrokerCommittee A :=
  st_zoom cb_bManager (λ x c, c <| cb_bManager := x |>) m.
Definition cb_on_runner (h : partitionRunner → result partitionRunner) : M CLPABrokerCommittee unit := λ c,
  match h (cb_runner c) with
  | Ok p => (Ok tt, c <| cb_runner := p |>)
  | Err e => (Err e, c)
  | Panic => (Panic, c)
  end.

Definition CLPABroker_getTxLocByCLPAState (p : partitionRunner) (tx : Transaction) : result Z :=
  if decide (TxType tx = NormalTxType) then clpa_loc p (Sender tx)
  else if decide (tx_BrokerStage tx = Sigma1BrokerStage) then clpa_loc p (Sender tx)
  else clpa_loc p (Recipient tx).

Definition CLPABroker_readTxsAndSend (ch : Choices) (now : Time) : M CLPABrokerCommittee unit :=
  let! txs := cb_on_client (read_txs now) in
  let! c := st_get in
  let! '(innerTxs, crossTxs) := st_lift (classifyTxs (clpa_loc (cb_runner c)) (cb_bManager c) txs) in
  log_error (cb_on_manager (CreateRawTxsRandomBroker (ch_intn ch) crossTxs ;;! st_ret tt)) ;;!
  let! '(b1Txs, b2Txs) := cb_on_manager (create_broker_txs now) in
  cb_on_client (send_txs (CLPABroker_getTxLocByCLPAState (cb_runner c)) (innerTxs ++ b1Txs ++ b2Txs) (length txs)).

Definition CLPABroker_SendTxsAndConsensus (ch : Choices) (now : Time) : M CLPABrokerCommittee unit := λ c,
  let '(synced, p) := CheckEpochSyncAndMark now (cb_runner c) in
  let c := c <| cb_runner := p |> in
  if negb synced then (Ok tt, c)
  else if epoch_over now (sv_EpochDuration cfg) p then
    let '(x, (cl, p)) := st_wrap "repartition failed" (repartition ch) (cb_client c, cb_runner c) in
    (x, c <| cb_client := cl |> <| cb_runner := p |>)
  else st_wrap "readTxsAndSend failed" (CLPABroker_readTxsAndSend ch now) c.

Definition confirm_all (txs : list Transaction) : M CLPABrokerCommittee unit :=
  st_for (λ tx, log_error (cb_on_manager (ConfirmBrokerTx tx))) txs.

Definition handleBlockInfoMsg (bInfo : BrokerBlockInfoMsg) : M CLPABrokerCommittee unit :=
  if decide (shards ≤ bb_ShardID bInfo) then st_ret tt
  else
    cb_on_runner (report_epoch (bb_ShardID bInfo) (bb_Epoch bInfo)) ;;!
    let n := (length (bb_InnerShardTxs bInfo) + length (bb_Broker1Txs bInfo) + length (bb_Broker2Txs bInfo))%nat in
    let! c := st_get in
    cb_on_client (count_reported n) ;;!
    if decide (unsentTxNum (cb_client c) ≤ 0 ∧ n = 0%nat) then st_ret tt
    else
      cb_on_runner (add_edges (bb_InnerShardTxs bInfo)) ;;!
      cb_on_runner (add_edges (bb_Broker2Txs bInfo)) ;;!
      confirm_all (bb_Broker1Txs bInfo) ;;!
      confirm_all (bb_Broker2Txs bInfo).

Definition handleTxSendAgainMsg (ch : Choices) (tsa : BrokerCLPATxSendAgainMsg) : M CLPABrokerCommittee unit :=
  log_error (cb_on_manager (CreateRawTxsRandomBroker (ch_intn ch) (tsa_Txs tsa) ;;! st_ret tt)).

Definition CLPABroker_HandleMsg (ch : Choices) (msg : WrappedMsg) : M CLPABrokerCommittee unit :=
  if decide (MsgType msg = BrokerBlockInfoMessageType) then
    let! bInfo := st_wrap "decode relayBlockInfoMsg failed" (st_lift (gob_decode KBrokerBlockInfo (Payload msg))) in
    handleBlockInfoMsg bInfo
  else if decide (MsgType msg = BrokerCLPATxSendAgainMessageType) then
    let! tsa := st_wrap "decode relayBlockInfoMsg failed"
      (st_lift (gob_decode KBrokerCLPATxSendAgain (Payload msg))) in
    handleTxSendAgainMsg ch tsa
  else st_ret tt.

Definition CLPABroker_ShouldStop (c : CLPABrokerCommittee) : bool := reached (sl (cb_client c)).

(** ** The constructors: [src] is what [txsource.NewTxSource] returned *)

Definition NewStaticRelayCommittee (conn : Conn) (src : result Src) : result Client :=
  let* ts := wrap_err "NewTxSource failed" src in
  Ok (newClient conn ts).

Definition NewCLPARelayCommittee (conn : Conn) (src : result Src) (now : Time) : result CLPARelayCommittee :=
  let* ts := wrap_err "NewTxSource failed" src in
  let* p := newPartitionRunner shards now in
  Ok (mkCLPARelayCommittee (newClient conn ts) p).

Definition NewCLPABrokerCommittee (conn : Conn) (src : result Src) (file : result (list string * option error))
    (now : Time) : result CLPABrokerCommittee :=
  let* ts := wrap_err "NewTxSource failed" src in
  let* bs := wrap_err "NewBrokerManager failed" (NewBrokerManager (sv_BrokerModule cfg) file) in
  let* p := newPartitionRunner shards now in
  Ok (mkCLPABrokerCommittee (newClient conn ts) p bs).
End committee.

(** ** Sorting and sending *)

Section sending.
  Context {BL : BitSetLib} {RT : RlpTx} {MK : MapKeys} {GM : GobMsg}.
  Context {Src : Type} {TS : TxSource Src}.
  Context (resolver : TopoGetter) (cfg : SupervisorCfg).

Abbreviation Client := (Client (Src := Src)).

(** The transactions of shard [k]. *)
Definition of_shard (loc : Transaction → result Z) (k : nat) (txs : list Transaction) : list Transaction :=
  omap (λ tx, match loc tx with Ok i => if decide (i = Z.of_nat k) then Some tx else None | _ => None end) txs.

Lemma pack_loop_spec loc n txs acc out :
  rfold (λ acc tx, let* shardID := loc tx in
    if decide (shardID < 0 ∨ n ≤ shardID) then Ok acc else push_at tx acc shardID) acc txs = Ok out →
  Z.of_nat (length acc) = n →
  Z.of_nat (length out) = n ∧ Forall (λ tx, is_ok (loc tx) = true) txs ∧
  ∀ k l, acc !! k = Some l → out !! k = Some (l ++ of_shard loc k txs).
Proof.
  revert acc; induction txs as [|tx txs IH]; intros acc; cbn.
  { intros [= <-] Hn. split_and!; [done|constructor|]. intros k l Hk. by rewrite app_nil_r. }
  intros (a1 & (i & Hi & Ha)%rbind_ok & H)%rbind_ok Hn. rewrite Hi. case_decide as Hr.
  - injection Ha as <-. destruct (IH acc H Hn) as (H1 & H2 & H3). split_and!; [done|by constructor; [rewrite Hi|]|].
    intros k l Hk. rewrite decide_False; [by apply H3|]. apply lookup_lt_Some in Hk. lia.
  - apply idx_upd_inv in Ha as (Hlt & b & Hb & ->). destruct (IH _ H) as (H1 & H2 & H3); [by rewrite length_insert|].
    split_and!; [done|by constructor; [rewrite Hi|]|]. intros k l Hk. case_decide as Ek.
    + subst i. rewrite Nat2Z.id in Hb, H3. rewrite Hk in Hb. injection Hb as <-.
      rewrite (H3 k (l ++ [tx])); [by rewrite <- app_assoc|].
      apply list_lookup_insert_eq. by apply lookup_lt_Some in Hk.
    + apply H3. rewrite list_lookup_insert_ne; [done|]. intros <-. apply Ek. lia.
Qed.

Lemma packShardTxs_spec loc txs n out : packShardTxs loc txs n = Ok out →
  Z.of_nat (length out) = n ∧ Forall (λ tx, is_ok (loc tx) = true) txs ∧
  ∀ k, (k < length out)%nat → out !! k = Some (of_shard loc k txs).
Proof.
  unfold packShardTxs, make. intros (acc & Ha & H)%rbind_ok. case_decide; [done|]. injection Ha as <-.
  apply pack_loop_spec in H as (H1 & H2 & H3); [|rewrite length_replicate; lia]. split_and!; [done..|].
  intros k Hk. apply (H3 k []). apply lookup_replicate. split; [done|]. lia.
Qed.

Lemma send_txs_ok loc txs n (c c' : Client) : own_leaders resolver →
  send_txs resolver cfg loc txs n c = (Ok tt, c') →
  ∃ sent, c' = c <| cl_conn ::= λ x, x <| outbox ::= λ o, o ++ sent |> |>
                 <| unsentTxNum := wrap_i64 (unsentTxNum c - Z.of_nat n) |> ∧
    NoDup sent ∧ Forall (λ tx, is_ok (loc tx) = true) txs ∧
    (∀ p, p ∈ sent ↔ ∃ k, Z.of_nat k < ShardNum (sv_Sys cfg) ∧ shard_msg resolver (Z.of_nat k) (of_shard loc k txs) p) ∧
    (∀ k, Z.of_nat k < ShardNum (sv_Sys cfg) → of_shard loc k txs ≠ [] →
       ∃ p, p ∈ sent ∧ shard_msg resolver (Z.of_nat k) (of_shard loc k txs) p).
Proof.
  intros Hown. unfold send_txs. intros (out & c1 & (Hp & ->)%st_lift_ok & H)%st_bind_ok.
  apply packShardTxs_spec in Hp as (Hl & Hok & Hk).
  apply st_bind_ok in H as ([] & c2 & E%st_wrap_ok & [= <-]).
  apply st_zoom_ok in E as (cc & E & ->).
  apply SendWrappedTxs2Shards_ok in E as (sent & -> & Hnd & H1 & H2); [|done].
  exists sent. split_and!; try done.
  - intros p. rewrite H1. split.
    + intros (k & l & Hkl & Hs). pose proof (lookup_lt_Some _ _ _ Hkl) as Hlt. rewrite Hk in Hkl by done.
      injection Hkl as <-. exists k. split; [lia|done].
    + intros (k & Hlt & Hs). exists k, (of_shard loc k txs). split; [apply Hk; lia|done].
  - intros k Hlt Hne. destruct (H2 k (of_shard loc k txs)) as (p & Hp & Hs); [apply Hk; lia|done|]. by exists p.
Qed.
End sending.

(** ** The transactions left to inject, and stopping *)

Section stopping.
  Context {BL : BitSetLib} {RT : RlpTx} {MK : MapKeys} {GM : GobMsg}.
  Context {Src : Type} {TS : TxSource Src} {TSL : TxSourceLaws Src}.
  Context (resolver : TopoGetter) (cfg : SupervisorCfg) (Hspeed : 0 ≤ sv_TxInjectionSpeed cfg).
  Abbreviation Client := (Client (Src := Src)).

(** Empty blocks are only counted once everything is injected. *)
Definition stop_inv (c : Client) : Prop :=
  0 ≤ unsentTxNum c ≤ int64_max ∧ (0 < stopCnt (sl c) → unsentTxNum c = 0) ∧
  stopThreshold (sl c) = stopThreshold (newStopLogic (ShardNum (sv_Sys cfg))).
Definition owes (n : nat) (c : Client) : Prop := stop_inv c ∧ Z.of_nat n ≤ unsentTxNum c.

Lemma newClient_stop_inv conn src : 0 ≤ sv_TxNumber cfg ≤ int64_max → stop_inv (newClient cfg conn src).
Proof. intros H. split_and!; cbn; [lia..|done]. Qed.

Lemma read_txs_owes now c r c' : stop_inv c → read_txs cfg now c = (r, c') →
  stop_inv c' ∧ ∀ txs, r = Ok txs → owes (length txs) c'.
Proof using Hspeed TSL.
  intros Hi. unfold read_txs, st_wrap, on_source, st_zoom.
  destruct (ReadTxs now _ (txSource c)) as [x s] eqn:E. intros [= <- <-].
  assert (stop_inv (c <| txSource := s |>)) as Hi' by exact Hi. split; [done|].
  intros txs Hx. apply wrap_err_ok in Hx as ->. split; [done|].
  destruct Hi as (Hu & _). apply ReadTxs_bound in E; [|lia]. cbn. lia.
Qed.

Lemma send_txs_stop_inv loc txs n c r c' : owes n c → send_txs resolver cfg loc txs n c = (r, c') → stop_inv c'.
Proof.
  intros [Hi Hn]. unfold send_txs, st_bind, st_wrap, st_lift, cl_on_conn, st_zoom.
  destruct (packShardTxs _ _ _); [|by intros [= _ <-]..].
  destruct (SendWrappedTxs2Shards _ _ _) as [x cc]. destruct x; cbn; intros [= _ <-]; [|exact Hi..].
  destruct Hi as (Hu & Hs & Ht). unfold int64_max in Hu. cbn in *. rewrite wrap_s_id by (split; lia).
  split_and!; cbn; [lia| unfold int64_max; lia | |done]. intros H. specialize (Hs H). lia.
Qed.

Lemma count_reported_stop_inv n : preserves stop_inv (count_reported n).
Proof.
  apply pres_modify. intros c (Hu & Hs & Ht). unfold count_block. split_and!; cbn; try lia.
  - repeat case_decide; cbn; intros; lia.
  - by repeat case_decide.
Qed.

Lemma StaticRelay_send_stop_inv now : preserves stop_inv (StaticRelay_SendTxsAndConsensus resolver cfg now).
Proof using Hspeed TSL.
  apply pres_wrap. intros c r c' Hi. unfold StaticRelay_readTxsAndSend, st_bind.
  destruct (read_txs cfg now c) as [x c1] eqn:E. apply read_txs_owes in E as [H1 H2]; [|done].
  destruct x as [txs|e|]; [|by intros [= _ <-]..]. apply send_txs_stop_inv. by apply H2.
Qed.

Lemma StaticRelay_handle_stop_inv msg : preserves stop_inv (StaticRelay_HandleMsg (Src := Src) msg).
Proof.
  unfold StaticRelay_HandleMsg. case_decide; [apply pres_ret|].
  apply pres_bind; [apply pres_wrap, pres_lift|]. intros. apply count_reported_stop_inv.
Qed.

Lemma repartition_stop_inv ch c p r c' p' : stop_inv c →
  repartition resolver ch (c, p) = (r, (c', p')) → stop_inv c'.
Proof.
  intros (Hu & Hs & Ht). unfold repartition. repeat case_match; intros; simplify_eq; split_and!; cbn; try done; lia.
Qed.

(** Operations on another part of a committee keep its client. *)
Section of_client.
  Context {T : Type} (client : T → Client) (P : Client → Prop).
Definition of_client (c : T) : Prop := P (client c).
Lemma pres_client_zoom {U A} (get : T → U) (put : U → T → T) (m : M U A) :
  (∀ u c, client (put u c) = client c) → preserves of_client (st_zoom get put m).
Proof. intros Hp. apply pres_zoom. intros c x u Hc _. unfold of_client. by rewrite Hp. Qed.
Lemma pres_log_error (m : M T unit) : preserves of_client m → preserves of_client (log_error m).
Proof.
  intros Hm c x c' Hc. unfold log_error. destruct (m c) as [[]  c1] eqn:E; intros [= _ <-]; by eapply Hm.
Qed.
End of_client.

Section static_broker.
  Context (P : Client → Prop).
Abbreviation keeps := (preserves (of_client (sb_client (Src := Src)) P)).

Lemma keeps_client {A} (m : M Client A) : preserves P m → keeps (sb_on_client m).
Proof. intros Hm. apply pres_zoom. intros c x u Hc E. by eapply Hm. Qed.
Lemma keeps_manager {A} (m : M Manager A) : keeps (sb_on_manager m).
Proof. by apply pres_client_zoom. Qed.
Lemma keeps_table h : keeps (sb_on_pending h) ∧ keeps (sb_on_balances h).
Proof. split; intros c x c'; unfold sb_on_pending, sb_on_balances; case_match; intros Hc [= _ <-]; exact Hc. Qed.

Lemma keeps_find bs tx shard : keeps (find_broker bs tx shard).
Proof.
  induction bs as [|b bs IH]; cbn [find_broker]; [apply pres_ret|].
  apply pres_bind; [apply pres_get|]. intros c. apply pres_bind; [apply pres_lift|]. intros bal.
  apply pres_bind; [apply pres_lift|]. intros pend. case_decide; [|exact IH].
  apply pres_bind; [apply keeps_table|]. intros _ c1 x c2 Hc.
  destruct (sb_on_manager (CreateRawTx tx b) c1) as [y c3] eqn:E.
  apply (keeps_manager (CreateRawTx tx b) _ _ _ Hc) in E.
  destruct y; [by intros [= _ <-]|by apply IH|by intros [= _ <-]].
Qed.

Lemma keeps_assign ch i cross relays : keeps (assign_brokers cfg ch i cross relays).
Proof.
  revert i relays; induction cross as [|tx cross IH]; intros i relays; cbn [assign_brokers]; [apply pres_ret|].
  apply pres_bind; [apply pres_lift|]. intros _. apply pres_bind; [apply pres_lift|]. intros s.
  apply pres_bind; [apply pres_get|]. intros c. apply pres_bind; [apply keeps_find|]. intros []; [apply IH|].
  apply pres_bind; [apply pres_lift|]. intros rtx. apply IH.
Qed.

Lemma keeps_confirm {A} (m : M Manager A) k : keeps k → keeps (confirmed m k).
Proof.
  intros Hk c x c' Hc. unfold confirmed. destruct (sb_on_manager m c) as [y c1] eqn:E.
  apply (keeps_manager m _ _ _ Hc) in E. destruct y; [by apply Hk|by intros [= _ <-]..].
Qed.
End static_broker.

Abbreviation sb_stop_inv := (of_client (sb_client (Src := Src)) stop_inv).
Abbreviation cr_stop_inv := (of_client (cr_client (Src := Src)) stop_inv).
Abbreviation cb_stop_inv := (of_client (cb_client (Src := Src)) stop_inv).

Lemma StaticBroker_send_stop_inv ch now : preserves sb_stop_inv (StaticBroker_SendTxsAndConsensus resolver cfg ch now).
Proof using Hspeed TSL.
  apply pres_wrap. intros c r c' Hi. unfold StaticBroker_readTxsAndSend. unfold st_bind at 1, sb_on_client at 1, st_zoom.
  destruct (read_txs cfg now (sb_client c)) as [x c1] eqn:E. apply read_txs_owes in E as [H1 H2]; [|done].
  destruct x as [txs|e|]; [|by intros [= _ <-]..].
  assert (of_client (sb_client (Src := Src)) (owes (length txs)) (c <| sb_client := c1 |>)) as Ho by (by apply H2).
  revert Ho. generalize (c <| sb_client := c1 |>). clear. intros c Ho. cbn [st_bind st_get].
  unfold st_bind at 1, st_lift. destruct (classifyTxs _ _ _) as [[inner cross]|e|]; [|by intros [= _ <-]; apply Ho..].
  unfold st_bind at 1. destruct (assign_brokers cfg ch 0 cross [] c) as [x c2] eqn:E2.
  apply (keeps_assign (owes (length txs))) in E2; [|done]. destruct x as [relays|e|]; [|by intros [= _ <-]; apply E2..].
  unfold st_bind at 1. destruct (sb_on_manager _ c2) as [x c3] eqn:E3.
  apply (keeps_manager (owes (length txs))) in E3; [|done]. destruct x as [[b1 b2]|e|]; [|by intros [= _ <-]; apply E3..].
  intros (c4 & E4 & ->)%st_zoom_ok. by eapply send_txs_stop_inv.
Qed.

Lemma StaticBroker_handle_stop_inv msg : preserves sb_stop_inv (StaticBroker_HandleMsg (Src := Src) msg).
Proof.
  unfold StaticBroker_HandleMsg. case_decide; [apply pres_ret|].
  apply pres_bind; [apply pres_wrap, pres_lift|]. intros b.
  apply pres_bind; [apply keeps_client, count_reported_stop_inv|]. intros _.
  apply pres_bind; [|intros _]; apply pres_for; intros tx _; apply keeps_confirm.
  - apply keeps_table.
  - apply pres_bind; [apply keeps_table|intros _; apply keeps_table].
Qed.

Lemma CLPARelay_send_stop_inv ch now : preserves cr_stop_inv (CLPARelay_SendTxsAndConsensus resolver cfg ch now).
Proof using Hspeed TSL.
  intros c r c' Hi. unfold CLPARelay_SendTxsAndConsensus. destruct (CheckEpochSyncAndMark now _) as [[] p]; cbn [negb].
  2: by intros [= _ <-].
  destruct (epoch_over _ _ _).
  - unfold st_wrap. destruct (repartition _ _ _) as [x [cl p']] eqn:E. intros [= _ <-].
    unfold of_client. cbn. by eapply repartition_stop_inv.
  - unfold st_wrap, CLPARelay_readTxsAndSend, cr_on_client, st_zoom, st_bind. cbn [cr_client upd].
    destruct (read_txs cfg now (cr_client c)) as [x c1] eqn:E. apply read_txs_owes in E as [H1 H2]; [|done].
    destruct x as [txs|e|]; [|by intros [= _ <-]..].
    destruct (send_txs _ _ _ _ _ c1) as [y c2] eqn:E2. intros [= _ <-]. unfold of_client. cbn.
    by eapply send_txs_stop_inv; [apply H2|].
Qed.

Lemma CLPARelay_handle_stop_inv msg : preserves cr_stop_inv (CLPARelay_HandleMsg (Src := Src) cfg msg).
Proof.
  assert (∀ h, preserves cr_stop_inv (cr_on_runner h)) as Hr.
  { intros h c x c'. unfold cr_on_runner. case_match; intros Hc [= _ <-]; exact Hc. }
  unfold CLPARelay_HandleMsg. case_decide; [apply pres_ret|].
  apply pres_bind; [apply pres_wrap, pres_lift|]. intros b. case_decide; [apply pres_fail|].
  apply pres_bind; [apply Hr|]. intros _. apply pres_bind.
  { apply pres_zoom. intros c x u Hc E. by eapply count_reported_stop_inv. }
  intros _. apply pres_bind; [apply Hr|intros _; apply Hr].
Qed.

Section clpa_broker.
  Context (P : Client → Prop).
Abbreviation keeps := (preserves (of_client (cb_client (Src := Src)) P)).
Lemma cb_keeps_runner h : keeps (cb_on_runner h).
Proof. intros c x c'. unfold cb_on_runner. case_match; intros Hc [= _ <-]; exact Hc. Qed.
Lemma cb_keeps_manager {A} (m : M Manager A) : keeps (cb_on_manager m).
Proof. by apply pres_client_zoom. Qed.
Lemma cb_keeps_confirm txs : keeps (confirm_all txs).
Proof. apply pres_for. intros tx _. apply pres_log_error, cb_keeps_manager. Qed.
End clpa_broker.

Lemma CLPABroker_send_stop_inv ch now : preserves cb_stop_inv (CLPABroker_SendTxsAndConsensus resolver cfg ch now).
Proof using Hspeed TSL.
  intros c r c' Hi. unfold CLPABroker_SendTxsAndConsensus. destruct (CheckEpochSyncAndMark now _) as [[] p]; cbn [negb].
  2: by intros [= _ <-].
  destruct (epoch_over _ _ _).
  { unfold st_wrap. destruct (repartition _ _ _) as [x [cl p']] eqn:E. intros [= _ <-].
    unfold of_client. cbn. by eapply repartition_stop_inv. }
  revert Hi. change (cb_stop_inv c) with (cb_stop_inv (c <| cb_runner := p |>)). generalize (c <| cb_runner := p |>).
  clear c. intros c Hi. revert c r c' Hi. apply pres_wrap. intros c r c' Hi.
  unfold CLPABroker_readTxsAndSend. unfold st_bind at 1, cb_on_client at 1, st_zoom.
  destruct (read_txs cfg now (cb_client c)) as [x c1] eqn:E. apply read_txs_owes in E as [H1 H2]; [|done].
  destruct x as [txs|e|]; [|by intros [= _ <-]..].
  assert (of_client (cb_client (Src := Src)) (owes (length txs)) (c <| cb_client := c1 |>)) as Ho by (by apply H2).
  revert Ho. generalize (c <| cb_client := c1 |>). clear. intros c Ho. cbn [st_bind st_get].
  unfold st_bind at 1, st_lift. destruct (classifyTxs _ _ _) as [[inner cross]|e|]; [|by intros [= _ <-]; apply Ho..].
  unfold st_bind at 1. destruct (log_error _ c) as [x c2] eqn:E2.
  eapply (pres_log_error _ (owes (length txs))) in E2; [|apply cb_keeps_manager|exact Ho].
  destruct x; [|by intros [= _ <-]; apply E2..].
  unfold st_bind at 1. destruct (cb_on_manager _ c2) as [x c3] eqn:E3.
  apply (cb_keeps_manager (owes (length txs))) in E3; [|done]. destruct x as [[b1 b2]|e|]; [|by intros [= _ <-]; apply E3..].
  intros (c4 & E4 & ->)%st_zoom_ok. by eapply send_txs_stop_inv.
Qed.

Lemma CLPABroker_handle_stop_inv ch msg : preserves cb_stop_inv (CLPABroker_HandleMsg (Src := Src) cfg ch msg).
Proof.
  unfold CLPABroker_HandleMsg. case_decide; [|case_decide; [|apply pres_ret]].
  - apply pres_bind; [apply pres_wrap, pres_lift|]. intros b. unfold handleBlockInfoMsg. case_decide; [apply pres_ret|].
    apply pres_bind; [apply cb_keeps_runner|]. intros _. apply pres_get_bind. intros c _. apply pres_bind.
    { apply pres_zoom. intros c1 x u Hc E. by eapply count_reported_stop_inv. }
    intros _. case_decide; [apply pres_ret|]. apply pres_bind; [apply cb_keeps_runner|]. intros _.
    apply pres_bind; [apply cb_keeps_runner|]. intros _. apply pres_bind; [apply cb_keeps_confirm|].
    intros _. apply cb_keeps_confirm.
  - apply pres_bind; [apply pres_wrap, pres_lift|]. intros t. apply pres_log_error, cb_keeps_manager.
Qed.
End stopping.

(** ** Properties *)

Section properties.
  Context {BL : BitSetLib} {RT : RlpTx} {MK : MapKeys} {GM : GobMsg}.
  Context {Src : Type} {TS : TxSource Src} {TSL : TxSourceLaws Src}.
  Context (resolver : TopoGetter) (cfg : SupervisorCfg).
  Abbreviation Client := (Client (Src := Src)).
  Abbreviation shards := (ShardNum (sv_Sys cfg)).

Lemma elem_of_shard loc k txs tx : tx ∈ of_shard loc k txs ↔ tx ∈ txs ∧ loc tx = Ok (Z.of_nat k).
Proof.
  unfold of_shard. rewrite list_elem_of_omap. split.
  - intros (x & Hx & H). destruct (loc x) eqn:E; try done. case_decide; simplify_eq. done.
  - intros [Hx E]. exists tx. rewrite E. by rewrite decide_True.
Qed.

(** C31: injecting transactions.  A successful tick of the static relay
    committee takes from the source no more than its speed and what is left,
    and puts in the outbox one message per shard that has any: to the leader of
    the shard, with exactly the transactions read whose sender is in that
    shard, in order; every transaction read is in exactly one of them.  The
    number left to inject goes down by the number read and stays non-negative. *)
Theorem static_relay_injects now (c c' : Client) :
  own_leaders resolver → 0 < shards → 0 ≤ sv_TxInjectionSpeed cfg → 0 ≤ unsentTxNum c ≤ int64_max →
  StaticRelay_SendTxsAndConsensus resolver cfg now c = (Ok tt, c') →
  ∃ txs sent, ReadTxs now (Z.min (sv_TxInjectionSpeed cfg) (unsentTxNum c)) (txSource c) = (Ok txs, txSource c') ∧
    unsentTxNum c' = unsentTxNum c - Z.of_nat (length txs) ∧ 0 ≤ unsentTxNum c' ∧ sl c' = sl c ∧
    outbox (cl_conn c') = outbox (cl_conn c) ++ sent ∧ NoDup sent ∧
    (∀ p, p ∈ sent ↔ ∃ k, Z.of_nat k < shards ∧
       shard_msg resolver (Z.of_nat k) (of_shard (getTxLoc cfg) k txs) p) ∧
    (∀ k, Z.of_nat k < shards → of_shard (getTxLoc cfg) k txs ≠ [] →
       ∃ p, p ∈ sent ∧ shard_msg resolver (Z.of_nat k) (of_shard (getTxLoc cfg) k txs) p) ∧
    (∀ tx, tx ∈ txs → ∃ k, Z.of_nat k < shards ∧ ∀ j, tx ∈ of_shard (getTxLoc cfg) j txs ↔ j = k).
Proof using TSL.
  intros Hown Hn Hsp Hu. unfold StaticRelay_SendTxsAndConsensus, StaticRelay_readTxsAndSend.
  intros (txs & c1 & E & H)%st_wrap_ok%st_bind_ok. unfold read_txs, on_source in E.
  apply st_wrap_ok, st_zoom_ok in E as (src & E & ->).
  apply send_txs_ok in H as (sent & -> & Hnd & _ & H1 & H2); [|done].
  pose proof E as Hl. apply ReadTxs_bound in Hl; [|lia]. unfold int64_max in Hu.
  exists txs, sent. cbn. rewrite wrap_s_id by (split; lia). split_and!; try done; try lia.
  intros tx Htx. destruct (DefaultAccountLoc_range (Sender tx) shards Hn) as (i & Hi & Hr).
  exists (Z.to_nat i). split; [lia|]. intros j. rewrite elem_of_shard. unfold getTxLoc. rewrite Hi. split.
  - intros [_ [= ->]]. lia.
  - intros ->. split; [done|]. f_equal. lia.
Qed.

(** *** Epochs *)

(** [gob] encodes every repartition message. *)
Context (Hgob : ∀ m, is_ok (gob_encode KCLPARepartitionStart m) = true) (Hshards : 0 < shards).

(** [range] over the set of accounts visits each of them once, in some order. *)
Definition valid_order (ch : Choices) (p : partitionRunner) : Prop :=
  ∀ k, ch_order ch k ≡ₚ elements (VertexSet (netGraph (pr_state p))).

(** What a run of the CLPA relay committee does; a shard reports an epoch it was told to enter. *)
Inductive cr_reach : CLPARelayCommittee → Prop :=
| cr_init conn src now c : NewCLPARelayCommittee cfg conn src now = Ok c → cr_reach c
| cr_send c ch now r c' : cr_reach c → supervisorEpoch (cr_runner c) < int64_max → valid_order ch (cr_runner c) →
    CLPARelay_SendTxsAndConsensus resolver cfg ch now c = (r, c') → cr_reach c'
| cr_msg c msg r c' : cr_reach c →
    (∀ b, gob_decode KRelayBlockInfo (Payload msg) = Ok b → rb_Epoch b ≤ supervisorEpoch (cr_runner c)) →
    CLPARelay_HandleMsg cfg msg c = (r, c') → cr_reach c'.

Definition all_at (p : partitionRunner) : Prop := Forall (λ e, e = supervisorEpoch p) (shardEpoch p).

Definition epoch_inv (p : partitionRunner) : Prop :=
  0 ≤ supervisorEpoch p ∧ Forall (λ e, e ≤ supervisorEpoch p) (shardEpoch p) ∧ (epochSynced p = true → all_at p).
Definition runner_inv (p : partitionRunner) : Prop := epoch_inv p ∧ clpa_inv (pr_state p).

(** The accounts whose shard is another than before, with the new one. *)
Definition moved (before after : CLPAState) (modified : gmap Address Z) : Prop :=
  ∀ v l, modified !! v = Some l ↔ partitionMap after !! v = Some l ∧ partitionMap before !! v ≠ Some l.

(** What goes out when a repartition starts: the new epoch and the accounts that
    moved, to the leader of every shard. *)
Definition announced (c c' : CLPARelayCommittee (Src := Src)) : Prop :=
  ∃ recipients modified w,
    (∀ n, n ∈ recipients ↔ ni_ShardID n ≠ SupervisorShardID ∧ ∃ shard, GetLeader shard resolver = Ok n) ∧
    moved (pr_state (cr_runner c)) (pr_state (cr_runner c')) modified ∧
    WrapMsg KCLPARepartitionStart (mkCLPARepartitionStartMsg (supervisorEpoch (cr_runner c')) modified) = Ok w ∧
    outbox (cl_conn (cr_client c')) = outbox (cl_conn (cr_client c)) ++ map (λ n, (n, w)) recipients.

Lemma all_at_forallb p : forallb (λ e, bool_decide (e = supervisorEpoch p)) (shardEpoch p) = true ↔ all_at p.
Proof.
  unfold all_at. rewrite forallb_forall, Forall_forall. split; intros H e He.
  - specialize (H e). rewrite bool_decide_eq_true in H. apply H. by apply list_elem_of_In.
  - rewrite bool_decide_eq_true. apply H. by apply list_elem_of_In.
Qed.

Lemma GetAllLeaders_elem ls n : GetAllLeaders resolver = Ok ls →
  n ∈ ls ↔ ni_ShardID n ≠ SupervisorShardID ∧ ∃ shard, GetLeader shard resolver = Ok n.
Proof.
  intros [= <-]. rewrite list_elem_of_filter, list_elem_of_fmap. unfold GetLeader. split; intros [Hn H]; (split; [done|]).
  - destruct H as ([s x] & -> & H%elem_of_map_to_list). exists s. by rewrite H.
  - destruct H as (s & H). destruct (leaders resolver !! s) as [x|] eqn:E; [|done]. injection H as ->.
    exists (s, n). split; [done|]. by apply elem_of_map_to_list.
Qed.

Lemma repartition_ok ch (c : Client) p r c' p' : repartition resolver ch (c, p) = (r, (c', p')) →
  (c' = c ∧ p' = p ∧ r = Panic ∨ ∃ e, c' = c ∧ p' = p ∧ r = Err e) ∨
  ∃ modified x w leaders, CLPAPartition (ch_order ch) (pr_state p) = Ok (modified, x, pr_state p') ∧
    WrapMsg KCLPARepartitionStart (mkCLPARepartitionStartMsg (wrap_i64 (supervisorEpoch p + 1)) modified) = Ok w ∧
    r = Ok tt ∧ supervisorEpoch p' = wrap_i64 (supervisorEpoch p + 1) ∧ epochSynced p' = false ∧
    shardEpoch p' = shardEpoch p ∧ GetAllLeaders resolver = Ok leaders ∧
    outbox (cl_conn c') = outbox (cl_conn c) ++ map (λ n, (n, w)) leaders.
Proof using Hgob.
  unfold repartition. destruct (CLPAPartition _ _) as [[[m f] st]|e|].
  2: { intros [= <- <- <-]. left. right. by exists e. }
  2: { intros [= <- <- <-]. by left; left. }
  cbn [supervisorEpoch upd]. unfold WrapMsg at 1. cbn [getMsgType wrap_err rbind].
  set (msg := mkCLPARepartitionStartMsg _ m). pose proof (Hgob msg) as Hg.
  destruct (gob_encode KCLPARepartitionStart msg) as [w| |] eqn:Ew; try discriminate. cbn.
  intros [= <- <- <-]. right. eexists m, f, (mkWrappedMsg CLPARepartitionStartMessageType w), _.
  unfold WrapMsg. subst msg. split; [done|]. split; [by rewrite Ew|]. split_and!; try done. cbn.
  by rewrite GroupBroadcast_outbox.
Qed.

(** What a tick does, by where the epochs are. *)
Lemma CLPARelay_send_cases ch now c r c' : runner_inv (cr_runner c) → supervisorEpoch (cr_runner c) < int64_max →
  valid_order ch (cr_runner c) → CLPARelay_SendTxsAndConsensus resolver cfg ch now c = (r, c') →
  runner_inv (cr_runner c') ∧
  (¬ all_at (cr_runner c) → r = Ok tt ∧ c' = c) ∧
  (supervisorEpoch (cr_runner c') ≠ supervisorEpoch (cr_runner c) →
     supervisorEpoch (cr_runner c') = supervisorEpoch (cr_runner c) + 1 ∧ all_at (cr_runner c) ∧
     epochSynced (cr_runner c') = false ∧ announced c c').
Proof using Hgob.
  intros ((He & Hle & Hs) & Hclpa) Hmax Hord. unfold CLPARelay_SendTxsAndConsensus.
  destruct (CheckEpochSyncAndMark now (cr_runner c)) as [synced p] eqn:Ep.
  assert (supervisorEpoch p = supervisorEpoch (cr_runner c) ∧ shardEpoch p = shardEpoch (cr_runner c) ∧
    pr_state p = pr_state (cr_runner c) ∧ (if synced then all_at (cr_runner c) ∧ epochSynced p = true else ¬ all_at (cr_runner c) ∧ p = cr_runner c))
    as (E1 & E2 & E4 & E3).
  { revert Ep. unfold CheckEpochSyncAndMark. destruct (epochSynced _) eqn:E; [intros [= <- <-]; split_and!; auto|].
    destruct (forallb _ _) eqn:Ef; intros [= <- <-]; split_and!; try done; [by apply all_at_forallb|].
    intros Ha%all_at_forallb. congruence. }
  destruct synced; cbn [negb].
  2: { destruct E3 as [E3 ->]. intros [= <- <-]. destruct c as [cl p]; cbn in *. by split_and!. }
  destruct E3 as [Ha Hsy]. assert (runner_inv p) as Hp.
  { split; [|by rewrite E4]. split_and!; [by rewrite E1|by rewrite E1, E2|]. intros _. unfold all_at. by rewrite E1, E2. }
  destruct (epoch_over _ _ _).
  - unfold st_wrap. cbn [cr_client cr_runner upd]. destruct (repartition _ _ _) as [x [cl p']] eqn:E. intros [= <- <-]. cbn.
    apply repartition_ok in E as [[(-> & -> & ->)|(e & -> & -> & ->)]|(m & f & w & ls & Hm & Hw & -> & H1 & H2 & H3 & H4 & H5)].
    + split_and!; [done|by intros []|by rewrite E1].
    + split_and!; [done|by intros []|by rewrite E1].
    + rewrite E1, wrap_s_id in * by (unfold int64_max in Hmax; split; lia).
      rewrite E4 in Hm. destruct (CLPAPartition_ok (ch_order ch) _ Hclpa Hord) as (m' & x' & st & Hm' & Hst & _ & _ & _ & Hmoved & _).
      rewrite Hm in Hm'. injection Hm' as <- <- <-. split_and!; [|by intros []|].
      * split; [|done]. split_and!; [lia| |by rewrite H2]. rewrite H1, H3, E2. eapply Forall_impl; [exact Hle|]. intros e; cbn; lia.
      * intros _. split_and!; try done. exists ls, m, w. cbn. rewrite H1. split; [|done].
        intros n. by apply GetAllLeaders_elem.
  - intros H. assert (cr_runner c' = p) as ->.
    { revert H. unfold st_wrap, CLPARelay_readTxsAndSend, cr_on_client, st_zoom. destruct (st_bind _ _ _) as [y cl].
      by intros [= _ <-]. }
    split_and!; [done|by intros []|by rewrite E1].
Qed.

Lemma report_epoch_inv shard epoch p p' : runner_inv p → epoch ≤ supervisorEpoch p →
  report_epoch shard epoch p = Ok p' → runner_inv p'.
Proof.
  intros ((He & Hle & Hs) & Hclpa) Hep. unfold report_epoch. intros (l & Hl & [= <-])%rbind_ok.
  apply idx_upd_inv in Hl as (Hlt & e & Hel & ->). split; [|done]. split_and!; cbn; [done| |].
  - apply Forall_insert; [done|]. rewrite Forall_forall in Hle. assert (e ≤ supervisorEpoch p); [|lia].
    apply Hle. by eapply list_elem_of_lookup_2.
  - intros Hy. specialize (Hs Hy). unfold all_at in *. cbn. apply Forall_insert; [done|].
    rewrite Forall_forall in Hs. rewrite (Hs e) by (by eapply list_elem_of_lookup_2). lia.
Qed.

Lemma add_edges_inv txs p p' : runner_inv p → add_edges txs p = Ok p' → runner_inv p'.
Proof.
  intros [He Hc]. unfold add_edges. intros (cs & E & [= <-])%rbind_ok. split; [exact He|]. cbn.
  revert Hc E. generalize (pr_state p). induction txs as [|tx txs IH]; intros st Hst; cbn; [by intros [= <-]|].
  destruct (AddEdge_inv (Sender tx) (Recipient tx) st Hst) as (st' & -> & Hst' & _). cbn [rbind]. by apply IH.
Qed.

Lemma newPartitionRunner_inv now p : newPartitionRunner shards now = Ok p → runner_inv p.
Proof using Hshards.
  unfold newPartitionRunner. destruct (NewCLPAState_inv clpaWeightPenalty clpaMaxIterations shards Hshards) as (st & -> & Hst & _).
  cbn [rbind]. intros (se & Hse & [= <-])%rbind_ok. unfold make in Hse. case_decide; [done|]. injection Hse as <-.
  split; [|exact Hst]. split_and!; cbn; [done| |done]. apply Forall_forall. intros e He. by apply elem_of_replicate in He as [-> _].
Qed.

Lemma cr_reach_inv c : cr_reach c → runner_inv (cr_runner c).
Proof using Hgob Hshards.
  induction 1 as [conn src now c Hn|c ch now r c' _ IH Hm Ho H|c msg r c' _ IH Hb H].
  - unfold NewCLPARelayCommittee in Hn. apply rbind_ok in Hn as (ts & _ & Hn).
    apply rbind_ok in Hn as (p & Hp & [= <-]). by apply (newPartitionRunner_inv now).
  - by apply CLPARelay_send_cases in H as [H _].
  - revert H. unfold CLPARelay_HandleMsg. case_decide; [by intros [= _ <-]|].
    unfold st_bind at 1, st_wrap, st_lift. destruct (gob_decode _ _) as [b|e|] eqn:Eb; cbn [wrap_err]; [|by intros [= _ <-]..].
    specialize (Hb b eq_refl). case_decide; [by intros [= _ <-]|].
    set (P := λ d : CLPARelayCommittee (Src := Src), runner_inv (cr_runner d)).
    assert (∀ txs, preserves P (cr_on_runner (add_edges txs))) as Hadd.
    { intros txs d x d' Hd. unfold cr_on_runner. destruct (add_edges txs (cr_runner d)) as [p|e|] eqn:E; intros [= _ <-]; try done.
      by apply add_edges_inv in E. }
    assert (preserves P (cr_on_client (count_reported (Src := Src) (relay_block_txs b)))) as Hc by (by apply pres_zoom).
    unfold st_bind at 1, cr_on_runner at 1. destruct (report_epoch _ _ _) as [p|e|] eqn:Er; [|by intros [= _ <-]..].
    intros Hk. revert Hk. apply (report_epoch_inv _ _ _ _ IH Hb) in Er.
    assert (P (c <| cr_runner := p |>)) as HP by exact Er. revert HP. generalize (c <| cr_runner := p |>).
    intros c1 HP Hk. revert c1 r c' HP Hk.
    apply pres_bind; [exact Hc|]. intros _. apply pres_bind; [apply Hadd|intros _; apply Hadd].
Qed.

(** C30: repartitions are separated by a barrier.  In every run of the CLPA relay
    committee with at least one shard, in which shards only report epochs they
    were told of, the algorithm visits each account of its graph once a pass and
    gob encodes the repartition messages, below the last epoch of int64: while some shard has not reported the supervisor's epoch a tick does nothing
    at all: no transaction is read or sent and no repartition starts.  When a
    tick starts one, every shard had reported the current epoch, the new epoch
    is the next one, the barrier is down again, and one message goes to the
    leader of every shard and to nobody else, with the new epoch and exactly the
    accounts whose shard in the committee's map is another than before the tick,
    each with its new shard. *)
Theorem clpa_epoch_barrier ch now c r c' : cr_reach c → supervisorEpoch (cr_runner c) < int64_max →
  valid_order ch (cr_runner c) →
  CLPARelay_SendTxsAndConsensus resolver cfg ch now c = (r, c') →
  (¬ all_at (cr_runner c) → r = Ok tt ∧ c' = c) ∧
  (supervisorEpoch (cr_runner c') ≠ supervisorEpoch (cr_runner c) →
     supervisorEpoch (cr_runner c') = supervisorEpoch (cr_runner c) + 1 ∧ all_at (cr_runner c) ∧
     epochSynced (cr_runner c') = false ∧ announced c c').
Proof using Hgob Hshards.
  intros Hr%cr_reach_inv Hm Ho H. by apply CLPARelay_send_cases in H as (_ & H).
Qed.
End properties.

(** ** Concrete committees: two shards, a source of three transactions *)

Module CommitteeDemo.
Export ChainDemo.
(** The accounts of the report of a block that is not empty: all that crosses is 0-1 and 0-3. *)
Definition paid (p : Z * Z) : Transaction := NewTransaction (PartitionDemo.vertex p.1) (PartitionDemo.vertex p.2) 0 0 0 0.
Definition reported : list Transaction := map paid [(0, 1); (0, 3); (1, 3); (2, 4); (2, 6)].

(** An encoder that keeps only the kind; a block report is empty when its payload is. *)
#[export] Instance gob_m : GobMsg := {|
  gob_encode k m := Ok (str match getMsgType k with Ok t => t | _ => "" end);
  gob_decode k p :=
    match k return result (msg_of k) with
    | KRelayBlockInfo => Ok (mkRelayBlockInfoMsg (if decide (p = []) then [] else reported) [] [] 0 0 0 0)
    | _ => Err "unsupported"
    end;
|}.
Definition cfg (type : string) (n : Z) : SupervisorCfg :=
  mkSupervisorCfg (mkSystemCfg n 2 type 100) 3 2 30 (mkTxSourceCfg "csv_source" true) (mkBrokerModuleCfg 1).
Definition topo : TopoGetter := SetTopoGetter [(0, [0; 1]); (1, [0; 1])] (NewTopoGetter ∅ ∅).
Definition src : CSVSource := mkCSVSource 1 (cr TxSourceWitness.csv0) false true.
Definition empty_report : WrappedMsg := mkWrappedMsg RelayBlockInfoMessageType [].
Definition choices : Choices := mkChoices (λ _ _, 0) (λ _ l, l) (λ _, []).

Lemma injection_topo_own : own_leaders topo.
Proof. apply SetTopoGetter_own; apply (bool_decide_unpack _); vm_compute; exact I. Qed.

Lemma gob_ok (m : CLPARepartitionStartMsg) : is_ok (gob_encode KCLPARepartitionStart m) = true.
Proof. reflexivity. Qed.

Definition client0 : Client := newClient (cfg StaticRelayConsensus 2) (mkConn [] []) src.
Definition injected := StaticRelay_SendTxsAndConsensus topo (cfg StaticRelayConsensus 2) 5 client0.
Definition clpa_cfg : SupervisorCfg := cfg CLPARelayConsensus 2.
Definition clpa_dummy : CLPARelayCommittee :=
  mkCLPARelayCommittee client0 (mkPartitionRunner (mkCLPAState NewGraph ∅ [] [] f0 f0 0 f0 0) 0 false 0 []).
Definition clpa0 : CLPARelayCommittee := force clpa_dummy (NewCLPARelayCommittee clpa_cfg (mkConn [] []) (Ok src) 0).
(** The accounts in the order of the set's elements. *)
Definition in_order (c : CLPARelayCommittee (Src := CSVSource)) : Choices :=
  mkChoices (λ _ _, 0) (λ _ l, l) (PartitionDemo.order (pr_state (cr_runner c))).
Definition clpa_report := CLPARelay_HandleMsg clpa_cfg (mkWrappedMsg RelayBlockInfoMessageType (str "block")) clpa0.
Definition clpa1 := CLPARelay_SendTxsAndConsensus topo clpa_cfg (in_order clpa_report.2) 5000000000 clpa_report.2.
(** 31 seconds later. *)
Definition clpa2 := CLPARelay_SendTxsAndConsensus topo clpa_cfg (in_order clpa1.2) 36000000000 clpa1.2.
Definition clpa3 := CLPARelay_SendTxsAndConsensus topo clpa_cfg (in_order clpa2.2) 67000000000 clpa2.2.
End CommitteeDemo.

Module CommitteeWitness.
Import CommitteeDemo.

Lemma static_relay_injects_witness : unsentTxNum injected.2 = 1 ∧ ∃ txs, length txs = 2%nat ∧
  ∀ tx, tx ∈ txs → ∃ k, Z.of_nat k < 2 ∧ ∀ j, tx ∈ of_shard (getTxLoc (cfg StaticRelayConsensus 2)) j txs ↔ j = k.
Proof.
  assert (injected.1 = Ok tt) as H by (vm_compute; reflexivity).
  destruct (static_relay_injects topo (cfg StaticRelayConsensus 2) 5 client0 injected.2)
    as (txs & sent & _ & Hu & _ & _ & _ & _ & _ & _ & Ht).
  - apply injection_topo_own.
  - reflexivity.
  - vm_compute. discriminate.
  - split; vm_compute; discriminate.
  - apply run_fst. exact H.
  - assert (unsentTxNum injected.2 = 1) as H1 by (vm_compute; reflexivity). split; [exact H1|].
    exists txs. split; [|exact Ht]. rewrite H1 in Hu. cbn in Hu. lia.
Defined.

(** The tick after the first epoch moves account 0 to the shard of 1 and 3. *)
Lemma clpa_epoch_barrier_witness : supervisorEpoch (cr_runner clpa2.2) = 1 ∧ clpa3 = (Ok tt, clpa2.2) ∧
  ∃ recipients modified w, mkNodeInfo 0 1 ∈ recipients ∧ modified !! PartitionDemo.vertex 0 = Some 1 ∧
    WrapMsg KCLPARepartitionStart (mkCLPARepartitionStartMsg 1 modified) = Ok w ∧
    outbox (cl_conn (cr_client clpa2.2)) = outbox (cl_conn (cr_client clpa1.2)) ++ map (λ n, (n, w)) recipients.
Proof.
  assert (∀ c, cr_reach topo clpa_cfg c → ∀ now, supervisorEpoch (cr_runner c) < int64_max →
    cr_reach topo clpa_cfg (CLPARelay_SendTxsAndConsensus topo clpa_cfg (in_order c) now c).2) as Hstep.
  { intros c Hc now Hm. apply (cr_send _ _ c (in_order c) now (CLPARelay_SendTxsAndConsensus topo clpa_cfg (in_order c) now c).1); [exact Hc|exact Hm|intros k; reflexivity|apply surjective_pairing]. }
  assert (cr_reach topo clpa_cfg clpa0) as R0.
  { apply (cr_init _ _ (mkConn [] []) (Ok src) 0). apply force_ok. vm_compute. reflexivity. }
  assert (cr_reach topo clpa_cfg clpa_report.2) as Rr.
  { eapply cr_msg; [exact R0| |apply surjective_pairing]. intros b [= <-]. vm_compute. discriminate. }
  assert (cr_reach topo clpa_cfg clpa1.2) as R1 by (apply Hstep; [exact Rr|vm_compute; reflexivity]).
  assert (cr_reach topo clpa_cfg clpa2.2) as R2 by (apply Hstep; [exact R1|vm_compute; reflexivity]).
  assert (supervisorEpoch (cr_runner clpa2.2) = 1) as E2 by (vm_compute; reflexivity).
  assert (supervisorEpoch (cr_runner clpa1.2) = 0) as E1 by (vm_compute; reflexivity).
  split; [exact E2|]. split.
  - destruct (clpa_epoch_barrier topo clpa_cfg gob_ok eq_refl (in_order clpa2.2) 67000000000 clpa2.2 clpa3.1 clpa3.2 R2) as [H _].
    + vm_compute. reflexivity.
    + intros k. reflexivity.
    + apply surjective_pairing.
    + destruct H as [H1 H2].
      * unfold all_at. rewrite E2. assert (shardEpoch (cr_runner clpa2.2) = [0; 0]) as -> by (vm_compute; reflexivity).
        intros [Hx _]%Forall_cons. discriminate Hx.
      * rewrite (surjective_pairing clpa3), H1, H2. reflexivity.
  - destruct (clpa_epoch_barrier topo clpa_cfg gob_ok eq_refl (in_order clpa1.2) 36000000000 clpa1.2 clpa2.1 clpa2.2 R1) as [_ H].
    + vm_compute. reflexivity.
    + intros k. reflexivity.
    + apply surjective_pairing.
    + destruct H as (_ & _ & _ & ls & m & w & Hl & Hm & Hw & Ho); [rewrite E1, E2; discriminate|].
      exists ls, m, w. split_and!.
      * apply Hl. split; [discriminate|]. exists 1. vm_compute. reflexivity.
      * apply Hm. split; vm_compute; [reflexivity|discriminate].
      * rewrite <- E2. exact Hw.
      * exact Ho.
Defined.
End CommitteeWitness.
