(* ===== verification/Solvency.v ===== *)
(** * The brokers stay solvent

    The promise of the static broker committee (supervisor/committee/
    staticbroker.go): what its brokers have to pay in a shard for the
    transactions under way is reserved, and never more than they have there.
    The execution of the second half of a broker transaction does not test the
    broker's balance (TxExecute.v, [broker2_overdraft]); this is why it may. *)

From S2P Require Import Prelude GoHash Account Bloom Block Config StateDB TxExecute Storage Chain.
From S2P Require Import Float64 Partition TxSource Network Broker Committee.
From Stdlib Require Import Lia.

Local Open Scope Z_scope.

(** ** Amounts in a table *)

Abbreviation Table := (gmap Address (list Z)).
Definition amt (t : Table) (b : Address) (k : nat) : option Z := default [] (t !! b) !! k.

Lemma tab_upd_ok h b s t t' : tab_upd h b s t = Ok t' →
  ∃ x, 0 ≤ s ∧ amt t b (Z.to_nat s) = Some x ∧
    ∀ b' k, amt t' b' k = if decide (b' = b ∧ k = Z.to_nat s) then Some (h x) else amt t b' k.
Proof.
  unfold tab_upd. intros (l & (Hs & x & Hx & ->)%idx_upd_inv & [= <-])%rbind_ok. exists x.
  split_and!; [done|done|]. intros b' k. unfold amt in *. case_decide as E.
  - destruct E as [-> ->]. rewrite lookup_insert_eq. cbn. apply list_lookup_insert_eq. by eapply lookup_lt_Some.
  - destruct (decide (b' = b)) as [->|Hb]; [|by rewrite lookup_insert_ne].
    rewrite lookup_insert_eq. cbn. apply list_lookup_insert_ne. naive_solver.
Qed.

Lemma tab_upd_total h b s t x : 0 ≤ s → amt t b (Z.to_nat s) = Some x → is_ok (tab_upd h b s t) = true.
Proof.
  intros Hs Hx. unfold tab_upd, idx_upd, idx. rewrite decide_False by lia. unfold amt in Hx. by rewrite Hx.
Qed.

(** The table a constructor builds: [v] for each broker in each shard. *)
Lemma new_table (v n : Z) bs (t0 t : Table) :
  rfold (λ t b, let* l := make v n in Ok (<[b := l]> t)) t0 bs = Ok t →
  ∀ b, t !! b = if decide (b ∈ bs) then Some (replicate (Z.to_nat n) v) else t0 !! b.
Proof.
  revert t0; induction bs as [|x bs IH]; intros t0; cbn [rfold].
  { intros [= <-] b. by rewrite decide_False by apply not_elem_of_nil. }
  intros (t1 & (l & Hl & [= <-])%rbind_ok & H)%rbind_ok b. rewrite (IH _ H b).
  unfold make in Hl. case_decide; [done|]. injection Hl as <-.
  destruct (decide (b ∈ bs)) as [Hb|Hb].
  - rewrite decide_True by (by right). done.
  - destruct (decide (b = x)) as [->|Hx].
    + rewrite lookup_insert_eq, decide_True by (by left). done.
    + rewrite lookup_insert_ne by done. rewrite decide_False; [done|].
      by intros [?|?]%elem_of_cons.
Qed.

(** ** What a broker owes *)

#[export] Instance result_eq_dec {A} `{EqDecision A} : EqDecision (result A).
Proof. solve_decision. Defined.

Section solvency.
  Context {BL : BitSetLib} {RT : RlpTx} {MK : MapKeys} {GM : GobMsg}.
  Context {Src : Type} {TS : TxSource Src}.
  Context (resolver : TopoGetter) (cfg : SupervisorCfg).
  Abbreviation StaticBrokerCommittee := (StaticBrokerCommittee (Src := Src)).
  Abbreviation Infos := (gmap bytes txInfoStage).

(** The payment a transaction under way asks of broker [b] in shard [k]. *)
Definition due (b : Address) (k : nat) (i : txInfoStage) : Z :=
  if decide (tx_Broker (rawTx i) = b ∧ default_loc cfg (Recipient (rawTx i)) = Ok (Z.of_nat k))
  then Value (rawTx i) else 0.
Definition owed (u : Infos) (b : Address) (k : nat) : Z := sumZ (λ p, due b k p.2) (map_to_list u).

Definition values_ok (u : Infos) : Prop := ∀ h i, u !! h = Some i → 0 ≤ Value (rawTx i).

Lemma owed_insert u h i b k : u !! h = None → owed (<[h := i]> u) b k = due b k i + owed u b k.
Proof. intros Hh. unfold owed. by rewrite (sumZ_permutation _ _ _ (map_to_list_insert u h i Hh)). Qed.

Lemma owed_delete u h i b k : u !! h = Some i → owed u b k = due b k i + owed (delete h u) b k.
Proof.
  intros Hh. rewrite <- (insert_delete_id u h i Hh) at 1. apply owed_insert, lookup_delete_eq.
Qed.

Lemma owed_replace u h i i' b k : u !! h = Some i → rawTx i' = rawTx i → owed (<[h := i']> u) b k = owed u b k.
Proof.
  intros Hh Hr. rewrite <- insert_delete_eq, owed_insert by apply lookup_delete_eq.
  rewrite (owed_delete u h i) by done. f_equal. unfold due. by rewrite Hr.
Qed.

Lemma due_nonneg b k i : 0 ≤ Value (rawTx i) → 0 ≤ due b k i.
Proof. intros H. unfold due. case_decide; lia. Qed.

Lemma owed_nonneg u b k : values_ok u → 0 ≤ owed u b k.
Proof.
  unfold owed, values_ok. setoid_rewrite <- elem_of_map_to_list. generalize (map_to_list u). intros l.
  induction l as [|[h i] l IH]; intros Hv; [done|]. change (0 ≤ due b k i + sumZ (λ p, due b k p.2) l).
  assert (0 ≤ due b k i) by (apply due_nonneg, (Hv h); by left).
  assert (0 ≤ sumZ (λ p, due b k p.2) l); [|lia]. apply IH. intros h' i' Hi. apply (Hv h'). by right.
Qed.

(** ** The invariant *)

Definition covered (u : Infos) (bal pend : Table) : Prop := ∀ b k,
  match amt pend b k, amt bal b k with
  | Some p, Some q => owed u b k ≤ p ≤ q
  | None, None => True
  | _, _ => False
  end.

Definition solvent (c : StaticBrokerCommittee) : Prop :=
  values_ok (unconfirmedTxInfo (sb_bManager c)) ∧
  covered (unconfirmedTxInfo (sb_bManager c)) (brokerBalances c) (pendingDeductions c).

(** A call on another part of the committee. *)
Lemma solvent_client {A} (m : M (Client (Src := Src)) A) : preserves solvent (sb_on_client m).
Proof. apply pres_zoom. intros c r x Hc _. exact Hc. Qed.

Lemma solvent_reserve c b s v t : solvent c → 0 ≤ v →
  (∀ p q, amt (pendingDeductions c) b (Z.to_nat s) = Some p → amt (brokerBalances c) b (Z.to_nat s) = Some q →
    v ≤ q - p) →
  tab_upd (λ p, p + v) b s (pendingDeductions c) = Ok t →
  values_ok (unconfirmedTxInfo (sb_bManager c)) ∧
  covered (unconfirmedTxInfo (sb_bManager c)) (brokerBalances c) t ∧
  ∃ p, 0 ≤ s ∧ amt t b (Z.to_nat s) = Some (p + v) ∧ owed (unconfirmedTxInfo (sb_bManager c)) b (Z.to_nat s) ≤ p.
Proof.
  intros [Hv Hc] Hn Ha (p & Hs & Hp & Ht)%tab_upd_ok. split; [done|].
  pose proof (Hc b (Z.to_nat s)) as Hb. rewrite Hp in Hb.
  destruct (amt (brokerBalances c) b (Z.to_nat s)) as [q|] eqn:Hq; [|done]. specialize (Ha p q Hp eq_refl).
  split.
  - intros b' k. rewrite Ht. case_decide as E; [|apply Hc]. destruct E as [-> ->]. rewrite Hq. lia.
  - exists p. rewrite Ht, decide_True by done. split_and!; [done|done|lia].
Qed.

Lemma solvent_find bs tx s : 0 ≤ Value tx → default_loc cfg (Recipient tx) = Ok s →
  preserves solvent (find_broker (Src := Src) bs tx s).
Proof.
  intros Hv Hs. induction bs as [|b bs IH]; cbn [find_broker]; [apply pres_ret|].
  intros c r c' Hc. unfold st_bind at 1, st_get.
  unfold st_bind at 1, st_lift. destruct (tab_get (brokerBalances c) b s) as [q|e|] eqn:Eq; [|by intros [= _ <-]..].
  unfold st_bind at 1, st_lift. destruct (tab_get (pendingDeductions c) b s) as [p|e|] eqn:Ep; [|by intros [= _ <-]..].
  destruct (decide _) as [Hle|Hle]; [|by apply IH].
  unfold st_bind, sb_on_pending.
  destruct (tab_upd _ b s (pendingDeductions c)) as [t|e|] eqn:Et; [|by intros [= _ <-]..].
  assert (Hr : ∀ p q, amt (pendingDeductions c) b (Z.to_nat s) = Some p →
    amt (brokerBalances c) b (Z.to_nat s) = Some q → Value tx ≤ q - p).
  { unfold tab_get, idx in Eq, Ep. case_decide; [done|]. apply or_panic_ok in Eq, Ep. unfold amt.
    intros p' q' Hp' Hq'. simplify_eq. lia. }
  destruct (solvent_reserve c b s _ t Hc Hv Hr Et) as (H1 & H2 & p1 & Hs0 & Hp1 & Ho).
  unfold sb_on_manager, st_zoom.
  destruct (CreateRawTx tx b (sb_bManager (c <| pendingDeductions := t |>))) as [y m] eqn:Em.
  destruct (CreateRawTx_cases _ _ _ _ _ Em) as [(th & nonce & -> & _ & Hn & ->)|[_ ->]].
  - intros [= _ <-]. split; cbn in *.
    + intros h i [[_ <-]|[_ Hi]]%lookup_insert_Some; [done | by eapply H1].
    + intros b' k. specialize (H2 b' k). rewrite owed_insert by done.
      unfold due. cbn. case_decide as E; [|destruct (amt t b' k), (amt (brokerBalances c) b' k); lia || done].
      destruct E as [<- E]. change (tx_Broker (raw_tx tx b th nonce)) with b in *.
      rewrite Hs in E. injection E as ->. rewrite Nat2Z.id in *. rewrite Hp1 in H2 |- *.
      destruct (amt (brokerBalances c) b k); [lia|done].
  - assert (solvent (c <| pendingDeductions := t |>)) as Hc' by (split; [exact H1|exact H2]).
    destruct y as [x|e|]; [by intros [= _ <-] | by apply IH | by intros [= _ <-]].
Qed.

Lemma solvent_assign ch i cross relays : Forall (λ tx, 0 ≤ Value tx) cross →
  preserves solvent (assign_brokers (Src := Src) cfg ch i cross relays).
Proof.
  intros Hv. revert i relays; induction Hv as [|tx cross Htx _ IH]; intros i relays; cbn [assign_brokers]; [apply pres_ret|].
  apply pres_bind; [apply pres_lift|]. intros _. intros c r c' Hc. unfold st_bind at 1, st_lift.
  destruct (default_loc cfg (Recipient tx)) as [s|e|] eqn:Es; [|by intros [= _ <-]..].
  revert c r c' Hc. apply pres_bind; [apply pres_get|]. intros c. apply pres_bind; [by apply solvent_find|].
  intros []; [apply IH|]. apply pres_bind; [apply pres_lift|]. intros rtx. apply IH.
Qed.

(** ** Confirmations *)

(** What a report says of a transaction under way is what the committee made of
    it: its broker and amount, its half, and for the second half its shard. *)
Definition tells_truth (u : Infos) (stage shard : Z) (tx : Transaction) : Prop :=
  tx_BrokerStage tx = stage ∧
  ∀ i, u !! tx_BOriginalHash tx = Some i →
    tx_Broker tx = tx_Broker (rawTx i) ∧ Value tx = Value (rawTx i) ∧
    (stage = Sigma2BrokerStage → default_loc cfg (Recipient (rawTx i)) = Ok shard).
Definition truthful (u : Infos) (bi : BrokerBlockInfoMsg) : Prop :=
  Forall (tells_truth u Sigma1BrokerStage (bb_ShardID bi)) (bb_Broker1Txs bi) ∧
  Forall (tells_truth u Sigma2BrokerStage (bb_ShardID bi)) (bb_Broker2Txs bi).

(** A table whose transactions under way are among those of [u]. *)
Definition within (u u' : Infos) : Prop := ∀ h i', u' !! h = Some i' → ∃ i, u !! h = Some i ∧ rawTx i' = rawTx i.

Lemma within_refl u : within u u.
Proof. intros h i Hi. by exists i. Qed.

Lemma tells_truth_within u u' stage shard tx : within u u' → tells_truth u stage shard tx → tells_truth u' stage shard tx.
Proof.
  intros Hw [Hs Ht]. split; [done|]. intros i' Hi'. destruct (Hw _ _ Hi') as (i & Hi & ->). by apply Ht.
Qed.

Definition solvent_from (u : Infos) (c : StaticBrokerCommittee) : Prop :=
  solvent c ∧ within u (unconfirmedTxInfo (sb_bManager c)).

Lemma within_replace u u' h i j : within u u' → u' !! h = Some i → rawTx j = rawTx i → within u (<[h := j]> u').
Proof.
  intros Hw Hi Hj h' i' [[<- <-]|[_ Hi']]%lookup_insert_Some; [|by apply Hw]. rewrite Hj. by apply Hw.
Qed.
Lemma within_delete u u' h : within u u' → within u (delete h u').
Proof. intros Hw h' i' [_ Hi']%lookup_delete_Some. by apply Hw. Qed.

Lemma solvent_confirm1 u shard tx : tells_truth u Sigma1BrokerStage shard tx →
  preserves (solvent_from u) (confirm_broker1 (Src := Src) shard tx).
Proof.
  intros Ht c r c' [[Hv Hc] Hw]. unfold confirm_broker1, confirmed, sb_on_manager, st_zoom.
  destruct (ConfirmBrokerTx tx (sb_bManager c)) as [y m] eqn:Em.
  destruct (tells_truth_within _ _ _ _ _ Hw Ht) as [Hs Htr].
  destruct (ConfirmBrokerTx_cases _ _ _ _ Em) as [(i & -> & Hi & Hst & _ & ->)|[(i & _ & _ & _ & Hs2 & _)|[Hy ->]]].
  - destruct (Htr i Hi) as (Hb & Hval & _).
    assert (values_ok (<[tx_BOriginalHash tx := i <| confirmStage := stageWaitConfirm2 |>]>
      (unconfirmedTxInfo (sb_bManager c)))) as Hv'.
    { intros h j [[_ <-]|[_ Hj]]%lookup_insert_Some; [by apply (Hv _ _ Hi) | by eapply Hv]. }
    assert (0 ≤ Value tx) as Hpos by (rewrite Hval; by eapply Hv).
    unfold sb_on_balances. destruct (tab_upd _ _ _ _) as [t|e|] eqn:Et.
    2, 3: intros [= _ <-]; (split; [split; [exact Hv'|] | by eapply within_replace]); cbn;
      intros b k; rewrite (owed_replace _ _ i) by done; apply Hc.
    apply tab_upd_ok in Et as (x & _ & Hx & Hamt). cbn in Hx. intros [= _ <-].
    split; [split; [exact Hv'|] | by eapply within_replace]. cbn.
    intros b k. rewrite (owed_replace _ _ i) by done. rewrite Hamt. specialize (Hc b k).
    case_decide as E; [|exact Hc]. destruct E as [-> ->]. rewrite Hx in Hc.
    destruct (amt (pendingDeductions c) _ _); [lia|done].
  - rewrite Hs in Hs2. done.
  - destruct y as [[]|e|]; [by destruct (Hy tt)|intros [= _ <-]; by split..].
Qed.

Lemma solvent_confirm2 u shard tx : tells_truth u Sigma2BrokerStage shard tx →
  preserves (solvent_from u) (confirm_broker2 (Src := Src) shard tx).
Proof.
  intros Ht c r c' [[Hv Hc] Hw]. unfold confirm_broker2, confirmed, sb_on_manager, st_zoom.
  destruct (ConfirmBrokerTx tx (sb_bManager c)) as [y m] eqn:Em.
  destruct (tells_truth_within _ _ _ _ _ Hw Ht) as [Hs Htr].
  destruct (ConfirmBrokerTx_cases _ _ _ _ Em) as [(i & _ & _ & _ & Hs2 & _)|[(i & -> & Hi & Hst & _ & ->)|[Hy ->]]].
  - rewrite Hs in Hs2. done.
  - destruct (Htr i Hi) as (Hb & Hval & Hloc). specialize (Hloc eq_refl).
    set (u' := delete (tx_BOriginalHash tx) (unconfirmedTxInfo (sb_bManager c))).
    assert (values_ok u') as Hv' by (intros h j [_ Hj]%lookup_delete_Some; by eapply Hv).
    assert (0 ≤ Value (rawTx i)) as Hpos by (by eapply Hv).
    assert (Hle : ∀ b k, owed u' b k ≤ owed (unconfirmedTxInfo (sb_bManager c)) b k).
    { intros b k. rewrite (owed_delete _ _ i b k Hi). pose proof (due_nonneg b k i Hpos). fold u'. lia. }
    assert (covered u' (brokerBalances c) (pendingDeductions c)) as Hc'.
    { intros b k. specialize (Hc b k). specialize (Hle b k).
      destruct (amt (pendingDeductions c) b k), (amt (brokerBalances c) b k); [lia|done..]. }
    assert (within u u') as Hw' by (by apply within_delete).
    unfold st_bind, sb_on_balances. cbn [brokerBalances upd].
    destruct (tab_upd _ _ _ _) as [t|e|] eqn:Et; [|by intros [= _ <-]..].
    apply tab_upd_ok in Et as (q & Hs0 & Hq & Hbal). cbn in Hq.
    pose proof (Hc (tx_Broker tx) (Z.to_nat shard)) as Hbk. rewrite Hq in Hbk.
    destruct (amt (pendingDeductions c) (tx_Broker tx) (Z.to_nat shard)) as [p|] eqn:Hp; [|done].
    assert (owed (unconfirmedTxInfo (sb_bManager c)) (tx_Broker tx) (Z.to_nat shard) =
      Value tx + owed u' (tx_Broker tx) (Z.to_nat shard)) as Ho.
    { rewrite (owed_delete _ _ i _ _ Hi). fold u'. f_equal. unfold due. rewrite decide_True; [done|].
      split; [done|]. rewrite Hloc, Z2Nat.id by done. done. }
    pose proof (owed_nonneg u' (tx_Broker tx) (Z.to_nat shard) Hv') as Hn.
    unfold sb_on_pending. cbn [pendingDeductions upd].
    pose proof (tab_upd_total (λ p, if decide (p - Value tx < 0) then 0 else p - Value tx)
      (tx_Broker tx) shard (pendingDeductions c) p Hs0 Hp) as Htot.
    destruct (tab_upd _ _ _ (pendingDeductions c)) as [t2|e|] eqn:Et2; [|done..].
    apply tab_upd_ok in Et2 as (p' & _ & Hp' & Hpend). rewrite Hp in Hp'. injection Hp' as <-.
    intros [= _ <-]. split; [split; [exact Hv'|] | exact Hw']. cbn. fold u'.
    intros b k. rewrite Hbal, Hpend. destruct (decide (b = _ ∧ k = _)) as [[-> ->]|_]; [|apply Hc']. case_decide; lia.
  - destruct y as [[]|e|]; [by destruct (Hy tt)|intros [= _ <-]; by split..].
Qed.

(** ** The handlers *)

Lemma solvent_handle c msg r c' : solvent c →
  (∀ bi, gob_decode KBrokerBlockInfo (Payload msg) = Ok bi → truthful (unconfirmedTxInfo (sb_bManager c)) bi) →
  StaticBroker_HandleMsg msg c = (r, c') → solvent c'.
Proof.
  intros Hc Ht. unfold StaticBroker_HandleMsg. case_decide; [by intros [= _ <-]|].
  unfold st_bind at 1, st_wrap, st_lift. destruct (gob_decode _ _) as [bi|e|] eqn:E; cbn [wrap_err]; [|by intros [= _ <-]..].
  destruct (Ht bi eq_refl) as [T1 T2]. rewrite Forall_forall in T1, T2. intros Hr.
  assert (solvent_from (unconfirmedTxInfo (sb_bManager c)) c) as Hc0 by (split; [exact Hc|apply within_refl]).
  enough (solvent_from (unconfirmedTxInfo (sb_bManager c)) c') as [? _] by done.
  revert Hr. generalize (unconfirmedTxInfo (sb_bManager c)) T1 T2 Hc0. clear. intros u T1 T2 Hc0.
  revert c r c' Hc0. apply pres_bind.
  - apply pres_zoom. intros c x cl Hc _. exact Hc.
  - intros _. apply pres_bind; [|intros _]; apply pres_for; intros tx Htx.
    + by apply solvent_confirm1, T1.
    + by apply solvent_confirm2, T2.
Qed.

Lemma classify_parts loc m txs (P : Transaction → Prop) inner cross :
  classifyTxs loc m txs = Ok (inner, cross) → Forall P txs → Forall P inner ∧ Forall P cross.
Proof.
  unfold classifyTxs. intros H Hp.
  assert (∀ acc, Forall P acc.1 ∧ Forall P acc.2 → ∀ out, rfold (λ '(inner, cross) tx,
    let* senderShard := loc (Sender tx) in
    let* receiverShard := loc (Recipient tx) in
    if decide (senderShard = receiverShard ∨ IsBroker m (Sender tx) = true ∨ IsBroker m (Recipient tx) = true)
    then Ok (inner ++ [tx], cross)
    else Ok (inner, cross ++ [tx])) acc txs = Ok out → Forall P out.1 ∧ Forall P out.2) as Hg;
    [|by apply (Hg ([], []) (conj (Forall_nil_2 _) (Forall_nil_2 _)) _ H)].
  clear H. induction Hp as [|tx txs Htx _ IH]; intros [ai ac] [Ha1 Ha2] out; cbn [rfold]; [by intros [= <-]|].
  intros ([bi bc] & (s1 & _ & (s2 & _ & Hb)%rbind_ok)%rbind_ok & Hr)%rbind_ok. apply IH in Hr; [done|].
  case_decide; injection Hb as <- <-; (split; [done || (apply Forall_app; split; [done|by apply Forall_singleton])..]).
Qed.

(** What a request to the transaction source returns. *)
Definition source_values_ok (now : Time) (c : StaticBrokerCommittee) : Prop := ∀ txs,
  (ReadTxs now (Z.min (sv_TxInjectionSpeed cfg) (unsentTxNum (sb_client c))) (txSource (sb_client c))).1 = Ok txs →
  Forall (λ tx, 0 ≤ Value tx) txs.

Lemma solvent_send ch now c r c' : solvent c → source_values_ok now c →
  StaticBroker_SendTxsAndConsensus resolver cfg ch now c = (r, c') → solvent c'.
Proof.
  intros Hc Hs. unfold StaticBroker_SendTxsAndConsensus, st_wrap.
  destruct (StaticBroker_readTxsAndSend resolver cfg ch now c) as [x c1] eqn:E. intros [= _ <-]. revert E.
  unfold StaticBroker_readTxsAndSend. unfold st_bind at 1.
  destruct (sb_on_client (read_txs cfg now) c) as [y c2] eqn:E2.
  pose proof (solvent_client _ _ _ _ Hc E2) as Hc2. destruct y as [txs|e|]; [|by intros [= _ <-]..].
  assert (Forall (λ tx, 0 ≤ Value tx) txs) as Hv.
  { apply Hs. apply st_zoom_ok in E2 as (cl & E2 & _). unfold read_txs in E2. apply st_wrap_ok in E2.
    apply st_zoom_ok in E2 as (sr & E2 & _). by rewrite E2. }
  revert c2 x c1 Hc2 E2. clear -Hv. intros c2 x c1 Hc2 _. revert c2 x c1 Hc2.
  apply pres_get_bind. intros c0 _ c2 x c1 Hc2. unfold st_bind at 1, st_lift.
  destruct (classifyTxs _ _ txs) as [[inner cross]|e|] eqn:Ec; [|by intros [= _ <-]..].
  pose proof (proj2 (classify_parts _ _ _ _ _ _ Ec Hv)) as Hx. revert c2 x c1 Hc2.
  apply pres_bind; [by apply solvent_assign|]. intros relays. apply pres_bind.
  - apply pres_zoom. intros c2 x m Hc2. unfold create_broker_txs, CreateBrokerTxs. intros [= _ <-]. exact Hc2.
  - intros [b1 b2]. apply solvent_client.
Qed.

(** ** Runs of the committee *)

(** The data set has no negative amounts and the shards report what they did. *)
Inductive sb_reach : StaticBrokerCommittee → Prop :=
| sb_init conn src file c : NewStaticBrokerCommittee cfg conn src file = Ok c → sb_reach c
| sb_send c ch now r c' : sb_reach c → source_values_ok now c →
    StaticBroker_SendTxsAndConsensus resolver cfg ch now c = (r, c') → sb_reach c'
| sb_msg c msg r c' : sb_reach c →
    (∀ bi, gob_decode KBrokerBlockInfo (Payload msg) = Ok bi → truthful (unconfirmedTxInfo (sb_bManager c)) bi) →
    StaticBroker_HandleMsg msg c = (r, c') → sb_reach c'.

Lemma NewStaticBroker_solvent conn src file c : NewStaticBrokerCommittee cfg conn src file = Ok c → solvent c.
Proof.
  unfold NewStaticBrokerCommittee. intros (ts & _ & (bs & Hbs%wrap_err_ok & H)%rbind_ok)%rbind_ok.
  apply rbind_ok in H as (bal & Hbal & (pend & Hpend & [= <-])%rbind_ok).
  pose proof (new_table _ _ _ _ _ Hbal) as Tb. pose proof (new_table _ _ _ _ _ Hpend) as Tp.
  unfold NewBrokerManager in Hbs. apply rbind_ok in Hbs as (l & _ & [= <-]).
  split; cbn; [by intros h i|]. intros b k. unfold amt. rewrite Tb, Tp. rewrite lookup_empty.
  case_decide; cbn [from_option id]; [|done]. destruct (decide (k < Z.to_nat (ShardNum (sv_Sys cfg)))%nat) as [Hk|Hk].
  - rewrite (lookup_replicate_2 _ 0 k), (lookup_replicate_2 _ brokerInit k) by done. split; [done|]. vm_compute. discriminate.
  - rewrite (proj1 (lookup_replicate_None _ 0 k)), (proj1 (lookup_replicate_None _ brokerInit k)) by lia. done.
Qed.

Lemma sb_reach_solvent c : sb_reach c → solvent c.
Proof.
  induction 1 as [conn src file c H|c ch now r c' _ IH Hs H|c msg r c' _ IH Ht H].
  - by eapply NewStaticBroker_solvent.
  - by eapply solvent_send.
  - by eapply solvent_handle.
Qed.

(** Brokers stay solvent.  Whatever is injected, reported and confirmed, in
    whatever order, with any random choice of brokers: in every shard the
    payments that the transactions under way ask of a broker are reserved, and
    what is reserved never exceeds the balance the committee knows the broker
    to have there.  So a second half, which the shards execute without testing
    the balance, always finds the money. *)
Theorem static_broker_solvent c b k q : sb_reach c → amt (brokerBalances c) b k = Some q →
  ∃ p, amt (pendingDeductions c) b k = Some p ∧
    0 ≤ owed (unconfirmedTxInfo (sb_bManager c)) b k ≤ p ∧ p ≤ q.
Proof.
  intros [Hv Hc]%sb_reach_solvent Hq. specialize (Hc b k). rewrite Hq in Hc.
  destruct (amt (pendingDeductions c) b k) as [p|]; [|done]. exists p.
  pose proof (owed_nonneg (unconfirmedTxInfo (sb_bManager c)) b k Hv). split; [done|lia].
Qed.
End solvency.

(** ** One transaction from shard 0 to shard 1, through a broker *)

Module SolvencyDemo.
Export BrokerDemo.
(** The two block reports: the first half in shard 0, the second in shard 1. *)
#[export] Instance gob_m : GobMsg := {|
  gob_encode k m := Ok (str match getMsgType k with Ok t => t | _ => "" end);
  gob_decode k p :=
    match k return result (msg_of k) with
    | KBrokerBlockInfo =>
      if decide (p = str "1") then Ok (mkBrokerBlockInfoMsg [] [staged 1] [] [] [] 0 0 0 0)
      else Ok (mkBrokerBlockInfoMsg [] [] [staged 2] [] [] 0 0 0 1)
    | _ => Err "unsupported"
    end;
|}.
Definition cfg : SupervisorCfg := CommitteeDemo.cfg StaticBrokerConsensus 2.
Definition source : CSVSource := mkCSVSource 1
  [TxSourceWitness.row "0x0000000000000000000000000000000000000002" "0x0000000000000000000000000000000000000003" "30"]
  false true.
Definition dummy : StaticBrokerCommittee := mkStaticBrokerCommittee (newClient cfg (mkConn [] []) source) fresh ∅ ∅.
Definition c0 : StaticBrokerCommittee := force dummy (NewStaticBrokerCommittee cfg (mkConn [] []) (Ok source) file).
Definition send (now : Time) (c : StaticBrokerCommittee) :=
  StaticBroker_SendTxsAndConsensus CommitteeDemo.topo cfg CommitteeDemo.choices now c.
Definition report (p : string) : WrappedMsg := mkWrappedMsg BrokerBlockInfoMessageType (str p).
Definition c1 := send 0 c0.
Definition c2 := StaticBroker_HandleMsg (report "1") c1.2.
Definition c3 := send 1 c2.2.
Definition c4 := StaticBroker_HandleMsg (report "2") c3.2.

Definition books (c : StaticBrokerCommittee (Src := CSVSource)) (b : Address) : list (Z * Z) :=
  zip (map (λ x, x - brokerInit) (default [] (brokerBalances c !! b))) (default [] (pendingDeductions c !! b)).
Example books_kept : (books c1.2 b1, books c2.2 b1, books c4.2 b1) =
  ([(0, 0); (0, 30)], [(30, 0); (0, 30)], [(30, 0); (-30, 0)]).
Proof. vm_compute. reflexivity. Qed.
End SolvencyDemo.

Module SolvencyWitness.
Import SolvencyDemo.

Lemma static_broker_solvent_witness :
  ∃ p, amt (pendingDeductions c2.2) b1 1 = Some p ∧
    0 ≤ owed cfg (unconfirmedTxInfo (sb_bManager c2.2)) b1 1 ≤ p ∧ p ≤ brokerInit.
Proof.
  apply (static_broker_solvent CommitteeDemo.topo cfg c2.2 b1 1 brokerInit); [|vm_compute; reflexivity].
  apply (sb_msg _ _ c1.2 (report "1") c2.1); [| |apply surjective_pairing].
  - apply (sb_send _ _ c0 CommitteeDemo.choices 0 c1.1); [| |apply surjective_pairing].
    + apply (sb_init _ _ (mkConn [] []) (Ok source) file). apply force_ok. vm_compute. reflexivity.
    + intros txs E. vm_compute in E. injection E as <-. repeat constructor. vm_compute. discriminate.
  - intros bi E. vm_compute in E. injection E as <-. split; [|constructor]. constructor; [|constructor].
    split; [reflexivity|]. intros i E. vm_compute in E. injection E as <-.
    split; [vm_compute; reflexivity|]. split; [vm_compute; reflexivity|]. intros H. vm_compute in H. discriminate.
Defined.
End SolvencyWitness.
