(* ===== verification/Books.v ===== *)
(** * The brokers' books and the shards' ledgers

    What the static broker committee (Solvency.v) knows of its brokers, against
    what the shards hold.  A broker transaction is at one place at a time: ready
    in the manager, on its way to a block ([T]), or executed and not yet
    confirmed ([R]).  [booked] ties these to the balances [led] the brokers have
    in the shards; each event of a system keeps it, and it leaves in every shard
    the room for what is on its way ([headroom]).  BrokerFlow.v runs the system. *)

From S2P Require Import Prelude GoHash Account Bloom Block Config StateDB TxExecute Storage Chain.
From S2P Require Import Float64 Partition TxSource Network Broker Committee Solvency.
From Stdlib Require Import Lia.

Local Open Scope Z_scope.

Definition is_broker (tx : Transaction) : Prop := TxType tx = BrokerTxType.
#[export] Instance is_broker_dec tx : Decision (is_broker tx).
Proof. unfold is_broker. apply _. Defined.
(** The broker transactions of a list. *)
Definition tokens (txs : list Transaction) : list Transaction := filter is_broker txs.

Lemma is_broker_hash tx : is_broker tx ↔ tx_BOriginalHash tx ≠ [].
Proof.
  unfold is_broker, TxType. destruct (decide (tx_BOriginalHash tx ≠ [])); [done|].
  split; [|done]. by repeat case_decide.
Qed.
Lemma tokens_app l1 l2 : tokens (l1 ++ l2) = tokens l1 ++ tokens l2.
Proof. apply filter_app. Qed.
Lemma tokens_all l : Forall is_broker l → tokens l = l.
Proof. induction 1 as [|x l Hx _ IH]; [done|]. unfold tokens in *. by rewrite filter_cons_True, IH. Qed.
Lemma tokens_none l : Forall (λ tx, ¬ is_broker tx) l → tokens l = [].
Proof. induction 1 as [|x l Hx _ IH]; [done|]. unfold tokens in *. by rewrite filter_cons_False, IH. Qed.
#[export] Instance tokens_perm : Proper (Permutation ==> Permutation) tokens.
Proof. intros l l' H. unfold tokens. by rewrite H. Qed.

Section books.
  Context {BL : BitSetLib} {RT : RlpTx} {MK : MapKeys} {GM : GobMsg}.
  Context {Src : Type} {TS : TxSource Src}.
  Context (resolver : TopoGetter) (cfg : SupervisorCfg) (accs bs : list Address).
  Abbreviation StaticBrokerCommittee := (StaticBrokerCommittee (Src := Src)).
  Abbreviation Infos := (gmap bytes txInfoStage).
  Abbreviation loc := (default_loc cfg).
  Abbreviation shards := (ShardNum (sv_Sys cfg)).

(** What a broker gets and pays in shard [k] by a transaction. *)
Definition gain (b : Address) (k : nat) (tx : Transaction) : Z :=
  if decide (tx_BrokerStage tx = Sigma1BrokerStage ∧ tx_Broker tx = b ∧ loc (Sender tx) = Ok (Z.of_nat k))
  then Value tx else 0.
Definition pay (b : Address) (k : nat) (tx : Transaction) : Z :=
  if decide (tx_BrokerStage tx = Sigma2BrokerStage ∧ tx_Broker tx = b ∧ loc (Recipient tx) = Ok (Z.of_nat k))
  then Value tx else 0.
Definition gains b k (txs : list Transaction) : Z := sumZ (gain b k) txs.
Definition pays b k (txs : list Transaction) : Z := sumZ (pay b k) txs.

(** A broker transaction is the recorded one, in the half the manager waits for. *)
Definition half_of (i : txInfoStage) (tx : Transaction) : Prop :=
  (tx_BrokerStage tx = Sigma1BrokerStage ∧ confirmStage i = stageWaitConfirm1) ∨
  (tx_BrokerStage tx = Sigma2BrokerStage ∧ confirmStage i = stageWaitConfirm2).
Definition token_ok (u : Infos) (tx : Transaction) : Prop := ∃ i, u !! tx_BOriginalHash tx = Some i ∧
  half_of i tx ∧ tx_Broker tx = tx_Broker (rawTx i) ∧ Value tx = Value (rawTx i) ∧
  Sender tx = Sender (rawTx i) ∧ Recipient tx = Recipient (rawTx i).
(** A recorded transaction: between accounts, from one that is not a broker's. *)
Definition info_ok (h : bytes) (i : txInfoStage) : Prop := h ≠ [] ∧
  Sender (rawTx i) ∈ accs ∧ (Sender (rawTx i) ∉ bs) ∧ Recipient (rawTx i) ∈ accs ∧ tx_Broker (rawTx i) ∈ bs.

Definition ready (m : Manager) : list bytes := readyBroker1TxHashes m ++ readyBroker2TxHashes m.
Definition hashes (txs : list Transaction) : list bytes := map tx_BOriginalHash txs.

(** Where the manager has the transactions [l] that are sent. *)
Record managed (l : list Transaction) (m : Manager) : Prop := {
  mg_inv : manager_inv m;
  mg_brokers : ∀ b, is_Some (broker2Nonce m !! b) ↔ b ∈ bs;
  mg_infos : ∀ h i, unconfirmedTxInfo m !! h = Some i → info_ok h i;
  mg_places : NoDup (hashes l ++ ready m);
  mg_tokens : Forall (token_ok (unconfirmedTxInfo m)) l;
}.

Abbreviation infos c := (unconfirmedTxInfo (sb_bManager c)).

(** The balances the committee knows, with what is not confirmed, are there. *)
Definition books (t : Table) (R : list Transaction) (led : nat → Address → Z) : Prop :=
  ∀ b k, b ∈ bs → Z.of_nat k < shards → ∃ q, amt t b k = Some q ∧ q + gains b k R - pays b k R ≤ led k b.

Record booked (T R : list Transaction) (led : nat → Address → Z) (c : StaticBrokerCommittee) : Prop := {
  bk_solvent : solvent cfg c;
  bk_managed : managed (T ++ R) (sb_bManager c);
  bk_books : books (brokerBalances c) R led;
}.

Lemma gains_app b k l1 l2 : gains b k (l1 ++ l2) = gains b k l1 + gains b k l2.
Proof. apply sumZ_app. Qed.
Lemma pays_app b k l1 l2 : pays b k (l1 ++ l2) = pays b k l1 + pays b k l2.
Proof. apply sumZ_app. Qed.
Lemma elem_hashes tx l : tx ∈ l → tx_BOriginalHash tx ∈ hashes l.
Proof. intros H. apply list_elem_of_fmap. by exists tx. Qed.
#[export] Instance hashes_perm : Proper (Permutation ==> Permutation) hashes.
Proof. intros l l' H. unfold hashes. by rewrite H. Qed.
Lemma hashes_app l1 l2 : hashes (l1 ++ l2) = hashes l1 ++ hashes l2.
Proof. apply map_app. Qed.

Lemma managed_perm l l' m : l ≡ₚ l' → managed l m → managed l' m.
Proof. intros Hp [Hm Hb Hi Hn Ht]. split; try done; by rewrite <- Hp. Qed.
Lemma managed_lose l l' m : managed (l ++ l') m → managed l' m.
Proof.
  intros [Hm Hb Hi Hn Ht]. split; try done.
  - rewrite hashes_app, <- app_assoc in Hn. by apply NoDup_app in Hn as (_ & _ & ?).
  - by apply Forall_app in Ht as [_ ?].
Qed.

(** ** The room for payments *)

Lemma token_other u h tx : tx_BOriginalHash tx ≠ h → token_ok u tx → token_ok (delete h u) tx.
Proof. intros Hh (i & Hi & Ht). exists i. by rewrite lookup_delete_ne. Qed.

Lemma pays_owed u b k l : values_ok u → NoDup (hashes l) → Forall (token_ok u) l → pays b k l ≤ owed cfg u b k.
Proof.
  revert u; induction l as [|tx l IH]; intros u Hv; [intros _ _; by apply owed_nonneg|].
  cbn [hashes map]. intros [Hn Hnd]%NoDup_cons [(i & Hi & Hh & Hb & Hval & _ & Hr) Hl]%Forall_cons.
  change (pay b k tx + pays b k l ≤ owed cfg u b k). rewrite (owed_delete cfg u _ i b k Hi).
  assert (pays b k l ≤ owed cfg (delete (tx_BOriginalHash tx) u) b k).
  { apply IH; [by intros h j [_ Hj]%lookup_delete_Some; eapply Hv|done|].
    rewrite Forall_forall in Hl |- *. intros x Hx. apply token_other; [|by apply Hl]. intros E. apply Hn.
    rewrite <- E. by apply elem_hashes. }
  enough (pay b k tx ≤ due cfg b k i) by lia. pose proof (due_nonneg cfg b k i (Hv _ _ Hi)).
  unfold pay. case_decide as E; [|done]. unfold due. destruct E as (_ & E1 & E2).
  rewrite decide_True by (rewrite <- Hb, <- Hr; done). lia.
Qed.

(** A broker can pay in a shard what is on its way there, whatever is not confirmed yet. *)
Lemma headroom T R led c b k : booked T R led c → b ∈ bs → Z.of_nat k < shards →
  pays b k T + gains b k R ≤ led k b.
Proof.
  intros [[Hv Hc] [_ _ _ Hn Ht] Hk] Hb Hs. destruct (Hk b k Hb Hs) as (q & Hq & Hl).
  specialize (Hc b k). rewrite Hq in Hc. destruct (amt (pendingDeductions c) b k) as [p|]; [|done].
  apply NoDup_app in Hn as [Hn _]. pose proof (pays_owed (infos c) b k _ Hv Hn Ht) as Ho.
  rewrite pays_app in Ho. lia.
Qed.

Lemma tokens_nonneg T R led c : booked T R led c → Forall (λ tx, 0 ≤ Value tx) (T ++ R).
Proof.
  intros [[Hv _] [_ _ _ _ Ht] _]. eapply Forall_impl; [exact Ht|]. intros tx (i & Hi & _ & _ & -> & _). by eapply Hv.
Qed.
Lemma gains_nonneg b k l : Forall (λ tx, 0 ≤ Value tx) l → 0 ≤ gains b k l.
Proof.
  intros H. apply sumZ_nonneg. eapply Forall_impl; [exact H|]. intros tx Hx. unfold gain. by case_decide.
Qed.
Lemma pays_nonneg b k l : Forall (λ tx, 0 ≤ Value tx) l → 0 ≤ pays b k l.
Proof.
  intros H. apply sumZ_nonneg. eapply Forall_impl; [exact H|]. intros tx Hx. unfold pay. by case_decide.
Qed.

(** ** The shards' side *)

Lemma booked_perm T T' R R' led c : T ≡ₚ T' → R ≡ₚ R' → booked T R led c → booked T' R' led c.
Proof.
  intros H1 H2 [Hs Hm Hk]. split; [done| |].
  - eapply managed_perm; [|exact Hm]. by rewrite H1, H2.
  - intros b k Hbs Hks. destruct (Hk b k Hbs Hks) as (q & Hq & Hle). exists q. split; [done|].
    unfold gains, pays in *. by rewrite <- !(sumZ_permutation _ _ _ H2).
Qed.

(** Transactions on their way may get lost. *)
Lemma booked_lose X T R led c : booked (X ++ T) R led c → booked T R led c.
Proof. intros [Hs Hm Hk]. split; [done| |done]. rewrite <- app_assoc in Hm. by eapply managed_lose. Qed.

(** A block executes some of them; the ledgers change by them at the least. *)
Lemma booked_commit B T R led led' c : booked (B ++ T) R led c →
  (∀ b k, b ∈ bs → Z.of_nat k < shards → led k b + gains b k B - pays b k B ≤ led' k b) →
  booked T (B ++ R) led' c.
Proof.
  intros [Hs Hm Hk] Hl. split; [done| |].
  - eapply managed_perm; [|exact Hm]. by rewrite <- app_assoc, Permutation_app_swap_app.
  - intros b k Hbs Hks. destruct (Hk b k Hbs Hks) as (q & Hq & Hle). exists q. split; [done|].
    rewrite gains_app, pays_app. specialize (Hl b k Hbs Hks). lia.
Qed.

Lemma booked_led T R led led' c : (∀ b k, b ∈ bs → Z.of_nat k < shards → led k b ≤ led' k b) →
  booked T R led c → booked T R led' c.
Proof.
  intros Hl Hb. apply (booked_commit [] T R led led' c Hb). intros b k Hbs Hk. specialize (Hl b k Hbs Hk).
  change (led k b + 0 - 0 ≤ led' k b). lia.
Qed.

(** ** A report arrives *)

(** The manager takes the confirmation of a half it waits for. *)
Lemma ConfirmBrokerTx_takes tx m i : is_Some (broker2Nonce m !! tx_Broker tx) →
  unconfirmedTxInfo m !! tx_BOriginalHash tx = Some i → half_of i tx →
  ∃ m', ConfirmBrokerTx tx m = (Ok tt, m').
Proof.
  intros Hb Hi Hh. unfold ConfirmBrokerTx, st_bind, st_get, IsBroker. rewrite bool_decide_eq_true_2 by done.
  cbn [negb]. rewrite Hi. destruct Hh as [[Hs Hc]|[Hs Hc]]; rewrite Hc.
  - rewrite decide_True, decide_False by (done || by intros []). by eexists.
  - rewrite decide_False, decide_True, decide_False by (done || by intros []). by eexists.
Qed.

(** Changing the record of one transaction does not concern the others. *)
Lemma tokens_kept u u' h l : (∀ h', h' ≠ h → u' !! h' = u !! h') → h ∉ hashes l →
  Forall (token_ok u) l → Forall (token_ok u') l.
Proof.
  intros Hu Hh. rewrite !Forall_forall. intros Hl x Hx. destruct (Hl x Hx) as (i & Hi & Ht). exists i.
  rewrite Hu; [done|]. intros E. apply Hh. rewrite <- E. by apply elem_hashes.
Qed.

Lemma managed_confirm tx l m : managed (tx :: l) m →
  ∃ m', ConfirmBrokerTx tx m = (Ok tt, m') ∧ managed l m'.
Proof using RT.
  intros [Hm Hb Hi Hn Ht]. cbn [hashes map app] in Hn. apply NoDup_cons in Hn as [Hx Hn].
  apply Forall_cons in Ht as [(i & Hix & Hh & Hbr & _) Ht].
  destruct (ConfirmBrokerTx_takes tx m i) as [m' Hc]; [|done|done|].
  { apply Hb. rewrite Hbr. by destruct (Hi _ _ Hix) as (_ & _ & _ & _ & ?). }
  exists m'. split; [done|]. assert (manager_inv m') as Hm'.
  { eapply (exec_confirm m tx _ m' Hm); [|unfold exec; rewrite Hc; reflexivity].
    intros Hr. apply Hx, elem_of_app. by right. }
  assert (tx_BOriginalHash tx ∉ hashes l) as Hxl by (intros Hr; apply Hx, elem_of_app; by left).
  destruct (ConfirmBrokerTx_cases _ _ _ _ Hc) as [(j & _ & Hj & _ & _ & ->)|[(j & _ & Hj & _ & _ & ->)|[Hy _]]];
    [| |by destruct (Hy tt)]; split; cbn; try done.
  - intros h k [[<- <-]|[_ Hk]]%lookup_insert_Some; [by apply (Hi _ j)|by apply Hi].
  - unfold ready in *. cbn. rewrite app_assoc, app_assoc, <- Permutation_cons_append, <- app_assoc. by apply NoDup_cons.
  - apply (tokens_kept (unconfirmedTxInfo m) _ (tx_BOriginalHash tx)); [|done..].
    intros h' Hh'. by rewrite lookup_insert_ne.
  - intros h k [_ Hk]%lookup_delete_Some. by apply Hi.
  - apply (tokens_kept (unconfirmedTxInfo m) _ (tx_BOriginalHash tx)); [|done..].
    intros h' Hh'. by rewrite lookup_delete_ne.
Qed.

(** A known balance takes over what a confirmed transaction brought or took. *)
Lemma books_confirm t t' tx R led (s : nat) q d : books t (tx :: R) led → amt t (tx_Broker tx) s = Some q →
  (∀ b k, amt t' b k = if decide (b = tx_Broker tx ∧ k = s) then Some (q + d) else amt t b k) →
  (∀ b k, gain b k tx - pay b k tx = if decide (b = tx_Broker tx ∧ k = s) then d else 0) → books t' R led.
Proof.
  intros Hk Hq Ht Hd b k Hb Hs. destruct (Hk b k Hb Hs) as (q' & Hq' & Hle). rewrite Ht. specialize (Hd b k).
  change (gains b k (tx :: R)) with (gain b k tx + gains b k R) in Hle.
  change (pays b k (tx :: R)) with (pay b k tx + pays b k R) in Hle.
  case_decide as E; [destruct E as [-> ->]; simplify_eq|]; eexists; (split; [done|lia]).
Qed.

Lemma gain_pay1 b k tx (s : nat) : tx_BrokerStage tx = Sigma1BrokerStage → loc (Sender tx) = Ok (Z.of_nat s) →
  gain b k tx - pay b k tx = if decide (b = tx_Broker tx ∧ k = s) then Value tx else 0.
Proof.
  intros Hst Hl. unfold gain, pay. rewrite Hst, Hl. rewrite (decide_False (P := _ = Sigma2BrokerStage ∧ _)) by by intros [].
  rewrite Z.sub_0_r. apply decide_ext. split; [intros (_ & -> & [= ?]); split; [done|lia]|by intros [-> ->]].
Qed.
Lemma gain_pay2 b k tx (s : nat) : tx_BrokerStage tx = Sigma2BrokerStage → loc (Recipient tx) = Ok (Z.of_nat s) →
  gain b k tx - pay b k tx = if decide (b = tx_Broker tx ∧ k = s) then - Value tx else 0.
Proof.
  intros Hst Hl. unfold gain, pay. rewrite Hst, Hl. rewrite (decide_False (P := _ = Sigma1BrokerStage ∧ _)) by by intros [].
  assert (Sigma2BrokerStage = Sigma2BrokerStage ∧ tx_Broker tx = b ∧ Ok (Z.of_nat s) = Ok (Z.of_nat k) ↔
    b = tx_Broker tx ∧ k = s) as E by (split; [intros (_ & -> & [= ?]); split; [done|lia]|by intros [-> ->]]).
  rewrite (decide_ext _ _ _ _ E). by case_decide.
Qed.

Lemma tab_upd_at (t : Table) b (s : nat) q : amt t b s = Some q → ∀ h, ∃ t', tab_upd h b (Z.of_nat s) t = Ok t' ∧
  ∀ b' k, amt t' b' k = if decide (b' = b ∧ k = s) then Some (h q) else amt t b' k.
Proof.
  intros Hq h. pose proof (tab_upd_total h b (Z.of_nat s) t q) as Htot. rewrite Nat2Z.id in Htot.
  specialize (Htot ltac:(lia) Hq). destruct (tab_upd h b (Z.of_nat s) t) as [t'|e|] eqn:Et; [|done..].
  exists t'. split; [done|]. apply tab_upd_ok in Et as (x & _ & Hx & Ht). rewrite Nat2Z.id in *. by simplify_eq.
Qed.

(** The record behind the transaction of a report, and the balance it is about. *)
Lemma booked_token T tx R led c (s : nat) : booked T (tx :: R) led c → Z.of_nat s < shards →
  (tx_BrokerStage tx = Sigma2BrokerStage → loc (Recipient tx) = Ok (Z.of_nat s)) →
  managed (tx :: T ++ R) (sb_bManager c) ∧ tells_truth cfg (infos c) (tx_BrokerStage tx) (Z.of_nat s) tx ∧
  ∃ q, amt (brokerBalances c) (tx_Broker tx) s = Some q.
Proof.
  intros [_ Hm Hk] Hs Hl. apply (managed_perm _ (tx :: T ++ R)) in Hm; [|by rewrite Permutation_middle].
  split; [done|]. destruct Hm as [_ _ Hi _ Ht]. apply Forall_cons in Ht as [(i & Hix & _ & Hbr & Hval & _ & Hr) _].
  split; [split; [done|]|].
  - intros j Hj. rewrite Hix in Hj. injection Hj as <-. rewrite <- Hr. by split_and!.
  - destruct (Hi _ _ Hix) as (_ & _ & _ & _ & Hbs). rewrite <- Hbr in Hbs.
    destruct (Hk _ s Hbs Hs) as (q & Hq & _). by exists q.
Qed.

Lemma booked_confirm1 T R led c tx (s : nat) : booked T (tx :: R) led c → Z.of_nat s < shards →
  tx_BrokerStage tx = Sigma1BrokerStage → loc (Sender tx) = Ok (Z.of_nat s) →
  ∃ c', confirm_broker1 (Z.of_nat s) tx c = (Ok tt, c') ∧ booked T R led c'.
Proof using RT.
  intros Hbk Hsr Hst Hloc. destruct (booked_token T tx R led c s Hbk Hsr) as (Hm & Htr & q & Hq); [by rewrite Hst|].
  destruct Hbk as [Hs _ Hk]. rewrite Hst in Htr. destruct (managed_confirm tx (T ++ R) _ Hm) as (m' & Hc & Hm').
  destruct (tab_upd_at _ _ _ _ Hq (λ b, b + Value tx)) as (t & Et & Hamt).
  set (c' := c <| sb_bManager := m' |> <| brokerBalances := t |>).
  assert (confirm_broker1 (Z.of_nat s) tx c = (Ok tt, c')) as E.
  { unfold confirm_broker1, confirmed, sb_on_manager, st_zoom. rewrite Hc. unfold sb_on_balances.
    change (brokerBalances (c <| sb_bManager := m' |>)) with (brokerBalances c). by rewrite Et. }
  exists c'. split; [done|]. split; [|exact Hm'|].
  - by destruct (solvent_confirm1 cfg (infos c) (Z.of_nat s) tx Htr c (Ok tt) c' (conj Hs (within_refl _)) E).
  - apply (books_confirm (brokerBalances c) t tx R led s q (Value tx)); [done..|]. intros b k. by apply gain_pay1.
Qed.

Lemma booked_confirm2 T R led c tx (s : nat) : booked T (tx :: R) led c → Z.of_nat s < shards →
  tx_BrokerStage tx = Sigma2BrokerStage → loc (Recipient tx) = Ok (Z.of_nat s) →
  ∃ c', confirm_broker2 (Z.of_nat s) tx c = (Ok tt, c') ∧ booked T R led c'.
Proof using RT.
  intros Hbk Hsr Hst Hloc. destruct (booked_token T tx R led c s Hbk Hsr) as (Hm & Htr & q & Hq); [done|].
  destruct Hbk as [Hs _ Hk]. rewrite Hst in Htr. destruct (managed_confirm tx (T ++ R) _ Hm) as (m' & Hc & Hm').
  destruct (tab_upd_at _ _ _ _ Hq (λ b, b - Value tx)) as (t & Et & Hamt).
  assert (∃ p, amt (pendingDeductions c) (tx_Broker tx) s = Some p) as [p Hp].
  { pose proof (proj2 Hs (tx_Broker tx) s) as Hc'. rewrite Hq in Hc'.
    destruct (amt (pendingDeductions c) _ _) as [p|]; [by exists p|done]. }
  destruct (tab_upd_at _ _ _ _ Hp (λ p, if decide (p - Value tx < 0) then 0 else p - Value tx)) as (t2 & Et2 & _).
  set (c' := c <| sb_bManager := m' |> <| brokerBalances := t |> <| pendingDeductions := t2 |>).
  assert (confirm_broker2 (Z.of_nat s) tx c = (Ok tt, c')) as E.
  { unfold confirm_broker2, confirmed, sb_on_manager, st_zoom. rewrite Hc. unfold st_bind, sb_on_balances.
    change (brokerBalances (c <| sb_bManager := m' |>)) with (brokerBalances c). rewrite Et. unfold sb_on_pending.
    change (pendingDeductions (c <| sb_bManager := m' |> <| brokerBalances := t |>)) with (pendingDeductions c). by rewrite Et2. }
  exists c'. split; [done|]. split; [|exact Hm'|].
  - by destruct (solvent_confirm2 cfg (infos c) (Z.of_nat s) tx Htr c (Ok tt) c' (conj Hs (within_refl _)) E).
  - apply (books_confirm (brokerBalances c) t tx R led s q (- Value tx)); [done..|]. intros b k. by apply gain_pay2.
Qed.

Lemma booked_client T R led c x : booked T R led c → booked T R led (c <| sb_client := x |>).
Proof. intros [H1 H2 H3]. split; [exact H1|exact H2|exact H3]. Qed.

Lemma booked_for T R led (f : Transaction → M StaticBrokerCommittee unit) l c :
  (∀ tx R c, tx ∈ l → booked T (tx :: R) led c → ∃ c', f tx c = (Ok tt, c') ∧ booked T R led c') →
  booked T (l ++ R) led c → ∃ c', st_for f l c = (Ok tt, c') ∧ booked T R led c'.
Proof.
  revert c; induction l as [|tx l IH]; intros c Hf Hb; cbn [st_for]; [by exists c|].
  destruct (Hf tx (l ++ R) c) as (c1 & E & H1); [by left|done|]. unfold st_bind. rewrite E.
  apply IH; [|done]. intros x R' c2 Hx. apply Hf. by right.
Qed.

(** A shard's report of what it executed. *)
Definition reports (s : nat) (bi : BrokerBlockInfoMsg) : Prop := bb_ShardID bi = Z.of_nat s ∧
  Forall (λ tx, tx_BrokerStage tx = Sigma1BrokerStage ∧ loc (Sender tx) = Ok (Z.of_nat s)) (bb_Broker1Txs bi) ∧
  Forall (λ tx, tx_BrokerStage tx = Sigma2BrokerStage ∧ loc (Recipient tx) = Ok (Z.of_nat s)) (bb_Broker2Txs bi).

(** The committee takes a report in without an error, and all of it is confirmed. *)
Lemma booked_handle T R led c msg bi (s : nat) : Z.of_nat s < shards → MsgType msg = BrokerBlockInfoMessageType →
  gob_decode KBrokerBlockInfo (Payload msg) = Ok bi → reports s bi →
  booked T (bb_Broker1Txs bi ++ bb_Broker2Txs bi ++ R) led c →
  ∃ c', StaticBroker_HandleMsg msg c = (Ok tt, c') ∧ booked T R led c'.
Proof using RT.
  intros Hs Hm Hd (Hid & H1 & H2) Hb. rewrite Forall_forall in H1, H2.
  unfold StaticBroker_HandleMsg. rewrite decide_False by (by intros []).
  unfold st_bind at 1, st_wrap, st_lift. rewrite Hd. cbn [wrap_err].
  assert (∃ x, sb_on_client (count_reported (brokerBlockTxCount bi)) c = (Ok tt, c <| sb_client := x |>)) as [x Ex]
    by by eexists.
  unfold st_bind at 1. rewrite Ex. apply (booked_client _ _ _ _ x) in Hb.
  rewrite Hid. apply (booked_for T _ led (confirm_broker1 (Z.of_nat s))) in Hb as (c1 & E1 & Hb).
  - unfold st_bind at 1. rewrite E1. apply (booked_for T R led); [|done].
    intros tx R' c2 Htx Hb2. apply booked_confirm2; [done..| |]; by apply H2.
  - intros tx R' c2 Htx Hb2. apply booked_confirm1; [done..| |]; by apply H1.
Qed.

(** ** The committee injects *)

(** What the source may hold: transfers, and none from a broker's account. *)
Definition source_tx (tx : Transaction) : Prop :=
  TxType tx = NormalTxType ∧ tx_BrokerStage tx = RawTxBrokerStage ∧ Sender tx ∈ accs ∧ (Sender tx ∉ bs) ∧
  Recipient tx ∈ accs ∧ 0 ≤ Value tx.
(** What the shards are sent: a transfer, the first half of a relay, or one of a broker transaction. *)
Definition plain_tx (tx : Transaction) : Prop :=
  TxType tx = NormalTxType ∧ tx_BrokerStage tx = RawTxBrokerStage ∧ Sender tx ∈ accs ∧ (Sender tx ∉ bs) ∧
  Recipient tx ∈ accs.
Definition first_tx (tx : Transaction) : Prop :=
  TxType tx = RelayTxType ∧ tx_RelayStage tx = Relay1Tx ∧ Sender tx ∈ accs ∧ (Sender tx ∉ bs) ∧ Recipient tx ∈ accs.
Definition token_tx (tx : Transaction) : Prop := is_broker tx ∧
  (tx_BrokerStage tx = Sigma1BrokerStage ∨ tx_BrokerStage tx = Sigma2BrokerStage) ∧
  Sender tx ∈ accs ∧ (Sender tx ∉ bs) ∧ Recipient tx ∈ accs ∧ tx_Broker tx ∈ bs.
Definition injected_tx (tx : Transaction) : Prop := plain_tx tx ∨ first_tx tx ∨ token_tx tx.

Lemma source_plain tx : source_tx tx → plain_tx tx.
Proof. unfold source_tx, plain_tx. tauto. Qed.

Lemma CreateRawTx_hash tx b m raw m' : CreateRawTx tx b m = (Ok raw, m') → tx_BOriginalHash raw ≠ [].
Proof.
  unfold CreateRawTx. intros (th & m1 & E%st_wrap_ok & H)%st_bind_ok. injection E as E <-.
  apply tx_Hash_nonempty in E. revert H. unfold st_bind, st_get.
  repeat case_match; try discriminate. intros [= <- _]. exact E.
Qed.

Lemma managed_create l tx b m r m' : managed l m → source_tx tx → CreateRawTx tx b m = (r, m') → managed l m'.
Proof using RT.
  intros [Hm Hb Hi Hn Ht] (_ & _ & Hsd & Hsb & Hrc & _) E.
  assert (manager_inv m') as Hm'.
  { destruct (exec (OpCreate tx b) m) as [es m1] eqn:Ex. pose proof Ex as Ex2. unfold exec in Ex2. rewrite E in Ex2.
    assert (m1 = m') as -> by (destruct r; by injection Ex2 as _ <-). by apply (exec_create m tx b es m' Hm). }
  destruct (CreateRawTx_cases _ _ _ _ _ E) as [(th & nonce & -> & Hbk & Hth & Em)|[_ ->]]; [|done].
  apply CreateRawTx_hash in E. change (tx_BOriginalHash (raw_tx tx b th nonce)) with th in E.
  assert (th ∉ hashes l) as Hl.
  { intros (x & -> & Hx)%list_elem_of_fmap. rewrite Forall_forall in Ht. destruct (Ht x Hx) as (i & Hx' & _). by simplify_eq. }
  assert (th ∉ ready m) as Hr.
  { destruct Hm as [_ _ R1 R2 _]. intros [(i & ? & _)%R1|(i & ? & _)%R2]%elem_of_app; simplify_eq. }
  rewrite Em in Hm' |- *. split; cbn; [done|..].
  - intros b'. rewrite lookup_insert_is_Some, <- Hb. destruct (decide (b = b')) as [->|]; naive_solver.
  - intros h i [[<- <-]|[_ Hj]]%lookup_insert_Some; [|by apply Hi]. split_and!; try done. by apply Hb.
  - unfold ready in *. cbn. rewrite <- (Permutation_cons_append (readyBroker1TxHashes m) th). cbn [app].
    rewrite <- Permutation_middle. apply NoDup_cons. split; [|done]. by rewrite elem_of_app; intros [?|?].
  - apply (tokens_kept (unconfirmedTxInfo m) _ th); [|done..]. intros h' Hh'. by rewrite lookup_insert_ne.
Qed.

(** The parts of the invariant that a search for a broker keeps besides solvency. *)
Definition held_by (l : list Transaction) (t : Table) (c : StaticBrokerCommittee) : Prop :=
  managed l (sb_bManager c) ∧ brokerBalances c = t.

Lemma held_find l t bl tx s : source_tx tx → preserves (held_by l t) (find_broker (Src := Src) bl tx s).
Proof using RT.
  intros Htx. induction bl as [|b bl IH]; cbn [find_broker]; [apply pres_ret|].
  apply pres_bind; [apply pres_get|]. intros c0. apply pres_bind; [apply pres_lift|]. intros q.
  apply pres_bind; [apply pres_lift|]. intros p. case_decide; [|done]. apply pres_bind.
  { intros c r c' Hc. unfold sb_on_pending. case_match; intros [= _ <-]; exact Hc. }
  intros _ c r c' [Hc Ht]. unfold sb_on_manager, st_zoom.
  destruct (CreateRawTx tx b (sb_bManager c)) as [y m] eqn:E. apply (managed_create l) in E; [|done..].
  assert (held_by l t (c <| sb_bManager := m |>)) as Hc' by (split; [exact E|exact Ht]).
  destruct y; [by intros [= _ <-]|by apply IH|by intros [= _ <-]].
Qed.

Lemma held_assign l t ch i cross relays : Forall source_tx cross →
  preserves (held_by l t) (assign_brokers (Src := Src) cfg ch i cross relays).
Proof using RT.
  intros Hx. revert i relays; induction Hx as [|tx cross Htx _ IH]; intros i relays; cbn [assign_brokers]; [apply pres_ret|].
  apply pres_bind; [apply pres_lift|]. intros _. apply pres_bind; [apply pres_lift|]. intros s.
  apply pres_bind; [apply pres_get|]. intros c. apply pres_bind; [by apply held_find|].
  intros []; [apply IH|]. apply pres_bind; [apply pres_lift|]. intros rtx. apply IH.
Qed.

Lemma booked_assign T R led ch i cross relays : Forall source_tx cross →
  preserves (booked T R led) (assign_brokers (Src := Src) cfg ch i cross relays).
Proof using RT.
  intros Hx c r c' [Hs Hm Hk] E. split.
  - eapply (solvent_assign cfg ch i cross relays); [|exact Hs|exact E].
    eapply Forall_impl; [exact Hx|]. by intros tx (_ & _ & _ & _ & _ & ?).
  - by eapply (held_assign (T ++ R) (brokerBalances c) ch i cross relays Hx c r c' (conj Hm eq_refl)).
  - by destruct (held_assign (T ++ R) (brokerBalances c) ch i cross relays Hx c r c' (conj Hm eq_refl) E) as [_ ->].
Qed.

(** A transaction that falls back to relay; without its hash it stays a transfer. *)
Lemma as_relay_tx tx rtx : source_tx tx → as_relay tx = Ok rtx → plain_tx rtx ∨ first_tx rtx.
Proof.
  intros (Ht & Hst & Hs & Hb & Hr & _). unfold as_relay. intros (th & _ & E)%rbind_ok.
  pose proof (TxType_relayed tx Relay1Tx th Ht) as Hty.
  assert (rtx = tx <| RelayOpt := mkRelayTxOpt Relay1Tx th |>) as -> by congruence.
  case_decide; [by left|by right].
Qed.

Lemma assign_relays ch i cross relays c out c' : Forall source_tx cross → Forall (λ tx, plain_tx tx ∨ first_tx tx) relays →
  assign_brokers (Src := Src) cfg ch i cross relays c = (Ok out, c') → Forall (λ tx, plain_tx tx ∨ first_tx tx) out.
Proof.
  intros Hx. revert i relays c; induction Hx as [|tx cross Htx _ IH]; intros i relays c Hr; cbn [assign_brokers].
  { by intros [= <- _]. }
  intros (s1 & c1 & _ & (s2 & c2 & _ & (c0 & c3 & _ & (found & c4 & _ & E)%st_bind_ok)%st_bind_ok)%st_bind_ok)%st_bind_ok.
  destruct found; [by eapply IH|]. apply st_bind_ok in E as (rtx & c5 & [Ea ->]%st_lift_ok & E).
  eapply IH; [|exact E]. apply Forall_app. split; [done|]. apply Forall_singleton. by eapply as_relay_tx.
Qed.

(** Sending takes every ready transaction out of the manager, in its half. *)
Lemma token_of_record m h i tx stage now : manager_inv m → unconfirmedTxInfo m !! h = Some i →
  (stage = Sigma1BrokerStage ∧ confirmStage i = stageWaitConfirm1 ∨
   stage = Sigma2BrokerStage ∧ confirmStage i = stageWaitConfirm2) →
  tx = (rawTx i) <| BrokerOpt ::= λ o, o <| BrokerStage := stage |> |> <| CreateTime := now |> →
  tx_BOriginalHash tx = h ∧ token_ok (unconfirmedTxInfo m) tx.
Proof.
  intros Hm Hi Hst ->. destruct (mi_entry m Hm h i Hi) as (Hh & _). split; [exact Hh|].
  exists i. split; [|by split_and!]. by rewrite <- Hh in Hi.
Qed.

Lemma created_tokens m stage waits now hs txs : manager_inv m →
  (stage = Sigma1BrokerStage ∧ waits = stageWaitConfirm1 ∨ stage = Sigma2BrokerStage ∧ waits = stageWaitConfirm2) →
  (∀ h, h ∈ hs → ∃ i, unconfirmedTxInfo m !! h = Some i ∧ confirmStage i = waits) →
  Forall2 (broker_tx_of m stage now) hs txs →
  hashes txs = hs ∧ Forall (token_ok (unconfirmedTxInfo m)) txs.
Proof.
  intros Hm Hst Hh. induction 1 as [|h tx hs txs (i & Hi & Etx) Hf IH]; [by split|].
  destruct IH as [IH1 IH2]; [intros x Hx; apply Hh; by right|].
  destruct (Hh h) as (j & Hj & Hw); [by left|]. rewrite Hi in Hj. injection Hj as <-.
  destruct (token_of_record m h i tx stage now Hm Hi) as [E1 E2]; [by rewrite Hw|done|].
  split; [|by constructor]. cbn [hashes map]. by rewrite E1, <- IH1.
Qed.

Lemma managed_send l now m b1 b2 m' : managed l m → CreateBrokerTxs now m = ((b1, b2), m') →
  managed (l ++ b1 ++ b2) m' ∧ unconfirmedTxInfo m' = unconfirmedTxInfo m.
Proof using RT.
  intros [Hm Hb Hi Hn Ht] E.
  assert (manager_inv m') as Hm'.
  { eapply (exec_send m now _ m' Hm). unfold exec. rewrite E. reflexivity. }
  injection E as E1 E2 Em. pose proof Hm as [_ _ R1 R2 _].
  destruct (created_tokens m Sigma1BrokerStage stageWaitConfirm1 now (readyBroker1TxHashes m) b1 Hm) as [F1 G1];
    [by left|done|rewrite <- E1; by apply create_all|].
  destruct (created_tokens m Sigma2BrokerStage stageWaitConfirm2 now (readyBroker2TxHashes m) b2 Hm) as [F2 G2];
    [by right|done|rewrite <- E2; by apply create_all|].
  subst m'. split; [|done]. split; cbn; [done..| |].
  - unfold ready in *. cbn. by rewrite app_nil_r, !hashes_app, F1, F2.
  - by rewrite !Forall_app.
Qed.

Lemma managed_token l m tx : managed l m → tx ∈ l → token_tx tx.
Proof.
  intros [_ _ Hi _ Ht] Hx. rewrite Forall_forall in Ht. destruct (Ht tx Hx) as (i & Hix & Hh & Hb & _ & Hs & Hr).
  destruct (Hi _ _ Hix) as (Hne & ? & ? & ? & ?). unfold token_tx. rewrite Hb, Hs, Hr, is_broker_hash.
  split_and!; try done; destruct Hh as [[-> _]|[-> _]]; tauto.
Qed.
End books.

(** ** Sending *)

Section packets.
  Context {BL : BitSetLib} {RT : RlpTx} {MK : MapKeys} {GM : GobMsg}.
  Context {Src : Type} {TS : TxSource Src}.
  Context (resolver : TopoGetter) (cfg : SupervisorCfg) (Hown : own_leaders resolver).
  Abbreviation shards := (ShardNum (sv_Sys cfg)).

Lemma pack_loop_perm (loc : Transaction → result Z) n txs acc out :
  Forall (λ tx, ∀ i, loc tx = Ok i → 0 ≤ i < n) txs →
  rfold (λ acc tx, let* shardID := loc tx in
    if decide (shardID < 0 ∨ n ≤ shardID) then Ok acc else push_at tx acc shardID) acc txs = Ok out →
  concat out ≡ₚ concat acc ++ txs.
Proof using Type.
  intros Hr. revert acc; induction Hr as [|tx txs Htx _ IH]; intros acc; cbn [rfold].
  { intros [= <-]. by rewrite app_nil_r. }
  intros (a1 & (i & Hi & Ha)%rbind_ok & H)%rbind_ok. apply IH in H. rewrite H.
  specialize (Htx i Hi). rewrite decide_False in Ha by lia. apply concat_push_at in Ha. rewrite Ha. cbn.
  by rewrite Permutation_middle.
Qed.

(** The packets of a call: each transaction in one of them, to the shard it is for. *)
Lemma send_txs_packets loc txs n (c c' : Client (Src := Src)) r :
  Forall (λ tx, ∀ i, loc tx = Ok i → 0 ≤ i < shards) txs → send_txs resolver cfg loc txs n c = (r, c') →
  ∃ l sent, outbox (cl_conn c') = outbox (cl_conn c) ++ sent ∧ sent ≡ₚ l.*2 ∧ (concat l.*1 ≡ₚ txs ∨ l = []) ∧
    Forall (λ q, ∃ k : nat, Z.of_nat k < shards ∧ shard_msg resolver (Z.of_nat k) q.1 q.2 ∧
      Forall (λ tx, tx ∈ txs ∧ loc tx = Ok (Z.of_nat k)) q.1) l.
Proof using Hown.
  intros Hr. unfold send_txs, st_bind at 1, st_lift.
  assert (∀ c' : Client (Src := Src), c' = c → ∃ l sent, outbox (cl_conn c') = outbox (cl_conn c) ++ sent ∧ sent ≡ₚ l.*2 ∧
    (concat l.*1 ≡ₚ txs ∨ l = []) ∧ Forall (λ q, ∃ k : nat, Z.of_nat k < shards ∧
      shard_msg resolver (Z.of_nat k) q.1 q.2 ∧ Forall (λ tx, tx ∈ txs ∧ loc tx = Ok (Z.of_nat k)) q.1) l) as Hnone.
  { intros ? ->. exists [], []. rewrite app_nil_r. split_and!; [done|done|by right|constructor]. }
  destruct (packShardTxs loc txs shards) as [out|e|] eqn:Ep; [|intros [= _ <-]; by apply Hnone..].
  unfold st_bind, st_wrap, cl_on_conn, st_zoom.
  destruct (SendWrappedTxs2Shards out resolver (cl_conn c)) as [x cc] eqn:Es.
  destruct x as [[]|e|].
  2, 3: intros [= _ <-]; apply SendWrappedTxs2Shards_fail in Es as ->; [apply Hnone; by destruct c|done].
  intros [= _ <-]. destruct (SendWrappedTxs2Shards_packets out resolver _ _ Hown Es) as (l & sent & Hp & -> & Hc & Hl).
  exists l, sent. split_and!; [done|done| |].
  - left. rewrite Hc. pose proof Ep as Ep2. unfold packShardTxs, make in Ep2. apply rbind_ok in Ep2 as (acc & Ea & Ef).
    case_decide; [done|]. injection Ea as <-. rewrite (pack_loop_perm loc shards txs _ _ Hr Ef).
    by rewrite (proj2 (concat_nil_Forall _)) by by apply Forall_replicate.
  - apply packShardTxs_spec in Ep as (Hlen & _ & Hk). eapply Forall_impl; [exact Hl|]. intros q (k & Hq & Hm).
    pose proof (lookup_lt_Some _ _ _ Hq) as Hlt. exists k. split_and!; [lia|done|].
    rewrite Hk in Hq by done. injection Hq as <-. apply Forall_forall. intros tx. by rewrite elem_of_shard.
Qed.

  Context (accs bs : list Address).
  Abbreviation StaticBrokerCommittee := (StaticBrokerCommittee (Src := Src)).
Abbreviation booked := (booked (Src := Src) cfg accs bs).
Abbreviation source_tx := (source_tx accs bs).
Abbreviation injected_tx := (injected_tx accs bs).

Definition source_ok (now : Time) (c : StaticBrokerCommittee) : Prop := ∀ txs,
  (ReadTxs now (Z.min (sv_TxInjectionSpeed cfg) (unsentTxNum (sb_client c))) (txSource (sb_client c))).1 = Ok txs →
  Forall source_tx txs.

(** What a call of [SendTxsAndConsensus] leaves in the outbox [o], and its new broker transactions. *)
Definition injects (o : list (NodeInfo * WrappedMsg)) (T R : list Transaction) led (c' : StaticBrokerCommittee) : Prop :=
  ∃ l sent, outbox (cl_conn (sb_client c')) = o ++ sent ∧ sent ≡ₚ l.*2 ∧
    Forall (λ q, ∃ k : nat, Z.of_nat k < shards ∧ shard_msg resolver (Z.of_nat k) q.1 q.2 ∧
      Forall (λ tx, injected_tx tx ∧ StaticBroker_getTxLoc cfg tx = Ok (Z.of_nat k)) q.1) l ∧
    booked (T ++ tokens (concat l.*1)) R led c'.

Lemma injects_none o T R led c : outbox (cl_conn (sb_client c)) = o → booked T R led c → injects o T R led c.
Proof using Type.
  intros Ho Hb. exists [], []. split_and!; [by rewrite app_nil_r|done|constructor|]. cbn. by rewrite app_nil_r.
Qed.

Lemma getTxLoc_range tx i : 0 < shards → StaticBroker_getTxLoc cfg tx = Ok i → 0 ≤ i < shards.
Proof using Type.
  intros Hn. unfold StaticBroker_getTxLoc, default_loc.
  destruct (DefaultAccountLoc_range (Sender tx) shards Hn) as (a & -> & Ha).
  destruct (DefaultAccountLoc_range (Recipient tx) shards Hn) as (b & -> & Hb).
  repeat case_decide; intros [= <-]; done.
Qed.

(** The last stage: the transactions made and sorted are sent. *)
Lemma injects_send o T R led now inner relays b1 b2 n (c c' : StaticBrokerCommittee) m r : 0 < shards →
  outbox (cl_conn (sb_client c)) = o → booked T R led c → Forall (plain_tx accs bs) inner →
  Forall (λ tx, plain_tx accs bs tx ∨ first_tx accs bs tx) relays →
  CreateBrokerTxs now (sb_bManager c) = ((b1, b2), m) →
  sb_on_client (send_txs resolver cfg (StaticBroker_getTxLoc cfg) (inner ++ relays ++ b1 ++ b2) n)
    (c <| sb_bManager := m |>) = (r, c') → injects o T R led c'.
Proof using Hown RT.
  intros Hn Ho [Hs Hm Hk] Hi Hr Ec. destruct (managed_send accs bs _ _ _ _ _ _ Hm Ec) as [Hm' Hu].
  unfold sb_on_client, st_zoom. destruct (send_txs _ _ _ _ _ _) as [x cl] eqn:E. intros [= <- <-].
  assert (Forall (token_tx accs bs) (b1 ++ b2)) as Hb.
  { apply Forall_forall. intros tx Hx. apply (managed_token accs bs _ m tx Hm'). apply elem_of_app. by right. }
  apply send_txs_packets in E as (l & sent & Ho' & Hp & Hc & Hl).
  2:{ apply Forall_forall. intros tx _ i. by apply getTxLoc_range. }
  assert (∀ tx, plain_tx accs bs tx ∨ first_tx accs bs tx → ¬ is_broker tx) as Hno.
  { unfold is_broker. by intros tx [(-> & _)|(-> & _)]. }
  assert (Forall (λ tx, ¬ is_broker tx) (inner ++ relays)) as Hnone.
  { apply Forall_app. split; [|by eapply Forall_impl; [exact Hr|]]. eapply Forall_impl; [exact Hi|]. intros tx Hx.
    apply Hno. by left. }
  exists l, sent. split_and!; [by rewrite <- Ho|done| |].
  - eapply Forall_impl; [exact Hl|]. intros q (k & Hks & Hq & Hf). exists k. split_and!; [done..|].
    eapply Forall_impl; [exact Hf|]. intros tx [Hx Hloc]. split; [|done]. rewrite Forall_forall in Hi, Hr, Hb.
    apply elem_of_app in Hx as [Hx|[Hx|Hx]%elem_of_app]; [left; by apply Hi| |right; right; by apply Hb].
    destruct (Hr tx Hx); [by left|by right; left].
  - assert (booked ((b1 ++ b2) ++ T) R led (c <| sb_bManager := m |> <| sb_client := cl |>)) as Hbk.
    { split; [|eapply managed_perm; [|exact Hm']|exact Hk].
      - destruct Hs as [H1 H2]. split; cbn; by rewrite Hu.
      - by rewrite <- (app_assoc (b1 ++ b2)), (Permutation_app_comm (T ++ R)). }
    destruct Hc as [Hc| ->]; [|cbn; rewrite app_nil_r; by eapply booked_lose].
    eapply booked_perm; [|reflexivity|exact Hbk]. rewrite Hc, app_assoc, tokens_app, (tokens_none (inner ++ relays)) by done.
    rewrite tokens_all; [apply Permutation_app_comm|]. eapply Forall_impl; [exact Hb|]. by intros tx [? _].
Qed.

Lemma booked_inject T R led ch now (c c' : StaticBrokerCommittee) r : 0 < shards → source_ok now c → booked T R led c →
  StaticBroker_SendTxsAndConsensus resolver cfg ch now c = (r, c') →
  injects (outbox (cl_conn (sb_client c))) T R led c'.
Proof using Hown RT.
  intros Hn Hsrc Hb. unfold StaticBroker_SendTxsAndConsensus, st_wrap.
  destruct (StaticBroker_readTxsAndSend resolver cfg ch now c) as [x c1] eqn:E. intros [= _ <-]. revert E.
  unfold StaticBroker_readTxsAndSend. unfold st_bind at 1, sb_on_client at 1, st_zoom.
  assert (outbox (cl_conn (read_txs cfg now (sb_client c)).2) = outbox (cl_conn (sb_client c))) as Ho.
  { unfold read_txs, st_wrap, on_source, st_zoom. by destruct (ReadTxs _ _ _). }
  assert (∀ txs, (read_txs cfg now (sb_client c)).1 = Ok txs → Forall source_tx txs) as Htxs.
  { intros txs. unfold read_txs, st_wrap, on_source, st_zoom. specialize (Hsrc txs). revert Hsrc.
    destruct (ReadTxs _ _ _) as [y src]. cbn. intros Hsrc ->%wrap_err_ok. by apply Hsrc. }
  destruct (read_txs cfg now (sb_client c)) as [y cl]. cbn [fst snd] in Ho, Htxs.
  apply (booked_client cfg accs bs T R led c cl) in Hb. revert Hb. remember (c <| sb_client := cl |>) as c0 eqn:Ec0. intros Hb.
  assert (outbox (cl_conn (sb_client c0)) = outbox (cl_conn (sb_client c))) as Ho0 by by rewrite Ec0.
  clear Ec0 Ho. rewrite <- Ho0. clear Ho0 Hsrc c. destruct y as [txs|e|]; [|by intros [= _ <-]; apply injects_none..].
  specialize (Htxs txs eq_refl). unfold st_bind at 1, st_get. unfold st_bind at 1, st_lift.
  destruct (classifyTxs _ _ txs) as [[inner cross]|e|] eqn:Ec; [|by intros [= _ <-]; apply injects_none..].
  destruct (classify_parts _ _ _ _ _ _ Ec Htxs) as [Hi Hx].
  apply (Forall_impl _ (plain_tx accs bs)) in Hi; [|apply source_plain].
  unfold st_bind at 1. destruct (assign_brokers cfg ch 0 cross [] c0) as [y c2] eqn:E2.
  pose proof (booked_assign cfg accs bs T R led ch 0 cross [] Hx _ _ _ Hb E2) as Hb2.
  pose proof (keeps_assign cfg (λ cl, outbox (cl_conn cl) = outbox (cl_conn (sb_client c0))) ch 0 cross [] _ _ _ eq_refl E2) as Ho2.
  destruct y as [relays|e|]; [|by intros [= _ <-]; apply injects_none..].
  apply assign_relays with (accs := accs) (bs := bs) in E2; [|done|constructor].
  unfold st_bind at 1, sb_on_manager, create_broker_txs, st_zoom.
  destruct (CreateBrokerTxs now (sb_bManager c2)) as [[b1 b2] m] eqn:Em. intros E3.
  by eapply injects_send.
Qed.

(** A new committee, on shards where its brokers have their initial balance. *)
Lemma keys_known (m : gmap Address Z) b : MapKeysLaws MK → b ∈ maps_Keys m ↔ is_Some (m !! b).
Proof using Type.
  intros HK. rewrite (maps_Keys_perm m), list_elem_of_fmap. split.
  - intros ([a x] & -> & Hx%elem_of_map_to_list). by exists x.
  - intros [x Hx]. exists (b, x). split; [done|]. by apply elem_of_map_to_list.
Qed.

Lemma booked_start conn src file c led : MapKeysLaws MK → NewStaticBrokerCommittee cfg conn src file = Ok c →
  GetBrokers (sb_bManager c) = bs → (∀ b k, b ∈ bs → Z.of_nat k < shards → brokerInit ≤ led k b) →
  booked [] [] led c ∧ cl_conn (sb_client c) = conn.
Proof using RT.
  intros HK E Hbs Hl. pose proof (NewStaticBroker_solvent _ _ _ _ _ E) as Hs.
  unfold NewStaticBrokerCommittee in E. apply rbind_ok in E as (ts & _ & (m & Hm%wrap_err_ok & E)%rbind_ok).
  apply rbind_ok in E as (bal & Hbal & (pend & _ & Ec)%rbind_ok).
  assert (c = mkStaticBrokerCommittee (newClient cfg conn ts) m bal pend) as -> by congruence. clear Ec.
  cbn [sb_bManager] in Hbs. split; [|done]. pose proof (NewBrokerManager_inv _ _ _ Hm) as [Hi _].
  split; [done| |]; cbn [sb_bManager brokerBalances app].
  - unfold NewBrokerManager in Hm. apply rbind_ok in Hm as (l & _ & [= <-]).
    split; [exact Hi| |by intros h i|apply NoDup_nil_2|constructor].
    intros b. cbn. rewrite <- Hbs. symmetry. by apply keys_known.
  - intros b k Hb Hk. specialize (Hl b k Hb Hk). exists brokerInit.
    split; [|change (brokerInit + 0 - 0 ≤ led k b); lia].
    unfold amt. rewrite (new_table _ _ _ _ _ Hbal). rewrite Hbs, decide_True by done.
    apply lookup_replicate. split; [done|lia].
Qed.
End packets.
