(* ===== verification/BrokerFlow.v ===== *)
(** * Money and brokers across shards

    The composition of a static broker system: the supervisor's committee
    (Committee.v, its books in Books.v), the leaders of all the shards with
    their chains and pools (RelayFlow.v's, with [BrokerTxBlockOp]), and the
    messages between them.  Steps come in any order; packets and reports arrive
    in any order or never, proposals may fail or be given up. *)

From S2P Require Import Prelude GoHash Account Bloom Block Config StateDB TxExecute Storage Chain.
From S2P Require Import TxPool Float64 Partition TxSource Network Migration TxBlockOp ShardOp RelayFlow.
From S2P Require Import Broker Committee Solvency Books.
From Stdlib Require Import Lia.

Local Open Scope Z_scope.

Section txs.
  Context (scfg : SupervisorCfg) (accs bs : list Address).
  Abbreviation n := (ShardNum (sv_Sys scfg)).

(** The shard a broker transaction is executed in. *)
Definition home (k : Z) (tx : Transaction) : Prop :=
  (tx_BrokerStage tx = Sigma1BrokerStage ∧ default_loc scfg (Sender tx) = Ok k) ∨
  (tx_BrokerStage tx = Sigma2BrokerStage ∧ default_loc scfg (Recipient tx) = Ok k).
(** What the pool and the blocks of shard [k] hold. *)
Definition shard_tx (k : Z) (tx : Transaction) : Prop :=
  plain_tx accs bs tx ∨ (first_tx accs bs tx ∧ default_loc scfg (Sender tx) = Ok k) ∨
  (token_tx accs bs tx ∧ home k tx) ∨ coming_tx n accs k tx.

Lemma shard_tx_native k tx : shard_tx k tx → native tx.
Proof. unfold native. intros [(H & _)|[((H & _) & _)|[((H & _) & _)|(H & _)]]]; auto. Qed.

Lemma first_leaving k tx : first_tx accs bs tx → default_loc scfg (Sender tx) = Ok k → leaving_tx n accs k tx.
Proof. by intros (? & ? & ? & ? & ?) Hl. Qed.

Lemma plain_values tx : plain_tx accs bs tx → leaving_value tx = 0 ∧ coming_value tx = 0.
Proof. intros (E & _). apply no_relay_values. unfold is_relay. by rewrite E. Qed.
Lemma token_values tx : is_broker tx → leaving_value tx = 0 ∧ coming_value tx = 0.
Proof. intros E. apply no_relay_values. unfold is_relay. by rewrite E. Qed.
Lemma not_token tx : TxType tx ≠ BrokerTxType → tokens [tx] = [].
Proof. intros E. apply tokens_none. by constructor. Qed.

Lemma shard_nonneg k txs : Forall (shard_tx k) txs → 0 ≤ coming txs.
Proof.
  intros H. apply sumZ_nonneg. eapply Forall_impl; [exact H|]. intros tx [Hc|[[Hc Hl]|[[Hc _]|Hc]]].
  - by destruct (plain_values tx Hc) as [_ ->].
  - by destruct (leaving_values _ _ _ _ (first_leaving k tx Hc Hl)) as [_ ->].
  - by destruct (token_values tx (proj1 Hc)) as [_ ->].
  - destruct (coming_values _ _ _ _ Hc) as [_ ->]. apply Hc.
Qed.

(** ** The balances after a block *)

Section exec.
  Context {SL : StateDBLib} {SLaws : StateDBLaws SL} {EV : EVMLib}.
  Context (Hnd : NoDup accs) (Hbs : ∀ b, b ∈ bs → b ∈ accs) (k : nat) (ctx : BlockContext) (locs : gmap Address Z).
  Context (Hlocs : ∀ a l, locs !! a = Some l → DefaultAccountLoc a n = Ok l).

Abbreviation total s := (sumZ (eff s) accs).
Abbreviation here := (Z.of_nat k).

Lemma exec_value tx s s1 : brokerTxExecute locs here tx s = (Ok tt, s1) → in_u 256 (Value tx).
Proof using Type.
  intros E. destruct (decide (in_u 256 (Value tx))) as [|[e He]%BigToUInt256_out]; [done|].
  unfold brokerTxExecute, st_bind, st_wrap, st_lift in E. by rewrite He in E.
Qed.

Lemma exec_sigma1 tx s s1 : token_tx accs bs tx → tx_BrokerStage tx = Sigma1BrokerStage →
  default_loc scfg (Sender tx) = Ok here → is_Some (locs !! Sender tx) → total s < 2 ^ 256 →
  brokerTxExecute locs here tx s = (Ok tt, s1) →
  ∀ a, eff s1 a = transfer (eff s) (Sender tx) (tx_Broker tx) (Value tx) a.
Proof using SLaws Hnd Hlocs Hbs.
  intros (_ & _ & Hs & _ & _ & Hb) Hst Hk Hl Ht E. apply exec_value in E as Hv.
  destruct (broker1_spec locs here tx s Hst Hv (default_loc_of n here locs Hlocs _ Hl Hk)) as [Hfew Henough].
  destruct (decide (eff s (Sender tx) < Value tx)) as [Hlt|Hle].
  { destruct (Hfew Hlt) as (s' & He & _). congruence. }
  destruct Henough as (s' & E' & He); [lia| |rewrite E in E'; by injection E' as <-].
  pose proof (debit_room accs Hnd s (Sender tx) (tx_Broker tx) (Value tx) Hs (Hbs _ Hb)). lia.
Qed.

(** The second half is a transfer because the broker can pay. *)
Lemma exec_sigma2 tx s s1 : token_tx accs bs tx → tx_BrokerStage tx = Sigma2BrokerStage →
  default_loc scfg (Recipient tx) = Ok here → is_Some (locs !! Recipient tx) → total s < 2 ^ 256 →
  Value tx ≤ eff s (tx_Broker tx) → brokerTxExecute locs here tx s = (Ok tt, s1) →
  ∀ a, eff s1 a = transfer (eff s) (tx_Broker tx) (Recipient tx) (Value tx) a.
Proof using SLaws Hnd Hlocs Hbs.
  intros (_ & _ & _ & _ & Hr & Hb) Hst Hk Hl Ht Hpay E. apply exec_value in E as Hv.
  destruct (broker2_run locs here tx s Hst Hv (default_loc_of n here locs Hlocs _ Hl Hk)) as (s2 & (He & _ & Hx) & E').
  rewrite E in E'. injection E' as ->. intros a. rewrite eff_sub_add_transfer; [by apply transfer_ext|done| | | |].
  - apply Hx. right. right. by left.
  - apply Hx. right. by left.
  - by rewrite He.
  - rewrite (debit_ext _ _ _ _ He).
    pose proof (debit_room accs Hnd s (tx_Broker tx) (Recipient tx) (Value tx) (Hbs _ Hb) Hr Hpay). lia.
Qed.

(** What one transaction does to the sum of the balances and to those of the brokers. *)
Definition moves (txs : list Transaction) (s s1 : StateDB) : Prop :=
  total s1 = total s + coming txs - leaving txs ∧
  ∀ b, b ∈ bs → eff s b + gains scfg b k (tokens txs) - pays scfg b k (tokens txs) ≤ eff s1 b.

Lemma moves_plain tx s s1 c l : TxType tx ≠ BrokerTxType → coming_value tx = c → leaving_value tx = l →
  total s1 = total s + c - l → (∀ b, b ∈ bs → eff s b ≤ eff s1 b) → moves [tx] s s1.
Proof using Type.
  intros Hty <- <- Ht Hb. split; [cbn; lia|]. intros b Hx. rewrite not_token by done. specialize (Hb b Hx).
  change (eff s b + 0 - 0 ≤ eff s1 b). lia.
Qed.

Lemma exec_token tx s s1 : token_tx accs bs tx → home here tx → is_Some (locs !! Sender tx) →
  is_Some (locs !! Recipient tx) → total s < 2 ^ 256 →
  (∀ b, b ∈ bs → pays scfg b k (tokens [tx]) ≤ eff s b) →
  brokerTxExecute locs here tx s = (Ok tt, s1) → moves [tx] s s1.
Proof using SLaws Hnd Hlocs Hbs.
  intros Htx Hh Hs Hr Ht Hpay E. destruct (exec_value tx s s1 E) as [Hv _]. pose proof Htx as (Hty & _ & Hsa & Hsb & Hra & Hb).
  assert (tokens [tx] = [tx]) as Htok by by apply tokens_all, Forall_singleton.
  destruct (token_values tx Hty) as [E1 E2].
  assert (∀ s', total s' = total s → total s' = total s + coming [tx] - leaving [tx]) as Htot.
  { intros s' ->. cbn. rewrite E1, E2. lia. }
  unfold moves. rewrite Htok in *. destruct Hh as [[Hst Hk]|[Hst Hk]].
  - pose proof (exec_sigma1 tx s s1 Htx Hst Hk Hs Ht E) as He. split.
    + apply Htot. rewrite (sumZ_ext _ _ _ (λ a _, He a)). by apply sumZ_transfer; [|done|apply Hbs].
    + intros b Hbb. rewrite He. pose proof (gain_pay1 scfg b k tx k Hst Hk) as Hg.
      change (eff s b + (gain scfg b k tx + 0) - (pay scfg b k tx + 0) ≤ transfer (eff s) (Sender tx) (tx_Broker tx) (Value tx) b).
      unfold transfer, credit, debit. rewrite (decide_False (P := Sender tx = b)) by by intros <-.
      case_decide; case_decide; destruct_and?; naive_solver lia.
  - assert (Value tx ≤ eff s (tx_Broker tx)) as Hle.
    { specialize (Hpay _ Hb). change (pay scfg (tx_Broker tx) k tx + 0 ≤ eff s (tx_Broker tx)) in Hpay.
      unfold pay in Hpay. rewrite decide_True in Hpay by done. lia. }
    pose proof (exec_sigma2 tx s s1 Htx Hst Hk Hr Ht Hle E) as He. split.
    + apply Htot. rewrite (sumZ_ext _ _ _ (λ a _, He a)). by apply sumZ_transfer; [|apply Hbs|].
    + intros b Hbb. rewrite He. pose proof (gain_pay2 scfg b k tx k Hst Hk) as Hg.
      change (eff s b + (gain scfg b k tx + 0) - (pay scfg b k tx + 0) ≤ transfer (eff s) (tx_Broker tx) (Recipient tx) (Value tx) b).
      unfold transfer, credit, debit. repeat case_decide; destruct_and?; naive_solver lia.
Qed.

Lemma exec_any tx s s1 : shard_tx here tx → is_Some (locs !! Sender tx) → is_Some (locs !! Recipient tx) →
  total s + coming_value tx < 2 ^ 256 → (∀ b, b ∈ bs → pays scfg b k (tokens [tx]) ≤ eff s b) →
  txExecute here ctx locs tx s = (Ok tt, s1) → in_u 256 (Value tx) ∧ moves [tx] s s1.
Proof using SLaws Hnd Hlocs Hbs.
  intros Htx Hs Hr Hlt Hpay. unfold txExecute. destruct Htx as [Htx|[[Htx Hk]|[[Htx Hk]|Htx]]].
  - destruct (plain_values tx Htx) as [El Ec]. rewrite Ec in Hlt. pose proof Htx as (Hty & _ & Hsa & Hsb & Hra).
    rewrite Hty, decide_True by done. intros E%st_wrap_ok.
    destruct (exec_transfer accs Hnd tx s s1 Hsa Hra) as [Hv He]; [lia|done|]. split; [done|].
    apply (moves_plain tx s s1 _ _ ltac:(by rewrite Hty) Ec El).
    + rewrite (sumZ_ext _ _ _ (λ a _, He a)), sumZ_transfer by done. lia.
    + intros b Hb. rewrite He. destruct Hv as [Hv _]. unfold transfer, credit, debit.
      rewrite (decide_False (P := Sender tx = b)) by by intros <-. case_decide; lia.
  - pose proof (first_leaving here tx Htx Hk) as Hlv. destruct (leaving_values _ _ _ _ Hlv) as [El Ec].
    pose proof Htx as (Hty & _ & Hsa & Hsb & _). rewrite Hty, decide_False, decide_True by done. intros E%st_wrap_ok.
    destruct (exec_leaving n accs here locs Hlocs tx s s1 Hlv Hs E) as [Hv He]. split; [done|].
    apply (moves_plain tx s s1 _ _ ltac:(by rewrite Hty) Ec El).
    + rewrite (sumZ_ext _ _ _ (λ a _, He a)), sumZ_debit by done. lia.
    + intros b Hb. rewrite He. unfold debit. rewrite decide_False by by intros <-. lia.
  - pose proof (proj1 Htx) as Hty. rewrite (proj2 (token_values tx Hty)) in Hlt.
    rewrite Hty, decide_False, decide_False, decide_True by done. intros E%st_wrap_ok.
    split; [by eapply exec_value|]. apply (exec_token tx s s1 Htx Hk Hs Hr); [lia|done|done].
  - destruct (coming_values _ _ _ _ Htx) as [El Ec]. rewrite Ec in Hlt. pose proof Htx as (Hty & _ & _ & Hra & Hv).
    rewrite Hty, decide_False, decide_True by done. intros E%st_wrap_ok.
    pose proof (exec_coming n accs here locs Hlocs tx s s1 Htx Hr Hlt E) as He. split; [done|].
    apply (moves_plain tx s s1 _ _ ltac:(by rewrite Hty) Ec El).
    + rewrite (sumZ_ext _ _ _ (λ a _, He a)), sumZ_credit by done. lia.
    + intros b Hb. rewrite He. destruct Hv as [Hv _]. unfold credit. case_decide; lia.
Qed.

Lemma tokens_cons tx txs : tokens (tx :: txs) = tokens [tx] ++ tokens txs.
Proof using Type. apply (tokens_app [tx] txs). Qed.

Lemma moves_trans tx txs s s1 s2 : moves [tx] s s1 → moves txs s1 s2 → moves (tx :: txs) s s2.
Proof using Type.
  intros [H1 H2] [H3 H4]. split.
  - change (coming (tx :: txs)) with (coming_value tx + coming txs).
    change (leaving (tx :: txs)) with (leaving_value tx + leaving txs). cbn in H1. lia.
  - intros b Hb. rewrite tokens_cons, gains_app, pays_app. specialize (H2 b Hb). specialize (H4 b Hb). lia.
Qed.

Lemma token_gain b txs : Forall (λ tx, in_u 256 (Value tx)) txs → 0 ≤ gains scfg b k (tokens txs).
Proof using Type.
  intros H. apply gains_nonneg. unfold tokens. rewrite Forall_forall in H |- *.
  intros tx [_ Hx]%list_elem_of_filter. by apply H.
Qed.

(** A whole block: the brokers can pay, so all its transactions do what they say. *)
Lemma exec_block txs s s1 : Forall (shard_tx here) txs → Forall (λ tx, 0 ≤ Value tx) (tokens txs) →
  (∀ tx, tx ∈ txs → is_Some (locs !! Sender tx) ∧ is_Some (locs !! Recipient tx)) →
  total s + coming txs < 2 ^ 256 → (∀ b, b ∈ bs → pays scfg b k (tokens txs) ≤ eff s b) →
  st_for (λ tx, st_wrap "execute tx err" (txExecute here ctx locs tx)) txs s = (Ok tt, s1) →
  Forall (λ tx, in_u 256 (Value tx)) txs ∧ moves txs s s1.
Proof using SLaws Hnd Hlocs Hbs.
  intros Hf. revert s; induction Hf as [|tx txs Htx Hf IH]; intros s Hnn Hl Hlt Hpay; cbn [st_for].
  - intros [= <-]. split; [constructor|]. split; [cbn; lia|]. intros b _. change (eff s b + 0 - 0 ≤ eff s b). lia.
  - intros ([] & s2 & E%st_wrap_ok & E2)%st_bind_ok.
    change (coming (tx :: txs)) with (coming_value tx + coming txs) in Hlt. pose proof (shard_nonneg here txs Hf) as Hpos.
    destruct (Hl tx) as [Hs Hr]; [by left|]. rewrite tokens_cons in Hnn. apply Forall_app in Hnn as [_ Hnn].
    pose proof (λ b, pays_nonneg scfg b k _ Hnn) as Hn.
    setoid_rewrite tokens_cons in Hpay. setoid_rewrite pays_app in Hpay.
    destruct (exec_any tx s s2) as [Hv Hm]; [done..|lia| |done|].
    { intros b Hb. specialize (Hpay b Hb). specialize (Hn b). lia. }
    pose proof Hm as [Ht Hb]. cbn in Ht.
    assert (0 ≤ leaving_value tx) by (unfold leaving_value; case_decide; [apply Hv|lia]).
    destruct (IH s2 Hnn) as [Hvs Hms]; [intros; apply Hl; by right|lia| |done|split; [by constructor|by eapply moves_trans]].
    intros b Hbb. specialize (Hpay b Hbb). specialize (Hb b Hbb).
    pose proof (token_gain b [tx] ltac:(by constructor)). lia.
Qed.
End exec.
End txs.

Section flow.
  Context {BL : BitSetLib} {RT : RlpTx} {RH : RlpHeader} {GB : GobBlock}.
  Context {GU : GobU64} {GS : GobState} {MK : MapKeys} {GM : GobMsg}.
  Context {SL : StateDBLib} {EV : EVMLib} {BO : BoltLib} {TL : TrieLib}.
  Context {SLaws : StateDBLaws SL} {TLaws : TrieLaws TL} {MKL : MapKeysLaws MK}.
  Context {Src : Type} {TS : TxSource Src}.
  Context (cfg : ConsensusNodeCfg) (scfg : SupervisorCfg) (accs bs : list Address).
  Context (resolver : TopoGetter) (Hown : own_leaders resolver).
  Context (Hgob : ∀ m p, gob_encode KReceiveTxs m = Ok p → gob_decode KReceiveTxs p = Ok m).
  Context (Hrep : ∀ m p, gob_encode KBrokerBlockInfo m = Ok p → gob_decode KBrokerBlockInfo p = Ok m).
  Context (Hcfg : ShardNum (cn_Sys cfg) = ShardNum (sv_Sys scfg)).
  Context (Hnd : NoDup accs) (Hbs : ∀ b, b ∈ bs → b ∈ accs).
  Abbreviation n := (ShardNum (sv_Sys scfg)).
  Abbreviation shard_tx := (shard_tx scfg accs bs).
  Abbreviation StaticBrokerCommittee := (StaticBrokerCommittee (Src := Src)).

(** ** Committing a block *)

(** What a message tells the supervisor. *)
Definition report_of (w : WrappedMsg) : option BrokerBlockInfoMsg :=
  if decide (MsgType w = BrokerBlockInfoMessageType) then
    match gob_decode KBrokerBlockInfo (Payload w) with Ok bi => Some bi | _ => None end
  else None.
Definition executed (w : WrappedMsg) : list Transaction :=
  match report_of w with Some bi => bb_Broker1Txs bi ++ bb_Broker2Txs bi | None => [] end.

Lemma report_wrapped bi w : WrapMsg KBrokerBlockInfo bi = Ok w →
  MsgType w = BrokerBlockInfoMessageType ∧ gob_decode KBrokerBlockInfo (Payload w) = Ok bi.
Proof using Hrep.
  unfold WrapMsg. intros (t & [= <-]%wrap_err_ok & (p & Hp%wrap_err_ok & [= <-])%rbind_ok)%rbind_ok.
  split; [done|]. cbn. by apply Hrep.
Qed.
Lemma report_of_wrapped w bi : MsgType w = BrokerBlockInfoMessageType →
  gob_decode KBrokerBlockInfo (Payload w) = Ok bi → report_of w = Some bi.
Proof using Type. intros Hm Hd. unfold report_of. by rewrite decide_True, Hd. Qed.

Abbreviation half st := (λ tx, ¬ is_relay tx ∧ tx_BrokerStage tx = st).
Abbreviation first_half := (λ tx, is_relay tx ∧ tx_RelayStage tx = Relay1Tx).

(** The classes of a block's transactions the leader tells the supervisor and relays. *)
Lemma split_tokens k txs : Forall (shard_tx k) txs →
  filter (half Sigma1BrokerStage) txs ++ filter (half Sigma2BrokerStage) txs ≡ₚ tokens txs ∧
  Forall (λ tx, home scfg k tx) (tokens txs).
Proof using Type.
  unfold tokens. induction 1 as [|tx txs Htx _ [IH1 IH2]]; [by split|]. rewrite !filter_cons.
  assert (is_broker tx → ¬ is_relay tx) as Hex by (unfold is_broker, is_relay; by intros ->).
  destruct Htx as [Htx|[[Htx _]|[[Htx Hh]|Htx]]].
  - destruct Htx as (Hty & Hst & _). rewrite Hst. rewrite !decide_False; [done|..].
    all: try (intros [_ E]; done). unfold is_broker. by rewrite Hty.
  - rewrite !decide_False; [done|unfold is_broker; by rewrite (proj1 Htx)|..]; intros [E _]; by destruct E; apply Htx.
  - destruct Htx as (Hty & _). rewrite (decide_True (P := is_broker tx)) by done.
    destruct Hh as [[Hst Hk]|[Hst Hk]]; (split; [|constructor; [by left + right|done]]).
    + rewrite decide_True, decide_False; [|intros [_ E]; by rewrite Hst in E|by split; [apply Hex|]].
      cbn. by rewrite IH1.
    + rewrite decide_False, decide_True; [|by split; [apply Hex|]|intros [_ E]; by rewrite Hst in E].
      by rewrite <- Permutation_middle, IH1.
  - rewrite !decide_False; [done|unfold is_broker; by rewrite (proj1 Htx)|..]; intros [E _]; by destruct E; apply Htx.
Qed.

Lemma home_stage (k : nat) tx st : home scfg (Z.of_nat k) tx → tx_BrokerStage tx = st →
  (st = Sigma1BrokerStage → default_loc scfg (Sender tx) = Ok (Z.of_nat k)) ∧
  (st = Sigma2BrokerStage → default_loc scfg (Recipient tx) = Ok (Z.of_nat k)).
Proof using Type. intros [[H1 H2]|[H1 H2]] <-; split; intros E; by rewrite H1 in E || exact H2. Qed.

Lemma split_reports (k : nat) txs st : Forall (shard_tx (Z.of_nat k)) txs →
  st = Sigma1BrokerStage ∨ st = Sigma2BrokerStage →
  Forall (λ tx, tx_BrokerStage tx = st ∧ home scfg (Z.of_nat k) tx) (filter (half st) txs).
Proof using Type.
  intros Hf Hst. destruct (split_tokens _ _ Hf) as [Hp Hh]. rewrite Forall_forall in Hh |- *.
  intros tx Htx. pose proof Htx as [[_ E] _]%list_elem_of_filter. split; [done|]. apply Hh. rewrite <- Hp.
  apply elem_of_app. destruct Hst as [-> | ->]; [by left|by right].
Qed.

(** Both halves of what the leader reports are what it executed. *)
Lemma commit_report (k : nat) txs inner r1 r2 e t1 t2 : Forall (shard_tx (Z.of_nat k)) txs →
  let bi := mkBrokerBlockInfoMsg inner (filter (half Sigma1BrokerStage) txs) (filter (half Sigma2BrokerStage) txs)
    r1 r2 e t1 t2 (Z.of_nat k) in
  reports scfg k bi ∧ bb_Broker1Txs bi ++ bb_Broker2Txs bi ≡ₚ tokens txs.
Proof using Type.
  intros Hf bi. split; [split; [done|]|by apply (split_tokens _ _ Hf)].
  split; (eapply Forall_impl; [apply split_reports; [done|by left + right]|]); intros tx [E Hh]; (split; [done|]);
    by apply (home_stage k tx _ Hh E).
Qed.

Lemma commit_relays (k : Z) txs : Forall (shard_tx k) txs →
  leaving (filter first_half txs) = leaving txs ∧
  ∀ tx, tx ∈ filter first_half txs → leaving_tx n accs k tx ∧ tx ∈ txs.
Proof using Type.
  intros Hf. split.
  - apply leaving_filter. rewrite Forall_forall in Hf |- *. intros tx _ Hno. unfold leaving_value. by rewrite decide_False.
  - intros tx [[E1 E2] Hin]%list_elem_of_filter. split; [|done]. rewrite Forall_forall in Hf. unfold is_relay in E1.
    destruct (Hf tx Hin) as [(Hty & _)|[[Htx Hk]|[[[Hty _] _]|(_ & Hst & _)]]].
    + by rewrite Hty in E1.
    + by apply (first_leaving scfg accs bs).
    + by rewrite Hty in E1.
    + by rewrite Hst in E2.
Qed.

(** The packets a commit adds: the report, then what goes to other shards. *)
Lemma broker_commit_sends now b (s s' : ShardState) (k : nat) : b_MigrationOpt b = emptyMigrationOpt →
  default_locations (chain s) → c_ShardNum (chain s) = n → shardID (chain s) = Z.of_nat k →
  Forall (shard_tx (Z.of_nat k)) (TxList (b_Body b)) →
  (∀ c1, AddBlock b (chain s) = (Ok tt, c1) → Forall (λ tx, in_u 256 (Value tx)) (TxList (b_Body b))) →
  Broker_BlockCommitAndDeliver cfg resolver now true b s = (Ok tt, s') →
  AddBlock b (chain s) = (Ok tt, chain s') ∧ txPool s' = txPool s ∧
  ∃ w bi sent, outbox (conn s') = outbox (conn s) ++ (mkNodeInfo 0 SupervisorShardID, w) :: sent ∧
    WrapMsg KBrokerBlockInfo bi = Ok w ∧ reports scfg k bi ∧
    bb_Broker1Txs bi ++ bb_Broker2Txs bi ≡ₚ tokens (TxList (b_Body b)) ∧
    Forall (relayed_ok accs cfg n) sent ∧ wire_value sent = leaving (TxList (b_Body b)).
Proof using Hown Hgob MKL TLaws.
  intros Hm Hd Hn Hk Hf Hv. unfold Broker_BlockCommitAndDeliver. intros ([] & s1 & E1%st_wrap_ok & E)%st_bind_ok.
  apply st_zoom_ok in E1 as (c1 & Ea & ->). cbn [negb] in E. rewrite Broker_splitTxs_filter in E.
  apply st_bind_ok in E as ([] & s2 & E2%st_wrap_ok & E3).
  apply st_bind_ok in E2 as (s0 & s1 & [= <- <-] & (w & spv & Hw & Hspv & ->)%send_supervisor_ok).
  destruct (AddBlock_head _ _ _ Ea) as (_ & Hsid & _ & Hnum). cbn [chain upd] in Hw.
  assert (spv = mkNodeInfo 0 SupervisorShardID) as ->.
  { unfold GetSupervisor in Hspv. destruct (leaders resolver !! _) as [x|] eqn:El; [|discriminate]. injection Hspv as <-. by apply Hown. }
  set (bi := mkBrokerBlockInfoMsg _ _ _ _ _ _ _ _ _) in Hw. destruct (commit_relays _ _ Hf) as [Hlv Hr1].
  assert (reports scfg k bi ∧ bb_Broker1Txs bi ++ bb_Broker2Txs bi ≡ₚ tokens (TxList (b_Body b))) as [Hrp Hpt].
  { unfold bi. replace (GetShardID c1) with (Z.of_nat k) by (unfold GetShardID; congruence). by apply commit_report. }
  enough (∃ sent, s' = s <| chain := c1 |> <| conn ::= λ c, c <| outbox ::= λ o, o ++ [(mkNodeInfo 0 SupervisorShardID, w)] |> |>
    <| conn ::= λ c, c <| outbox ::= λ o, o ++ sent |> |> ∧ Forall (relayed_ok accs cfg n) sent ∧
    wire_value sent = leaving (TxList (b_Body b)) ∧ (chain s' = c1)) as (sent & -> & Hs1 & Hs2 & _).
  { split_and!; [done|done|]. exists w, bi, sent. split_and!; try done. cbn. by rewrite <- app_assoc. }
  case_decide as Hlen.
  - apply st_wrap_ok in E3. apply (sendRelayedTxs_value accs cfg resolver Hown Hgob) in E3 as (sent & -> & Hp & Hval).
    + exists sent. cbn [chain upd] in Hp. rewrite Hnum, Hn in Hp. split_and!; [done|done|congruence|done].
    + cbn [chain upd]. by eapply AddBlock_default.
    + cbn [chain upd]. rewrite Hnum, Hsid, Hn, Hk. intros tx Htx. destruct (Hr1 tx Htx) as [H1 H2]. split_and!; [done| |done].
      by apply (Forall_forall _ _) with (1 := Hv _ Ea).
  - injection E3 as <-. exists []. split_and!; [by destruct s as [? ? ? []]; cbn; rewrite app_nil_r|constructor| |done].
    rewrite <- Hlv. destruct (filter first_half _); [done|cbn in Hlen; lia].
Qed.

(** Its effect on the balances, when the brokers can pay. *)
Lemma broker_commit_ledger now miner (c c' : Chain) b (k : nat) : default_locations c → c_ShardNum c = n →
  shardID c = Z.of_nat k → b_MigrationOpt b = emptyMigrationOpt → Forall (shard_tx (Z.of_nat k)) (TxList (b_Body b)) →
  Forall (λ tx, 0 ≤ Value tx) (tokens (TxList (b_Body b))) →
  GenerateBlock now miner TxBlockType (b_Body b) emptyMigrationOpt c = Ok b → AddBlock b c = (Ok tt, c') →
  sumZ (ledger c) accs + coming (TxList (b_Body b)) < 2 ^ 256 →
  (∀ a, a ∈ bs → pays scfg a k (tokens (TxList (b_Body b))) ≤ ledger c a) →
  Forall (λ tx, in_u 256 (Value tx)) (TxList (b_Body b)) ∧
  sumZ (ledger c') accs = sumZ (ledger c) accs + coming (TxList (b_Body b)) - leaving (TxList (b_Body b)) +
    initBalance * Z.of_nat (length (emptied accs b c)) ∧
  ∀ a, a ∈ bs → ledger c a + gains scfg a k (tokens (TxList (b_Body b))) - pays scfg a k (tokens (TxList (b_Body b)))
    ≤ ledger c' a.
Proof using SLaws MKL Hnd Hbs.
  intros Hd Hn Hk Hm Hf Hnn Eg Ea Hlt Hpay.
  destruct (AddBlock_runs accs now miner c c' b Hd Hm ltac:(eapply Forall_impl; [exact Hf|apply shard_tx_native]) Eg Ea) as (s & s1 & locs & Hs & Hl & Hin & Ef & Hle & ->).
  rewrite (sumZ_ext (eff s) (ledger c) accs) in Hlt |- * by (intros; apply Hs). rewrite Hk in Ef. rewrite Hn in Hl.
  destruct (exec_block scfg accs bs Hnd Hbs k (getBlockCtxByBlock b) locs Hl (TxList (b_Body b)) s s1 Hf Hnn Hin Hlt)
    as [Hv [Ht Hb]]; [|done|].
  - intros a Ha. rewrite <- Hs. by apply Hpay.
  - split_and!; [done|by rewrite Ht|]. intros a Ha. rewrite Hs. specialize (Hb a Ha). specialize (Hle a). lia.
Qed.

(** ** The system *)

Context (lps : nat → LocalParams).

Record BSystem := mkBSystem { com : StaticBrokerCommittee; net : System }.

Inductive bstep : BSystem → BSystem → list Transaction → list Address → Prop :=
| bstep_inject S ch now r c' sent : source_ok scfg accs bs now (com S) →
    StaticBroker_SendTxsAndConsensus resolver scfg ch now (com S) = (r, c') →
    outbox (cl_conn (sb_client c')) = outbox (cl_conn (sb_client (com S))) ++ sent →
    bstep S (mkBSystem c' (mkSystem (sys_leaders (net S)) (sys_wire (net S) ++ sent))) [] []
| bstep_report S w1 p w2 r c' : sys_wire (net S) = w1 ++ p :: w2 → p.1 = mkNodeInfo 0 SupervisorShardID →
    StaticBroker_HandleMsg p.2 (com S) = (r, c') →
    bstep S (mkBSystem c' (mkSystem (sys_leaders (net S)) (w1 ++ w2))) [] []
| bstep_deliver S w1 p w2 k L r s' : sys_wire (net S) = w1 ++ p :: w2 → p.1 = mkNodeInfo 0 (Z.of_nat k) →
    sys_leaders (net S) !! k = Some L → Static_HandleMsgOutsideShard p.2 (l_shard L) = (r, s') →
    bstep S (mkBSystem (com S) (mkSystem (<[k := mkLeader s' (l_proposal L)]> (sys_leaders (net S))) (w1 ++ w2))) [] []
| bstep_propose S k L now r s' : sys_leaders (net S) !! k = Some L →
    Static_BuildProposal cfg (lps k) BrokerTxBlockOp now (l_shard L) = (r, s') →
    bstep S (mkBSystem (com S) (mkSystem (<[k := mkLeader s' (proposed r)]> (sys_leaders (net S))) (sys_wire (net S))))
      (proposal_txs (l_proposal L) ++ if is_ok r then [] else taken (txPool (l_shard L)) (txPool s')) []
| bstep_commit S k L b now s' sent : sys_leaders (net S) !! k = Some L → deref_block (l_proposal L) = Ok b →
    Static_ProposalCommitAndDeliver cfg resolver BrokerTxBlockOp now true (l_proposal L) (l_shard L) = (Ok tt, s') →
    outbox (conn s') = outbox (conn (l_shard L)) ++ sent →
    bstep S (mkBSystem (com S) (mkSystem (<[k := mkLeader s' None]> (sys_leaders (net S))) (sys_wire (net S) ++ sent)))
      [] (emptied accs b (chain (l_shard L))).

(** The system when it starts: a leader for each shard, on an account store
    where the brokers have the balance the committee starts with. *)
Definition bstarts (S : BSystem) : Prop := sys_wire (net S) = [] ∧
  Z.of_nat (length (sys_leaders (net S))) = n ∧ GetBrokers (sb_bManager (com S)) = bs ∧
  (∃ conn src file, NewStaticBrokerCommittee scfg conn src file = Ok (com S)) ∧
  ∀ k L, sys_leaders (net S) !! k = Some L → starts cfg k L ∧ ∀ b, b ∈ bs → brokerInit ≤ ledger (chain (l_shard L)) b.

Inductive brun : BSystem → list Transaction → list Address → BSystem → Prop :=
| brun_start S : bstarts S → brun S [] [] S
| brun_step S0 S S' lost lost' emp emp' : brun S0 lost emp S → bstep S S' lost' emp' →
    brun S0 (lost ++ lost') (emp ++ emp') S'.

(** Where the transactions are, and what the supervisor has not been told yet. *)
Definition leader_txs (L : Leader) : list Transaction := queue (txPool (l_shard L)) ++ proposal_txs (l_proposal L).
Definition on_way (S : System) : list Transaction :=
  flat_map (λ p, txs_of p.2) (sys_wire S) ++ flat_map leader_txs (sys_leaders S).
Definition untold (S : System) : list Transaction := flat_map (λ p, executed p.2) (sys_wire S).
(** The balance of an account in shard [k]. *)
Definition shard_ledger (S : System) (k : nat) (a : Address) : Z :=
  match sys_leaders S !! k with Some L => ledger (chain (l_shard L)) a | None => 0 end.

(** ** The invariant *)

Context (Hsup : n ≤ SupervisorShardID) (Hpos : 0 < n).
Abbreviation booked := (booked (Src := Src) scfg accs bs).

Definition bleader_ok (k : Z) (L : Leader) : Prop :=
  default_locations (chain (l_shard L)) ∧ c_ShardNum (chain (l_shard L)) = n ∧
  shardID (chain (l_shard L)) = k ∧ splits (pf (txPool (l_shard L))) ∧
  Forall (shard_tx k) (queue (txPool (l_shard L))) ∧ proposal_ok (shard_tx k) (l_proposal L) (chain (l_shard L)).
(** A packet holds transactions for a shard, or a shard's report to the supervisor. *)
Definition to_shard (p : NodeInfo * WrappedMsg) : Prop := ∃ k : nat, Z.of_nat k < n ∧
  p.1 = mkNodeInfo 0 (Z.of_nat k) ∧ executed p.2 = [] ∧ Forall (shard_tx (Z.of_nat k)) (txs_of p.2).
Definition to_supervisor (p : NodeInfo * WrappedMsg) : Prop := p.1 = mkNodeInfo 0 SupervisorShardID ∧
  txs_of p.2 = [] ∧ ∃ (k : nat) bi, Z.of_nat k < n ∧ MsgType p.2 = BrokerBlockInfoMessageType ∧
    gob_decode KBrokerBlockInfo (Payload p.2) = Ok bi ∧ reports scfg k bi.
Definition net_ok (S : System) : Prop := Z.of_nat (length (sys_leaders S)) = n ∧
  (∀ k L, sys_leaders S !! k = Some L → bleader_ok (Z.of_nat k) L) ∧
  Forall (λ p, to_shard p ∨ to_supervisor p) (sys_wire S).
Definition bsystem_ok (S : BSystem) : Prop := net_ok (net S) ∧
  booked (tokens (on_way (net S))) (untold (net S)) (shard_ledger (net S)) (com S).

Lemma leader_shard S k L : net_ok S → sys_leaders S !! k = Some L → Z.of_nat k < n ∧ bleader_ok (Z.of_nat k) L.
Proof using Type. intros (Hlen & Hl & _) Hk. split; [|by apply Hl]. apply lookup_lt_Some in Hk. lia. Qed.

Lemma net_no_debts S : net_ok S → no_debts S.
Proof using Type.
  intros (_ & Hl & Hw). split.
  - apply sumZ_nonneg. eapply Forall_impl; [exact Hw|]. intros p [(k & _ & _ & _ & Hp)|(_ & Hp & _)].
    + by eapply shard_nonneg.
    + by rewrite Hp.
  - intros L [k Hk]%list_elem_of_lookup. destruct (Hl k L Hk) as (_ & _ & _ & _ & Hq & Hp).
    split; [by eapply shard_nonneg|]. unfold proposal_txs. destruct (deref_block (l_proposal L)) as [b|e|] eqn:E; [|done..].
    eapply shard_nonneg, Hp, E.
Qed.

Lemma net_insert S k L L' wire : net_ok S → sys_leaders S !! k = Some L → bleader_ok (Z.of_nat k) L' →
  Forall (λ p, to_shard p ∨ to_supervisor p) wire → net_ok (mkSystem (<[k := L']> (sys_leaders S)) wire).
Proof using Type.
  intros (Hlen & Hl & _) Hk HL' Hw. split_and!; [|cbn|done].
  - cbn. by rewrite length_insert.
  - intros j M [(<- & <- & _)|[_ Hj]]%list_lookup_insert_Some; [done|by apply Hl].
Qed.

Lemma ledger_insert S k L L' wire j a : sys_leaders S !! k = Some L →
  shard_ledger (mkSystem (<[k := L']> (sys_leaders S)) wire) j a =
    if decide (j = k) then ledger (chain (l_shard L')) a else shard_ledger S j a.
Proof using Type.
  intros Hk. unfold shard_ledger. cbn [sys_leaders]. case_decide as E.
  - subst. by rewrite list_lookup_insert_eq by (by eapply lookup_lt_Some).
  - by rewrite list_lookup_insert_ne.
Qed.
Lemma ledger_same S k L L' wire j a : sys_leaders S !! k = Some L → chain (l_shard L') = chain (l_shard L) →
  shard_ledger (mkSystem (<[k := L']> (sys_leaders S)) wire) j a = shard_ledger S j a.
Proof using Type.
  intros Hk Hc. rewrite (ledger_insert S k L) by done. case_decide; [subst|done].
  unfold shard_ledger. by rewrite Hk, Hc.
Qed.

(** *** A packet reaches its leader *)

Lemma wire_split S w1 p w2 : net_ok S → sys_wire S = w1 ++ p :: w2 →
  (to_shard p ∨ to_supervisor p) ∧ Forall (λ p, to_shard p ∨ to_supervisor p) (w1 ++ w2) ∧
  on_way S ≡ₚ txs_of p.2 ++ flat_map (λ p, txs_of p.2) (w1 ++ w2) ++ flat_map leader_txs (sys_leaders S) ∧
  untold S ≡ₚ executed p.2 ++ flat_map (λ p, executed p.2) (w1 ++ w2).
Proof using Type.
  intros (_ & _ & Hw) E. rewrite E in Hw. apply Forall_app in Hw as [H1 [H2 H3]%Forall_cons].
  split_and!; [done|by apply Forall_app| |]; unfold on_way, untold; rewrite E, flat_map_middle; [|done].
  by rewrite <- app_assoc.
Qed.

Lemma deliver_bok S w1 p w2 k L r s' : bsystem_ok S → sys_wire (net S) = w1 ++ p :: w2 →
  p.1 = mkNodeInfo 0 (Z.of_nat k) → sys_leaders (net S) !! k = Some L →
  Static_HandleMsgOutsideShard p.2 (l_shard L) = (r, s') →
  bsystem_ok (mkBSystem (com S) (mkSystem (<[k := mkLeader s' (l_proposal L)]> (sys_leaders (net S))) (w1 ++ w2))).
Proof using Hsup.
  intros [HN HB] Hw Hp Hk (Hc & _ & Hpf & Hq)%deliver_cases.
  destruct (leader_shard _ _ _ HN Hk) as [Hlt (A1 & A2 & A3 & A4 & A5 & A6)].
  destruct (wire_split _ _ _ _ HN Hw) as ([Hto|(Hto & _)] & Hwok & Hway & Hun).
  2:{ rewrite Hp in Hto. injection Hto. lia. }
  destruct Hto as (k' & _ & Hk' & Hex & Htx). rewrite Hp in Hk'. injection Hk' as Hk'. rewrite <- Hk' in Htx. split.
  - apply net_insert with L; [done..| |done]. unfold bleader_ok. cbn [l_shard l_proposal]. rewrite Hc, Hpf, Hq.
    split_and!; [done..| |done]. by apply Forall_app.
  - destruct (flat_map_insert leader_txs _ _ _ Hk) as (rest & E1 & E2).
    apply (booked_led scfg accs bs _ _ (shard_ledger (net S))).
    { intros b j _ _. cbn [net]. rewrite (ledger_same _ k L) by done. lia. }
    eapply booked_perm; [| |exact HB]; cbn [net].
    + apply tokens_perm. rewrite Hway, E1. unfold on_way. cbn [sys_wire sys_leaders]. rewrite E2.
      unfold leader_txs. cbn [l_shard l_proposal]. rewrite Hq, <- !app_assoc.
      rewrite Permutation_app_swap_app. f_equiv. by rewrite Permutation_app_swap_app.
    + rewrite Hun, Hex. done.
Qed.

(** *** A report reaches the supervisor *)

Lemma report_bok S w1 p w2 r c' : bsystem_ok S → sys_wire (net S) = w1 ++ p :: w2 →
  p.1 = mkNodeInfo 0 SupervisorShardID → StaticBroker_HandleMsg p.2 (com S) = (r, c') →
  let S' := mkSystem (sys_leaders (net S)) (w1 ++ w2) in
  bsystem_ok (mkBSystem c' S') ∧ r = Ok tt ∧ balanced accs (net S) S' [] [].
Proof using Hsup.
  intros [HN HB] Hw Hp E S'. destruct (wire_split _ _ _ _ HN Hw) as ([(k & Hlt & Hk & _)|Hto] & Hwok & Hway & Hun).
  { rewrite Hp in Hk. injection Hk. lia. }
  destruct Hto as (_ & Htx & k & bi & Hlt & Hm & Hd & Hr). rewrite Htx in Hway.
  assert (executed p.2 = bb_Broker1Txs bi ++ bb_Broker2Txs bi) as Hex by (unfold executed; by rewrite (report_of_wrapped _ bi)).
  rewrite Hex, <- app_assoc in Hun.
  apply (booked_perm scfg accs bs _ (tokens (on_way S')) _ (bb_Broker1Txs bi ++ bb_Broker2Txs bi ++ untold S')) in HB;
    [|by apply tokens_perm|done].
  destruct (booked_handle scfg accs bs _ _ _ _ p.2 bi k Hlt Hm Hd Hr HB) as (c1 & E1 & HB').
  rewrite E in E1. injection E1 as -> ->. split_and!; [|done|].
  - split; [|exact HB']. destruct HN as (Hlen & Hl & _). by split_and!.
  - split; [done|]. unfold travelling, held, S'. cbn [sys_leaders sys_wire]. rewrite Hw, !wire_value_app.
    change (wire_value (p :: w2)) with (coming (txs_of p.2) + wire_value w2). rewrite Htx. cbn. lia.
Qed.

(** *** A leader proposes *)

Lemma build_broker lp (s : ShardState) k :
  builds BrokerTxBlockOp (shard_tx k) (shard_tx k) (λ l l', l' = l) lp s.
Proof using Type.
  intros now txs p Ht. cbn [BuildTxBlockProposal]. unfold Broker_BuildTxBlockProposal.
  intros (b & Eb%wrap_err_ok & [= <-])%rbind_ok. exists b. split; [done|].
  assert (b_Body b = mkBody txs) as Hbody
    by by destruct (GenerateBlock_ok _ _ _ _ _ _ _ Eb) as (? & ? & ? & ? & ? & _ & _ & _ & _ & ->).
  split; [by rewrite Hbody|]. intros b' [= <-]. rewrite Hbody. split; [exact Ht|]. by eexists now, _.
Qed.

Lemma propose_bok S k L now r s' : bsystem_ok S → sys_leaders (net S) !! k = Some L →
  Static_BuildProposal cfg (lps k) BrokerTxBlockOp now (l_shard L) = (r, s') →
  let S' := mkSystem (<[k := mkLeader s' (proposed r)]> (sys_leaders (net S))) (sys_wire (net S)) in
  bsystem_ok (mkBSystem (com S) S') ∧ balanced accs (net S) S' (proposal_txs (l_proposal L) ++
    if is_ok r then [] else taken (txPool (l_shard L)) (txPool s')) [].
Proof using Type.
  intros [HN HB] Hk E S'. destruct (leader_shard _ _ _ HN Hk) as [Hlt (A1 & A2 & A3 & A4 & A5 & A6)].
  destruct (build_cases cfg _ _ _ _ (lps k) now (l_shard L) r s' A4 A5 (build_broker _ _ _) E)
    as (Hc & _ & Hpf & Hq & Hv & Hp).
  pose proof A5 as A5'. rewrite Hq in A5'. apply Forall_app in A5' as [B1 B2].
  assert (bleader_ok (Z.of_nat k) (mkLeader s' (proposed r))) as HL'.
  { unfold bleader_ok. cbn [l_shard l_proposal]. rewrite Hc in *. rewrite Hpf. by split_and!. }
  split; [split|].
  - apply net_insert with L; [done..|apply HN].
  - destruct (flat_map_insert leader_txs _ _ _ Hk) as (rest & E1 & E2).
    apply (booked_led scfg accs bs _ _ (shard_ledger (net S))).
    { intros b j _ _. cbn [net]. unfold S'. rewrite (ledger_same _ k L) by done. lia. }
    apply (booked_lose scfg accs bs (tokens (proposal_txs (l_proposal L) ++
      if is_ok r then [] else taken (txPool (l_shard L)) (txPool s')))).
    eapply booked_perm; [|reflexivity|exact HB]. cbn [net]. rewrite <- tokens_app. apply tokens_perm.
    unfold on_way, S'. cbn [sys_wire sys_leaders]. rewrite E1, E2. unfold leader_txs. cbn [l_shard l_proposal].
    rewrite Hq, !app_assoc. f_equiv. destruct (is_ok r) eqn:Er.
    + rewrite Hv. rewrite app_nil_r. solve_Permutation.
    + rewrite Hv. change (proposal_txs None) with (@nil Transaction). rewrite app_nil_r. solve_Permutation.
  - apply propose_balanced; try done.
    + destruct (is_ok r); rewrite Hv; done.
    + by eapply shard_nonneg.
    + apply (net_no_debts _ HN). by eapply list_elem_of_lookup_2.
Qed.

(** *** A leader commits *)

Lemma relayed_packets sent : Forall (relayed_ok accs cfg n) sent →
  Forall (λ p, to_shard p ∨ to_supervisor p) sent ∧ flat_map (λ p, executed p.2) sent = [] ∧
  tokens (flat_map (λ p, txs_of p.2) sent) = [].
Proof using Hcfg.
  induction 1 as [|p sent (Hty & k & Hk & Hp & Hf) _ (IH1 & IH2 & IH3)]; [by split_and!; [constructor| |]|].
  assert (executed p.2 = []) as Hex.
  { unfold executed, report_of. rewrite Hty. by rewrite decide_False. }
  split_and!; cbn [flat_map].
  - constructor; [|done]. left. exists k. rewrite <- Hcfg. split_and!; [done..|]. eapply Forall_impl; [exact Hf|].
    intros tx Htx. by do 3 right.
  - by rewrite Hex.
  - rewrite tokens_app, IH3, tokens_none; [done|]. eapply Forall_impl; [exact Hf|]. intros tx (Hty' & _).
    unfold is_broker. by rewrite Hty'.
Qed.

Lemma commit_room S k L b : bsystem_ok S → sys_leaders (net S) !! k = Some L → deref_block (l_proposal L) = Ok b →
  ∃ T, tokens (on_way (net S)) ≡ₚ tokens (TxList (b_Body b)) ++ T ∧
    (∀ wire s', txPool s' = txPool (l_shard L) →
       tokens (on_way (mkSystem (<[k := mkLeader s' None]> (sys_leaders (net S))) (sys_wire (net S) ++ wire))) ≡ₚ
       tokens (flat_map (λ p, txs_of p.2) wire) ++ T) ∧
    Forall (λ tx, 0 ≤ Value tx) (tokens (TxList (b_Body b))) ∧
    ∀ a, a ∈ bs → pays scfg a k (tokens (TxList (b_Body b))) ≤ ledger (chain (l_shard L)) a.
Proof using Type.
  intros [HN HB] Hk Hb. destruct (leader_shard _ _ _ HN Hk) as [Hlt _].
  destruct (flat_map_insert leader_txs _ _ _ Hk) as (rest & E1 & E2).
  exists (tokens (flat_map (λ p, txs_of p.2) (sys_wire (net S)) ++ queue (txPool (l_shard L)) ++ rest)).
  assert (tokens (on_way (net S)) ≡ₚ tokens (TxList (b_Body b)) ++
    tokens (flat_map (λ p, txs_of p.2) (sys_wire (net S)) ++ queue (txPool (l_shard L)) ++ rest)) as Hp.
  { rewrite <- tokens_app. apply tokens_perm. unfold on_way. rewrite E1. unfold leader_txs, proposal_txs. rewrite Hb.
    solve_Permutation. }
  pose proof (tokens_nonneg scfg accs bs _ _ _ _ HB) as Hnn. rewrite Hp, !Forall_app in Hnn. destruct Hnn as [[Hv HT] HR].
  split_and!; [done| |done|].
  - intros wire s' Hpool. rewrite <- tokens_app. apply tokens_perm. unfold on_way. cbn [sys_wire sys_leaders].
    rewrite E2, flat_map_app. unfold leader_txs, proposal_txs. cbn. rewrite Hpool, app_nil_r. solve_Permutation.
  - intros a Ha. pose proof (headroom scfg accs bs _ _ _ _ a k HB Ha Hlt) as Hr.
    unfold shard_ledger in Hr. rewrite Hk in Hr. unfold pays in Hr. rewrite (sumZ_permutation _ _ _ Hp), sumZ_app in Hr.
    pose proof (gains_nonneg scfg a k _ HR). pose proof (pays_nonneg scfg a k _ HT). unfold pays in *. lia.
Qed.

Lemma token_elsewhere (k j : nat) txs b : k ≠ j → Forall (home scfg (Z.of_nat k)) txs →
  gains scfg b j txs = 0 ∧ pays scfg b j txs = 0.
Proof using Type.
  intros Hne. induction 1 as [|tx txs Hh _ [IH1 IH2]]; [by split|].
  change (gain scfg b j tx + gains scfg b j txs = 0 ∧ pay scfg b j tx + pays scfg b j txs = 0). rewrite IH1, IH2.
  unfold gain, pay. destruct Hh as [[Hs Hl]|[Hs Hl]]; rewrite Hs, Hl, !decide_False; try done;
    intros (E1 & _ & E2); (done || (injection E2 as E2%Nat2Z.inj; congruence)).
Qed.

Lemma commit_bok S k L b now s' sent : bsystem_ok S → held accs (net S) + travelling (net S) < 2 ^ 256 →
  sys_leaders (net S) !! k = Some L → deref_block (l_proposal L) = Ok b →
  Static_ProposalCommitAndDeliver cfg resolver BrokerTxBlockOp now true (l_proposal L) (l_shard L) = (Ok tt, s') →
  outbox (conn s') = outbox (conn (l_shard L)) ++ sent →
  let S' := mkSystem (<[k := mkLeader s' None]> (sys_leaders (net S))) (sys_wire (net S) ++ sent) in
  bsystem_ok (mkBSystem (com S) S') ∧ balanced accs (net S) S' [] (emptied accs b (chain (l_shard L))).
Proof using SLaws TLaws MKL Hown Hgob Hrep Hcfg Hnd Hbs.
  intros HS Hlt Hk Hb Hc Ho S'. destruct (commit_room S k L b HS Hk Hb) as (T & HT & HT' & Hnn & Hroom).
  destruct HS as [HN HB]. destruct (leader_shard _ _ _ HN Hk) as [Hkn (A1 & A2 & A3 & A4 & A5 & A6)].
  pose proof (proj2 (no_debts_values accs _ (net_no_debts _ HN)) L (list_elem_of_lookup_2 _ _ _ Hk)) as Hbound.
  unfold proposal_txs in Hbound. rewrite Hb in Hbound. destruct (A6 b Hb) as [Hbt (now' & miner & Hgen)].
  assert (b_MigrationOpt b = emptyMigrationOpt) as Hm
    by by destruct (GenerateBlock_ok _ _ _ _ _ _ _ Hgen) as (? & ? & ? & ? & ? & _ & _ & _ & _ & ->).
  unfold Static_ProposalCommitAndDeliver in Hc. apply st_bind_ok in Hc as (b0 & s0 & [E ->]%st_lift_ok & Hc).
  rewrite Hb in E. injection E as <-. apply st_wrap_ok in Hc. cbn [BlockCommitAndDeliver] in Hc.
  pose proof (λ c1, broker_commit_ledger now' miner (chain (l_shard L)) c1 b k A1 A2 A3 Hm Hbt Hnn Hgen) as Hled.
  destruct (broker_commit_sends now b _ s' k Hm A1 A2 A3 Hbt) with (2 := Hc) as (Ha & Hpool & w & bi & snt & Hs & Hw & Hrp & Hpt & Hrel & Hval).
  { intros c1 Ha. apply (Hled c1 Ha); [lia|done]. }
  rewrite Ho in Hs. apply app_inv_head in Hs as ->.
  destruct (Hled _ Ha) as (Hv & Hsum & Hmoves); [lia|done|].
  destruct (AddBlock_head _ _ _ Ha) as (_ & Hsid & _ & Hnum). destruct (relayed_packets snt Hrel) as (Hpk & Hex & Htok).
  destruct (report_wrapped bi w Hw) as [Hty Hdec].
  assert (txs_of w = []) as Htw by by apply (txs_of_other _ _ _ Hw).
  split; [split|].
  - apply net_insert with L; [done..| |].
    + unfold bleader_ok. cbn [l_shard l_proposal]. rewrite Hnum, Hsid, Hpool. split_and!; try done. by eapply AddBlock_default.
    + apply Forall_app. split; [apply HN|]. constructor; [|done]. right. split_and!; [done..|]. by exists k, bi.
  - cbn [net com]. eapply booked_perm; [symmetry; apply (HT' ((mkNodeInfo 0 SupervisorShardID, w) :: snt) s' Hpool)| |].
    { unfold untold, S'. cbn [sys_wire]. rewrite flat_map_app. cbn [flat_map snd]. rewrite Hex, app_nil_r.
      assert (executed w = bb_Broker1Txs bi ++ bb_Broker2Txs bi) as -> by (unfold executed; by rewrite (report_of_wrapped w bi)).
      rewrite Hpt. apply Permutation_app_comm. }
    cbn [flat_map snd]. rewrite Htw. cbn [app]. rewrite Htok. cbn [app].
    eapply booked_commit; [eapply booked_perm; [exact HT|reflexivity|exact HB]|].
    intros a j Ha' Hj. unfold S'. rewrite (ledger_insert _ k L) by done. case_decide as E.
    + subst j. unfold shard_ledger. rewrite Hk. by apply Hmoves.
    + destruct (token_elsewhere k j (tokens (TxList (b_Body b))) a) as [-> ->]; [done| |lia].
      by apply (split_tokens (Z.of_nat k)).
  - apply commit_balanced; try done. cbn [snd]. change (coming (txs_of w) + wire_value snt = leaving (TxList (b_Body b))).
    by rewrite Htw, Hval.
Qed.

(** *** The committee injects *)

Lemma injected_home (k : nat) tx : injected_tx accs bs tx → StaticBroker_getTxLoc scfg tx = Ok (Z.of_nat k) →
  shard_tx (Z.of_nat k) tx.
Proof using Type.
  intros Htx. unfold StaticBroker_getTxLoc. destruct Htx as [Htx|[Htx|Htx]]; [by left|..].
  - pose proof Htx as (Hty & Hst & _). rewrite Hty, Hst, decide_True by (by right). intros Hl. right. by left.
  - pose proof Htx as (Hty & Hst & _). rewrite Hty.
    rewrite decide_False by (by intros [?|[? _]]). rewrite decide_False by (by intros [? _]).
    intros Hl. right. right. left. split; [done|]. destruct Hst as [Hst|Hst]; rewrite Hst in Hl.
    + left. by rewrite decide_True in Hl.
    + right. by rewrite decide_False in Hl.
Qed.

Lemma injected_packets (l : list (list Transaction * (NodeInfo * WrappedMsg))) :
  Forall (λ q, ∃ k : nat, Z.of_nat k < n ∧ shard_msg resolver (Z.of_nat k) q.1 q.2 ∧
    Forall (λ tx, injected_tx accs bs tx ∧ StaticBroker_getTxLoc scfg tx = Ok (Z.of_nat k)) q.1) l →
  Forall to_shard l.*2 ∧ flat_map (λ p, txs_of p.2) l.*2 = concat l.*1 ∧ flat_map (λ p, executed p.2) l.*2 = [] ∧
  wire_value l.*2 = 0.
Proof using Hown Hgob.
  induction 1 as [|[txs p] l (k & Hk & (_ & Hld & Hw) & Hf) _ (IH1 & IH2 & IH3 & IH4)]; [by split_and!; [constructor| | |]|].
  cbn [fst snd] in *. pose proof (wrapped_type _ _ _ Hw) as Hty. injection Hty as Hty.
  assert (txs_of p.2 = txs) as Htxs by by apply txs_of_wrapped.
  assert (executed p.2 = []) as Hex by (unfold executed, report_of; rewrite <- Hty; by rewrite decide_False).
  rewrite !fmap_cons. cbn [flat_map concat fst snd]. rewrite Htxs, Hex, IH2, IH3. split_and!; [|done|done|].
  - constructor; [|done]. exists k. rewrite Htxs. split_and!; [done| |done|].
    + unfold GetLeader in Hld. destruct (leaders resolver !! _) as [x|] eqn:El; [|discriminate].
      injection Hld as <-. by apply Hown.
    + eapply Forall_impl; [exact Hf|]. intros tx [Htx Hl]. by apply injected_home.
  - change (coming (txs_of p.2) + wire_value l.*2 = 0). rewrite IH4, Htxs.
    assert (coming txs = 0); [|lia]. clear -Hf. induction Hf as [|tx txs [Htx _] _ IH]; [done|].
    change (coming_value tx + coming txs = 0). rewrite IH. destruct Htx as [Htx|[Htx|Htx]].
    + by rewrite (proj2 (plain_values accs bs tx Htx)).
    + unfold coming_value. destruct Htx as (_ & Hst & _). rewrite decide_False; [done|]. rewrite Hst. by intros [_ ?].
    + by rewrite (proj2 (token_values tx (proj1 Htx))).
Qed.

Lemma inject_bok S ch now r c' sent : bsystem_ok S → source_ok scfg accs bs now (com S) →
  StaticBroker_SendTxsAndConsensus resolver scfg ch now (com S) = (r, c') →
  outbox (cl_conn (sb_client c')) = outbox (cl_conn (sb_client (com S))) ++ sent →
  let S' := mkSystem (sys_leaders (net S)) (sys_wire (net S) ++ sent) in
  bsystem_ok (mkBSystem c' S') ∧ balanced accs (net S) S' [] [].
Proof using Hown Hgob Hpos.
  intros [HN HB] Hsrc E Ho S'.
  destruct (booked_inject resolver scfg Hown accs bs _ _ _ ch now _ _ _ Hpos Hsrc HB E) as (l & snt & Ho' & Hp & Hl & HB').
  rewrite Ho in Ho'. apply app_inv_head in Ho' as <-.
  destruct (injected_packets l Hl) as (H1 & H2 & H3 & H4). split; [split|].
  - destruct HN as (Hlen & HL & Hw). split_and!; [done|done|]. apply Forall_app. split; [done|]. rewrite Hp.
    eapply Forall_impl; [exact H1|]. by left.
  - cbn [net com]. eapply booked_perm; [| |exact HB'].
    + rewrite <- tokens_app. apply tokens_perm. unfold on_way, S'. cbn [sys_wire sys_leaders].
      rewrite flat_map_app, (Permutation_flat_map _ Hp), H2. solve_Permutation.
    + unfold untold, S'. cbn [sys_wire]. by rewrite flat_map_app, (Permutation_flat_map _ Hp), H3, app_nil_r.
  - split; [done|]. unfold travelling, held, S'. cbn [sys_leaders sys_wire]. rewrite wire_value_app.
    assert (wire_value sent = 0) as -> by (unfold wire_value in *; by rewrite (sumZ_permutation _ _ _ Hp)). cbn. lia.
Qed.

(** *** Runs *)

Lemma bstep_ok S S' lost emp : bstep S S' lost emp → bsystem_ok S → held accs (net S) + travelling (net S) < 2 ^ 256 →
  bsystem_ok S' ∧ balanced accs (net S) (net S') lost emp.
Proof using All.
  intros Hs HS Hlt. destruct Hs as [S ch now r c' sent Hsrc E Ho|S w1 p w2 r c' Hw Hp E|S w1 p w2 k L r s' Hw Hp Hk E
    |S k L now r s' Hk E|S k L b now s' sent Hk Hb E Ho].
  - by apply (inject_bok S ch now r c' sent).
  - by destruct (report_bok S w1 p w2 r c' HS Hw Hp E) as (? & _ & ?).
  - split; [by apply (deliver_bok S w1 p w2 k L r s')|by apply (deliver_balanced accs _ w1 p w2 k L r s')].
  - by apply (propose_bok S k L now r s').
  - by apply (commit_bok S k L b now s' sent).
Qed.

Lemma bstart_ok S : bstarts S → bsystem_ok S ∧ travelling (net S) = 0.
Proof using Hcfg Hpos SLaws TLaws MKL.
  intros (Hw & Hlen & Hb & (conn & src & file & Hc) & Hs).
  destruct (start_ok accs cfg (net S) Hw) as [[Hl _] Ht]; [by rewrite Hcfg|intros k L Hk; by apply Hs|].
  split; [split|done].
  - split_and!; [done| |by rewrite Hw]. intros k L Hk. destruct (Hl k L Hk) as (A1 & A2 & A3 & A4 & _).
    destruct (Hs k L Hk) as [(Hp & (_ & Hq & _)%NewTxPool_splits & _) _]. unfold bleader_ok. rewrite Hq, Hp, <- Hcfg.
    split_and!; [done..|constructor|]. by intros b.
  - assert (on_way (net S) = [] ∧ untold (net S) = []) as [-> ->].
    { unfold on_way, untold. rewrite Hw. split; [|done]. cbn.
      assert (∀ L, L ∈ sys_leaders (net S) → leader_txs L = []) as HL.
      { intros L [k Hk]%list_elem_of_lookup. destruct (Hs k L Hk) as [(Hp & (_ & Hq & _)%NewTxPool_splits & _) _].
        unfold leader_txs. by rewrite Hq, Hp. }
      clear -HL. induction (sys_leaders (net S)) as [|L ls IH]; [done|]. cbn. rewrite HL by (by left).
      apply IH. intros M HM. apply HL. by right. }
    apply (booked_start scfg accs bs conn src file (com S) _ MKL Hc Hb). intros b k Hbb Hk. unfold shard_ledger.
    destruct (sys_leaders (net S) !! k) as [L|] eqn:HL; [by apply (Hs k L HL)|].
    apply lookup_ge_None in HL. lia.
Qed.

Lemma brun_balanced S0 lost emp S : brun S0 lost emp S →
  held accs (net S0) + initBalance * Z.of_nat (length emp) < 2 ^ 256 → bsystem_ok S ∧ 0 ≤ coming lost ∧
  held accs (net S) + travelling (net S) + coming lost = held accs (net S0) + initBalance * Z.of_nat (length emp).
Proof using All.
  induction 1 as [S Hs|S0 S S' lost lost' emp emp' Hr IH Hst]; intros Hlt.
  - destruct (bstart_ok S Hs) as [HS Ht]. split; [done|]. cbn. lia.
  - rewrite length_app in *. rewrite Nat2Z.inj_add in *. assert (0 < initBalance) by done.
    destruct IH as (HS & Hc & Hb); [lia|].
    destruct (bstep_ok S S' lost' emp' Hst HS) as (HS' & Hc' & Hb'); [lia|].
    rewrite coming_app. split; [done|]. lia.
Qed.

(** C5: A static broker system keeps its money and its brokers can always pay.
    The supervisor's committee and the leaders run from the start, in any order
    of injections, arrivals, proposals, commits and reports, whatever is delayed,
    lost or given up, with any random choice of brokers, on a data set that no
    broker sends from.  Then the money is conserved across the shards as in the
    relay system; in every shard each broker holds at least what the second
    halves on their way there ask of it, so that none overdraws it though the
    execution does not test its balance; and the balance the committee knows is
    there, up to what was executed and not reported yet. *)
Theorem broker_system_sound S0 lost emp S : brun S0 lost emp S →
  held accs (net S0) + initBalance * Z.of_nat (length emp) < 2 ^ 256 →
  held accs (net S) + travelling (net S) + coming lost = held accs (net S0) + initBalance * Z.of_nat (length emp) ∧
  ∀ k L b, sys_leaders (net S) !! k = Some L → b ∈ bs →
    pays scfg b k (tokens (on_way (net S))) ≤ ledger (chain (l_shard L)) b ∧
    ∃ q, amt (brokerBalances (com S)) b k = Some q ∧
      q + gains scfg b k (untold (net S)) - pays scfg b k (untold (net S)) ≤ ledger (chain (l_shard L)) b.
Proof using All.
  intros Hr Hlt. destruct (brun_balanced S0 lost emp S Hr Hlt) as ([HN HB] & _ & Hb). split; [done|].
  intros k L b Hk Hbb. destruct (leader_shard _ _ _ HN Hk) as [Hkn _].
  pose proof (headroom scfg accs bs _ _ _ _ b k HB Hbb Hkn) as Hh.
  pose proof (tokens_nonneg scfg accs bs _ _ _ _ HB) as Hnn. apply Forall_app in Hnn as [_ Hnn].
  pose proof (gains_nonneg scfg b k _ Hnn). destruct HB as [_ _ Hbk]. specialize (Hbk b k Hbb Hkn).
  unfold shard_ledger in *. rewrite Hk in *. split; [lia|done].
Qed.
End flow.

(** ** Two shards, a broker, and a transfer that takes it *)

Module BrokerFlowDemo.
Export ShardOpDemo.
Export RelayFlow.FlowDemo (lps, leader0, node, leader, noMsg).

(** Messages of one transaction, field by field; the other kinds are not decoded here. *)
Definition enc_tx (tx : Transaction) : bytes :=
  addr_bytes (Sender tx) ++ addr_bytes (Recipient tx) ++ Z_to_be 32 (Value tx) ++ Z_to_be 8 (Nonce tx) ++
  Z_to_be 8 (CreateTime tx) ++ Z_to_be 1 (tx_BrokerStage tx) ++ addr_bytes (tx_Broker tx) ++
  Z_to_be 8 (tx_OriginalTxCreateTime tx) ++ Z_to_be 8 (NonceBroker (BrokerOpt tx)) ++ tx_BOriginalHash tx.
Definition dec_tx (b : bytes) : Transaction :=
  let '(s, b) := cut 20 b in let '(r, b) := cut 20 b in let '(v, b) := cut 32 b in let '(nn, b) := cut 8 b in
  let '(ct, b) := cut 8 b in let '(st, b) := cut 1 b in let '(br, b) := cut 20 b in
  let '(oc, b) := cut 8 b in let '(nb, b) := cut 8 b in
  (NewTransaction (copy_to_array 20 s) (copy_to_array 20 r) (be_to_Z v) 0 (be_to_Z nn) (be_to_Z ct))
    <| BrokerOpt := mkBrokerTxOpt (be_to_Z st) (copy_to_array 20 br) b (be_to_Z oc) (be_to_Z nb) 0 0 |>.
Definition enc_txs (m : ReceiveTxsMsg) : bytes := match rt_Txs m with tx :: _ => enc_tx tx | [] => [] end.
Definition dec_txs (b : bytes) : ReceiveTxsMsg := mkReceiveTxsMsg [dec_tx b].
(** A report of one transaction, in the shard or of either half. *)
Definition enc_rep (m : BrokerBlockInfoMsg) : bytes :=
  Z_to_be 8 (bb_Epoch m) ++ Z_to_be 8 (bb_BlockProposeTime m) ++ Z_to_be 8 (bb_BlockCommitTime m) ++
  Z_to_be 8 (bb_ShardID m) ++ Z_to_be 1 (Z.of_nat (length (bb_Broker1Txs m) + 2 * length (bb_InnerShardTxs m))) ++
  match bb_InnerShardTxs m ++ bb_Broker1Txs m ++ bb_Broker2Txs m with tx :: _ => enc_tx tx | [] => [] end.
Definition dec_rep (b : bytes) : BrokerBlockInfoMsg :=
  let '(e, b) := cut 8 b in let '(t1, b) := cut 8 b in let '(t2, b) := cut 8 b in let '(s, b) := cut 8 b in
  let '(k, b) := cut 1 b in let tx := dec_tx b in
  let '(i, b1, b2) := if decide (be_to_Z k = 0) then ([], [], [tx]) else if decide (be_to_Z k = 1) then ([], [tx], [])
    else ([tx], [], []) in
  mkBrokerBlockInfoMsg i b1 b2 [] [] (be_to_Z e) (be_to_Z t1) (be_to_Z t2) (be_to_Z s).

#[export] Instance ReceiveTxsMsg_eq_dec : EqDecision ReceiveTxsMsg.
Proof. solve_decision. Defined.
#[export] Instance BrokerBlockInfoMsg_eq_dec : EqDecision BrokerBlockInfoMsg.
Proof. solve_decision. Defined.
(** An encoder that refuses what its decoder would not give back. *)
Definition checked {A} `{EqDecision A} (enc : A → bytes) (dec : bytes → A) (m : A) : result bytes :=
  if decide (dec (enc m) = m) then Ok (enc m) else Err "unsupported".
Lemma checked_roundtrip {A} `{EqDecision A} (enc : A → bytes) dec m p : checked enc dec m = Ok p → dec p = m.
Proof. unfold checked. case_decide as E; [|done]. by intros [= <-]. Qed.

#[export] Instance brokerflow_gob : GobMsg := {|
  gob_encode k := match k return msg_of k → result bytes with
    | KReceiveTxs => checked enc_txs dec_txs
    | KBrokerBlockInfo => checked enc_rep dec_rep
    | _ => λ _, Err "unsupported"
    end;
  gob_decode k p := match k return result (msg_of k) with
    | KReceiveTxs => Ok (dec_txs p)
    | KBrokerBlockInfo => Ok (dec_rep p)
    | _ => Err "unsupported"
    end;
|}.
Lemma brokerflow_gob_txs m p : gob_encode KReceiveTxs m = Ok p → gob_decode KReceiveTxs p = Ok m.
Proof. intros H. exact (f_equal Ok (checked_roundtrip enc_txs dec_txs m p H)). Qed.
Lemma brokerflow_gob_rep m p : gob_encode KBrokerBlockInfo m = Ok p → gob_decode KBrokerBlockInfo p = Ok m.
Proof. intros H. exact (f_equal Ok (checked_roundtrip enc_rep dec_rep m p H)). Qed.

Definition scfg : SupervisorCfg := SolvencyDemo.cfg.
Definition B : Address := addr 177.
Definition brks : list Address := [B].
Definition accounts : list Address := [addr 2; addr 3; B].
Definition spv : NodeInfo := mkNodeInfo 0 SupervisorShardID.
Abbreviation Sys := (BSystem (Src := CSVSource)).

Definition injecting (now : Time) (S : Sys) := StaticBroker_SendTxsAndConsensus topo scfg CommitteeDemo.choices now (com S).
Definition inject (now : Time) (S : Sys) : Sys :=
  mkBSystem (injecting now S).2 (mkSystem (sys_leaders (net S)) (sys_wire (net S) ++
    drop (length (outbox (cl_conn (sb_client (com S))))) (outbox (cl_conn (sb_client (injecting now S).2))))).
(** The last packet of the wire. *)
Definition arriving (S : Sys) : NodeInfo * WrappedMsg := default (node 0, noMsg) (last (sys_wire (net S))).
Definition before (S : Sys) : list (NodeInfo * WrappedMsg) := removelast (sys_wire (net S)).
Definition telling (S : Sys) := StaticBroker_HandleMsg (arriving S).2 (com S).
Definition tell (S : Sys) : Sys := mkBSystem (telling S).2 (mkSystem (sys_leaders (net S)) (before S ++ [])).
Definition receiving (k : nat) (S : Sys) := Static_HandleMsgOutsideShard (arriving S).2 (l_shard (leader k (net S))).
Definition deliver (k : nat) (S : Sys) : Sys := mkBSystem (com S)
  (mkSystem (<[k := mkLeader (receiving k S).2 (l_proposal (leader k (net S)))]> (sys_leaders (net S))) (before S ++ [])).
Definition building (k : nat) (S : Sys) := Static_BuildProposal cfg (lps k) BrokerTxBlockOp 8 (l_shard (leader k (net S))).
Definition offer (k : nat) (S : Sys) : Sys := mkBSystem (com S)
  (mkSystem (<[k := mkLeader (building k S).2 (proposed (building k S).1)]> (sys_leaders (net S))) (sys_wire (net S))).
Definition committing (k : nat) (S : Sys) := Static_ProposalCommitAndDeliver cfg topo BrokerTxBlockOp 9 true
  (l_proposal (leader k (net S))) (l_shard (leader k (net S))).
Definition sending (k : nat) (S : Sys) : list (NodeInfo * WrappedMsg) :=
  drop (length (outbox (conn (l_shard (leader k (net S)))))) (outbox (conn (committing k S).2)).
Definition commit (k : nat) (S : Sys) : Sys := mkBSystem (com S)
  (mkSystem (<[k := mkLeader (committing k S).2 None]> (sys_leaders (net S))) (sys_wire (net S) ++ sending k S)).

(** Account 2 of shard 0 pays 30 to account 3 of shard 1 through B. *)
Definition S0 : Sys := mkBSystem SolvencyDemo.c0 (mkSystem [leader0 0; leader0 1] []).
Definition S1 := inject 0 S0.
Definition S4 := commit 0 (offer 0 (deliver 0 S1)).
Definition S5 := tell S4.
Definition S6 := inject 1 S5.
Definition S9 := commit 1 (offer 1 (deliver 1 S6)).
Definition S10 := tell S9.

(** What B has in the two shards, on the chains and in the committee's books. *)
Definition chains_and_books (S : Sys) : list (Z * Z) :=
  map (λ k, (ledger (chain (l_shard (leader k (net S)))) B - initBalance,
             default 0 (amt (brokerBalances (com S)) B k) - initBalance)) [0; 1]%nat.
Example two_halves : chains_and_books <$> [S1; S4; S5; S9; S10] =
  [[(0, 0); (0, 0)]; [(30, 0); (0, 0)]; [(30, 30); (0, 0)]; [(30, 30); (-30, 0)]; [(30, 30); (-30, -30)]].
Proof. vm_compute. reflexivity. Qed.

(** A broker that sends money itself, as the committee lets it: its books still
    say all is there, and the second half overdraws it. *)
Definition spending : CSVSource := mkCSVSource 1
  [TxSourceWitness.row "0x00000000000000000000000000000000000000b1" "0x0000000000000000000000000000000000000003"
     "999999999999999999999999999999999990";
   TxSourceWitness.row "0x0000000000000000000000000000000000000002" "0x0000000000000000000000000000000000000003" "30"]
  false true.
Definition Z0 : Sys := mkBSystem (force SolvencyDemo.c0 (NewStaticBrokerCommittee scfg (mkConn [] []) (Ok spending) BrokerDemo.file))
  (mkSystem [leader0 0; leader0 1] []).
Definition Z1 := inject 0 Z0.
Definition round (k : nat) (S : Sys) : Sys := tell (commit k (offer k (deliver k S))).
Definition Z2 := inject 1 (round 1 (round 0 Z1)).
Definition Z3 := round 1 Z2.
Example overdrawn : (λ S, (ledger (chain (l_shard (leader 1 (net S)))) B, amt (brokerBalances (com S)) B 1)) <$> [Z2; Z3] =
  [(10, Some initBalance); (2 ^ 256 - 20, Some (initBalance - 30))].
Proof. vm_compute. reflexivity. Qed.

(** The runs of the example: nothing given up, nobody emptied. *)
Definition reach (S : Sys) : Prop :=
  ∃ lost emp, brun cfg scfg accounts brks topo lps S0 lost emp S ∧ coming lost = 0 ∧ emp = [].

Lemma broker_reach_step S S' lost emp : reach S → bstep cfg scfg accounts brks topo lps S S' lost emp →
  coming lost = 0 → emp = [] → reach S'.
Proof.
  intros (lost0 & emp0 & Hr & Hl & ->) Hs Hl' ->. exists (lost0 ++ lost), ([] ++ []).
  split; [by eapply brun_step|]. split; [|done]. by rewrite coming_app, Hl, Hl'.
Qed.

Lemma broker_reach_S0 : reach S0.
Proof.
  exists [], []. split; [|done]. apply brun_start. split; [reflexivity|]. split; [reflexivity|].
  split; [vm_compute; reflexivity|]. split.
  - exists (mkConn [] []), (Ok SolvencyDemo.source), BrokerDemo.file. apply force_ok. vm_compute. reflexivity.
  - intros k L [-> Hk]%FlowDemo.leaders_start. split; [by apply FlowDemo.leader_starts|].
    intros b ->%list_elem_of_singleton. destruct k as [|[|k]]; [vm_compute; discriminate..|lia].
Qed.

Lemma broker_reach_inject now S : reach S → source_ok scfg accounts brks now (com S) →
  outbox (cl_conn (sb_client (injecting now S).2)) = outbox (cl_conn (sb_client (com S))) ++
    drop (length (outbox (cl_conn (sb_client (com S))))) (outbox (cl_conn (sb_client (injecting now S).2))) →
  reach (inject now S).
Proof.
  intros HS Hs Ho. apply (broker_reach_step S _ [] []); [exact HS| |done..].
  apply (bstep_inject cfg scfg accounts brks topo lps S CommitteeDemo.choices now _ _ _ Hs (surjective_pairing _) Ho).
Qed.
Lemma broker_reach_tell S : reach S → sys_wire (net S) = before S ++ [arriving S] → (arriving S).1 = spv → reach (tell S).
Proof.
  intros HS Hw Hp. apply (broker_reach_step S _ [] []); [exact HS| |done..].
  apply (bstep_report cfg scfg accounts brks topo lps S _ _ [] _ _ Hw Hp (surjective_pairing _)).
Qed.
Definition has_leader (k : nat) (S : Sys) : Prop := sys_leaders (net S) !! k = Some (leader k (net S)).
Lemma broker_reach_deliver k S : reach S → has_leader k S → sys_wire (net S) = before S ++ [arriving S] →
  (arriving S).1 = node k → reach (deliver k S).
Proof.
  intros HS Hk Hw Hp. apply (broker_reach_step S _ [] []); [exact HS| |done..].
  apply (bstep_deliver cfg scfg accounts brks topo lps S _ _ [] k (leader k (net S)) _ _ Hw Hp Hk (surjective_pairing _)).
Qed.
Lemma broker_reach_offer k S : reach S → has_leader k S → l_proposal (leader k (net S)) = None →
  is_ok (building k S).1 = true → reach (offer k S).
Proof.
  intros HS Hk Hn Hb. eapply broker_reach_step; [exact HS| | |done].
  - apply (bstep_propose cfg scfg accounts brks topo lps S k (leader k (net S)) 8 _ _ Hk (surjective_pairing _)).
  - fold (building k S). by rewrite Hn, Hb.
Qed.
Definition block_of (k : nat) (S : Sys) : Block := force dummyBlock (deref_block (l_proposal (leader k (net S)))).
Lemma broker_reach_commit k S : reach S → has_leader k S → is_ok (deref_block (l_proposal (leader k (net S)))) = true →
  (committing k S).1 = Ok tt →
  outbox (conn (committing k S).2) = outbox (conn (l_shard (leader k (net S)))) ++ sending k S →
  emptied accounts (block_of k S) (chain (l_shard (leader k (net S)))) = [] → reach (commit k S).
Proof.
  intros HS Hk Hp Hc Ho He. eapply (broker_reach_step S _ []); [exact HS| |done|exact He].
  apply (bstep_commit cfg scfg accounts brks topo lps S k (leader k (net S)) (block_of k S) 9 (committing k S).2
    (sending k S) Hk); [by apply force_ok|rewrite <- Hc; apply surjective_pairing|done].
Qed.

(** From a packet that just left to its shard's commit. *)
Lemma has_leader_insert k L S c w : has_leader k S →
  has_leader k (mkBSystem c (mkSystem (<[k := L]> (sys_leaders (net S))) w)).
Proof.
  unfold has_leader, leader. cbn. intros Hk%lookup_lt_Some. by rewrite list_lookup_insert_eq.
Qed.
Lemma broker_reach_round k S : reach S → has_leader k S → sys_wire (net S) = before S ++ [arriving S] →
  (arriving S).1 = node k → l_proposal (leader k (net (deliver k S))) = None →
  is_ok (building k (deliver k S)).1 = true → let S' := offer k (deliver k S) in
  is_ok (deref_block (l_proposal (leader k (net S')))) = true → (committing k S').1 = Ok tt →
  outbox (conn (committing k S').2) = outbox (conn (l_shard (leader k (net S')))) ++ sending k S' →
  emptied accounts (block_of k S') (chain (l_shard (leader k (net S')))) = [] → reach (commit k S').
Proof.
  intros HS Hk Hw Hp Hn Hb S' Hd Hc Ho He. apply broker_reach_commit; [|by do 2 apply has_leader_insert|assumption..].
  apply broker_reach_offer; [by apply broker_reach_deliver|by apply has_leader_insert|assumption..].
Qed.

Lemma broker_reach_S1 : reach S1.
Proof.
  apply broker_reach_inject; [apply broker_reach_S0| |vm_compute; reflexivity].
  intros txs E. vm_compute in E. injection E as <-. repeat constructor; apply (bool_decide_unpack _); vm_compute; exact I.
Qed.
Lemma broker_reach_S4 : reach S4.
Proof. apply broker_reach_round; [apply broker_reach_S1|reflexivity|vm_compute; reflexivity..]. Qed.
Lemma broker_reach_S6 : reach S6.
Proof.
  apply broker_reach_inject; [apply broker_reach_tell; [apply broker_reach_S4|vm_compute; reflexivity..]| |vm_compute; reflexivity].
  intros txs E. vm_compute in E. injection E as <-. constructor.
Qed.
Lemma broker_reach_S10 : reach S10.
Proof.
  apply broker_reach_tell; [|vm_compute; reflexivity..].
  apply broker_reach_round; [apply broker_reach_S6|reflexivity|vm_compute; reflexivity..].
Qed.
End BrokerFlowDemo.

Module BrokerFlowWitness.
Import BrokerFlowDemo.

(** The second half of the transfer is on its way to shard 1, then executed and told. *)
Lemma broker_system_sound_witness :
  (pays scfg B 1 (tokens (on_way (net S6))) = 30 ∧ 30 ≤ ledger (chain (l_shard (leader 1 (net S6)))) B) ∧
  held accounts (net S10) + travelling (net S10) = held accounts (net S0).
Proof.
  assert (∀ S, reach S → held accounts (net S) + travelling (net S) = held accounts (net S0) ∧
    ∀ k L b, sys_leaders (net S) !! k = Some L → b ∈ brks →
      pays scfg b k (tokens (on_way (net S))) ≤ ledger (chain (l_shard L)) b) as H.
  { intros S (lost & emp & Hr & Hl & ->).
    destruct (broker_system_sound cfg scfg accounts brks topo topo_own brokerflow_gob_txs brokerflow_gob_rep eq_refl
      ltac:(apply (bool_decide_unpack _); vm_compute; exact I)
      ltac:(intros b ->%list_elem_of_singleton; apply (bool_decide_unpack _); vm_compute; exact I)
      lps ltac:(vm_compute; discriminate) eq_refl S0 lost [] S Hr) as [E Hp].
    - vm_compute. reflexivity.
    - rewrite Hl in E. cbn [length] in E. split; [lia|]. intros k L b Hk Hb. apply (Hp k L b Hk Hb). }
  assert (pays scfg B 1 (tokens (on_way (net S6))) = 30) as E by (vm_compute; reflexivity).
  split; [split; [exact E|]|apply (H S10 broker_reach_S10)].
  rewrite <- E. apply (H S6 broker_reach_S6); [reflexivity|apply list_elem_of_singleton; reflexivity].
Defined.
End BrokerFlowWitness.
