(* ===== verification/Stats.v ===== *)
(** * Measuring modules: what they share

    The [Measure] interface of supervisor/measure/measure.go, the per-epoch maps
    that relaystats and brokerstats keep, and the lemmas that make a run of
    reports a run of independent updates of them. *)

From S2P Require Import Prelude GoHash Account Bloom Block Float64.
From stdpp Require Import pretty.
From Stdlib Require Import Lia.

Local Open Scope Z_scope.

Class Measure (T : Type) := {
  UpdateMeasureRecord : WrappedMsg → M T unit;
  OutputResultAndClose : M T unit;
}.

(** ** Maps from epoch to a number or an instant; a missing key reads as 0 *)

Definition at_epoch (m : gmap Z Z) (e : Z) : Z := default 0 (m !! e).

(** [m[e] += n] *)
Definition add_at (e n : Z) (m : gmap Z Z) : gmap Z Z := <[e := wrap_i64 (at_epoch m e + n)]> m.

(** [if start, ok := m[e]; !ok || t.Before(start) { m[e] = t }], and with [After]. *)
Definition start_at (e : Z) (t : Time) (m : gmap Z Z) : gmap Z Z :=
  match m !! e with
  | Some start => if decide (t < start) then <[e := t]> m else m
  | None => <[e := t]> m
  end.
Definition end_at (e : Z) (t : Time) (m : gmap Z Z) : gmap Z Z :=
  match m !! e with
  | Some stop => if decide (stop < t) then <[e := t]> m else m
  | None => <[e := t]> m
  end.

(** [slices.Sorted(maps.Keys(m))] *)
Definition sorted_keys (m : gmap Z Z) : list Z := merge_sort Z.le (map_to_list m).*1.

(** [fmt.Sprintf("%t", b)] *)
Definition show_bool (b : bool) : string := if b then "true" else "false".

(** ** Facts *)

Lemma wrap_i64_add_l a b : wrap_i64 (wrap_i64 a + b) = wrap_i64 (a + b).
Proof.
  unfold wrap_s. cbn [Z.sub].
  replace ((a + 2 ^ (64 - 1)) mod 2 ^ 64 - 2 ^ (64 - 1) + b + 2 ^ (64 - 1))
    with ((a + 2 ^ (64 - 1)) mod 2 ^ 64 + b) by lia.
  rewrite Zplus_mod_idemp_l. do 2 f_equal. lia.
Qed.

Lemma add_at_comm e n e' n' m : add_at e n (add_at e' n' m) = add_at e' n' (add_at e n m).
Proof.
  unfold add_at, at_epoch. destruct (decide (e = e')) as [->|He].
  - rewrite !lookup_insert_eq, !insert_insert_eq. cbn. rewrite !wrap_i64_add_l. do 2 f_equal. lia.
  - rewrite !lookup_insert_ne by done. by apply insert_insert_ne.
Qed.

Lemma start_at_comm e t e' t' m : start_at e t (start_at e' t' m) = start_at e' t' (start_at e t m).
Proof.
  unfold start_at. destruct (decide (e = e')) as [->|He].
  - destruct (m !! e') as [s|] eqn:E; repeat (case_decide || rewrite ?lookup_insert_eq, ?insert_insert_eq, ?E);
      try done; try lia; f_equal; lia.
  - destruct (m !! e) as [s|] eqn:E, (m !! e') as [s'|] eqn:E';
      repeat (case_decide || rewrite ?E, ?E', ?lookup_insert_ne by done); rewrite ?E, ?E'; try done; try lia;
      repeat (case_decide; try lia); try done; by apply insert_insert_ne.
Qed.

Lemma end_at_comm e t e' t' m : end_at e t (end_at e' t' m) = end_at e' t' (end_at e t m).
Proof.
  unfold end_at. destruct (decide (e = e')) as [->|He].
  - destruct (m !! e') as [s|] eqn:E; repeat (case_decide || rewrite ?lookup_insert_eq, ?insert_insert_eq, ?E);
      try done; try lia; f_equal; lia.
  - destruct (m !! e) as [s|] eqn:E, (m !! e') as [s'|] eqn:E';
      repeat (case_decide || rewrite ?E, ?E', ?lookup_insert_ne by done); rewrite ?E, ?E'; try done; try lia;
      repeat (case_decide; try lia); try done; by apply insert_insert_ne.
Qed.

(** Updates that commute may come in any order. *)
Lemma foldl_permutation {A T} (g : T → A → T) :
  (∀ t x y, g (g t x) y = g (g t y) x) →
  ∀ l l', l ≡ₚ l' → ∀ t, foldl g t l = foldl g t l'.
Proof.
  intros Hc l l' Hp. induction Hp as [|x l l' _ IH|x y l|l1 l2 l3 _ IH1 _ IH2]; intros t; cbn;
    [done | apply IH | by rewrite Hc | by rewrite IH1, IH2].
Qed.

(** A loop whose body acts on a view of the state as a list of updates. *)
Lemma st_for_view {S V A U} (π : S → V) (g : V → U → V) (ups : A → list U) (body : A → M S unit) :
  (∀ x s s', body x s = (Ok tt, s') → π s' = foldl g (π s) (ups x)) →
  ∀ l s s', st_for body l s = (Ok tt, s') → π s' = foldl g (π s) (l ≫= ups).
Proof.
  intros Hb. induction l as [|x l IH]; intros s s'; cbn; [by intros [= <-]|].
  intros ([] & s1 & E & H)%st_bind_ok. rewrite (IH _ _ H), (Hb _ _ _ E). symmetry. apply foldl_app.
Qed.

(** What is only logged leaves the view alone when the call does. *)
Lemma log_error_view {S V} (π : S → V) (m : M S unit) s s' :
  (∀ s r s', m s = (r, s') → π s' = π s) → log_error m s = (Ok tt, s') → π s' = π s.
Proof. intros Hm (<- & _ & _)%log_error_ok. destruct (m s) as [r s1] eqn:E. by apply (Hm s r). Qed.

(** Calls that log their errors and return none. *)
Definition quiet {S} (m : M S unit) : Prop := ∀ s e, (m s).1 ≠ Err e.

Section quiet.
  Context {S : Type}.
Lemma quiet_log (m : M S unit) : quiet (log_error m).
Proof. intros s e. unfold log_error. by destruct (m s) as [[]  s1]. Qed.
Lemma quiet_ret : quiet (S := S) (st_ret tt).
Proof. by intros s e. Qed.
Lemma quiet_panic : quiet (S := S) (st_lift Panic).
Proof. by intros s e. Qed.
Lemma quiet_modify (h : S → S) : quiet (st_modify h).
Proof. by intros s e. Qed.
Lemma quiet_then (m k : M S unit) : quiet m → quiet k → quiet (m ;;! k).
Proof. intros Hm Hk s e. unfold st_bind. specialize (Hm s). destruct (m s) as [[[]|e1|] s1]; [apply Hk | by destruct (Hm e1) | done]. Qed.
Lemma quiet_get (k : S → M S unit) : (∀ s, quiet (k s)) → quiet (let! s := st_get in k s).
Proof. intros Hk s e. apply Hk. Qed.
Lemma quiet_for {A} (body : A → M S unit) l : (∀ x, quiet (body x)) → quiet (st_for body l).
Proof. intros Hb. induction l as [|x l IH]; [apply quiet_ret|]. by apply quiet_then. Qed.
End quiet.

Create HintDb quiet.
#[export] Hint Resolve quiet_log quiet_ret quiet_panic quiet_modify quiet_then : quiet.
