(* ===== verification/RelayStats.v ===== *)
(** * relaystats

    Models supervisor/measure/relaystats/relaystats.go: the record of block
    reports in the relay modes.  A relay transaction is reported twice, by the
    shard that debits and the shard that credits, in either order. *)

From S2P Require Import Prelude GoHash Account Bloom Block Utils CsvWrite Float64 Stats.
From stdpp Require Import pretty.
From Stdlib Require Import Floats.SpecFloat Lia.

Local Open Scope Z_scope.

Record txLifeCycle := mkTxLifeCycle {
  originalTxCreateTime : Time; originalTxCommitTime : Time;
  innerShardTxBlockProposeTime : Time;
  relay1BlockProposeTime : Time; relay2BlockProposeTime : Time;
  relay1CommitTime : Time; relay2CommitTime : Time;
  isCrossShardTx : bool;
}.
#[export] Instance txLifeCycle_eta : Eta txLifeCycle := λ t,
  mkTxLifeCycle (originalTxCreateTime t) (originalTxCommitTime t) (innerShardTxBlockProposeTime t)
    (relay1BlockProposeTime t) (relay2BlockProposeTime t) (relay1CommitTime t) (relay2CommitTime t)
    (isCrossShardTx t).
Definition zeroTxLifeCycle : txLifeCycle := mkTxLifeCycle 0 0 0 0 0 0 0 false.

Definition relay_detailTxInfoPath : string := "relay_stats_detail_tx_info.csv".
Definition relay_briefTxInfoPath : string := "relay_stats_brief_info.csv".
Definition relay_detailTxInfoMeasures : list string := [
  "OriginalHash"; "Tx create time"; "Tx finally commit time"; "Is cross-shard tx or not";
  "Inner shard tx block propose time"; "Relay1 block propose time"; "Relay1 tx commit time";
  "Relay2 block propose time"; "Relay2 tx commit time"].
Definition relay_measureName : list string := [
  "EpochID"; "Total tx # in this epoch"; "Inner-shard tx # in this epoch"; "Relay1 tx # in this epoch";
  "Relay2 tx # in this epoch"; "Epoch start time"; "Epoch end time"; "Avg. TPS of this epoch (txs per second)";
  "CTX ratio of this epoch"; "Avg. TCL of this epoch (nanosecond)"; "Avg. inner-shard TCL of this epoch (nanosecond)";
  "Avg. relay1 TCL of this epoch (nanosecond)"; "Avg. relay2 TCL of this epoch (nanosecond)"].

Section relaystats.
  Context {BL : BitSetLib} {RT : RlpTx} {GM : GobMsg} {TF : TimeFormat} {CL : CsvLib}.

Record RelayStats := mkRelayStats {
  relay1TCLSum : gmap Z Z; relay2TCLSum : gmap Z Z;
  innerShardTCLSum : gmap Z Z;
  innerShardTxNum : gmap Z Z;
  relay1TxNum : gmap Z Z; relay2TxNum : gmap Z Z;
  epochStartTime : gmap Z Time; epochEndTime : gmap Z Time;
  txLifecycles : gmap bytes txLifeCycle;
  outputDir : string;
  cs : Csw;
  files : Fs;
}.
#[export] Instance RelayStats_eta : Eta RelayStats := λ b,
  mkRelayStats (relay1TCLSum b) (relay2TCLSum b) (innerShardTCLSum b) (innerShardTxNum b)
    (relay1TxNum b) (relay2TxNum b) (epochStartTime b) (epochEndTime b) (txLifecycles b)
    (outputDir b) (cs b) (files b).

Definition NewRelayStats (dir : string) (fs : Fs) : result RelayStats :=
  let fp := filepath_Join dir relay_detailTxInfoPath in
  let '(x, fs') := NewCSVSeqWriter fp relay_detailTxInfoMeasures fs in
  let* w := wrap_err "error creating CSV sequence writer" x in
  Ok (mkRelayStats ∅ ∅ ∅ ∅ ∅ ∅ ∅ ∅ ∅ dir w fs').

Definition rs_on_cs {A} (m : M Csw A) : M RelayStats A := st_zoom cs (λ w b, b <| cs := w |>) m.
Definition rs_on_files {A} (m : M Fs A) : M RelayStats A := st_zoom files (λ w b, b <| files := w |>) m.

Definition Relay_tx_line (txHash : bytes) (tl : txLifeCycle) : list string := [
  hex_EncodeToString txHash;
  ConvertTime2Str (originalTxCreateTime tl);
  ConvertTime2Str (originalTxCommitTime tl);
  show_bool (isCrossShardTx tl);
  ConvertTime2Str (innerShardTxBlockProposeTime tl);
  ConvertTime2Str (relay1BlockProposeTime tl);
  ConvertTime2Str (relay1CommitTime tl);
  ConvertTime2Str (relay2BlockProposeTime tl);
  ConvertTime2Str (relay2CommitTime tl)].

Definition Relay_writeTxInfo (txHash : bytes) (tl : txLifeCycle) : M RelayStats unit :=
  st_wrap "WriteLine2CSV failed" (rs_on_cs (WriteLine2CSV (Relay_tx_line txHash tl))).

Definition updateRelayTxTCLByTxLifecycle (tl : txLifeCycle) (epochID : Z) (b : RelayStats) : RelayStats :=
  b <| relay1TCLSum ::= add_at epochID (time_Sub (relay1CommitTime tl) (originalTxCreateTime tl)) |>
    <| relay2TCLSum ::= add_at epochID (time_Sub (relay2CommitTime tl) (relay1CommitTime tl)) |>.

(** ** The loops of [UpdateMeasureRecord] over the transactions of a report [bi] *)

Section report.
  Context (bi : RelayBlockInfoMsg).
  Abbreviation epochID := (rb_Epoch bi).

Definition Relay_count (b : RelayStats) : RelayStats :=
  b <| epochStartTime ::= start_at epochID (rb_BlockProposeTime bi) |>
    <| epochEndTime ::= end_at epochID (rb_BlockCommitTime bi) |>
    <| relay1TxNum ::= add_at epochID (Z.of_nat (length (rb_Relay1Txs bi))) |>
    <| relay2TxNum ::= add_at epochID (Z.of_nat (length (rb_Relay2Txs bi))) |>
    <| innerShardTxNum ::= add_at epochID (Z.of_nat (length (rb_InnerShardTxs bi))) |>.

Definition Relay_inner (tx : Transaction) : M RelayStats unit :=
  match tx_Hash tx with
  | Err _ => st_ret tt
  | Panic => st_lift Panic
  | Ok th =>
    let tl := zeroTxLifeCycle <| originalTxCreateTime := CreateTime tx |>
      <| innerShardTxBlockProposeTime := rb_BlockProposeTime bi |>
      <| originalTxCommitTime := rb_BlockCommitTime bi |> <| isCrossShardTx := false |> in
    st_modify (λ b, b <| txLifecycles ::= <[th := tl]> |>
      <| innerShardTCLSum ::= add_at epochID (time_Sub (rb_BlockCommitTime bi) (CreateTime tx)) |>) ;;!
    log_error (Relay_writeTxInfo th tl) ;;!
    st_modify (λ b, b <| txLifecycles ::= delete th |>)
  end.

Definition newLifecycle (tx : Transaction) : txLifeCycle :=
  zeroTxLifeCycle <| originalTxCreateTime := CreateTime tx |> <| isCrossShardTx := true |>.

(** Both halves have been reported: add the latencies and write the line. *)
Definition Relay_record (h : bytes) (tl : txLifeCycle) : M RelayStats unit :=
  st_modify (updateRelayTxTCLByTxLifecycle tl epochID) ;;!
  log_error (Relay_writeTxInfo h tl).

(** What the two loops share: [set] fills in the half reported now. *)
Definition Relay_half (set : txLifeCycle → txLifeCycle) (tx : Transaction) : M RelayStats unit :=
  let h := tx_ROriginalHash tx in
  let! b := st_get in
  let otherExist := txLifecycles b !! h in
  let tl := set (default (newLifecycle tx) otherExist) in
  st_modify (λ b, b <| txLifecycles ::= <[h := tl]> |>) ;;!
  if otherExist is Some _ then
    Relay_record h tl ;;! st_modify (λ b, b <| txLifecycles ::= delete h |>)
  else st_ret tt.

Definition set_relay1 (tl : txLifeCycle) : txLifeCycle :=
  tl <| relay1BlockProposeTime := rb_BlockProposeTime bi |> <| relay1CommitTime := rb_BlockCommitTime bi |>.
Definition set_relay2 (tl : txLifeCycle) : txLifeCycle :=
  tl <| relay2BlockProposeTime := rb_BlockProposeTime bi |> <| relay2CommitTime := rb_BlockCommitTime bi |>
     <| originalTxCommitTime := rb_BlockCommitTime bi |>.

Definition Relay_report : M RelayStats unit :=
  st_modify Relay_count ;;!
  st_for Relay_inner (rb_InnerShardTxs bi) ;;!
  st_for (Relay_half set_relay1) (rb_Relay1Txs bi) ;;!
  st_for (Relay_half set_relay2) (rb_Relay2Txs bi).
End report.

Definition Relay_UpdateMeasureRecord (msg : WrappedMsg) : M RelayStats unit :=
  if decide (MsgType msg ≠ RelayBlockInfoMessageType) then st_ret tt
  else
    let! bInfo := st_wrap "decode relayBlockInfoMsg" (st_lift (gob_decode KRelayBlockInfo (Payload msg))) in
    Relay_report bInfo.

(** ** The summary *)

Definition Relay_epoch_line (b : RelayStats) (e : Z) : list string :=
  let epochDuration := Seconds (time_Sub (at_epoch (epochEndTime b) e) (at_epoch (epochStartTime b) e)) in
  let ctxCnt := fdiv (float_of_Z (wrap_i64 (at_epoch (relay1TxNum b) e + at_epoch (relay2TxNum b) e))) f2 in
  let innerNum := float_of_Z (at_epoch (innerShardTxNum b) e) in
  let totalTxCnt := fadd innerNum ctxCnt in
  let relay1TCL := float_of_Z (at_epoch (relay1TCLSum b) e) in
  let relay2TCL := float_of_Z (at_epoch (relay2TCLSum b) e) in
  let innerShardTCL := float_of_Z (at_epoch (innerShardTCLSum b) e) in
  let totalTCL := fadd (fadd relay1TCL relay2TCL) innerShardTCL in
  [pretty e;
   sprintf_2f totalTxCnt;
   pretty (at_epoch (innerShardTxNum b) e);
   pretty (at_epoch (relay1TxNum b) e);
   pretty (at_epoch (relay2TxNum b) e);
   time_RFC3339 (at_epoch (epochStartTime b) e);
   time_RFC3339 (at_epoch (epochEndTime b) e);
   sprintf_2f (fdiv totalTxCnt epochDuration);
   sprintf_2f (fdiv ctxCnt totalTxCnt);
   sprintf_2f (fdiv totalTCL totalTxCnt);
   sprintf_2f (fdiv innerShardTCL innerNum);
   sprintf_2f (fdiv relay1TCL (float_of_Z (at_epoch (relay1TxNum b) e)));
   sprintf_2f (fdiv relay2TCL (float_of_Z (at_epoch (relay2TxNum b) e)))].

Definition Relay_measureVals (b : RelayStats) : list (list string) :=
  map (Relay_epoch_line b) (sorted_keys (epochStartTime b)).

Definition Relay_outputBriefEpochInfo (fp : string) : M RelayStats unit := λ b,
  rs_on_files (WriteAllToCSV fp relay_measureName (Relay_measureVals b)) b.

Definition Relay_OutputResultAndClose : M RelayStats unit := λ b,
  (st_wrap "failed to output BriefEpochInfo"
     (Relay_outputBriefEpochInfo (filepath_Join (outputDir b) relay_briefTxInfoPath)) ;;!
   let! b := st_get in rs_on_files (csw_Close (cs b))) b.

#[export] Instance relay_measure : Measure RelayStats := {|
  UpdateMeasureRecord := Relay_UpdateMeasureRecord;
  OutputResultAndClose := Relay_OutputResultAndClose;
|}.
End relaystats.

(** ** Two reports of the same relay transactions *)

(** Runs that return the same and, without a panic, end in the same state. *)
Definition same_run {S} (p q : result unit * S) : Prop := p.1 = q.1 ∧ (p.1 = Ok tt → p.2 = q.2).

Lemma st_for_Forall2 {S A B} (body : A → M S unit) (body' : B → M S unit) l l' :
  Forall2 (λ x y, body x = body' y) l l' → st_for body l = st_for body' l'.
Proof. induction 1 as [|x y l l' Hx _ IH]; [done|]. cbn. by rewrite Hx, IH. Qed.

Section relaystats_facts.
  Context {BL : BitSetLib} {RT : RlpTx} {GM : GobMsg} {TF : TimeFormat} {CL : CsvLib}.
  Abbreviation hash := tx_ROriginalHash.

Definition with_lc (X : gmap bytes txLifeCycle) (b : RelayStats) : RelayStats := b <| txLifecycles := X |>.

(** The lifecycles after one half of each of [l] was reported. *)
Definition pend (set : txLifeCycle → txLifeCycle) (l : list Transaction) (m : gmap bytes txLifeCycle)
    : gmap bytes txLifeCycle :=
  foldl (λ m t, <[hash t := set (newLifecycle t)]> m) m l.

Definition fresh (l : list Transaction) (m : gmap bytes txLifeCycle) : Prop :=
  NoDup (map hash l) ∧ ∀ t, t ∈ l → m !! hash t = None.

(** The two reports are of the same transactions, in the same order. *)
Definition halves (l1 l2 : list Transaction) : Prop :=
  Forall2 (λ t1 t2, hash t1 = hash t2 ∧ CreateTime t1 = CreateTime t2) l1 l2.

Lemma fresh_cons t l m : fresh (t :: l) m →
  (m !! hash t = None) ∧ (hash t ∉ map hash l) ∧ fresh l m ∧ ∀ x, fresh l (<[hash t := x]> m).
Proof.
  intros [[Hn Hnd]%NoDup_cons Hf]. split_and!; [apply Hf; by left | done | |].
  - split; [done|]. intros u Hu. apply Hf. by right.
  - intros x. split; [done|]. intros u Hu. rewrite lookup_insert_ne; [apply Hf; by right|].
    intros E. apply Hn. rewrite E. apply list_elem_of_fmap. by exists u.
Qed.

Lemma pend_cons set t l m : pend set (t :: l) m = pend set l (<[hash t := set (newLifecycle t)]> m).
Proof. reflexivity. Qed.

Lemma pend_insert set l h x m : h ∉ map hash l → pend set l (<[h := x]> m) = <[h := x]> (pend set l m).
Proof.
  revert m; induction l as [|t l IH]; intros m; [done|]. cbn [map]. rewrite not_elem_of_cons. intros [Hh Hl].
  rewrite !pend_cons, insert_insert_ne by done. by apply IH.
Qed.

Lemma pend_fresh set l h m : h ∉ map hash l → m !! h = None → pend set l m !! h = None.
Proof.
  revert m; induction l as [|t l IH]; intros m; [done|]. cbn [map]. rewrite not_elem_of_cons. intros [Hh Hl] Hm.
  rewrite pend_cons. apply IH; [done|]. by rewrite lookup_insert_ne.
Qed.

Lemma record_frame bi h tl X b :
  Relay_record bi h tl (with_lc X b) =
  (let '(x, b') := Relay_record bi h tl b in (x, with_lc X b')).
Proof.
  unfold Relay_record, log_error, Relay_writeTxInfo, st_wrap, rs_on_cs, st_zoom. cbn.
  by destruct (WriteLine2CSV _ _) as [[[]|e|] w].
Qed.

Lemma record_keeps bi h tl b : txLifecycles (Relay_record bi h tl b).2 = txLifecycles b.
Proof.
  unfold Relay_record, log_error, Relay_writeTxInfo, st_wrap, rs_on_cs, st_zoom. cbn.
  by destruct (WriteLine2CSV _ _) as [[[]|e|] w].
Qed.

Lemma with_get X b : txLifecycles (with_lc X b) = X.
Proof. reflexivity. Qed.
Lemma with_twice X Y b : with_lc Y (with_lc X b) = with_lc Y b.
Proof. reflexivity. Qed.
Lemma with_same b : with_lc (txLifecycles b) b = b.
Proof. by destruct b. Qed.

Lemma half_first bi set t b : txLifecycles b !! hash t = None →
  Relay_half bi set t b = (Ok tt, with_lc (<[hash t := set (newLifecycle t)]> (txLifecycles b)) b).
Proof. intros H. unfold Relay_half. unfold st_bind at 1, st_get. rewrite H. reflexivity. Qed.

(** The first halves: nothing but the lifecycles changes. *)
Lemma first_halves bi set l b : fresh l (txLifecycles b) →
  st_for (Relay_half bi set) l b = (Ok tt, with_lc (pend set l (txLifecycles b)) b).
Proof.
  revert b; induction l as [|t l IH]; intros b; cbn [st_for].
  { intros _. cbn [pend foldl]. by rewrite with_same. }
  intros (Hm & _ & _ & Hf)%fresh_cons. unfold st_bind. rewrite half_first by done.
  by rewrite IH, with_get, with_twice by apply Hf.
Qed.

Lemma half_found bi set t x b : txLifecycles b !! hash t = Some x →
  Relay_half bi set t b =
  (Relay_record bi (hash t) (set x) ;;! st_modify (λ b, b <| txLifecycles ::= delete (hash t) |>))
    (with_lc (<[hash t := set x]> (txLifecycles b)) b).
Proof. intros H. unfold Relay_half. unfold st_bind at 1, st_get. rewrite H. reflexivity. Qed.

Lemma half_completes bi set t x P b : P !! hash t = None →
  Relay_half bi set t (with_lc (<[hash t := x]> P) b) =
  match Relay_record bi (hash t) (set x) b with
  | (Ok _, b') => (Ok tt, with_lc P b')
  | (y, b') => (y, with_lc (<[hash t := set x]> P) b')
  end.
Proof.
  intros HP. rewrite (half_found bi set t x) by apply lookup_insert_eq.
  rewrite with_twice, with_get, insert_insert_eq.
  unfold st_bind. rewrite record_frame.
  destruct (Relay_record _ _ _ b) as [[[]|e|] b']; [|done..].
  unfold st_modify. change (?f (with_lc (<[hash t := set x]> P) b')) with
    (with_lc (delete (hash t) (<[hash t := set x]> P)) b'). by rewrite delete_insert_id.
Qed.

Lemma records_keep bi (h : Transaction → bytes) (tl : Transaction → txLifeCycle) l b :
  txLifecycles (st_for (λ t, Relay_record bi (h t) (tl t)) l b).2 = txLifecycles b.
Proof.
  revert b; induction l as [|t l IH]; intros b; [done|]. cbn [st_for]. unfold st_bind.
  pose proof (record_keeps bi (h t) (tl t) b) as Hk.
  destruct (Relay_record _ _ _ b) as [[[]|e|] b']; [by rewrite IH|done..].
Qed.

(** The second halves: each finds the first and is recorded. *)
Lemma second_halves bi set1 set2 l1 l2 b : halves l1 l2 → fresh l1 (txLifecycles b) →
  same_run
    (st_for (Relay_half bi set2) l2 (with_lc (pend set1 l1 (txLifecycles b)) b))
    (st_for (λ t, Relay_record bi (hash t) (set2 (set1 (newLifecycle t)))) l1 b).
Proof.
  intros Hh. revert b; induction Hh as [|t1 t2 l1 l2 [Eh _] _ IH]; intros b; cbn [st_for].
  { intros _. cbn [pend foldl]. by rewrite with_same. }
  intros (Hm & Hn & Hf & _)%fresh_cons. rewrite pend_cons, pend_insert by done.
  set (x := set1 (newLifecycle t1)). set (P := pend set1 l1 (txLifecycles b)).
  assert (P !! hash t1 = None) as HP by by apply pend_fresh.
  pose proof (half_completes bi set2 t2 x P b) as Hs. rewrite <- Eh in Hs. specialize (Hs HP).
  pose proof (record_keeps bi (hash t1) (set2 x) b) as Hk.
  unfold st_bind. rewrite Hs.
  destruct (Relay_record bi (hash t1) (set2 x) b) as [[[]|e|] b'] eqn:E; [|by split..].
  cbn in Hk. unfold P. rewrite <- Hk. apply IH. by rewrite Hk.
Qed.

Lemma halves_sym l1 l2 : halves l1 l2 → halves l2 l1.
Proof. intros H. apply Forall2_flip. eapply Forall2_impl; [exact H|]. by intros ? ? [? ?]. Qed.

Lemma fresh_halves l1 l2 m : halves l1 l2 → fresh l1 m → fresh l2 m.
Proof.
  intros Hh [Hnd Hf]. assert (map hash l2 = map hash l1) as E.
  { clear -Hh. induction Hh as [|t1 t2 l1 l2 [E _] _ IH]; [done|]. cbn [map]. by rewrite IH, E. }
  split; [by rewrite E|]. intros t Ht. assert (hash t ∈ map hash l1) as Hin.
  { rewrite <- E. apply list_elem_of_fmap. by exists t. }
  apply list_elem_of_fmap in Hin as (u & -> & Hu). by apply Hf.
Qed.

Lemma count_comm bi bi' b : Relay_count bi (Relay_count bi' b) = Relay_count bi' (Relay_count bi b).
Proof.
  unfold Relay_count. cbn. f_equal; apply add_at_comm || apply start_at_comm || apply end_at_comm.
Qed.

(** A report of one loop's transactions only. *)
Lemma report_relay1 bi b : rb_InnerShardTxs bi = [] → rb_Relay2Txs bi = [] →
  same_run (Relay_report bi b) (st_for (Relay_half bi (set_relay1 bi)) (rb_Relay1Txs bi) (Relay_count bi b)).
Proof.
  intros Hi H2. unfold Relay_report. rewrite Hi, H2. cbn. unfold st_bind.
  by destruct (st_for _ _ _) as [[[]|e|] b'].
Qed.
Lemma report_relay2 bi b : rb_InnerShardTxs bi = [] → rb_Relay1Txs bi = [] →
  Relay_report bi b = st_for (Relay_half bi (set_relay2 bi)) (rb_Relay2Txs bi) (Relay_count bi b).
Proof. intros Hi H1. unfold Relay_report. rewrite Hi, H1. reflexivity. Qed.

(** One report and then the other: the transactions are recorded, on the counts
    of both. *)
Lemma report_then bi1 bi2 set1 set2 l1 l2 b :
  (∀ b, same_run (Relay_report bi1 b) (st_for (Relay_half bi1 set1) l1 (Relay_count bi1 b))) →
  (∀ b, same_run (Relay_report bi2 b) (st_for (Relay_half bi2 set2) l2 (Relay_count bi2 b))) →
  halves l1 l2 → fresh l1 (txLifecycles b) →
  same_run ((Relay_report bi1 ;;! Relay_report bi2) b)
    (st_for (λ t, Relay_record bi2 (hash t) (set2 (set1 (newLifecycle t)))) l1 (Relay_count bi2 (Relay_count bi1 b))).
Proof.
  intros R1 R2 Hh Hf. destruct (R1 b) as [E1 E2].
  rewrite first_halves in E1, E2 by exact Hf. cbn [fst snd] in E1, E2.
  change (txLifecycles (Relay_count bi1 b)) with (txLifecycles b) in E2.
  unfold st_bind. rewrite (run_fst _ _ _ E1), (E2 E1).
  destruct (R2 (with_lc (pend set1 l1 (txLifecycles b)) (Relay_count bi1 b))) as [E3 E4].
  destruct (second_halves bi2 set1 set2 l1 l2 (Relay_count bi2 (Relay_count bi1 b)) Hh Hf) as [E5 E6].
  split; [by rewrite E3|]. intros H. rewrite E4 by done. apply E6. by rewrite <- H, E3.
Qed.

(** C34: The two halves of relay transactions may be reported in either order.
    Let one shard report the debits of some transactions and another the
    credits of the same ones, in the same epoch, with none of them seen before.
    Whichever report comes first, the measure ends in the same state: the same
    counts and latency sums, the same lines written, and nothing left waiting
    for its other half. *)
Theorem relay_pair_order_free debits credits b b' :
  rb_InnerShardTxs debits = [] → rb_Relay2Txs debits = [] →
  rb_InnerShardTxs credits = [] → rb_Relay1Txs credits = [] →
  rb_Epoch debits = rb_Epoch credits →
  halves (rb_Relay1Txs debits) (rb_Relay2Txs credits) →
  fresh (rb_Relay1Txs debits) (txLifecycles b) →
  (Relay_report debits ;;! Relay_report credits) b = (Ok tt, b') →
  (Relay_report credits ;;! Relay_report debits) b = (Ok tt, b') ∧ txLifecycles b' = txLifecycles b.
Proof.
  intros Hi1 H2 Hi2 H1 He Hh Hf E.
  assert (∀ b, same_run (Relay_report credits b)
    (st_for (Relay_half credits (set_relay2 credits)) (rb_Relay2Txs credits) (Relay_count credits b))) as R2.
  { intros b0. by rewrite report_relay2. }
  destruct (report_then debits credits _ _ _ _ b (λ b, report_relay1 debits b Hi1 H2) R2 Hh Hf) as [A1 A2].
  destruct (report_then credits debits _ _ _ _ b R2 (λ b, report_relay1 debits b Hi1 H2)
    (halves_sym _ _ Hh) (fresh_halves _ _ _ Hh Hf)) as [B1 B2].
  rewrite E in A1, A2. cbn [fst snd] in A1, A2. specialize (A2 eq_refl).
  rewrite (count_comm debits credits) in B1, B2.
  rewrite (st_for_Forall2 _ (λ t, Relay_record credits (hash t) (set_relay2 credits (set_relay1 debits (newLifecycle t))))
    (rb_Relay2Txs credits) (rb_Relay1Txs debits)) in B1, B2.
  2, 3: eapply Forall2_impl; [apply halves_sym; exact Hh|]; intros t1 t2 [Eh Ec];
    unfold newLifecycle, Relay_record; rewrite Eh, Ec, He; reflexivity.
  rewrite <- A1 in B1. split.
  - rewrite (run_fst _ _ _ B1). f_equal. by rewrite B2.
  - rewrite A2, records_keep. reflexivity.
Qed.
End relaystats_facts.

(** ** Two reports of one relay transaction *)

Module RelayStatsDemo.
Export ListBitSet CsvDemo.
#[export] Instance rlp_t : RlpTx := λ t, Ok (addr_bytes (Sender t)).
#[export] Instance time_f : TimeFormat := pretty.

Definition half (stage : Z) : Transaction :=
  (NewTransaction EmptyAccountAddr EmptyAccountAddr 5 0 0 10) <| RelayOpt := mkRelayTxOpt stage (str "h") |>.
Definition debits : RelayBlockInfoMsg := mkRelayBlockInfoMsg [] [half 1] [] 3 30 40 0.
Definition credits : RelayBlockInfoMsg := mkRelayBlockInfoMsg [] [] [half 2] 3 55 70 1.
Definition dummy : RelayStats := mkRelayStats ∅ ∅ ∅ ∅ ∅ ∅ ∅ ∅ ∅ "" ("", []) ∅.
Definition stats0 : RelayStats := force dummy (NewRelayStats "out" ∅).
Definition in_order := (Relay_report debits ;;! Relay_report credits) stats0.

Example latencies : (at_epoch (relay1TCLSum in_order.2) 3, at_epoch (relay2TCLSum in_order.2) 3) = (30, 30).
Proof. vm_compute. reflexivity. Qed.
Example relay_line_once : drop 1 (cs in_order.2).2 = [["68"; "10"; "70"; "true"; ""; "30"; "40"; "55"; "70"]].
Proof. vm_compute. reflexivity. Qed.
(** No transaction stayed in its shard: the average over none is no number. *)
Example no_average : map (λ l, (nth 2 l "", nth 10 l "")) (Relay_measureVals in_order.2) = [("0", "NaN")].
Proof. vm_compute. reflexivity. Qed.
End RelayStatsDemo.

Module RelayStatsWitness.
Import RelayStatsDemo.

Lemma relay_pair_order_free_witness :
  (Relay_report credits ;;! Relay_report debits) stats0 = (Ok tt, in_order.2) ∧
  txLifecycles in_order.2 = txLifecycles stats0.
Proof.
  apply (relay_pair_order_free debits credits stats0 in_order.2); [reflexivity..| | |].
  - constructor; [by split | constructor].
  - split; [apply (bool_decide_unpack _); vm_compute; exact I|]. intros t _. reflexivity.
  - apply run_fst. vm_compute. reflexivity.
Defined.
End RelayStatsWitness.
