(* ===== verification/BrokerStats.v ===== *)
(** * brokerstats

    Models supervisor/measure/brokerstats/brokerstats.go: the record of block
    reports in the broker modes, the line of each finished transaction and the
    summary of each epoch.  The files of the process are a field of the state. *)

From S2P Require Import Prelude GoHash Account Bloom Block Utils CsvWrite Float64 Stats.
From stdpp Require Import pretty.
From Stdlib Require Import Floats.SpecFloat Lia.

Local Open Scope Z_scope.

Module Lifecycle.
Record txLifeCycle := mkTxLifeCycle {
  originalTxCreateTime : Time; originalTxCommitTime : Time;
  innerShardTxBlockProposeTime : Time;
  broker1TxCreateTime : Time; broker2TxCreateTime : Time;
  broker1BlockProposeTime : Time; broker2BlockProposeTime : Time;
  broker1CommitTime : Time; broker2CommitTime : Time;
  isBrokerTx : bool;
  mechanism : string;
}.
#[export] Instance txLifeCycle_eta : Eta txLifeCycle := λ t,
  mkTxLifeCycle (originalTxCreateTime t) (originalTxCommitTime t) (innerShardTxBlockProposeTime t)
    (broker1TxCreateTime t) (broker2TxCreateTime t) (broker1BlockProposeTime t) (broker2BlockProposeTime t)
    (broker1CommitTime t) (broker2CommitTime t) (isBrokerTx t) (mechanism t).
Definition zeroTxLifeCycle : txLifeCycle := mkTxLifeCycle 0 0 0 0 0 0 0 0 0 false "".
End Lifecycle.
Import Lifecycle.

Definition broker_detailTxInfoPath : string := "broker_stats_detail_tx_info.csv".
Definition broker_briefTxInfoPath : string := "broker_stats_brief_info.csv".
Definition broker_detailTxInfoMeasures : list string := [
  "OriginalHash"; "Mechanism"; "Tx create time"; "Tx finally commit time"; "Is broker tx or not";
  "Inner shard tx block propose time"; "Broker1 tx create time"; "Broker1 block propose time";
  "Broker1 tx commit time"; "Broker2 tx create time"; "Broker2 block propose time"; "Broker2 tx commit time"].
Definition broker_measureName : list string := [
  "EpochID"; "Total tx # in this epoch"; "Inner-shard tx # in this epoch"; "Broker1 tx # in this epoch";
  "Broker2 tx # in this epoch"; "Fallback-to-relay tx # in this epoch"; "Epoch start time"; "Epoch end time";
  "Avg. TPS of this epoch (txs per second)"; "CTX ratio of this epoch"; "Avg. TCL of this epoch (second)";
  "Avg. inner-shard TCL of this epoch (second)"; "Avg. broker1 TCL of this epoch (second)";
  "Avg. broker2 TCL of this epoch (second)"; "Avg. fallback-to-relay TCL of this epoch (second)"].

Section brokerstats.
  Context {BL : BitSetLib} {RT : RlpTx} {GM : GobMsg} {TF : TimeFormat} {CL : CsvLib}.

Record BrokerStats := mkBrokerStats {
  broker1TCLSum : gmap Z Z; broker2TCLSum : gmap Z Z;
  innerShardTCLSum : gmap Z Z;
  relayFallbackTCLSum : gmap Z Z;
  innerShardTxNum : gmap Z Z;
  broker1TxNum : gmap Z Z; broker2TxNum : gmap Z Z;
  relayFallbackTxNum : gmap Z Z;
  epochStartTime : gmap Z Time; epochEndTime : gmap Z Time;
  txLifecycles : gmap bytes txLifeCycle;
  outputDir : string;
  cs : Csw;
  files : Fs;
}.
#[export] Instance BrokerStats_eta : Eta BrokerStats := λ b,
  mkBrokerStats (broker1TCLSum b) (broker2TCLSum b) (innerShardTCLSum b) (relayFallbackTCLSum b)
    (innerShardTxNum b) (broker1TxNum b) (broker2TxNum b) (relayFallbackTxNum b)
    (epochStartTime b) (epochEndTime b) (txLifecycles b) (outputDir b) (cs b) (files b).

Definition NewBrokerStats (dir : string) (fs : Fs) : result BrokerStats :=
  let fp := filepath_Join dir broker_detailTxInfoPath in
  let '(r, fs') := NewCSVSeqWriter fp broker_detailTxInfoMeasures fs in
  let* w := wrap_err "error creating CSV sequence writer" r in
  Ok (mkBrokerStats ∅ ∅ ∅ ∅ ∅ ∅ ∅ ∅ ∅ ∅ ∅ dir w fs').

Definition bs_on_cs {A} (m : M Csw A) : M BrokerStats A := st_zoom cs (λ w b, b <| cs := w |>) m.
Definition bs_on_files {A} (m : M Fs A) : M BrokerStats A := st_zoom files (λ w b, b <| files := w |>) m.

Definition Broker_tx_line (txHash : bytes) (tl : txLifeCycle) : list string := [
  hex_EncodeToString txHash;
  mechanism tl;
  ConvertTime2Str (originalTxCreateTime tl);
  ConvertTime2Str (originalTxCommitTime tl);
  show_bool (isBrokerTx tl);
  ConvertTime2Str (innerShardTxBlockProposeTime tl);
  ConvertTime2Str (broker1TxCreateTime tl);
  ConvertTime2Str (broker1BlockProposeTime tl);
  ConvertTime2Str (broker1CommitTime tl);
  ConvertTime2Str (broker2TxCreateTime tl);
  ConvertTime2Str (broker2BlockProposeTime tl);
  ConvertTime2Str (broker2CommitTime tl)].

Definition Broker_writeTxInfo (txHash : bytes) (tl : txLifeCycle) : M BrokerStats unit :=
  st_wrap "WriteLine2CSV failed" (bs_on_cs (WriteLine2CSV (Broker_tx_line txHash tl))).

(** ** The loops of [UpdateMeasureRecord] over the transactions of a report [bi] *)

Section report.
  Context (bi : BrokerBlockInfoMsg).
  Abbreviation epochID := (bb_Epoch bi).

(** The start and end of the epoch and the numbers of transactions. *)
Definition Broker_count (b : BrokerStats) : BrokerStats :=
  b <| epochStartTime ::= start_at epochID (bb_BlockProposeTime bi) |>
    <| epochEndTime ::= end_at epochID (bb_BlockCommitTime bi) |>
    <| broker1TxNum ::= add_at epochID (Z.of_nat (length (bb_Broker1Txs bi))) |>
    <| broker2TxNum ::= add_at epochID (Z.of_nat (length (bb_Broker2Txs bi))) |>
    <| innerShardTxNum ::= add_at epochID (Z.of_nat (length (bb_InnerShardTxs bi))) |>.

Definition Broker_inner (tx : Transaction) : M BrokerStats unit :=
  match tx_Hash tx with
  | Err _ => st_ret tt
  | Panic => st_lift Panic
  | Ok th =>
    let tl := zeroTxLifeCycle <| originalTxCreateTime := CreateTime tx |>
      <| innerShardTxBlockProposeTime := bb_BlockProposeTime bi |>
      <| originalTxCommitTime := bb_BlockCommitTime bi |> <| mechanism := "InnerShard" |> in
    st_modify (λ b, b <| innerShardTCLSum ::= add_at epochID (time_Sub (bb_BlockCommitTime bi) (CreateTime tx)) |>) ;;!
    log_error (Broker_writeTxInfo th tl)
  end.

Definition Broker_fallback (tx : Transaction) : M BrokerStats unit :=
  match tx_Hash tx with
  | Err _ => st_ret tt
  | Panic => st_lift Panic
  | Ok th =>
    let recordHash := if decide (tx_ROriginalHash tx = []) then th else tx_ROriginalHash tx in
    let tl := zeroTxLifeCycle <| originalTxCreateTime := CreateTime tx |>
      <| innerShardTxBlockProposeTime := bb_BlockProposeTime bi |>
      <| originalTxCommitTime := bb_BlockCommitTime bi |> <| mechanism := "FallbackToRelay" |> in
    st_modify (λ b, b <| relayFallbackTCLSum ::= add_at epochID (time_Sub (bb_BlockCommitTime bi) (CreateTime tx)) |>) ;;!
    log_error (Broker_writeTxInfo recordHash tl)
  end.

(** The lifecycle of a broker transaction whose other half has not been seen. *)
Definition newLifecycle (tx : Transaction) : txLifeCycle :=
  zeroTxLifeCycle <| originalTxCreateTime := tx_OriginalTxCreateTime tx |> <| isBrokerTx := true |>
    <| mechanism := "Broker" |>.

(** Write the line of [h] and forget it. *)
Definition Broker_finish (h : bytes) (tl : txLifeCycle) : M BrokerStats unit :=
  log_error (Broker_writeTxInfo h tl) ;;!
  st_modify (λ b, b <| txLifecycles ::= delete h |>).

Definition Broker_broker1 (tx : Transaction) : M BrokerStats unit :=
  let h := tx_BOriginalHash tx in
  let! b := st_get in
  let b2Exist := txLifecycles b !! h in
  let tl := (default (newLifecycle tx) b2Exist) <| broker1TxCreateTime := CreateTime tx |>
    <| broker1BlockProposeTime := bb_BlockProposeTime bi |> <| broker1CommitTime := bb_BlockCommitTime bi |> in
  st_modify (λ b, b <| txLifecycles ::= <[h := tl]> |>
    <| broker1TCLSum ::= add_at epochID (time_Sub (bb_BlockCommitTime bi) (CreateTime tx)) |>) ;;!
  if b2Exist is Some _ then Broker_finish h tl else st_ret tt.

Definition Broker_broker2 (tx : Transaction) : M BrokerStats unit :=
  let h := tx_BOriginalHash tx in
  let! b := st_get in
  let b1Exist := txLifecycles b !! h in
  let tl := (default (newLifecycle tx) b1Exist) <| broker2TxCreateTime := CreateTime tx |>
    <| broker2BlockProposeTime := bb_BlockProposeTime bi |> <| broker2CommitTime := bb_BlockCommitTime bi |>
    <| originalTxCommitTime := bb_BlockCommitTime bi |> in
  st_modify (λ b, b <| txLifecycles ::= <[h := tl]> |>
    <| broker2TCLSum ::= add_at epochID (time_Sub (bb_BlockCommitTime bi) (CreateTime tx)) |>) ;;!
  if b1Exist is Some _ then Broker_finish h tl else st_ret tt.

Definition Broker_report : M BrokerStats unit :=
  st_modify Broker_count ;;!
  st_for Broker_inner (bb_InnerShardTxs bi) ;;!
  st_modify (λ b, b <| relayFallbackTxNum ::= add_at epochID (Z.of_nat (length (bb_Relay2Txs bi))) |>) ;;!
  st_for Broker_fallback (bb_Relay2Txs bi) ;;!
  st_for Broker_broker1 (bb_Broker1Txs bi) ;;!
  st_for Broker_broker2 (bb_Broker2Txs bi).
End report.

Definition Broker_UpdateMeasureRecord (msg : WrappedMsg) : M BrokerStats unit :=
  if decide (MsgType msg ≠ BrokerBlockInfoMessageType) then st_ret tt
  else
    let! bInfo := st_wrap "decode brokerBlockInfoMsg" (st_lift (gob_decode KBrokerBlockInfo (Payload msg))) in
    Broker_report bInfo.

(** ** The summary *)

Definition avgDurationPerTx (sum n : Z) : string :=
  if decide (n ≤ 0) then "0.00" else sprintf_2f (fdiv (float_of_Z sum) (float_of_Z n)).

Definition Broker_epoch_line (b : BrokerStats) (e : Z) : list string :=
  let epochDuration := Seconds (time_Sub (at_epoch (epochEndTime b) e) (at_epoch (epochStartTime b) e)) in
  let ctxCnt := fdiv (float_of_Z (wrap_i64 (at_epoch (broker1TxNum b) e + at_epoch (broker2TxNum b) e))) f2 in
  let relayCnt := float_of_Z (at_epoch (relayFallbackTxNum b) e) in
  let totalTxCnt := fadd (fadd (float_of_Z (at_epoch (innerShardTxNum b) e)) ctxCnt) relayCnt in
  let broker1TCL := float_of_Z (at_epoch (broker1TCLSum b) e) in
  let broker2TCL := float_of_Z (at_epoch (broker2TCLSum b) e) in
  let innerShardTCL := float_of_Z (at_epoch (innerShardTCLSum b) e) in
  let relayFallbackTCL := float_of_Z (at_epoch (relayFallbackTCLSum b) e) in
  let totalTCL := fadd (fadd (fadd broker1TCL broker2TCL) innerShardTCL) relayFallbackTCL in
  [pretty e;
   sprintf_2f totalTxCnt;
   pretty (at_epoch (innerShardTxNum b) e);
   pretty (at_epoch (broker1TxNum b) e);
   pretty (at_epoch (broker2TxNum b) e);
   pretty (at_epoch (relayFallbackTxNum b) e);
   time_RFC3339 (at_epoch (epochStartTime b) e);
   time_RFC3339 (at_epoch (epochEndTime b) e);
   sprintf_2f (fdiv totalTxCnt epochDuration);
   sprintf_2f (fdiv ctxCnt totalTxCnt);
   sprintf_2f (fdiv totalTCL totalTxCnt);
   avgDurationPerTx (at_epoch (innerShardTCLSum b) e) (at_epoch (innerShardTxNum b) e);
   avgDurationPerTx (at_epoch (broker1TCLSum b) e) (at_epoch (broker1TxNum b) e);
   avgDurationPerTx (at_epoch (broker2TCLSum b) e) (at_epoch (broker2TxNum b) e);
   avgDurationPerTx (at_epoch (relayFallbackTCLSum b) e) (at_epoch (relayFallbackTxNum b) e)].

Definition Broker_measureVals (b : BrokerStats) : list (list string) :=
  map (Broker_epoch_line b) (sorted_keys (epochStartTime b)).

Definition Broker_outputBriefEpochInfo (fp : string) : M BrokerStats unit := λ b,
  bs_on_files (WriteAllToCSV fp broker_measureName (Broker_measureVals b)) b.

Definition Broker_OutputResultAndClose : M BrokerStats unit := λ b,
  (st_wrap "failed to output BriefEpochInfo"
     (Broker_outputBriefEpochInfo (filepath_Join (outputDir b) broker_briefTxInfoPath)) ;;!
   let! b := st_get in bs_on_files (csw_Close (cs b))) b.

#[export] Instance broker_measure : Measure BrokerStats := {|
  UpdateMeasureRecord := Broker_UpdateMeasureRecord;
  OutputResultAndClose := Broker_OutputResultAndClose;
|}.
End brokerstats.

(** ** Reports as lists of independent updates of the per-epoch maps *)

Inductive counter :=
| CBroker1TCL | CBroker2TCL | CInnerTCL | CFallbackTCL
| CInnerNum | CBroker1Num | CBroker2Num | CFallbackNum.

Record epochSums := mkEpochSums {
  es_b1TCL : gmap Z Z; es_b2TCL : gmap Z Z; es_inTCL : gmap Z Z; es_fbTCL : gmap Z Z;
  es_inNum : gmap Z Z; es_b1Num : gmap Z Z; es_b2Num : gmap Z Z; es_fbNum : gmap Z Z;
  es_start : gmap Z Z; es_end : gmap Z Z;
}.

Inductive update :=
| AddTo (c : counter) (e n : Z)
| StartsAt (e : Z) (t : Time)
| EndsAt (e : Z) (t : Time).

Definition apply (s : epochSums) (u : update) : epochSums :=
  let 'mkEpochSums a b c d f g h i st en := s in
  match u with
  | AddTo CBroker1TCL e n => mkEpochSums (add_at e n a) b c d f g h i st en
  | AddTo CBroker2TCL e n => mkEpochSums a (add_at e n b) c d f g h i st en
  | AddTo CInnerTCL e n => mkEpochSums a b (add_at e n c) d f g h i st en
  | AddTo CFallbackTCL e n => mkEpochSums a b c (add_at e n d) f g h i st en
  | AddTo CInnerNum e n => mkEpochSums a b c d (add_at e n f) g h i st en
  | AddTo CBroker1Num e n => mkEpochSums a b c d f (add_at e n g) h i st en
  | AddTo CBroker2Num e n => mkEpochSums a b c d f g (add_at e n h) i st en
  | AddTo CFallbackNum e n => mkEpochSums a b c d f g h (add_at e n i) st en
  | StartsAt e t => mkEpochSums a b c d f g h i (start_at e t st) en
  | EndsAt e t => mkEpochSums a b c d f g h i st (end_at e t en)
  end.

Lemma apply_comm s u v : apply (apply s u) v = apply (apply s v) u.
Proof.
  destruct s, u as [[] ? ?|? ?|? ?], v as [[] ? ?|? ?|? ?]; cbn;
    try reflexivity; f_equal; apply add_at_comm || apply start_at_comm || apply end_at_comm.
Qed.

Section brokerstats_facts.
  Context {BL : BitSetLib} {RT : RlpTx} {GM : GobMsg} {TF : TimeFormat} {CL : CsvLib}.

Definition sums_of (b : BrokerStats) : epochSums :=
  mkEpochSums (broker1TCLSum b) (broker2TCLSum b) (innerShardTCLSum b) (relayFallbackTCLSum b)
    (innerShardTxNum b) (broker1TxNum b) (broker2TxNum b) (relayFallbackTxNum b)
    (epochStartTime b) (epochEndTime b).

(** A report's updates. *)
Definition tx_latency (bi : BrokerBlockInfoMsg) (c : counter) (tx : Transaction) : list update :=
  [AddTo c (bb_Epoch bi) (time_Sub (bb_BlockCommitTime bi) (CreateTime tx))].
Definition hashed_latency (bi : BrokerBlockInfoMsg) (c : counter) (tx : Transaction) : list update :=
  if is_ok (tx_Hash tx) then tx_latency bi c tx else [].

Definition report_updates (bi : BrokerBlockInfoMsg) : list update :=
  let e := bb_Epoch bi in
  [StartsAt e (bb_BlockProposeTime bi); EndsAt e (bb_BlockCommitTime bi);
   AddTo CBroker1Num e (Z.of_nat (length (bb_Broker1Txs bi)));
   AddTo CBroker2Num e (Z.of_nat (length (bb_Broker2Txs bi)));
   AddTo CInnerNum e (Z.of_nat (length (bb_InnerShardTxs bi)))] ++
  (bb_InnerShardTxs bi ≫= hashed_latency bi CInnerTCL) ++
  AddTo CFallbackNum e (Z.of_nat (length (bb_Relay2Txs bi))) ::
  (bb_Relay2Txs bi ≫= hashed_latency bi CFallbackTCL) ++
  (bb_Broker1Txs bi ≫= tx_latency bi CBroker1TCL) ++
  (bb_Broker2Txs bi ≫= tx_latency bi CBroker2TCL).

Definition msg_updates (msg : WrappedMsg) : list update :=
  if decide (MsgType msg ≠ BrokerBlockInfoMessageType) then []
  else match gob_decode KBrokerBlockInfo (Payload msg) with Ok bi => report_updates bi | _ => [] end.

Lemma write_view h tl b b' : log_error (Broker_writeTxInfo h tl) b = (Ok tt, b') → sums_of b' = sums_of b.
Proof.
  apply log_error_view. clear. intros b r b'. unfold Broker_writeTxInfo, st_wrap, bs_on_cs, st_zoom.
  destruct (WriteLine2CSV _ _) as [r0 w]. by intros [= _ <-].
Qed.

Lemma finish_view h tl b b' : Broker_finish h tl b = (Ok tt, b') → sums_of b' = sums_of b.
Proof. unfold Broker_finish. intros ([] & b1 & E%write_view & [= <-])%st_bind_ok. exact E. Qed.

Lemma inner_view bi tx b b' : Broker_inner bi tx b = (Ok tt, b') →
  sums_of b' = foldl apply (sums_of b) (hashed_latency bi CInnerTCL tx).
Proof.
  unfold Broker_inner, hashed_latency. destruct (tx_Hash tx) as [th|e|]; cbn; [|by intros [= <-]|done].
  by intros E%write_view.
Qed.
Lemma fallback_view bi tx b b' : Broker_fallback bi tx b = (Ok tt, b') →
  sums_of b' = foldl apply (sums_of b) (hashed_latency bi CFallbackTCL tx).
Proof.
  unfold Broker_fallback, hashed_latency. destruct (tx_Hash tx) as [th|e|]; cbn; [|by intros [= <-]|done].
  by intros E%write_view.
Qed.
Lemma broker1_view bi tx b b' : Broker_broker1 bi tx b = (Ok tt, b') →
  sums_of b' = foldl apply (sums_of b) (tx_latency bi CBroker1TCL tx).
Proof.
  unfold Broker_broker1. cbn. destruct (txLifecycles b !! _); [by intros E%finish_view | by intros [= <-]].
Qed.
Lemma broker2_view bi tx b b' : Broker_broker2 bi tx b = (Ok tt, b') →
  sums_of b' = foldl apply (sums_of b) (tx_latency bi CBroker2TCL tx).
Proof.
  unfold Broker_broker2. cbn. destruct (txLifecycles b !! _); [by intros E%finish_view | by intros [= <-]].
Qed.

Lemma report_view bi b b' : Broker_report bi b = (Ok tt, b') →
  sums_of b' = foldl apply (sums_of b) (report_updates bi).
Proof.
  unfold Broker_report. intros ([] & b1 & [= <-] & H)%st_bind_ok.
  apply st_bind_ok in H as ([] & b2 & E2%(st_for_view _ _ _ _ (inner_view bi)) & H).
  apply st_bind_ok in H as ([] & b3 & [= <-] & H).
  apply st_bind_ok in H as ([] & b4 & E4%(st_for_view _ _ _ _ (fallback_view bi)) & H).
  apply st_bind_ok in H as ([] & b5 & E5%(st_for_view _ _ _ _ (broker1_view bi)) & E6).
  apply (st_for_view _ _ _ _ (broker2_view bi)) in E6.
  unfold report_updates. rewrite foldl_app. cbn [foldl]. rewrite foldl_app. cbn [foldl].
  rewrite !foldl_app, E6, E5, E4. do 3 f_equal.
  transitivity (apply (sums_of b2) (AddTo CFallbackNum (bb_Epoch bi) (Z.of_nat (length (bb_Relay2Txs bi)))));
    [reflexivity|]. by rewrite E2.
Qed.

Lemma quiet_finish h tl : quiet (Broker_finish h tl).
Proof. unfold Broker_finish. auto with quiet. Qed.
#[local] Hint Resolve quiet_finish : quiet.

Lemma quiet_report bi : quiet (Broker_report bi).
Proof.
  unfold Broker_report. repeat apply quiet_then; auto with quiet; apply quiet_for; intros tx.
  - unfold Broker_inner. destruct (tx_Hash tx); auto with quiet.
  - unfold Broker_fallback. destruct (tx_Hash tx); auto with quiet.
  - unfold Broker_broker1. apply quiet_get. intros b. destruct (_ !! _); auto with quiet.
  - unfold Broker_broker2. apply quiet_get. intros b. destruct (_ !! _); auto with quiet.
Qed.

Lemma message_view msg b b' : log_error (Broker_UpdateMeasureRecord msg) b = (Ok tt, b') →
  sums_of b' = foldl apply (sums_of b) (msg_updates msg).
Proof.
  unfold log_error, Broker_UpdateMeasureRecord, msg_updates. case_decide; [by intros [= <-]|].
  unfold st_bind, st_wrap, st_lift. destruct (gob_decode _ _) as [bi|e|]; cbn [wrap_err]; [|by intros [= <-]|done].
  pose proof (quiet_report bi b) as Hq.
  destruct (Broker_report bi b) as [[[]|e|] b1] eqn:E; [cbn; intros [= <-]; by apply report_view | by destruct (Hq e) | done].
Qed.
(** The measuring goroutine of the supervisor: errors are logged. *)
Definition Broker_measure_all (msgs : list WrappedMsg) : M BrokerStats unit :=
  st_for (λ m, log_error (UpdateMeasureRecord m)) msgs.

Lemma measure_all_view msgs b b' : Broker_measure_all msgs b = (Ok tt, b') →
  sums_of b' = foldl apply (sums_of b) (msgs ≫= msg_updates).
Proof. apply st_for_view. exact message_view. Qed.

(** The summary reads the per-epoch maps only. *)
Lemma measureVals_view b b' : sums_of b = sums_of b' → Broker_measureVals b = Broker_measureVals b'.
Proof. destruct b, b'. unfold sums_of. cbn. intros [= -> -> -> -> -> -> -> -> -> ->]. reflexivity. Qed.

(** C35: The summary of an experiment in a broker mode does not depend on the
    order in which the shards' block reports reach the supervisor: two runs of
    the measure over the same messages, in any two orders, give the same line
    for every epoch, through the counts, latency sums, averages and the start
    and end of the epoch. *)
Theorem broker_summary_order_free msgs msgs' b b1 b2 : msgs ≡ₚ msgs' →
  Broker_measure_all msgs b = (Ok tt, b1) → Broker_measure_all msgs' b = (Ok tt, b2) →
  Broker_measureVals b1 = Broker_measureVals b2.
Proof.
  intros Hp E1%measure_all_view E2%measure_all_view. apply measureVals_view. rewrite E1, E2.
  apply foldl_permutation; [apply apply_comm|]. by apply bind_Permutation.
Qed.
End brokerstats_facts.

(** ** Two reports of one broker transaction, in either order *)

Module BrokerStatsDemo.
Export ListBitSet CsvDemo.
#[export] Instance rlp_t : RlpTx := λ t, Ok (addr_bytes (Sender t)).
#[export] Instance time_f : TimeFormat := pretty.

Definition half (stage created : Z) : Transaction :=
  (NewTransaction EmptyAccountAddr EmptyAccountAddr 5 0 0 created)
    <| BrokerOpt := mkBrokerTxOpt stage EmptyAccountAddr (str "h") 10 0 0 0 |>.
Definition report1 : BrokerBlockInfoMsg :=
  mkBrokerBlockInfoMsg [NewTransaction EmptyAccountAddr EmptyAccountAddr 5 0 0 15] [half 1 20] [] [] [] 3 30 40 0.
Definition report2 : BrokerBlockInfoMsg := mkBrokerBlockInfoMsg [] [] [half 2 50] [] [] 3 55 70 1.

(** The payload names the report. *)
#[export] Instance gob_m : GobMsg := {|
  gob_encode k m := Err "unused";
  gob_decode k p :=
    match k return result (msg_of k) with
    | KBrokerBlockInfo => Ok (if decide (p = str "1") then report1 else report2)
    | _ => Err "unsupported"
    end;
|}.
Definition msg (p : string) : WrappedMsg := mkWrappedMsg BrokerBlockInfoMessageType (str p).
Definition dummy : BrokerStats := mkBrokerStats ∅ ∅ ∅ ∅ ∅ ∅ ∅ ∅ ∅ ∅ ∅ "" ("", []) ∅.
Definition stats0 : BrokerStats := force dummy (NewBrokerStats "out" ∅).
Definition in_order := Broker_measure_all [msg "1"; msg "2"] stats0.
Definition swapped := Broker_measure_all [msg "2"; msg "1"] stats0.

(** One line for the transaction between the shards, whichever half came first. *)
Example broker_line_once : map (λ l, (nth 1 l "", nth 2 l "", nth 3 l "")) (cs in_order.2).2 =
  [("Mechanism", "Tx create time", "Tx finally commit time"); ("InnerShard", "15", "40"); ("Broker", "10", "70")].
Proof. vm_compute. reflexivity. Qed.
Example output : (OutputResultAndClose in_order.2).1 = Ok tt ∧
  dom (files (OutputResultAndClose in_order.2).2) =
    ({["out/broker_stats_detail_tx_info.csv"; "out/broker_stats_brief_info.csv"]} : gset string).
Proof. split; [vm_compute; reflexivity|]. apply (bool_decide_unpack _). vm_compute. exact I. Qed.
End BrokerStatsDemo.

Module BrokerStatsWitness.
Import BrokerStatsDemo.

Lemma broker_summary_order_free_witness :
  Broker_measureVals in_order.2 = Broker_measureVals swapped.2 ∧
  map (take 6) (Broker_measureVals swapped.2) = [["3"; "2.00"; "1"; "1"; "1"; "0"]].
Proof.
  split; [|vm_compute; reflexivity].
  apply (broker_summary_order_free [msg "1"; msg "2"] [msg "2"; msg "1"] stats0).
  - apply perm_swap.
  - apply run_fst. vm_compute. reflexivity.
  - apply run_fst. vm_compute. reflexivity.
Defined.
End BrokerStatsWitness.
