(* ===== verification/Supervisor.v ===== *)
(** * The supervisor

    Models supervisor/supervisor.go over the committees of Committee.v: the
    choice of a committee, the main loop and the end of the experiment.

    The measuring module is the class [Measure] of Stats.v.  It runs in a goroutine of its
    own that takes the messages from a channel in order and shares nothing with
    the loop, so its updates are made as the messages are put in the channel.
    A tick comes with the messages that arrived since the last one, its instant
    and the random choices made in it.  The supervisor's connection is the one
    of its committee. *)

From S2P Require Import Prelude GoHash Account Bloom Block Config StateDB TxExecute Storage Chain.
From S2P Require Import Float64 Partition TxSource Network Broker Committee Stats.
From Stdlib Require Import Lia.

Local Open Scope Z_scope.

Section supervisor.
  Context {BL : BitSetLib} {RT : RlpTx} {MK : MapKeys} {GM : GobMsg}.
  Context {Src : Type} {TS : TxSource Src} {Ms : Type} {ME : Measure Ms}.

(** ** The Committee interface *)

Inductive Committee :=
| StaticRelay (c : Client (Src := Src))
| StaticBroker (c : StaticBrokerCommittee (Src := Src))
| CLPARelay (c : CLPARelayCommittee (Src := Src))
| CLPABroker (c : CLPABrokerCommittee (Src := Src)).

Context (resolver : TopoGetter) (cfg : SupervisorCfg).

Definition client_of (c : Committee) : Client (Src := Src) :=
  match c with
  | StaticRelay c => c
  | StaticBroker c => sb_client c
  | CLPARelay c => cr_client c
  | CLPABroker c => cb_client c
  end.
Definition set_client (c : Committee) (x : Client) : Committee :=
  match c with
  | StaticRelay _ => StaticRelay x
  | StaticBroker c => StaticBroker (c <| sb_client := x |>)
  | CLPARelay c => CLPARelay (c <| cr_client := x |>)
  | CLPABroker c => CLPABroker (c <| cb_client := x |>)
  end.

(** A call on the committee's own type. *)
Definition wrap_state {T A} (k : T → Committee) (p : result A * T) : result A * Committee := (p.1, k p.2).

Definition SendTxsAndConsensus (ch : Choices) (now : Time) : M Committee unit := λ c,
  match c with
  | StaticRelay c => wrap_state StaticRelay (StaticRelay_SendTxsAndConsensus resolver cfg now c)
  | StaticBroker c => wrap_state StaticBroker (StaticBroker_SendTxsAndConsensus resolver cfg ch now c)
  | CLPARelay c => wrap_state CLPARelay (CLPARelay_SendTxsAndConsensus resolver cfg ch now c)
  | CLPABroker c => wrap_state CLPABroker (CLPABroker_SendTxsAndConsensus resolver cfg ch now c)
  end.

Definition HandleMsg (ch : Choices) (msg : WrappedMsg) : M Committee unit := λ c,
  match c with
  | StaticRelay c => wrap_state StaticRelay (StaticRelay_HandleMsg msg c)
  | StaticBroker c => wrap_state StaticBroker (StaticBroker_HandleMsg msg c)
  | CLPARelay c => wrap_state CLPARelay (CLPARelay_HandleMsg cfg msg c)
  | CLPABroker c => wrap_state CLPABroker (CLPABroker_HandleMsg cfg ch msg c)
  end.

Definition ShouldStop (c : Committee) : bool :=
  match c with
  | StaticRelay c => StaticRelay_ShouldStop c
  | StaticBroker c => StaticBroker_ShouldStop c
  | CLPARelay c => CLPARelay_ShouldStop c
  | CLPABroker c => CLPABroker_ShouldStop c
  end.

(** ** The supervisor *)

Record Supervisor := mkSupervisor { committee : Committee; measure : Ms }.
#[export] Instance Supervisor_eta : Eta Supervisor := λ s, mkSupervisor (committee s) (measure s).

(** [NewSupervisor]: [relayStats] and [brokerStats] are what the two measuring
    modules' constructors return, [src] and [brokerFile] the transaction source
    and the broker file, [mkdir] the outcome of making the output directory. *)
Definition NewSupervisor (relayStats brokerStats : result Ms) (src : result Src)
    (brokerFile : result (list string * option error)) (mkdir : result unit) (conn : Conn) (now : Time)
    : result Supervisor :=
  let t := ConsensusType (sv_Sys cfg) in
  let* '(ms, com) :=
    if decide (t = StaticRelayConsensus) then
      let* ms := wrap_err "failed to initialize relay stats" relayStats in
      let* c := wrap_err "failed to init a StaticRelayCommittee" (NewStaticRelayCommittee cfg conn src) in
      Ok (ms, StaticRelay c)
    else if decide (t = StaticBrokerConsensus) then
      let* ms := wrap_err "failed to initialize broker stats" brokerStats in
      let* c := wrap_err "failed to init a StaticBrokerCommittee" (NewStaticBrokerCommittee cfg conn src brokerFile) in
      Ok (ms, StaticBroker c)
    else if decide (t = CLPARelayConsensus) then
      let* ms := wrap_err "failed to initialize relay stats" relayStats in
      let* c := wrap_err "failed to init a CLPARelayCommittee" (NewCLPARelayCommittee cfg conn src now) in
      Ok (ms, CLPARelay c)
    else if decide (t = CLPABrokerConsensus) then
      let* ms := wrap_err "failed to initialize broker stats" brokerStats in
      let* c := wrap_err "failed to init a CLPABrokerCommittee" (NewCLPABrokerCommittee cfg conn src brokerFile now) in
      Ok (ms, CLPABroker c)
    else Err "undefined consensus type: %s" in
  let* _ := wrap_err "failed to create result output directory" mkdir in
  Ok (mkSupervisor com ms).

Definition on_committee {A} (m : M Committee A) : M Supervisor A :=
  st_zoom committee (λ c s, s <| committee := c |>) m.
Definition on_measure {A} (m : M Ms A) : M Supervisor A := st_zoom measure (λ c s, s <| measure := c |>) m.
Definition on_sv_conn (h : Conn → Conn) : M Supervisor unit :=
  on_committee (st_modify (λ c, set_client c ((client_of c) <| cl_conn ::= h |>))).

(** [for _, msg := range msgList]: the measure first, then the committee. *)
Definition take_msg (ch : Choices) (msg : WrappedMsg) : M Supervisor unit :=
  log_error (on_measure (UpdateMeasureRecord msg)) ;;!
  log_error (on_committee (HandleMsg ch msg)).

Definition tick (ch : Choices) (ms : list WrappedMsg) (now : Time) : M Supervisor unit :=
  on_sv_conn (λ c, c <| buffer ::= λ b, b ++ ms |>) ;;!
  let! s := st_get in
  let msgList := buffer (cl_conn (client_of (committee s))) in
  on_sv_conn (λ c, c <| buffer := [] |>) ;;!
  st_for (take_msg ch) msgList ;;!
  log_error (on_committee (SendTxsAndConsensus ch now)).

(** After the loop. *)
Definition finish : M Supervisor unit :=
  log_error (on_measure OutputResultAndClose) ;;!
  let! wMsg := st_wrap "failed to wrap stop consensus message"
    (st_lift (WrapMsg KStopConsensus mkStopConsensusMsg)) in
  let! destNodes := st_lift (rfold (λ acc i,
    let* ls := wrap_err "get all leaders failed when trying to send stop" (GetNodesInShard i resolver) in
    Ok (acc ++ ls)) [] (map Z.of_nat (seq 0 (Z.to_nat (ShardNum (sv_Sys cfg)))))) in
  on_sv_conn (GroupBroadcastMessage destNodes wMsg).

(** The main loop over the ticks given: true when it ended and [finish] ran. *)
Fixpoint Start (ticks : list (Choices * list WrappedMsg * Time)) : M Supervisor bool := λ s,
  match ticks with
  | [] => (Ok false, s)
  | (ch, ms, now) :: ticks' =>
    if ShouldStop (committee s) then (finish ;;! st_ret true) s
    else (tick ch ms now ;;! Start ticks') s
  end.
End supervisor.

(** ** Facts *)

Section supervisor_facts.
  Context {BL : BitSetLib} {RT : RlpTx} {MK : MapKeys} {GM : GobMsg}.
  Context {Src : Type} {TS : TxSource Src} {TSL : TxSourceLaws Src} {Ms : Type} {ME : Measure Ms}.
  Context (resolver : TopoGetter) (cfg : SupervisorCfg) (Hspeed : 0 ≤ sv_TxInjectionSpeed cfg).
  Abbreviation Committee := (Committee (Src := Src)).
  Abbreviation Supervisor := (Supervisor (Src := Src) (Ms := Ms)).

Definition committee_inv (c : Committee) : Prop := stop_inv cfg (client_of c).
Definition sv_inv (s : Supervisor) : Prop := committee_inv (committee s).

Lemma HandleMsg_inv ch msg : preserves committee_inv (HandleMsg cfg ch msg).
Proof.
  intros [c|c|c|c] r c' Hc; cbn; unfold wrap_state; intros [= _ <-];
    (lazymatch goal with |- context [(?m ?x).2] => destruct (m x) as [y c1] eqn:E end; cbn).
  - by eapply StaticRelay_handle_stop_inv.
  - by eapply StaticBroker_handle_stop_inv.
  - by eapply CLPARelay_handle_stop_inv.
  - by eapply CLPABroker_handle_stop_inv.
Qed.

Lemma SendTxs_inv ch now : preserves committee_inv (SendTxsAndConsensus resolver cfg ch now).
Proof using Hspeed TSL.
  intros [c|c|c|c] r c' Hc; cbn; unfold wrap_state; intros [= _ <-];
    (lazymatch goal with |- context [(?m ?x).2] => destruct (m x) as [y c1] eqn:E end; cbn).
  - by eapply StaticRelay_send_stop_inv.
  - by eapply StaticBroker_send_stop_inv.
  - by eapply CLPARelay_send_stop_inv.
  - by eapply CLPABroker_send_stop_inv.
Qed.

Lemma client_of_set (c : Committee) x : client_of (set_client c x) = x.
Proof. by destruct c. Qed.

Lemma pres_sv_conn h : preserves sv_inv (on_sv_conn (Src := Src) (Ms := Ms) h).
Proof.
  apply pres_zoom. intros s r c Hs [= _ <-]. unfold sv_inv, committee_inv. cbn. rewrite client_of_set. exact Hs.
Qed.
Lemma pres_on_committee {A} (m : M Committee A) : preserves committee_inv m → preserves sv_inv (on_committee m).
Proof. intros Hm. apply pres_zoom. intros s r c Hs E. by eapply Hm. Qed.
Lemma pres_on_measure {A} (m : M Ms A) : preserves sv_inv (on_measure m).
Proof. by apply pres_zoom. Qed.
Lemma pres_sv_logged (m : M Supervisor unit) : preserves sv_inv m → preserves sv_inv (log_error m).
Proof. intros Hm s r s' Hs. unfold log_error. destruct (m s) as [[]  s1] eqn:E; intros [= _ <-]; by eapply Hm. Qed.

Lemma pres_tick ch ms now : preserves sv_inv (tick resolver cfg ch ms now).
Proof using Hspeed TSL.
  unfold tick. apply pres_bind; [apply pres_sv_conn|]. intros _. apply pres_get_bind. intros s _.
  apply pres_bind; [apply pres_sv_conn|]. intros _. apply pres_bind.
  - apply pres_for. intros w _. unfold take_msg. apply pres_bind; [apply pres_sv_logged, pres_on_measure|].
    intros _. apply pres_sv_logged, pres_on_committee, HandleMsg_inv.
  - intros _. apply pres_sv_logged, pres_on_committee, SendTxs_inv.
Qed.

Lemma gather_nodes shards acc nodes :
  rfold (λ acc i, let* ls := wrap_err "get all leaders failed when trying to send stop" (GetNodesInShard i resolver) in
    Ok (acc ++ ls)) acc shards = Ok nodes →
  (∀ n, n ∈ acc → n ∈ nodes) ∧
  (∀ i, i ∈ shards → ∃ l, GetNodesInShard i resolver = Ok l ∧ ∀ n, n ∈ l → n ∈ nodes) ∧
  (∀ n, n ∈ nodes → n ∈ acc ∨ ∃ i l, i ∈ shards ∧ GetNodesInShard i resolver = Ok l ∧ n ∈ l).
Proof.
  revert acc; induction shards as [|j shards IH]; intros acc; cbn.
  { intros [= <-]. split_and!; [done|by intros i ?%not_elem_of_nil|by left]. }
  intros (a1 & (l & Hl%wrap_err_ok & [= <-])%rbind_ok & H)%rbind_ok.
  destruct (IH _ H) as (H1 & H2 & H3). split_and!.
  - intros n Hn. apply H1, elem_of_app. by left.
  - intros i [->|Hi]%elem_of_cons; [|by apply H2]. exists l. split; [done|]. intros n Hn.
    apply H1, elem_of_app. by right.
  - intros n [[Hn|Hn]%elem_of_app|(i & l' & Hi & Hn)]%H3; [by left| |].
    + right. exists j, l. split; [by left|done].
    + right. exists i, l'. split; [by right|done].
Qed.

(** Every node of every shard is told to stop, and nobody else. *)
Definition told_to_stop (c c' : Conn) : Prop :=
  ∃ w nodes, WrapMsg KStopConsensus mkStopConsensusMsg = Ok w ∧
    c' = c <| outbox ::= λ o, o ++ map (λ n, (n, w)) nodes |> ∧
    (∀ i, 0 ≤ i < ShardNum (sv_Sys cfg) →
      ∃ l, GetNodesInShard i resolver = Ok l ∧ ∀ n, n ∈ l → n ∈ nodes) ∧
    (∀ n, n ∈ nodes → ∃ i l, 0 ≤ i < ShardNum (sv_Sys cfg) ∧ GetNodesInShard i resolver = Ok l ∧ n ∈ l).

Lemma finish_ok (s s' : Supervisor) : finish resolver cfg s = (Ok tt, s') →
  ∃ conn', committee s' = set_client (committee s) ((client_of (committee s)) <| cl_conn := conn' |>) ∧
    told_to_stop (cl_conn (client_of (committee s))) conn'.
Proof.
  unfold finish. intros ([] & s1 & E & H)%st_bind_ok.
  assert (committee s1 = committee s) as <-.
  { revert E. unfold log_error, on_measure, st_zoom. destruct (OutputResultAndClose _) as [[a|e|] t]; intros; by simplify_eq. }
  apply st_bind_ok in H as (w & s2 & [Hw ->]%st_wrap_ok%st_lift_ok & H).
  apply st_bind_ok in H as (nodes & s3 & [Hn ->]%st_lift_ok & H).
  apply st_zoom_ok in H as (c & [= <-] & ->). eexists. split; [reflexivity|].
  exists w, nodes. split; [done|]. split; [apply GroupBroadcast_outbox|].
  apply gather_nodes in Hn as (_ & Hn & Hback). split.
  - intros i Hi. apply Hn. apply list_elem_of_fmap. exists (Z.to_nat i). split; [lia|]. apply elem_of_seq. lia.
  - intros n [?%not_elem_of_nil|(i & l & Hi & Hl)]%Hback; [done|]. exists i, l. split; [|done].
    apply list_elem_of_fmap in Hi as (k & -> & Hk%elem_of_seq). lia.
Qed.

Lemma ShouldStop_reached (c : Committee) : ShouldStop c = true → reached (sl (client_of c)) = true ∧
  ∀ b, c = StaticBroker b → IsFinished (sb_bManager b) = true.
Proof.
  destruct c as [c|c|c|c]; cbn; intros H.
  2: { apply andb_true_iff in H as [H1 H2]. split; [done|]. by intros b [= <-]. }
  all: split; [done|]; intros b Hb; discriminate Hb.
Qed.

Lemma Start_inv ticks (s s' : Supervisor) : sv_inv s → Start resolver cfg ticks s = (Ok true, s') →
  ∃ s1, sv_inv s1 ∧ ShouldStop (committee s1) = true ∧ finish resolver cfg s1 = (Ok tt, s').
Proof using Hspeed TSL.
  revert s; induction ticks as [|[[ch ms] now] ticks IH]; intros s Hs; cbn [Start]; [done|].
  destruct (ShouldStop (committee s)) eqn:E.
  - intros ([] & s1 & H & [= ->])%st_bind_ok. by exists s.
  - intros ([] & s1 & H & Hr)%st_bind_ok. apply IH in Hr; [done|]. by eapply pres_tick.
Qed.

Lemma NewSupervisor_inv relayStats brokerStats src file mkdir conn now s :
  0 ≤ sv_TxNumber cfg ≤ int64_max →
  NewSupervisor cfg relayStats brokerStats src file mkdir conn now = Ok s → sv_inv s.
Proof.
  intros Hn. unfold NewSupervisor. intros ([ms com] & Hcom & (? & _ & [= <-])%rbind_ok)%rbind_ok.
  unfold sv_inv. cbn [committee]. revert Hcom. repeat case_decide; [..|done].
  all: intros (ms' & _ & (c & Hc%wrap_err_ok & [= _ <-])%rbind_ok)%rbind_ok; unfold committee_inv; cbn [client_of];
    apply rbind_ok in Hc as (ts & _ & Hc); repeat (apply rbind_ok in Hc as (? & _ & Hc));
    injection Hc as <-; by apply newClient_stop_inv.
Qed.

(** The state in which the loop is left. *)
Lemma loop_left relayStats brokerStats src file mkdir conn now s0 ticks s' :
  0 ≤ sv_TxNumber cfg ≤ int64_max → 0 < ShardNum (sv_Sys cfg) ≤ 2 ^ 32 →
  NewSupervisor cfg relayStats brokerStats src file mkdir conn now = Ok s0 →
  Start resolver cfg ticks s0 = (Ok true, s') →
  ∃ s1, unsentTxNum (client_of (committee s1)) = 0 ∧
    (∀ b, committee s1 = StaticBroker b → IsFinished (sb_bManager b) = true) ∧ finish resolver cfg s1 = (Ok tt, s').
Proof using Hspeed TSL.
  intros Hn Hs Hnew%NewSupervisor_inv Hst; [|done].
  destruct (Start_inv ticks s0 s' Hnew Hst) as (s1 & (Hu & Hc & Ht) & [Hr Hf]%ShouldStop_reached & E).
  exists s1. split_and!; [|exact Hf|exact E]. apply Hc.
  unfold reached in Hr. rewrite bool_decide_eq_true, Ht in Hr. cbn in Hr.
  unfold stopThresholdPerShard in Hr. rewrite wrap_s_id in Hr by (split; lia). lia.
Qed.

(** C24: the experiment does not end early, and it ends for everyone.  Whatever
    messages arrive, in whichever of the four modes, when the supervisor leaves
    its loop no transaction is left to inject, with static sharding and brokers
    every cross-shard transaction has finished, and the stop message has gone to
    every node of every shard of the topology as the last thing sent. *)
Theorem supervisor_stops_when_done relayStats brokerStats src file mkdir conn now s0 ticks s' :
  0 ≤ sv_TxNumber cfg ≤ int64_max → 0 < ShardNum (sv_Sys cfg) ≤ 2 ^ 32 →
  NewSupervisor cfg relayStats brokerStats src file mkdir conn now = Ok s0 →
  Start resolver cfg ticks s0 = (Ok true, s') →
  unsentTxNum (client_of (committee s')) = 0 ∧
  (∀ b, committee s' = StaticBroker b → IsFinished (sb_bManager b) = true) ∧
  ∃ conn', told_to_stop conn' (cl_conn (client_of (committee s'))).
Proof using Hspeed TSL.
  intros Hn Hs Hnew Hst. destruct (loop_left _ _ _ _ _ _ _ _ _ _ Hn Hs Hnew Hst) as (s1 & Hu & Hf & E).
  apply finish_ok in E as (conn' & Ec & Hstop). rewrite Ec, client_of_set. split_and!; [exact Hu| |eexists; exact Hstop].
  intros b Hb. destruct (committee s1) as [c|c|c|c]; cbn in Hb; try discriminate.
  injection Hb as <-. by apply (Hf c).
Qed.
End supervisor_facts.

(** ** A concrete experiment: one shard, three transactions, then five empty blocks *)

Module SupervisorDemo.
Export CommitteeDemo.
(** A measure that counts the messages. *)
#[export] Instance counting : Measure Z := {|
  UpdateMeasureRecord _ := st_modify (λ n, n + 1);
  OutputResultAndClose := st_ret tt;
|}.
Definition exp_cfg : SupervisorCfg := cfg StaticRelayConsensus 1.
Definition exp_topo : TopoGetter := SetTopoGetter [(0, [0; 1])] (NewTopoGetter ∅ ∅).
Definition built := NewSupervisor (MK := keys) exp_cfg (Ok 0) (Err "unused") (Ok src) (Err "unused") (Ok tt) (mkConn [] []) 0.
Definition sv0 : Supervisor (Src := CSVSource) (Ms := Z) := force (mkSupervisor (StaticRelay client0) 0) built.
Definition at_time (ms : list WrappedMsg) (t : Time) : Choices * list WrappedMsg * Time := (choices, ms, t).
Definition ticks := [at_time [empty_report] 1; at_time [] 2; at_time (replicate 4 empty_report) 3;
  at_time [empty_report] 4; at_time [] 5].
Definition ended := Start exp_topo exp_cfg ticks sv0.
End SupervisorDemo.

Module SupervisorWitness.
Import SupervisorDemo.

Lemma supervisor_stops_when_done_witness :
  measure ended.2 = 6 ∧ unsentTxNum (client_of (committee ended.2)) = 0 ∧
  ∃ conn', told_to_stop exp_topo exp_cfg conn' (cl_conn (client_of (committee ended.2))).
Proof.
  assert (ended.1 = Ok true) as H by (vm_compute; reflexivity).
  destruct (supervisor_stops_when_done exp_topo exp_cfg ltac:(vm_compute; discriminate) (Ok 0) (Err "unused") (Ok src)
    (Err "unused") (Ok tt) (mkConn [] []) 0 sv0 ticks ended.2) as (H1 & _ & H2).
  - split; vm_compute; discriminate.
  - split; [reflexivity | vm_compute; discriminate].
  - apply force_ok. vm_compute. reflexivity.
  - apply run_fst. exact H.
  - split; [vm_compute; reflexivity|]. split; [exact H1|exact H2].
Defined.
End SupervisorWitness.
