(* ===== verification/Programs.v ===== *)
(** * The programs

    Models cmd/consensusnode/main.go and cmd/supervisor/main.go: the steps from
    the flags and the configuration file to the loop of a node and of the
    supervisor, over Startup.v, Node.v and Supervisor.v.

    [log.Fatal] is the error of the program.  What the machine answers (the
    files, the logger, what opening the storages and output files gives) is an
    argument, and so is what arrives while the program waits and runs.  The
    profiler's server is left out.  The programs read the topology through the
    getter they got when they started: with the direct network it is constant,
    with libp2p it is its value then. *)

From S2P Require Import Prelude GoHash Account Bloom Block Utils CsvWrite Config PriorityQueue MsgPool ConsensusMeta.
From S2P Require Import StateDB TxExecute Storage Chain TxPool Float64 Partition TxSource Network Transport P2P Startup.
From S2P Require Import Migration TxBlockOp ShardOp Node Broker Committee Stats Supervisor.
From Stdlib Require Import Lia.

Local Open Scope Z_scope.

Definition supervisorWaitingTime : Z := 8 * second.
Definition nodeWaitingTime : Z := 5 * second.

(** What both programs start from: [flags] are the node, the shard and the
    account address given; [path] the configuration file. *)
Record Launch := mkLaunch {
  flags : Z * Z * string;
  path : string;
  logger : result unit;
  ipMap : result PeerMap;
  order : gmap NodeInfo string → list NodeInfo;
  arrived : list Arrival;
  seen : nat → nat;
}.

Section programs.
  Context {BL : BitSetLib} {RT : RlpTx} {RH : RlpHeader} {RP : RlpProposal} {GB : GobBlock}.
  Context {GU : GobU64} {GS : GobState} {MK : MapKeys} {RS : RangeShards} {GM : GobMsg}.
  Context {SL : StateDBLib} {EV : EVMLib} {BO : BoltLib} {TL : TrieLib}.
  Context {TF : TimeFormat} {CL : CsvLib}.
  Context {PL : P2PLib} {RO : RangeOrder} {RY : RetryLib} {Client : Type}.
  Context {Src : Type} {TS : TxSource Src} {Ms : Type} {ME : Measure Ms}.
  Context (os_ReadFile : string → result bytes) (json_Unmarshal yaml_Unmarshal : bytes → result NodeConfig).

(** What the two programs have in common, up to the network; [msg] is the
    message of a configuration that cannot be loaded. *)
Definition launch (msg : string) (l : Launch) : M (list StartStep) (LocalParams * NodeConfig * TopoGetter) :=
  let! lp := st_wrap "load local parameters failed"
    (st_lift (LoadLocalParams (flags l).1.1 (flags l).1.2 (flags l).2)) in
  let! cfg := st_wrap msg (st_lift (LoadConfig os_ReadFile json_Unmarshal yaml_Unmarshal (path l))) in
  st_wrap "init logger failed" (st_lift (logger l)) ;;!
  let! net := st_wrap "prepare network"
    (PrepareNetworkByCfg (Client := Client) cfg lp (ipMap l) (order l) (arrived l) (seen l)) in
  st_ret (lp, cfg, net.2).

(** cmd/consensusnode: [ticks] are the passes of the loop; the result is that of the loop. *)
Definition consensusnode_main (l : Launch) (bs : BoltStore) (ls : EthTrieDB) (ss : StateStore) (file : Csw) (now : Time)
    (ticks : list (list WrappedMsg * Time)) : M (list StartStep) (Node * (result unit * Node)) :=
  let! '(lp, cfg, nodeM) := launch "load config" l in
  let! consensusNode := st_wrap "failed to create a PBFT node"
    (st_lift (NewPBFTNode bs ls ss file (mkConn [] []) (cfg_ConsensusNode cfg) lp now)) in
  start_step (Sleep nodeWaitingTime) ;;!
  st_ret (consensusNode, Node.Start (cfg_ConsensusNode cfg) lp nodeM ticks consensusNode).

(** cmd/supervisor: the result is true when the experiment ended within [ticks]. *)
Definition supervisor_main (l : Launch) (relayStats brokerStats : result Ms) (src : result Src)
    (brokerFile : result (list string * option error)) (mkdir : result unit) (now : Time)
    (ticks : list (Choices * list WrappedMsg * Time)) : M (list StartStep) (result bool * Supervisor) :=
  let! '(lp, cfg, nodeM) := launch "load config failed" l in
  let! spv := st_wrap "new a supervisor failed"
    (st_lift (NewSupervisor (cfg_Supervisor cfg) relayStats brokerStats src brokerFile mkdir (mkConn [] []) now)) in
  start_step (Sleep supervisorWaitingTime) ;;!
  let r := Supervisor.Start nodeM (cfg_Supervisor cfg) ticks spv in
  st_ret (wrap_err "failed to start supervisor node" r.1, r.2).
End programs.

(** ** Facts *)

Section programs_facts.
  Context {BL : BitSetLib} {RT : RlpTx} {RH : RlpHeader} {RP : RlpProposal} {GB : GobBlock}.
  Context {GU : GobU64} {GS : GobState} {MK : MapKeys} {RS : RangeShards} {GM : GobMsg}.
  Context {SL : StateDBLib} {EV : EVMLib} {BO : BoltLib} {TL : TrieLib}.
  Context {TF : TimeFormat} {CL : CsvLib}.
  Context {PL : P2PLib} {RO : RangeOrder} {RY : RetryLib} {Client : Type}.
  Context {Src : Type} {TS : TxSource Src} {TSL : TxSourceLaws Src} {Ms : Type} {ME : Measure Ms}.
  Context (os_ReadFile : string → result bytes) (json_Unmarshal yaml_Unmarshal : bytes → result NodeConfig).
  Abbreviation load l := (LoadConfig os_ReadFile json_Unmarshal yaml_Unmarshal (path l)).
  Abbreviation params l := (LoadLocalParams (flags l).1.1 (flags l).1.2 (flags l).2).

Lemma launch_ok msg l steps lp cfg t steps' :
  launch (Client := Client) os_ReadFile json_Unmarshal yaml_Unmarshal msg l steps = (Ok (lp, cfg, t), steps') →
  params l = Ok lp ∧ load l = Ok cfg ∧ logger l = Ok tt ∧
  ∃ p : P2PConn (Client := Client),
    PrepareNetworkByCfg cfg lp (ipMap l) (order l) (arrived l) (seen l) steps = (Ok (p, t), steps').
Proof.
  unfold launch. intros (lp' & s1 & [Hlp ->]%st_wrap_ok%st_lift_ok & H)%st_bind_ok.
  apply st_bind_ok in H as (cfg' & s2 & [Hcfg ->]%st_wrap_ok%st_lift_ok & H).
  apply st_bind_ok in H as ([] & s3 & [Hlog ->]%st_wrap_ok%st_lift_ok & H).
  apply st_bind_ok in H as ([p t'] & s4 & Hnet%st_wrap_ok & H). cbn in H. injection H as <- <- <- <-.
  split_and!; [done..|]. by exists p.
Qed.

(** A node's program gets to its loop only in a position of the configuration,
    and the whole node was built with the configuration's one system part. *)
Theorem node_program_position l bs ls ss file now ticks steps n0 r steps' :
  consensusnode_main (Client := Client) os_ReadFile json_Unmarshal yaml_Unmarshal l bs ls ss file now ticks steps
    = (Ok (n0, r), steps') →
  ∃ lp cfg, params l = Ok lp ∧ load l = Ok cfg ∧
    0 ≤ ShardID lp < ShardNum (GlobalSys cfg) ∧ 0 ≤ NodeID lp < NodeNum (GlobalSys cfg) ∧
    cm_lp (pbftMeta n0) = lp.
Proof.
  unfold consensusnode_main. intros ([[lp cfg] t] & s1 & (Hlp & Hcfg & _ & _)%launch_ok & H)%st_bind_ok.
  apply st_bind_ok in H as (n & s2 & [Hn ->]%st_wrap_ok%st_lift_ok & H).
  apply st_bind_ok in H as ([] & s3 & _ & [= <- _ _]). exists lp, cfg. split; [done|]. split; [done|].
  destruct (LoadConfig_system _ _ _ _ _ Hcfg) as [_ Hsys]. unfold NewPBFTNode in Hn. rewrite Hsys in Hn.
  case_decide as H1; [done|]. case_decide as H2; [done|].
  do 4 apply rbind_ok in Hn as (? & _ & Hn). injection Hn as <-.
  unfold LoadLocalParams in Hlp. apply rbind_ok in Hlp as (w & _ & Hlp). case_decide as H3; [done|].
  injection Hlp as <-. cbn [ShardID NodeID] in *. split_and!; [lia..|done].
Qed.

(** C23: the supervisor's program ends the experiment for the hosts it runs with.
    When the program, started with its flags and configuration in direct mode,
    leaves its loop, it began listening before it waited for the nodes, no
    transaction is left to inject, and the last thing it sent is the stop
    message, to exactly the nodes that have a host in the table, a shard below
    the configured number of shards and a number below the configured number of
    nodes, in whatever order the table was ranged over.  A host of the table
    outside these bounds is not told: the table is read without it. *)
Theorem supervisor_program_stops l hosts cfg relayStats brokerStats src file mkdir now ticks steps s' steps' :
  (∀ m, order l m ≡ₚ (map_to_list m).*1) → ipMap l = Ok hosts →
  load l = Ok cfg → CommunicationMode (cfg_Network cfg) = DirectConnMode →
  0 ≤ sv_TxInjectionSpeed (cfg_Supervisor cfg) → 0 ≤ sv_TxNumber (cfg_Supervisor cfg) ≤ int64_max →
  0 < ShardNum (GlobalSys cfg) ≤ 2 ^ 32 →
  supervisor_main (Client := Client) os_ReadFile json_Unmarshal yaml_Unmarshal l relayStats brokerStats src file mkdir now ticks steps
    = (Ok (Ok true, s'), steps') →
  steps' = steps ++ [GoListenStart; Sleep supervisorWaitingTime] ∧
  unsentTxNum (client_of (committee s')) = 0 ∧
  ∃ w before nodes, WrapMsg KStopConsensus mkStopConsensusMsg = Ok w ∧
    outbox (cl_conn (client_of (committee s'))) = before ++ map (λ v, (v, w)) nodes ∧
    ∀ v, v ∈ nodes ↔ 0 ≤ ni_ShardID v < ShardNum (GlobalSys cfg) ∧ 0 ≤ ni_NodeID v < NodeNum (GlobalSys cfg) ∧
      is_Some (peers_of hosts (ni_ShardID v) !! ni_NodeID v).
Proof using TSL.
  intros Ho Hip Hcfg Hmode Hspeed Hnum Hshards. unfold supervisor_main.
  intros ([[lp cfg'] t] & s1 & (_ & Hcfg' & _ & p & Hnet)%launch_ok & H)%st_bind_ok.
  rewrite Hcfg in Hcfg'. injection Hcfg' as <-.
  apply PrepareNetwork_direct in Hnet as (conn & _ & Hnet & ->); [|done]. rewrite Hip in Hnet.
  apply st_bind_ok in H as (spv & s2 & [Hnew ->]%st_wrap_ok%st_lift_ok & H).
  apply st_bind_ok in H as ([] & s3 & [= <-] & H). cbn zeta in H. injection H as Hrun <- <-.
  split; [by rewrite <- app_assoc|].
  apply wrap_err_ok in Hrun. apply run_fst in Hrun.
  destruct (LoadConfig_system _ _ _ _ _ Hcfg) as [Hsys _]. rewrite <- Hsys in Hshards.
  destruct (loop_left t (cfg_Supervisor cfg) Hspeed _ _ _ _ _ _ _ _ _ _ Hnum Hshards Hnew Hrun) as (s1 & Hu & _ & E).
  apply finish_ok in E as (conn' & Ec & w & nodes & Hw & -> & Hall & Hback). rewrite Ec, client_of_set.
  split; [exact Hu|]. exists w. eexists. exists nodes. split; [done|]. split; [reflexivity|].
  rewrite Hsys in *. intros [n s]. cbn [ni_ShardID ni_NodeID]. split.
  - intros (i & ns & Hi & Hl & Hin)%Hback.
    apply (direct_nodes _ _ _ _ _ _ _ _ Ho Hnet Hl) in Hin as (<- & [_ Hr]%in_range_spec & Hh). auto.
  - intros (Hs & Hn & Hh). destruct (Hall s Hs) as (ns & Hns & Hin). apply Hin.
    apply (direct_nodes _ _ _ _ _ _ _ _ Ho Hnet Hns). split; [done|]. split; [|done]. apply in_range_spec. auto.
Qed.
End programs_facts.

(** ** The program of a supervisor with one shard of two nodes *)

Module ProgramsDemo.
Import P2PDemo RetryDemo.
Import SupervisorDemo.

Definition net_cfg : NetworkCfg := mkNetworkCfg DirectConnMode P2PDemo.cfg.
Definition node_cfg : NodeConfig :=
  mkNodeConfig (sv_Sys exp_cfg) (NodeDemo.cfg <| cn_Sys := sv_Sys exp_cfg |>) exp_cfg net_cfg.
Definition host_table : PeerMap :=
  {[0 := {[0 := "a"; 1 := "b"; 5 := "x"]}; 7 := {[0 := "y"]}; SupervisorShardID := {[0 := "s"]}]}.
Definition start : Launch :=
  mkLaunch (0, SupervisorShardID, "0x00") "config.yaml" (Ok tt) (Ok host_table) (λ m, (map_to_list m).*1) [] id.
Definition main := supervisor_main (RO := fwd) (MK := keys) (Client := string) (Ms := Z) (λ _, Ok []) (λ _, Err "not json") (λ _, Ok node_cfg)
  start (Ok 0) (Err "unused") (Ok src) (Err "unused") (Ok tt) 0 ticks [].
Definition final : Supervisor (Src := CSVSource) (Ms := Z) := (force (Ok false, sv0) main.1).2.
End ProgramsDemo.

Module ProgramsWitness.
Import P2PDemo RetryDemo.
Import ProgramsDemo SupervisorDemo.

Lemma supervisor_program_stops_witness :
  length (outbox (cl_conn (client_of (committee final)))) = 4%nat ∧
  main.2 = [GoListenStart; Sleep supervisorWaitingTime] ∧
  ∃ w before nodes, outbox (cl_conn (client_of (committee final))) = before ++ map (λ v, (v, w)) nodes ∧
    mkNodeInfo 1 0 ∈ nodes ∧ (mkNodeInfo 5 0 ∉ nodes).
Proof.
  split; [vm_compute; reflexivity|].
  assert (main = (Ok (Ok true, final), main.2)) as Hm.
  { apply run_fst. vm_compute. reflexivity. }
  destruct (supervisor_program_stops (RO := fwd) (MK := keys) (Client := string) (Ms := Z)
    (λ _, Ok []) (λ _, Err "not json") (λ _, Ok node_cfg) start host_table node_cfg
    (Ok 0) (Err "unused") (Ok src) (Err "unused") (Ok tt) 0 ticks [] final main.2)
    as (H1 & _ & w & before & nodes & _ & Hout & Hnodes).
  - intros m. reflexivity.
  - reflexivity.
  - vm_compute. reflexivity.
  - reflexivity.
  - vm_compute. discriminate.
  - split; vm_compute; discriminate.
  - split; [reflexivity | vm_compute; discriminate].
  - exact Hm.
  - split; [exact H1|]. exists w, before, nodes. split; [exact Hout|]. split.
    + apply Hnodes. apply (bool_decide_unpack _). vm_compute. exact I.
    + intros (_ & [_ H] & _)%Hnodes. vm_compute in H. discriminate H.
Defined.
End ProgramsWitness.
